(** * clustering_prot: cluster detection and contact aggregation

    A shallow embedding of the core of [clustering_prot.py]: the loading of
    the two configuration tables (per-species cutoffs, size groups), the
    cluster detectors, the per-frame cluster processing with its
    accumulators, and the statistics finalizer.

    Conventions of the embedding:
    - Python integers are [Z] (sizes, sentinels) or [nat] (indices, counts);
    - real-valued quantities (distances, percentages) are exact rationals [Q];
    - a Python [dict] is a [gmap]; a missing key is a [KeyError];
    - [sys.exit(1)] and uncaught exceptions are the two failures of the
      [result] monad; both end the run. *)

From Stdlib Require Import ZArith QArith Qminmax Qfield String Ascii Lia.
From stdpp Require Import base option list list_numbers gmap gmultiset strings sorting relations.

Local Open Scope Z_scope.

(** ** Outcomes of Python code *)

Inductive result (A : Type) : Type :=
| Ok (a : A)
| Exit (msg : string)        (* an error message is printed, then sys.exit(1) *)
| Raise (exc : string).      (* an exception nobody catches *)
Arguments Ok {A} a.
Arguments Exit {A} msg.
Arguments Raise {A} exc.

Definition bind {A B} (r : result A) (k : A → result B) : result B :=
  match r with
  | Ok a => k a
  | Exit m => Exit m
  | Raise e => Raise e
  end.

Global Instance result_bind : MBind result := λ A B k r, bind r k.
Global Instance result_ret : MRet result := λ A a, Ok a.

Definition is_Ok {A} (r : result A) : Prop := ∃ a, r = Ok a.

(** [d[k]] on a dictionary *)
Definition getitem `{Countable K} {V} (d : gmap K V) (k : K) : result V :=
  match d !! k with
  | Some v => Ok v
  | None => Raise "KeyError"
  end.

(** a loop whose body may fail: the first failure ends it *)
Fixpoint for_each {A S} (body : S → A → result S) (xs : list A) (s : S) : result S :=
  match xs with
  | [] => Ok s
  | x :: xs' => s' ← body s x; for_each body xs' s'
  end.

Fixpoint map_each {A B} (f : A → result B) (xs : list A) : result (list B) :=
  match xs with
  | [] => Ok []
  | x :: xs' => y ← f x; ys ← map_each f xs'; Ok (y :: ys)
  end.

(** ** Lines of a configuration file *)

(** [line.split(',')] *)
Fixpoint split_comma (s : string) : list string :=
  match s with
  | EmptyString => [EmptyString]
  | String c s' =>
      if Ascii.eqb c "," then EmptyString :: split_comma s'
      else match split_comma s' with
           | f :: fs => String c f :: fs
           | [] => [String c EmptyString]
           end
  end.

Definition newline : ascii := ascii_of_nat 10.

(** [line[:-1]] when the last character is a line feed *)
Fixpoint drop_last_newline (s : string) : string :=
  match s with
  | EmptyString => EmptyString
  | String c EmptyString => if Ascii.eqb c newline then EmptyString else s
  | String c s' => String c (drop_last_newline s')
  end.

(** [if line[-1] == "\n": line = line[:-1]]; [line[-1]] of an empty string
    is an IndexError *)
Definition strip_line (line : string) : result string :=
  match line with
  | EmptyString => Raise "IndexError"
  | _ => Ok (drop_last_newline line)
  end.

(** A decimal reader for signed integer literals, used where a concrete
    [int] is needed. *)
Definition digit_of (c : ascii) : option Z :=
  let n := nat_of_ascii c in
  if ((48 <=? n)%nat && (n <=? 57)%nat)%bool then Some (Z.of_nat n - 48) else None.

Fixpoint digits_value (acc : Z) (s : string) : option Z :=
  match s with
  | EmptyString => Some acc
  | String c s' =>
      match digit_of c with
      | Some d => digits_value (10 * acc + d) s'
      | None => None
      end
  end.

Definition dec_int (s : string) : option Z :=
  match s with
  | EmptyString => None
  | String c s' =>
      if Ascii.eqb c "-" then
        match s' with
        | EmptyString => None
        | _ => Z.opp <$> digits_value 0 s'
        end
      else digits_value 0 s
  end.

(** ** Size groups: [initialise_groups] *)

Module Groups.

Record t := {
  groups_number : nat;
  groups_boundaries : list (Z * Z);
  groups_sizes_dict : gmap Z nat;
}.

(** the cap put on an open-ended group *)
Definition cap : Z := 100000.

Section Read.
(** [int(...)] on a field of the file; [None] is a ValueError *)
Variable py_int : string → option Z.

Definition to_int (s : string) : result Z :=
  match py_int s with
  | Some z => Ok z
  | None => Raise "ValueError"
  end.

Definition read_group_line (line : string) : result (Z * Z) :=
  line ← strip_line line;
  let l_content := split_comma line in
  if negb (length l_content =? 3)%nat then
    Exit "Error: the format of the line should be 'min,max,colour'."
  else
    tmp_beg ← to_int (nth 0 l_content EmptyString);
    let tmp_end := nth 1 l_content EmptyString in
    tmp_end ← (if String.eqb tmp_end "max" then Ok cap else to_int tmp_end);
    Ok (tmp_beg, tmp_end).

Definition read_groups (lines : list string) : result (list (Z * Z)) :=
  map_each read_group_line lines.
End Read.

(** the loop over groups 1.. of the overlap check *)
Fixpoint check_following (prev_end : Z) (bs : list (Z * Z)) : result unit :=
  match bs with
  | [] => Ok tt
  | (b, e) :: bs' =>
      if e <? b then Exit "Error: the max size is smaller than the min size for group."
      else if b <=? prev_end then
        Exit "Error: specified cluster groups overlap or are not in increasing order."
      else check_following e bs'
  end.

Definition check_boundaries (bs : list (Z * Z)) : result unit :=
  match bs with
  | [] => Raise "KeyError"          (* groups_boundaries[0] of an empty file *)
  | (prev_beg, prev_end) :: bs' =>
      if prev_end <? prev_beg then
        Exit "Error: the max size is smaller than the min size for specified cluster groups."
      else check_following prev_end bs'
  end.

(** [for tmp_size in sizes: groups_sizes_dict[tmp_size] = g] *)
Definition assign (g : nat) (sizes : list Z) (d : gmap Z nat) : gmap Z nat :=
  foldl (λ d tmp_size, <[tmp_size := g]> d) d sizes.

(** [range(a, b)] *)
Definition range (a b : Z) : list Z := seqZ a (b - a).

(** the equivalency table of the declared groups *)
Fixpoint declared (g_index : nat) (bs : list (Z * Z)) (d : gmap Z nat) : gmap Z nat :=
  match bs with
  | [] => d
  | (tmp_beg, tmp_end) :: bs' =>
      declared (S g_index) bs' (assign g_index (range tmp_beg (tmp_end + 1)) d)
  end.

(** [max(groups_sizes_dict.keys())]; of an empty dictionary a ValueError *)
Definition max_key (d : gmap Z nat) : result Z :=
  match (map_to_list d).*1 with
  | [] => Raise "ValueError"
  | k :: ks => Ok (foldr Z.max k ks)
  end.

Definition sizes_dict (groups_number : nat) (bs : list (Z * Z)) : result (gmap Z nat) :=
  let d := declared 0 bs ∅ in
  m ← max_key d;
  let d := assign groups_number
             (filter (λ tmp_size, d !! tmp_size = None) (range 1 m)) d in
  m ← max_key d;
  if negb (m =? cap) then
    m ← max_key d;
    Ok (assign groups_number (range (m + 1) (cap + 1)) d)
  else Ok d.

Definition initialise_groups (py_int : string → option Z) (lines : list string)
  : result t :=
  let groups_number := length lines in
  bs ← read_groups py_int lines;
  _ ← check_boundaries bs;
  d ← sizes_dict groups_number bs;
  Ok {| groups_number := groups_number;
        groups_boundaries := bs;
        groups_sizes_dict := d |}.

End Groups.

(** ** Dense arrays

    A numpy array is its extent and its content.  Reading or writing
    outside the extent is an IndexError. *)

Module Nd.

Record t (A : Type) := mk { shape : list nat; item : list nat → A }.
Arguments mk {A} shape item.
Arguments shape {A} _.
Arguments item {A} _ _.

(** [np.zeros(shape)] and friends *)
Definition full {A} (sh : list nat) (v : A) : t A := mk sh (λ _, v).

Fixpoint inb (idx sh : list nat) : bool :=
  match idx, sh with
  | [], [] => true
  | i :: idx', n :: sh' => (i <? n)%nat && inb idx' sh'
  | _, _ => false
  end.

Definition get {A} (a : t A) (idx : list nat) : result A :=
  if inb idx (shape a) then Ok (item a idx) else Raise "IndexError".

Definition set {A} (a : t A) (idx : list nat) (v : A) : result (t A) :=
  if inb idx (shape a)
  then Ok (mk (shape a) (λ j, if decide (j = idx) then v else item a j))
  else Raise "IndexError".

(** [a[idx] += n] *)
Definition add_at (a : t nat) (idx : list nat) (n : nat) : result (t nat) :=
  v ← get a idx; set a idx (v + n)%nat.

(** every index of an extent, in row-major order *)
Fixpoint indices (sh : list nat) : list (list nat) :=
  match sh with
  | [] => [[]]
  | n :: sh' => i ← seq 0 n; cons i <$> indices sh'
  end.

(** [np.sum(a)] of an array of counts, and of a boolean mask *)
Definition sum (a : t nat) : nat := sum_list (item a <$> indices (shape a)).
Definition count (m : t bool) : nat :=
  sum_list ((λ j, if item m j then 1%nat else 0%nat) <$> indices (shape m)).

(** [a[m] += 1] for a boolean mask [m] of the extent of [a] *)
Definition add_mask (a : t nat) (m : t bool) : result (t nat) :=
  if decide (shape a = shape m)
  then Ok (mk (shape a) (λ j, (item a j + if item m j then 1 else 0)%nat))
  else Raise "IndexError".

(** [a += b] for arrays of the same extent *)
Definition add (a b : t nat) : result (t nat) :=
  if decide (shape a = shape b)
  then Ok (mk (shape a) (λ j, (item a j + item b j)%nat))
  else Raise "ValueError".

(** [m.T] *)
Definition transpose {A} (m : t A) : t A :=
  mk (rev (shape m)) (λ j, item m (rev j)).

(** [np.sum(a, axis = 1)] of a two-dimensional array *)
Definition sum_axis1 (a : t nat) : t nat :=
  match shape a with
  | [r; c] => mk [r] (λ j, match j with
                           | [i] => sum_list ((λ k, item a [i; k]) <$> seq 0 c)
                           | _ => 0%nat
                           end)
  | _ => mk [] (λ _, 0%nat)
  end.

(** the mask of the entries set in a fresh [np.zeros] array by [pop[m] += 1] *)
Definition of_mask (m : t bool) : t nat :=
  mk (shape m) (λ j, if item m j then 1%nat else 0%nat).

End Nd.

(** ** Builtins on lists of integers *)

(** [np.unique]: the distinct values, ascending *)
Definition np_unique (l : list Z) : list Z := merge_sort Z.le (remove_dups l).

(** [min(l)] and [max(l)]; of an empty list a ValueError *)
Definition py_min (l : list Z) : result Z :=
  match l with
  | [] => Raise "ValueError"
  | x :: xs => Ok (foldr Z.min x xs)
  end.

Definition py_max (l : list Z) : result Z :=
  match l with
  | [] => Raise "ValueError"
  | x :: xs => Ok (foldr Z.max x xs)
  end.

(** ** Contact cutoffs: the [--nx_cutoff] option *)

Module Cutoffs.

(** what [args.nx_cutoff] holds on the command line *)
Inductive arg :=
| Number (c : Q)                 (* [float(args.nx_cutoff)] succeeds *)
| File (lines : list string)     (* the name of a readable file *)
| NoSuchFile.

(** the three globals the option ends up in; [nx_cutoff = None] stands for
    [args.nx_cutoff] still holding the name of the file *)
Record t := {
  nx_cutoff_file : bool;
  nx_cutoff : option Q;
  cog_cutoff_values : gmap (Z * Z) Q;
}.

Section Read.
Variable py_int : string → option Z.
Variable py_float : string → option Q.

Definition to_float (s : string) : result Q :=
  match py_float s with
  | Some q => Ok q
  | None => Raise "ValueError"
  end.

(** one line of the file: the state is the table and [s_indices] *)
Definition read_cutoff_line (st : gmap (Z * Z) Q * list Z) (line : string)
  : result (gmap (Z * Z) Q * list Z) :=
  line ← strip_line line;
  let l_content := split_comma line in
  if negb (length l_content =? 3)%nat then
    Exit "Error: the format of the line is incorrect, see note 7."
  else
    s1_index ← Groups.to_int py_int (nth 0 l_content EmptyString);
    s2_index ← Groups.to_int py_int (nth 1 l_content EmptyString);
    s1s2_cutoff ← to_float (nth 2 l_content EmptyString);
    Ok (<[(s2_index, s1_index) := s1s2_cutoff]>
          (<[(s1_index, s2_index) := s1s2_cutoff]> st.1),
        st.2 ++ [s1_index; s2_index]).

(** the check that there is no gap *)
Definition check_no_gap (values : gmap (Z * Z) Q) (s_indices : list Z) : result unit :=
  let s_indices_unique := np_unique s_indices in
  lo ← py_min s_indices_unique;
  if negb (lo =? 0) then Exit "Error: species indexing should start at 0."
  else
    hi ← py_max s_indices_unique;
    let n := Z.of_nat (length s_indices_unique) in
    if n <=? hi then Exit "Error: cutoff not specified for all species."
    else
      for_each (λ _ key,
                  match values !! key with
                  | None => Exit "Error: cutoff not specified for all species."
                  | Some _ => Ok tt
                  end)
               (s_index ← Groups.range 0 n; ss_index ← Groups.range 0 n;
                [(s_index, ss_index)])
               tt.

Definition read (a : arg) : result t :=
  match a with
  | Number c =>
      Ok {| nx_cutoff_file := false; nx_cutoff := Some c; cog_cutoff_values := ∅ |}
  | NoSuchFile =>
      Exit "Error: the --nx_cutoff should either be a float or a text file, see note 7."
  | File lines =>
      st ← for_each read_cutoff_line lines (∅, []);
      _ ← check_no_gap st.1 st.2;
      Ok {| nx_cutoff_file := true; nx_cutoff := None; cog_cutoff_values := st.1 |}
  end.
End Read.

(** the check of [identify_proteins], once the number of species is known;
    [nb_species > sqrt(len(keys))] is compared on the squares *)
Definition check_species (nb_species : nat) (c : t) : result t :=
  if nx_cutoff_file c then
    if (size (cog_cutoff_values c) <? nb_species * nb_species)%nat then
      Exit "Error: cutoff values not specified for some possible pair of species."
    else if (nb_species =? 1)%nat then
      c00 ← getitem (cog_cutoff_values c) (0, 0);
      Ok {| nx_cutoff_file := true; nx_cutoff := Some c00;
            cog_cutoff_values := cog_cutoff_values c |}
    else Ok c
  else Ok c.

End Cutoffs.

(** ** The dictionaries of [identify_proteins]

    The proteins are numbered species after species; [proteins_nb] holds
    the number of proteins of each species. *)

Module Topology.

(** [p_start]: the proteins of the species before [s_index] *)
Definition p_start (proteins_nb : list nat) (s_index : nat) : nat :=
  sum_list (take s_index proteins_nb).

(** [proteins_boundaries[proteins_species[s_index]] = [p_start, p_end]] *)
Definition proteins_boundaries (proteins_nb : list nat) : list (nat * nat) :=
  (λ s_index, (p_start proteins_nb s_index,
               p_start proteins_nb s_index + default 0 (proteins_nb !! s_index))%nat)
    <$> seq 0 (length proteins_nb).

(** [prot_index2sindex[p_start:p_end] = s_index] *)
Definition prot_index2sindex (proteins_nb : list nat) : list nat :=
  mjoin (imap (λ s_index nb, replicate nb s_index) proteins_nb).

End Topology.

(** ** Cluster detection *)

Module Detect.

(** *** Array operations of the connectivity detector *)

(** [a[r0:r1, c0:c1]]; the bounds are clipped to the extent *)
Definition slice2 {A} (a : Nd.t A) (r0 r1 c0 c1 : nat) : result (Nd.t A) :=
  match Nd.shape a with
  | [r; c] =>
      Ok (Nd.mk [(r1 `min` r) - (r0 `min` r); (c1 `min` c) - (c0 `min` c)]%nat
                (λ j, match j with
                      | [i; k] => Nd.item a [r0 + i; c0 + k]%nat
                      | _ => Nd.item a j
                      end))
  | _ => Raise "IndexError"
  end.

(** [a < c], entry by entry *)
Definition less_than (a : Nd.t Q) (c : Q) : Nd.t bool :=
  Nd.mk (Nd.shape a) (λ j, negb (Qle_bool c (Nd.item a j))).

(** [np.concatenate((a, b), axis = 1)] *)
Definition concatenate1 {A} (a b : Nd.t A) : result (Nd.t A) :=
  match Nd.shape a, Nd.shape b with
  | [r; c], [r'; c'] =>
      if (r =? r')%nat then
        Ok (Nd.mk [r; c + c']%nat
                  (λ j, match j with
                        | [i; k] => if (k <? c)%nat then Nd.item a [i; k]
                                    else Nd.item b [i; k - c]%nat
                        | _ => Nd.item a j
                        end))
      else Raise "ValueError"
  | _, _ => Raise "ValueError"
  end.

(** [np.concatenate((a, b), axis = 0)] *)
Definition concatenate0 {A} (a b : Nd.t A) : result (Nd.t A) :=
  match Nd.shape a, Nd.shape b with
  | [r; c], [r'; c'] =>
      if (c =? c')%nat then
        Ok (Nd.mk [r + r'; c]%nat
                  (λ j, match j with
                        | [i; k] => if (i <? r)%nat then Nd.item a [i; k]
                                    else Nd.item b [i - r; k]%nat
                        | _ => Nd.item a j
                        end))
      else Raise "ValueError"
  | _, _ => Raise "ValueError"
  end.

(** *** Graphs (networkx)

    An undirected graph on the nodes [0 .. order-1].  [nx.Graph(m)] of a
    square matrix joins [i] and [j] when [m[i][j]] or [m[j][i]] is set. *)

Record graph := { order : nat; edge : nat → nat → bool }.

Definition nx_Graph (connected : Nd.t bool) : result graph :=
  match Nd.shape connected with
  | [n; m] =>
      if (n =? m)%nat then
        Ok {| order := n;
              edge := λ i j, Nd.item connected [i; j] || Nd.item connected [j; i] |}
      else Raise "NetworkXError"
  | _ => Raise "NetworkXError"
  end.

(** [network.neighbors(p)] *)
Definition neighbors (G : graph) (p : nat) : list nat :=
  filter (λ q, edge G p q = true) (seq 0 (order G)).

(** the breadth-first search behind [nx.connected_components]: level by
    level, every node not seen yet is recorded and its neighbours form the
    next level; the loop ends with an empty level *)
Fixpoint bfs (G : graph) (fuel : nat) (seen nextlevel : list nat) : list nat :=
  match fuel with
  | O => seen
  | S fuel' =>
      match nextlevel with
      | [] => seen
      | _ =>
          let fresh := remove_dups (filter (λ v, v ∉ seen) nextlevel) in
          bfs G fuel' (seen ++ fresh) (fresh ≫= neighbors G)
      end
  end.

Definition component (G : graph) (v : nat) : list nat :=
  bfs G (S (S (order G))) [] [v].

(** [for v in G: if v not in seen: c = bfs(v); yield c; seen.update(c)] *)
Fixpoint components_from (G : graph) (vs seen : list nat) : list (list nat) :=
  match vs with
  | [] => []
  | v :: vs' =>
      if decide (v ∈ seen) then components_from G vs' seen
      else let c := component G v in c :: components_from G vs' (seen ++ c)
  end.

Definition connected_components (G : graph) : list (list nat) :=
  components_from G (seq 0 (order G)) [].

(** the order of Python on lists of integers, and [sorted] with it *)
Fixpoint list_leb (a b : list nat) : bool :=
  match a, b with
  | [], _ => true
  | _ :: _, [] => false
  | x :: a', y :: b' => (x <? y)%nat || ((x =? y)%nat && list_leb a' b')
  end.

Definition list_le (a b : list nat) : Prop := list_leb a b = true.
Global Instance list_le_dec a b : Decision (list_le a b) :=
  decide (list_leb a b = true).

Definition sorted (cs : list (list nat)) : list (list nat) :=
  merge_sort list_le cs.

(** *** [detect_clusters_connectivity] *)

Section Connectivity.
Variable nb_species : nat.
(** [proteins_boundaries[proteins_species[s]]], by species index *)
Variable proteins_boundaries : list (nat * nat).
Variable cut : Cutoffs.t.

Definition boundaries (s_index : nat) : result (nat * nat) :=
  match proteins_boundaries !! s_index with
  | Some b => Ok b
  | None => Raise "KeyError"
  end.

(** [d[s_index, ss_index]] *)
Definition block (dist : Nd.t Q) (s_index ss_index : nat) : result (Nd.t bool) :=
  b ← boundaries s_index;
  bb ← boundaries ss_index;
  d ← slice2 dist b.1 b.2 bb.1 bb.2;
  c ← getitem (Cutoffs.cog_cutoff_values cut) (Z.of_nat s_index, Z.of_nat ss_index);
  Ok (less_than d c).

(** [tmp_connected[s_index]]: the blocks of a species side by side *)
Definition block_row (dist : Nd.t Q) (s_index : nat) : result (Nd.t bool) :=
  first ← block dist s_index 0;
  for_each (λ acc ss_index, d ← block dist s_index ss_index; concatenate1 acc d)
           (seq 1 (nb_species - 1)) first.

Definition connected_matrix (dist : Nd.t Q) : result (Nd.t bool) :=
  if Cutoffs.nx_cutoff_file cut && (1 <? nb_species)%nat then
    first ← block_row dist 0;
    for_each (λ acc s_index, r ← block_row dist s_index; concatenate0 acc r)
             (seq 1 (nb_species - 1)) first
  else
    match Cutoffs.nx_cutoff cut with
    | Some c => Ok (less_than dist c)
    | None => Raise "ValueError"      (* float() of a file name *)
    end.

Definition detect_clusters_connectivity (dist : Nd.t Q) : result graph :=
  connected ← connected_matrix dist;
  nx_Graph connected.
End Connectivity.

(** *** [detect_clusters_density] *)

(** an element of [groups]: the index of a noise point, added on its own,
    or the list of the points of a label *)
Inductive group :=
| Single (p : nat)
| Several (ps : list nat).

(** [np.size] of an element, and the points it holds *)
Definition group_size (g : group) : nat :=
  match g with
  | Single _ => 1
  | Several ps => length ps
  end.

Definition members (g : group) : list nat :=
  match g with
  | Single p => [p]
  | Several ps => ps
  end.

(** [map(lambda p: p[0], np.argwhere(labels == c_lab))] *)
Definition argwhere (labels : list Z) (c_lab : Z) : list nat :=
  filter (λ i, labels !! i = Some c_lab) (seq 0 (length labels)).

Definition groups_of_labels (labels : list Z) : list group :=
  c_lab ← np_unique labels;
  let tmp_pos := argwhere labels c_lab in
  if c_lab =? -1 then Single <$> tmp_pos else [Several tmp_pos].

(** [DBSCAN(...).fit(dist).labels_] is the library's; the detector is
    given it as [dbscan] *)
Definition detect_clusters_density (dbscan : Nd.t Q → list Z) (dist : Nd.t Q)
  : list group :=
  groups_of_labels (dbscan dist).

(** what the main loop holds in [clusters] *)
Inductive detected :=
| Network (G : graph)
| GroupList (gs : list group).

End Detect.

(** ** Per-frame processing of the clusters *)

Module Process.

(** what the run knows before the first frame *)
Record env := {
  nb_species : nat;
  nb_proteins : nat;
  nb_frames_to_process : nat;
  prot_index2sindex : list nat;
  (** [proteins_length[proteins_species[s]]], by species index *)
  proteins_length : list nat;
  (** [None] when [args.cluster_groups_file == "no"] *)
  groups : option Groups.t;
}.

(** what the trajectory reader and the distance routines give for a frame *)
Record frame := {
  (** [distance_array(res_cog(a), res_cog(b)) < args.res_contact] *)
  res_mask : nat → nat → Nd.t bool;
  (** for each atom of a protein, its distances to the lower-leaflet and to
      the upper-leaflet headgroups *)
  headgroup_dists : nat → list (list Q * list Q);
  (** [distance_array(res_cog(p), leaflet) < args.res_contact] *)
  lip_mask_upper : nat → Nd.t bool;
  lip_mask_lower : nat → Nd.t bool;
  nb_lip_upper : nat;
  nb_lip_lower : nat;
}.

(** the accumulators of [struct_clusters] and [struct_proteins]; the four
    [lip_] tables are [proteins_ctcts_res_lip_size] and
    [proteins_ctcts_res_lip_group] at ["upper"] and ["lower"] *)
Record acc := {
  proteins_size : Nd.t Z;
  proteins_group : Nd.t Z;
  proteins_nb_neighbours : Nd.t nat;
  proteins_ctcts_prot : Nd.t nat;
  proteins_ctcts_res : gmap (nat * nat) (Nd.t nat);
  proteins_ctcts_res_size : gmap (nat * nat) (gmap Z (Nd.t nat));
  proteins_ctcts_res_group : gmap (nat * nat) (gmap nat (Nd.t nat));
  lip_size_upper : gmap nat (gmap Z (Nd.t nat));
  lip_size_lower : gmap nat (gmap Z (Nd.t nat));
  lip_group_upper : gmap nat (gmap nat (Nd.t nat));
  lip_group_lower : gmap nat (gmap nat (Nd.t nat));
  clusters_comp : gmap Z (gmap (list nat) nat);
}.

Definition set_proteins_size (v : Nd.t Z) (a : acc) : acc :=
  {| proteins_size := v; proteins_group := proteins_group a;
     proteins_nb_neighbours := proteins_nb_neighbours a;
     proteins_ctcts_prot := proteins_ctcts_prot a;
     proteins_ctcts_res := proteins_ctcts_res a;
     proteins_ctcts_res_size := proteins_ctcts_res_size a;
     proteins_ctcts_res_group := proteins_ctcts_res_group a;
     lip_size_upper := lip_size_upper a; lip_size_lower := lip_size_lower a;
     lip_group_upper := lip_group_upper a; lip_group_lower := lip_group_lower a;
     clusters_comp := clusters_comp a |}.
Definition set_proteins_group (v : Nd.t Z) (a : acc) : acc :=
  {| proteins_size := proteins_size a; proteins_group := v;
     proteins_nb_neighbours := proteins_nb_neighbours a;
     proteins_ctcts_prot := proteins_ctcts_prot a;
     proteins_ctcts_res := proteins_ctcts_res a;
     proteins_ctcts_res_size := proteins_ctcts_res_size a;
     proteins_ctcts_res_group := proteins_ctcts_res_group a;
     lip_size_upper := lip_size_upper a; lip_size_lower := lip_size_lower a;
     lip_group_upper := lip_group_upper a; lip_group_lower := lip_group_lower a;
     clusters_comp := clusters_comp a |}.
Definition set_proteins_nb_neighbours (v : Nd.t nat) (a : acc) : acc :=
  {| proteins_size := proteins_size a; proteins_group := proteins_group a;
     proteins_nb_neighbours := v; proteins_ctcts_prot := proteins_ctcts_prot a;
     proteins_ctcts_res := proteins_ctcts_res a;
     proteins_ctcts_res_size := proteins_ctcts_res_size a;
     proteins_ctcts_res_group := proteins_ctcts_res_group a;
     lip_size_upper := lip_size_upper a; lip_size_lower := lip_size_lower a;
     lip_group_upper := lip_group_upper a; lip_group_lower := lip_group_lower a;
     clusters_comp := clusters_comp a |}.
Definition set_proteins_ctcts_prot (v : Nd.t nat) (a : acc) : acc :=
  {| proteins_size := proteins_size a; proteins_group := proteins_group a;
     proteins_nb_neighbours := proteins_nb_neighbours a; proteins_ctcts_prot := v;
     proteins_ctcts_res := proteins_ctcts_res a;
     proteins_ctcts_res_size := proteins_ctcts_res_size a;
     proteins_ctcts_res_group := proteins_ctcts_res_group a;
     lip_size_upper := lip_size_upper a; lip_size_lower := lip_size_lower a;
     lip_group_upper := lip_group_upper a; lip_group_lower := lip_group_lower a;
     clusters_comp := clusters_comp a |}.
Definition set_proteins_ctcts_res (v : gmap (nat * nat) (Nd.t nat)) (a : acc) : acc :=
  {| proteins_size := proteins_size a; proteins_group := proteins_group a;
     proteins_nb_neighbours := proteins_nb_neighbours a;
     proteins_ctcts_prot := proteins_ctcts_prot a; proteins_ctcts_res := v;
     proteins_ctcts_res_size := proteins_ctcts_res_size a;
     proteins_ctcts_res_group := proteins_ctcts_res_group a;
     lip_size_upper := lip_size_upper a; lip_size_lower := lip_size_lower a;
     lip_group_upper := lip_group_upper a; lip_group_lower := lip_group_lower a;
     clusters_comp := clusters_comp a |}.
Definition set_proteins_ctcts_res_size (v : gmap (nat * nat) (gmap Z (Nd.t nat)))
    (a : acc) : acc :=
  {| proteins_size := proteins_size a; proteins_group := proteins_group a;
     proteins_nb_neighbours := proteins_nb_neighbours a;
     proteins_ctcts_prot := proteins_ctcts_prot a;
     proteins_ctcts_res := proteins_ctcts_res a; proteins_ctcts_res_size := v;
     proteins_ctcts_res_group := proteins_ctcts_res_group a;
     lip_size_upper := lip_size_upper a; lip_size_lower := lip_size_lower a;
     lip_group_upper := lip_group_upper a; lip_group_lower := lip_group_lower a;
     clusters_comp := clusters_comp a |}.
Definition set_proteins_ctcts_res_group (v : gmap (nat * nat) (gmap nat (Nd.t nat)))
    (a : acc) : acc :=
  {| proteins_size := proteins_size a; proteins_group := proteins_group a;
     proteins_nb_neighbours := proteins_nb_neighbours a;
     proteins_ctcts_prot := proteins_ctcts_prot a;
     proteins_ctcts_res := proteins_ctcts_res a;
     proteins_ctcts_res_size := proteins_ctcts_res_size a; proteins_ctcts_res_group := v;
     lip_size_upper := lip_size_upper a; lip_size_lower := lip_size_lower a;
     lip_group_upper := lip_group_upper a; lip_group_lower := lip_group_lower a;
     clusters_comp := clusters_comp a |}.
Definition set_lip_size_upper (v : gmap nat (gmap Z (Nd.t nat))) (a : acc) : acc :=
  {| proteins_size := proteins_size a; proteins_group := proteins_group a;
     proteins_nb_neighbours := proteins_nb_neighbours a;
     proteins_ctcts_prot := proteins_ctcts_prot a;
     proteins_ctcts_res := proteins_ctcts_res a;
     proteins_ctcts_res_size := proteins_ctcts_res_size a;
     proteins_ctcts_res_group := proteins_ctcts_res_group a; lip_size_upper := v;
     lip_size_lower := lip_size_lower a; lip_group_upper := lip_group_upper a;
     lip_group_lower := lip_group_lower a; clusters_comp := clusters_comp a |}.
Definition set_lip_size_lower (v : gmap nat (gmap Z (Nd.t nat))) (a : acc) : acc :=
  {| proteins_size := proteins_size a; proteins_group := proteins_group a;
     proteins_nb_neighbours := proteins_nb_neighbours a;
     proteins_ctcts_prot := proteins_ctcts_prot a;
     proteins_ctcts_res := proteins_ctcts_res a;
     proteins_ctcts_res_size := proteins_ctcts_res_size a;
     proteins_ctcts_res_group := proteins_ctcts_res_group a;
     lip_size_upper := lip_size_upper a; lip_size_lower := v;
     lip_group_upper := lip_group_upper a; lip_group_lower := lip_group_lower a;
     clusters_comp := clusters_comp a |}.
Definition set_lip_group_upper (v : gmap nat (gmap nat (Nd.t nat))) (a : acc) : acc :=
  {| proteins_size := proteins_size a; proteins_group := proteins_group a;
     proteins_nb_neighbours := proteins_nb_neighbours a;
     proteins_ctcts_prot := proteins_ctcts_prot a;
     proteins_ctcts_res := proteins_ctcts_res a;
     proteins_ctcts_res_size := proteins_ctcts_res_size a;
     proteins_ctcts_res_group := proteins_ctcts_res_group a;
     lip_size_upper := lip_size_upper a; lip_size_lower := lip_size_lower a;
     lip_group_upper := v; lip_group_lower := lip_group_lower a;
     clusters_comp := clusters_comp a |}.
Definition set_lip_group_lower (v : gmap nat (gmap nat (Nd.t nat))) (a : acc) : acc :=
  {| proteins_size := proteins_size a; proteins_group := proteins_group a;
     proteins_nb_neighbours := proteins_nb_neighbours a;
     proteins_ctcts_prot := proteins_ctcts_prot a;
     proteins_ctcts_res := proteins_ctcts_res a;
     proteins_ctcts_res_size := proteins_ctcts_res_size a;
     proteins_ctcts_res_group := proteins_ctcts_res_group a;
     lip_size_upper := lip_size_upper a; lip_size_lower := lip_size_lower a;
     lip_group_upper := lip_group_upper a; lip_group_lower := v;
     clusters_comp := clusters_comp a |}.
Definition set_clusters_comp (v : gmap Z (gmap (list nat) nat)) (a : acc) : acc :=
  {| proteins_size := proteins_size a; proteins_group := proteins_group a;
     proteins_nb_neighbours := proteins_nb_neighbours a;
     proteins_ctcts_prot := proteins_ctcts_prot a;
     proteins_ctcts_res := proteins_ctcts_res a;
     proteins_ctcts_res_size := proteins_ctcts_res_size a;
     proteins_ctcts_res_group := proteins_ctcts_res_group a;
     lip_size_upper := lip_size_upper a; lip_size_lower := lip_size_lower a;
     lip_group_upper := lip_group_upper a; lip_group_lower := lip_group_lower a;
     clusters_comp := v |}.

(** [l[i]] on a list or a one-dimensional array *)
Definition index {A} (l : list A) (i : nat) : result A :=
  match l !! i with
  | Some x => Ok x
  | None => Raise "IndexError"
  end.

(** [l[i] += 1] *)
Definition incr (l : list nat) (i : nat) : result (list nat) :=
  x ← index l i; Ok (<[i := S x]> l).

(** [d[k][m] += 1] and [d[k][k2][m] += 1] for a mask [m] *)
Definition add_mask_at `{Countable K} (d : gmap K (Nd.t nat)) (k : K) (m : Nd.t bool)
  : result (gmap K (Nd.t nat)) :=
  a ← getitem d k; a' ← Nd.add_mask a m; Ok (<[k := a']> d).

Definition add_mask_at2 `{Countable K, Countable K2}
    (d : gmap K (gmap K2 (Nd.t nat))) (k : K) (k2 : K2) (m : Nd.t bool)
  : result (gmap K (gmap K2 (Nd.t nat))) :=
  inner ← getitem d k; inner' ← add_mask_at inner k2 m; Ok (<[k := inner']> d).

(** [d[k][k2] += v] for an array [v] *)
Definition add_array_at2 `{Countable K, Countable K2}
    (d : gmap K (gmap K2 (Nd.t nat))) (k : K) (k2 : K2) (v : Nd.t nat)
  : result (gmap K (gmap K2 (Nd.t nat))) :=
  inner ← getitem d k; a ← getitem inner k2; a' ← Nd.add a v;
  Ok (<[k := <[k2 := a']> inner]> d).

(** [if k2 not in d[k].keys(): d[k][k2] = v] *)
Definition allocate_at2 `{Countable K, Countable K2} {V}
    (d : gmap K (gmap K2 V)) (k : K) (k2 : K2) (v : V)
  : result (gmap K (gmap K2 V)) :=
  inner ← getitem d k;
  match inner !! k2 with
  | None => Ok (<[k := <[k2 := v]> inner]> d)
  | Some _ => Ok d
  end.

(** [groups_sizes_dict[c_size]] *)
Definition group_of (g : Groups.t) (c_size : Z) : result nat :=
  getitem (Groups.groups_sizes_dict g) c_size.

Section Frame.
Variable e : env.
Variable fr : frame.
Variable network : Detect.graph.
Variable f_index : nat.

(** the three residue accumulators of a species pair take a mask *)
Definition add_residue_contacts (key : nat * nat) (c_size : Z) (m : Nd.t bool)
    (a : acc) : result acc :=
  res ← add_mask_at (proteins_ctcts_res a) key m;
  let a := set_proteins_ctcts_res res a in
  by_size ← add_mask_at2 (proteins_ctcts_res_size a) key c_size m;
  let a := set_proteins_ctcts_res_size by_size a in
  match groups e with
  | None => Ok a
  | Some g =>
      g_index ← group_of g c_size;
      by_group ← add_mask_at2 (proteins_ctcts_res_group a) key g_index m;
      Ok (set_proteins_ctcts_res_group by_group a)
  end.

(** the same on the first visit of a pair: the table by size gets its
    matrix of zeros when the size is new *)
Definition first_residue_contacts (key : nat * nat) (c_size : Z) (m : Nd.t bool)
    (zeros : Nd.t nat) (a : acc) : result acc :=
  res ← add_mask_at (proteins_ctcts_res a) key m;
  let a := set_proteins_ctcts_res res a in
  by_size ← allocate_at2 (proteins_ctcts_res_size a) key c_size zeros;
  by_size ← add_mask_at2 by_size key c_size m;
  let a := set_proteins_ctcts_res_size by_size a in
  match groups e with
  | None => Ok a
  | Some g =>
      g_index ← group_of g c_size;
      by_group ← add_mask_at2 (proteins_ctcts_res_group a) key g_index m;
      Ok (set_proteins_ctcts_res_group by_group a)
  end.

(** [dist_p_pp_matrix < args.res_contact]: the residues of the protein
    of the lower species index run along the rows; for two proteins of one
    species those of the neighbour do *)
Definition pair_mask (p_index p_s_index pp_index pp_s_index : nat) : Nd.t bool :=
  if (p_s_index <? pp_s_index)%nat then res_mask fr p_index pp_index
  else res_mask fr pp_index p_index.

(** [(min(p_s_index, pp_s_index), max(p_s_index, pp_s_index))] *)
Definition pair_key (p_s_index pp_s_index : nat) : nat * nat :=
  (p_s_index `min` pp_s_index, p_s_index `max` pp_s_index)%nat.

(** the [np.zeros] matrix of a size met for the first time *)
Definition pair_zeros (p_s_index p_length pp_s_index pp_length : nat) : Nd.t nat :=
  if (p_s_index <? pp_s_index)%nat then Nd.full [p_length; pp_length] 0%nat
  else Nd.full [pp_length; p_length] 0%nat.

(** the body of [for pp_index in tmp_neighb]; the state is the
    accumulators and [tmp_pairs_treated] *)
Definition treat_pair (c_size : Z) (p_index p_s_index : nat)
    (st : acc * list (nat * nat)) (pp_index : nat)
  : result (acc * list (nat * nat)) :=
  let pair := (p_index `min` pp_index, p_index `max` pp_index)%nat in
  if decide (pair ∈ st.2) then Ok st
  else
    pp_s_index ← index (prot_index2sindex e) pp_index;
    pp_length ← index (proteins_length e) pp_s_index;
    p_length ← index (proteins_length e) p_s_index;
    (* store type of neighbour *)
    nbn ← Nd.add_at (proteins_nb_neighbours st.1) [f_index; p_index; pp_s_index] 1;
    let a := set_proteins_nb_neighbours nbn st.1 in
    (* store residue contacts with neighbours *)
    let mask := pair_mask p_index p_s_index pp_index pp_s_index in
    let key := pair_key p_s_index pp_s_index in
    a ← first_residue_contacts key c_size mask
           (pair_zeros p_s_index p_length pp_s_index pp_length) a;
    (* case: homo interactions *)
    a ← (if (p_s_index =? pp_s_index)%nat
         then add_residue_contacts key c_size (Nd.transpose mask) a
         else Ok a);
    (* store total contacts with neighbour *)
    prot ← Nd.add_at (proteins_ctcts_prot a) [p_index; pp_index] (Nd.count mask);
    let a := set_proteins_ctcts_prot prot a in
    (* store same info from the neighbour's perspective *)
    nbn ← Nd.add_at (proteins_nb_neighbours a) [f_index; pp_index; p_s_index] 1;
    let a := set_proteins_nb_neighbours nbn a in
    prot ← Nd.add_at (proteins_ctcts_prot a) [pp_index; p_index] (Nd.count mask);
    let a := set_proteins_ctcts_prot prot a in
    Ok (a, st.2 ++ [pair]).

(** contacts of the residues of a protein with the headgroups of one
    leaflet, by size and by group *)
Definition lipid_contacts (c_size : Z) (p_s_index p_length nb_lip : nat)
    (m : Nd.t bool)
    (by_size : gmap nat (gmap Z (Nd.t nat)))
  : result (Nd.t nat * gmap nat (gmap Z (Nd.t nat))) :=
  pop ← Nd.add_mask (Nd.full [p_length; nb_lip] 0%nat) m;
  by_size ← allocate_at2 by_size p_s_index c_size (Nd.full [p_length] 0%nat);
  by_size ← add_array_at2 by_size p_s_index c_size (Nd.sum_axis1 pop);
  Ok (Nd.sum_axis1 pop, by_size).

Definition treat_lipids (c_size : Z) (p_index p_s_index p_length : nat) (a : acc)
  : result acc :=
  up ← lipid_contacts c_size p_s_index p_length (nb_lip_upper fr)
         (lip_mask_upper fr p_index) (lip_size_upper a);
  let a := set_lip_size_upper up.2 a in
  lo ← lipid_contacts c_size p_s_index p_length (nb_lip_lower fr)
         (lip_mask_lower fr p_index) (lip_size_lower a);
  let a := set_lip_size_lower lo.2 a in
  match groups e with
  | None => Ok a
  | Some g =>
      g_index ← group_of g c_size;
      by_group ← add_array_at2 (lip_group_upper a) p_s_index g_index up.1;
      let a := set_lip_group_upper by_group a in
      g_index ← group_of g c_size;
      by_group ← add_array_at2 (lip_group_lower a) p_s_index g_index lo.1;
      Ok (set_lip_group_lower by_group a)
  end.

(** the body of [for p_index in cluster]; the state is the accumulators
    with [tmp_pairs_treated], and [tmp_comp].  [with_lipids] tells the
    copy of [process_clusters_TM] from the one of [process_clusters]. *)
Definition treat_protein (with_lipids : bool) (c_size : Z)
    (st : acc * list (nat * nat) * list nat) (p_index : nat)
  : result (acc * list (nat * nat) * list nat) :=
  p_s_index ← index (prot_index2sindex e) p_index;
  p_length ← index (proteins_length e) p_s_index;
  a ← (if with_lipids then treat_lipids c_size p_index p_s_index p_length st.1.1
       else Ok st.1.1);
  tmp_comp ← incr st.2 p_s_index;
  st' ← for_each (treat_pair c_size p_index p_s_index)
                 (Detect.neighbors network p_index) (a, st.1.2);
  Ok (st', tmp_comp).

(** [proteins_size[f_index, cluster] = v] *)
Definition write_row {A} (arr : Nd.t A) (cluster : list nat) (v : A)
  : result (Nd.t A) :=
  for_each (λ arr p_index, Nd.set arr [f_index; p_index] v) cluster arr.

(** the size of the cluster and, with groups, its group *)
Definition store_size (cluster : list nat) (size : Z) (group : result Z) (a : acc)
  : result acc :=
  sizes ← write_row (proteins_size a) cluster size;
  let a := set_proteins_size sizes a in
  match groups e with
  | None => Ok a
  | Some _ =>
      g ← group;
      grp ← write_row (proteins_group a) cluster g;
      Ok (set_proteins_group grp a)
  end.

Definition group_entry (c_size : Z) : result Z :=
  match groups e with
  | None => Raise "NameError"
  | Some g => g_index ← group_of g c_size; Ok (Z.of_nat g_index)
  end.

(** [clusters_comp[c_size][tmp_comp] += 1], both levels made on demand *)
Definition store_composition (c_size : Z) (tmp_comp : list nat)
    (comp : gmap Z (gmap (list nat) nat)) : gmap Z (gmap (list nat) nat) :=
  let comp := match comp !! c_size with
              | None => <[c_size := ∅]> comp
              | Some _ => comp
              end in
  let inner := default ∅ (comp !! c_size) in
  let inner := match inner !! tmp_comp with
               | None => <[tmp_comp := 0%nat]> inner
               | Some _ => inner
               end in
  <[c_size := <[tmp_comp := S (default 0%nat (inner !! tmp_comp))]> inner]> comp.

(** from "initialise cluster comp" to "store cluster composition" *)
Definition account (with_lipids : bool) (cluster : list nat) (a : acc) : result acc :=
  let c_size := Z.of_nat (length cluster) in
  a ← store_size cluster c_size (group_entry c_size) a;
  st ← for_each (treat_protein with_lipids c_size) cluster
                (a, [], replicate (nb_species e) 0%nat);
  Ok (set_clusters_comp
        (store_composition c_size st.2 (clusters_comp st.1.1)) st.1.1).

(** *** [process_clusters] *)
Definition process_clusters (a : acc) : result acc :=
  let clusters := Detect.sorted (Detect.connected_components network) in
  for_each (λ a cluster, account false cluster a) clusters a.

(** *** [process_clusters_TM] *)

(** [np.min(row)] *)
Definition np_min (row : list Q) : result Q :=
  match row with
  | [] => Raise "ValueError"
  | x :: xs => Ok (foldr Qmin x xs)
  end.

(** [dist = dist_min_upper - dist_min_lower], an entry per atom of the
    cluster *)
Definition leaflet_delta (cluster : list nat) : result (list Q) :=
  match cluster with
  | [] => Raise "IndexError"
  | _ =>
      map_each (λ atom : list Q * list Q,
                  dist_min_lower ← np_min atom.1;
                  dist_min_upper ← np_min atom.2;
                  Ok (dist_min_upper - dist_min_lower)%Q)
               (cluster ≫= headgroup_dists fr)
  end.

Inductive classification := InterfacialLower | InterfacialUpper | Transmembrane.

(** [np.size(dist[dist > 0])] against [np.size(dist)] and [0] *)
Definition classify (dist : list Q) : classification :=
  let positive := filter (λ d, Qle_bool d 0 = false) dist in
  if (length positive =? length dist)%nat then InterfacialLower
  else if (length positive =? 0)%nat then InterfacialUpper
  else Transmembrane.

Definition process_cluster_TM (a : acc) (cluster : list nat) : result acc :=
  dist ← leaflet_delta cluster;
  match classify dist with
  | InterfacialLower => store_size cluster (-1) (Ok (-1)) a
  | InterfacialUpper =>
      store_size cluster 99999
        (match groups e with
         | Some g => Ok (Z.of_nat (Groups.groups_number g) + 1)
         | None => Raise "NameError"
         end) a
  | Transmembrane => account true cluster a
  end.

Definition process_clusters_TM (a : acc) : result acc :=
  let clusters := Detect.sorted (Detect.connected_components network) in
  for_each process_cluster_TM clusters a.
End Frame.

End Process.

(** ** The accumulators before the first frame: [struct_clusters] and
    [struct_proteins] *)

Module Struct.
Import Process.

(** the pairs [(s_index1, s_index2)] of the double loop, [s_index1 <= s_index2] *)
Definition species_pairs (nb_species : nat) : list (nat * nat) :=
  s_index1 ← seq 0 nb_species;
  s_index2 ← seq s_index1 (nb_species - s_index1);
  [(s_index1, s_index2)].

(** [{g_index: np.zeros(shape) for g_index in range(groups_number)}] when
    groups are configured, [{}] otherwise *)
Definition per_group (e : env) (sh : list nat) : gmap nat (Nd.t nat) :=
  match groups e with
  | None => ∅
  | Some g =>
      foldl (λ d g_index, <[g_index := Nd.full sh 0%nat]> d) ∅
            (seq 0 (Groups.groups_number g))
  end.

Definition struct_species (e : env) (a : acc) (s_index1 : nat) : result acc :=
  len1 ← index (proteins_length e) s_index1;
  let a := set_lip_size_upper (<[s_index1 := ∅]> (lip_size_upper a)) a in
  let a := set_lip_size_lower (<[s_index1 := ∅]> (lip_size_lower a)) a in
  let a := set_lip_group_upper (<[s_index1 := per_group e [len1]]> (lip_group_upper a)) a in
  let a := set_lip_group_lower (<[s_index1 := per_group e [len1]]> (lip_group_lower a)) a in
  for_each (λ a s_index2,
              len2 ← index (proteins_length e) s_index2;
              let key := (s_index1, s_index2) in
              let a := set_proteins_ctcts_res
                         (<[key := Nd.full [len1; len2] 0%nat]> (proteins_ctcts_res a)) a in
              let a := set_proteins_ctcts_res_size
                         (<[key := ∅]> (proteins_ctcts_res_size a)) a in
              Ok (set_proteins_ctcts_res_group
                    (<[key := per_group e [len1; len2]]> (proteins_ctcts_res_group a)) a))
           (seq s_index1 (nb_species e - s_index1)) a.

Definition struct_proteins (e : env) : result acc :=
  for_each (struct_species e) (seq 0 (nb_species e))
    {| proteins_size := Nd.full [nb_frames_to_process e; nb_proteins e] 0;
       proteins_group := Nd.full [nb_frames_to_process e; nb_proteins e] 0;
       proteins_nb_neighbours :=
         Nd.full [nb_frames_to_process e; nb_proteins e; nb_species e] 0%nat;
       proteins_ctcts_prot := Nd.full [nb_proteins e; nb_proteins e] 0%nat;
       proteins_ctcts_res := ∅;
       proteins_ctcts_res_size := ∅;
       proteins_ctcts_res_group := ∅;
       lip_size_upper := ∅; lip_size_lower := ∅;
       lip_group_upper := ∅; lip_group_lower := ∅;
       clusters_comp := ∅ |}.

End Struct.

(** ** The statistics finalizer: [get_sizes_sampled], [calculate_statistics] *)

Module Stats.
Import Process.

(** a dictionary gone through with a function that may fail *)
Definition traverse `{Countable K} {A B} (f : A → result B) (d : gmap K A)
  : result (gmap K B) :=
  for_each (λ acc kv, b ← f kv.2; Ok (<[kv.1 := b]> acc)) (map_to_list d) ∅.

(** *** Contacts between residues (%) *)

Definition to_float (a : Nd.t nat) : Nd.t Q :=
  Nd.mk (Nd.shape a) (λ j, inject_Z (Z.of_nat (Nd.item a j))).

(** [np.sum] of an array of floats *)
Definition qsum (a : Nd.t Q) : Q :=
  foldr Qplus 0%Q (Nd.item a <$> Nd.indices (Nd.shape a)).

(** [a / total * 100]; a zero divisor is an error *)
Definition scale (a : Nd.t Q) (total : Q) : result (Nd.t Q) :=
  if Qeq_bool total 0 then Raise "ZeroDivisionError"
  else Ok (Nd.mk (Nd.shape a) (λ j, (Nd.item a j / total * 100)%Q)).

(** [if np.sum(m) > 0: m = m / float(np.sum(m)) * 100] *)
Definition percentages (m : Nd.t nat) : result (Nd.t Q) :=
  if (0 <? Nd.sum m)%nat then scale (to_float m) (qsum (to_float m))
  else Ok (to_float m).

Record contacts := {
  res : gmap (nat * nat) (Nd.t Q);
  res_size : gmap (nat * nat) (gmap Z (Nd.t Q));
  res_group : gmap (nat * nat) (gmap nat (Nd.t Q));
}.

(** the body of the double loop over species *)
Definition normalise_pair (e : env) (a : acc) (out : contacts) (key : nat * nat)
  : result contacts :=
  m ← getitem (proteins_ctcts_res a) key;
  m ← percentages m;
  by_size ← getitem (proteins_ctcts_res_size a) key;
  by_size ← traverse percentages by_size;
  by_group ← match groups e with
             | None => Ok ∅
             | Some g =>
                 for_each (λ acc g_index,
                             inner ← getitem (proteins_ctcts_res_group a) key;
                             m ← getitem inner g_index;
                             m ← percentages m;
                             Ok (<[g_index := m]> acc))
                          (seq 0 (Groups.groups_number g)) ∅
             end;
  Ok {| res := <[key := m]> (res out);
        res_size := <[key := by_size]> (res_size out);
        res_group := <[key := by_group]> (res_group out) |}.

Definition normalise_contacts (e : env) (a : acc) : result contacts :=
  for_each (normalise_pair e a) (Struct.species_pairs (nb_species e))
           {| res := ∅; res_size := ∅; res_group := ∅ |}.

(** *** Sizes and groups sampled: [get_sizes_sampled] *)

Definition values {A} (a : Nd.t A) : list A := Nd.item a <$> Nd.indices (Nd.shape a).

Definition cluster_sizes_sampled (a : acc) : list Z := np_unique (values (proteins_size a)).

Definition cluster_groups_sampled_TM (g : Groups.t) (a : acc) : list Z :=
  filter (λ x, x ≠ Z.of_nat (Groups.groups_number g) + 1)
         (filter (λ x, x ≠ -1) (np_unique (values (proteins_group a)))).

Definition groups_gmax (g : Groups.t) (a : acc) : nat :=
  if decide (Z.of_nat (Groups.groups_number g) ∈ cluster_groups_sampled_TM g a)
  then S (Groups.groups_number g) else Groups.groups_number g.

(** *** Composition of clusters *)

Section Composition.
(** [np.sqrt] *)
Variable sqrt : Q → Q.
Variable nb_species : nat.

(** [tmp_n], [tmp_mean], [tmp_M2] *)
Record welford := { tmp_n : list nat; tmp_mean : list Q; tmp_M2 : list Q }.

Definition welford_zero : welford :=
  {| tmp_n := replicate nb_species 0%nat;
     tmp_mean := replicate nb_species 0%Q;
     tmp_M2 := replicate nb_species 0%Q |}.

Definition divide (x y : Q) : result Q :=
  if Qeq_bool y 0 then Raise "ZeroDivisionError" else Ok (x / y)%Q.

Definition of_nat (n : nat) : Q := inject_Z (Z.of_nat n).

(** the body of [for s_index in range(0, nb_species)] of the update *)
Definition welford_step (c_size : Z) (comp : list nat) (w : welford) (s_index : nat)
  : result welford :=
  n ← index (tmp_n w) s_index;
  let n := S n in
  c ← index comp s_index;
  x ← divide (of_nat c) (inject_Z c_size);
  mean ← index (tmp_mean w) s_index;
  let delta := (x - mean)%Q in
  step ← divide delta (of_nat n);
  let mean := (mean + step)%Q in
  M2 ← index (tmp_M2 w) s_index;
  Ok {| tmp_n := <[s_index := n]> (tmp_n w);
        tmp_mean := <[s_index := mean]> (tmp_mean w);
        tmp_M2 := <[s_index := (M2 + delta * (x - mean))%Q]> (tmp_M2 w) |}.

(** [for comp, nb in items: for n in range(0, nb): for s_index in ...] *)
Definition welford_items (c_size : Z) (items : list (list nat * nat)) (w : welford)
  : result welford :=
  for_each (λ w (item : list nat * nat),
              for_each (λ w _, for_each (welford_step c_size item.1)
                                        (seq 0 nb_species) w)
                       (seq 0 item.2) w)
           items w.

(** the reporting loop: the rows [clusters_comp_avg[c_index, :]] and
    [clusters_comp_std[c_index, :]] *)
Definition report_step (w : welford) (rows : list Q * list Q) (s_index : nat)
  : result (list Q * list Q) :=
  let avg := (λ m, m * 100)%Q <$> tmp_mean w in
  n ← index (tmp_n w) s_index;
  if (0 <? n)%nat then
    M2 ← index (tmp_M2 w) s_index;
    v ← divide M2 (of_nat n);
    Ok (avg, replicate nb_species (sqrt v * 100)%Q)
  else Ok (avg, rows.2).

Definition report (w : welford) : result (list Q * list Q) :=
  for_each (report_step w) (seq 0 nb_species)
           (replicate nb_species 0%Q, replicate nb_species 0%Q).

(** the rows of a sampled size *)
Definition composition_of_size (comp : gmap Z (gmap (list nat) nat)) (c_size : Z)
  : result (list Q * list Q) :=
  if decide (c_size ≠ -1 ∧ c_size ≠ 99999) then
    inner ← getitem comp c_size;
    w ← welford_items c_size (map_to_list inner) welford_zero;
    report w
  else Ok (replicate nb_species 0%Q, replicate nb_species 0%Q).

Definition composition_by_size (comp : gmap Z (gmap (list nat) nat))
    (sizes : list Z) : result (list (list Q * list Q)) :=
  map_each (composition_of_size comp) sizes.

(** by group: one triple of running values per group index *)
Definition welford_group (g : Groups.t) (comp : gmap Z (gmap (list nat) nat))
    (ws : list welford) (c_size : Z) : result (list welford) :=
  if decide (c_size ≠ -1 ∧ c_size ≠ 99999) then
    g_index ← group_of g c_size;
    inner ← getitem comp c_size;
    w ← index ws g_index;
    w ← welford_items c_size (map_to_list inner) w;
    Ok (<[g_index := w]> ws)
  else Ok ws.

Definition composition_by_group (g : Groups.t) (gmax : nat)
    (comp : gmap Z (gmap (list nat) nat)) (sizes sampled_groups : list Z)
  : result (list (Z * (list Q * list Q))) :=
  ws ← for_each (welford_group g comp) sizes (replicate gmax welford_zero);
  map_each (λ g_index, w ← index ws (Z.to_nat g_index); rows ← report w;
                       Ok (g_index, rows))
           sampled_groups.
End Composition.

End Stats.

(** ** The run: configuration, frames, statistics *)

Module Main.
Import Process.

Record config := {
  (** [args.nx_cutoff] *)
  nx_cutoff : Cutoffs.arg;
  (** the lines of [args.cluster_groups_file]; [None] for "no" *)
  cluster_groups_file : option (list string);
  (** [args.cutoff_leaflet != "no"] *)
  cutoff_leaflet : bool;
  (** [args.m_algorithm == "density"] *)
  density : bool;
  (** what [identify_proteins] finds in the structure file: the number of
      proteins and the number of residues of each species *)
  proteins_nb : list nat;
  found_length : list nat;
  (** for each frame to process, [get_distances(box_dim)] and the rest *)
  frames : list (Nd.t Q * frame);
}.

Record statistics := {
  contacts_pc : Stats.contacts;
  comp_by_size : list (list Q * list Q);
  comp_by_group : list (Z * (list Q * list Q));
}.

(** how far the run got: the number of frames whose processing began, and
    what it ended with *)
Record outcome := {
  frames_begun : nat;
  final : result (acc * statistics);
}.

Definition found_species (c : config) : nat := length (proteins_nb c).

Section Run.
Variable py_int : string → option Z.
Variable py_float : string → option Q.
Variable dbscan : Nd.t Q → list Z.
Variable sqrt : Q → Q.

(** everything before "Detecting proteins clusters..." *)
Definition configure (c : config) : result (Cutoffs.t * env * acc) :=
  cut ← Cutoffs.read py_int py_float (nx_cutoff c);
  cut ← Cutoffs.check_species (found_species c) cut;
  g ← match cluster_groups_file c with
      | None => Ok None
      | Some lines => g ← Groups.initialise_groups py_int lines; Ok (Some g)
      end;
  let e := {| nb_species := found_species c;
              nb_proteins := sum_list (proteins_nb c);
              nb_frames_to_process := length (frames c);
              prot_index2sindex := Topology.prot_index2sindex (proteins_nb c);
              proteins_length := found_length c;
              groups := g |} in
  a ← Struct.struct_proteins e;
  Ok (cut, e, a).

Definition detect (c : config) (cut : Cutoffs.t) (dist : Nd.t Q)
  : result Detect.detected :=
  if density c then Ok (Detect.GroupList (Detect.detect_clusters_density dbscan dist))
  else
    G ← Detect.detect_clusters_connectivity (found_species c)
           (Topology.proteins_boundaries (proteins_nb c)) cut dist;
    Ok (Detect.Network G).

(** a frame of the loop; [process_clusters] and [process_clusters_TM]
    start with [nx.connected_components(network)], and [identify_proteins]
    imports [nx] for the other methods only: on the list of groups of the
    density method the name [nx] is not defined *)
Definition process_frame (c : config) (cut : Cutoffs.t) (e : env)
    (a : acc) (f_index : nat) (f : Nd.t Q * frame) : result acc :=
  clusters ← detect c cut f.1;
  match clusters with
  | Detect.Network G =>
      if cutoff_leaflet c then process_clusters_TM e f.2 G f_index a
      else process_clusters e f.2 G f_index a
  | Detect.GroupList _ => Raise "NameError"
  end.

Fixpoint frames_loop (c : config) (cut : Cutoffs.t) (e : env)
    (fs : list (Nd.t Q * frame)) (f_index : nat) (a : acc) : nat * result acc :=
  match fs with
  | [] => (f_index, Ok a)
  | f :: fs' =>
      match process_frame c cut e a f_index f with
      | Ok a' => frames_loop c cut e fs' (S f_index) a'
      | Exit m => (S f_index, Exit m)
      | Raise x => (S f_index, Raise x)
      end
  end.

(** the parts of [calculate_statistics] on residue contacts and on the
    composition of clusters *)
Definition calculate_statistics (e : env) (a : acc) : result statistics :=
  contacts ← Stats.normalise_contacts e a;
  let sizes := Stats.cluster_sizes_sampled a in
  by_size ← Stats.composition_by_size sqrt (nb_species e) (clusters_comp a) sizes;
  by_group ← match groups e with
             | None => Ok []
             | Some g =>
                 Stats.composition_by_group sqrt (nb_species e) g
                   (Stats.groups_gmax g a) (clusters_comp a) sizes
                   (Stats.cluster_groups_sampled_TM g a)
             end;
  Ok {| contacts_pc := contacts; comp_by_size := by_size; comp_by_group := by_group |}.

Definition main (c : config) : outcome :=
  match configure c with
  | Ok (cut, e, a) =>
      let '(n, r) := frames_loop c cut e (frames c) 0 a in
      {| frames_begun := n;
         final := a ← r; s ← calculate_statistics e a; Ok (a, s) |}
  | Exit m => {| frames_begun := 0; final := Exit m |}
  | Raise x => {| frames_begun := 0; final := Raise x |}
  end.
End Run.

End Main.

(** * More of the program *)

(** ** [identify_proteins]: the dictionaries of the protein indices *)

Module Identify.

(** [a[lo:hi] -= v] on a one-dimensional array; a slice stops at the end
    of the array *)
Definition sub_slice (a : list Z) (lo hi : nat) (v : Z) : list Z :=
  imap (λ i x, if ((lo <=? i)%nat && (i <? hi)%nat)%bool then x - v else x) a.

(** [prot_index2rel = np.arange(0, nb_proteins)], then
    [prot_index2rel[p_start:p_end] -= p_start] for each species *)
Definition prot_index2rel (proteins_nb : list nat) : list Z :=
  foldl (λ rel s_index,
           let p_start := Topology.p_start proteins_nb s_index in
           let p_end := (p_start + default 0%nat (proteins_nb !! s_index))%nat in
           sub_slice rel p_start p_end (Z.of_nat p_start))
        (Z.of_nat <$> seq 0 (sum_list proteins_nb))
        (seq 0 (length proteins_nb)).

End Identify.

(** ** The statistics of the frames: [struct_clusters], [get_sizes_sampled],
    [calculate_statistics] *)

Module Summary.
Import Process.

(** [clusters_biggest] and [clusters_mostrep]: an array over the frames
    under each of ['nb'], ['pc'] and ['size'] *)
Record best := { nb : Nd.t Z; pc : Nd.t Q; size : Nd.t Z }.

Record tables := {
  clusters_nb : gmap Z (Nd.t Z);
  clusters_pc : gmap Z (Nd.t Q);
  clusters_nb_groups : gmap Z (Nd.t Z);
  clusters_pc_groups : gmap Z (Nd.t Q);
  clusters_biggest : best;
  clusters_mostrep : best;
}.

(** [{k: np.zeros(n) for k in keys}] *)
Definition zeros_for {A} (zero : A) (n : nat) (keys : list Z) : gmap Z (Nd.t A) :=
  foldl (λ d k, <[k := Nd.full [n] zero]> d) ∅ keys.

(** what [struct_clusters] and [get_sizes_sampled] allocate; the tables
    by group are made with groups only *)
Definition allocate (e : env) (a : acc) : tables :=
  let n := nb_frames_to_process e in
  let sizes := Stats.cluster_sizes_sampled a ++ [-1; 99999] in
  let g_indices := match groups e with
                   | None => []
                   | Some g => Groups.range (-1) (Z.of_nat (Groups.groups_number g) + 2)
                   end in
  {| clusters_nb := zeros_for 0 n sizes;
     clusters_pc := zeros_for 0%Q n sizes;
     clusters_nb_groups := zeros_for 0 n g_indices;
     clusters_pc_groups := zeros_for 0%Q n g_indices;
     clusters_biggest := {| nb := Nd.full [n] 0; pc := Nd.full [n] 0%Q;
                            size := Nd.full [n] 0 |};
     clusters_mostrep := {| nb := Nd.full [n] 0; pc := Nd.full [n] 0%Q;
                            size := Nd.full [n] 0 |} |}.

(** [tmp_max_nb], [tmp_max_pc], [tmp_max_size] and the three of
    [tmp_mostrep] *)
Record running := {
  tmp_max_nb : Z; tmp_max_pc : Q; tmp_max_size : Z;
  tmp_mostrep_nb : Z; tmp_mostrep_pc : Q; tmp_mostrep_size : Z;
}.

(** [c_size != -1 and c_size != 99999] *)
Definition counted (c_size : Z) : bool := negb (c_size =? -1) && negb (c_size =? 99999).

(** [int(x)] of a float: towards zero *)
Definition py_int (x : Q) : Z := Z.quot (Qnum x) (Z.pos (Qden x)).

(** [x > y] on floats *)
Definition gt (x y : Q) : bool := negb (Qle_bool x y).

(** [d[k][f_index] = v] and [d[k][f_index] += v] *)
Definition set_at {A} (d : gmap Z (Nd.t A)) (k : Z) (f_index : nat) (v : A)
  : result (gmap Z (Nd.t A)) :=
  arr ← getitem d k; arr ← Nd.set arr [f_index] v; Ok (<[k := arr]> d).

Definition add_at {A} (plus : A → A → A) (d : gmap Z (Nd.t A)) (k : Z) (f_index : nat)
    (v : A) : result (gmap Z (Nd.t A)) :=
  arr ← getitem d k; x ← Nd.get arr [f_index];
  arr ← Nd.set arr [f_index] (plus x v); Ok (<[k := arr]> d).

(** [list(proteins_size[f_index,:])] *)
Definition row (a : acc) (f_index : nat) : result (list Z) :=
  match Nd.shape (proteins_size a) with
  | [frames; proteins] =>
      if (f_index <? frames)%nat
      then Ok ((λ p_index, Nd.item (proteins_size a) [f_index; p_index])
                 <$> seq 0 proteins)
      else Raise "IndexError"
  | _ => Raise "IndexError"
  end.

(** [tmp_sizes.count(c_size)] *)
Definition count (tmp_sizes : list Z) (c_size : Z) : Z :=
  Z.of_nat (length (filter (λ x, x = c_size) tmp_sizes)).

(** the body of [for c_size in cluster_sizes_sampled] *)
Definition size_step (e : env) (tmp_sizes : list Z) (f_index : nat)
    (st : tables * running) (c_size : Z) : result (tables * running) :=
  let t := st.1 in
  let r := st.2 in
  let tmp_nb := count tmp_sizes c_size in
  x ← Stats.divide (inject_Z tmp_nb) (Stats.of_nat (nb_proteins e));
  let tmp_pc := (x * 100)%Q in
  tmp_nb ← (if counted c_size
            then x ← Stats.divide (inject_Z tmp_nb) (inject_Z c_size); Ok (py_int x)
            else Ok tmp_nb);
  nbs ← set_at (clusters_nb t) c_size f_index tmp_nb;
  pcs ← set_at (clusters_pc t) c_size f_index tmp_pc;
  let r := if (0 <? tmp_nb) && (tmp_max_size r <? c_size) && counted c_size
           then {| tmp_max_nb := tmp_nb; tmp_max_pc := tmp_pc; tmp_max_size := c_size;
                   tmp_mostrep_nb := tmp_mostrep_nb r; tmp_mostrep_pc := tmp_mostrep_pc r;
                   tmp_mostrep_size := tmp_mostrep_size r |}
           else r in
  let r := if (0 <? tmp_nb) && gt tmp_pc (tmp_mostrep_pc r) && counted c_size
           then {| tmp_max_nb := tmp_max_nb r; tmp_max_pc := tmp_max_pc r;
                   tmp_max_size := tmp_max_size r;
                   tmp_mostrep_nb := tmp_nb; tmp_mostrep_pc := tmp_pc;
                   tmp_mostrep_size := c_size |}
           else r in
  match groups e with
  | Some g =>
      if counted c_size then
        g_index ← group_of g c_size;
        nbg ← add_at Z.add (clusters_nb_groups t) (Z.of_nat g_index) f_index tmp_nb;
        pcg ← add_at Qplus (clusters_pc_groups t) (Z.of_nat g_index) f_index tmp_pc;
        Ok ({| clusters_nb := nbs; clusters_pc := pcs;
               clusters_nb_groups := nbg; clusters_pc_groups := pcg;
               clusters_biggest := clusters_biggest t;
               clusters_mostrep := clusters_mostrep t |}, r)
      else
        Ok ({| clusters_nb := nbs; clusters_pc := pcs;
               clusters_nb_groups := clusters_nb_groups t;
               clusters_pc_groups := clusters_pc_groups t;
               clusters_biggest := clusters_biggest t;
               clusters_mostrep := clusters_mostrep t |}, r)
  | None =>
      Ok ({| clusters_nb := nbs; clusters_pc := pcs;
             clusters_nb_groups := clusters_nb_groups t;
             clusters_pc_groups := clusters_pc_groups t;
             clusters_biggest := clusters_biggest t;
             clusters_mostrep := clusters_mostrep t |}, r)
  end.

(** [clusters_biggest['nb'][f_index] = ...] and the two others *)
Definition store_best (b : best) (f_index : nat) (v_nb : Z) (v_pc : Q) (v_size : Z)
  : result best :=
  nbs ← Nd.set (nb b) [f_index] v_nb;
  pcs ← Nd.set (pc b) [f_index] v_pc;
  sizes ← Nd.set (size b) [f_index] v_size;
  Ok {| nb := nbs; pc := pcs; size := sizes |}.

(** the body of [for f_index in range(0, nb_frames_to_process)] *)
Definition frame_step (e : env) (a : acc) (t : tables) (f_index : nat) : result tables :=
  tmp_sizes ← row a f_index;
  st ← for_each (size_step e tmp_sizes f_index) (Stats.cluster_sizes_sampled a)
         (t, {| tmp_max_nb := 0; tmp_max_pc := 0%Q; tmp_max_size := 0;
                tmp_mostrep_nb := 0; tmp_mostrep_pc := 0%Q; tmp_mostrep_size := 0 |});
  let t := st.1 in
  let r := st.2 in
  biggest ← store_best (clusters_biggest t) f_index
              (tmp_max_nb r) (tmp_max_pc r) (tmp_max_size r);
  mostrep ← store_best (clusters_mostrep t) f_index
              (tmp_mostrep_nb r) (tmp_mostrep_pc r) (tmp_mostrep_size r);
  Ok {| clusters_nb := clusters_nb t; clusters_pc := clusters_pc t;
        clusters_nb_groups := clusters_nb_groups t;
        clusters_pc_groups := clusters_pc_groups t;
        clusters_biggest := biggest; clusters_mostrep := mostrep |}.

(** [get_sizes_sampled] and the loop over the frames of
    [calculate_statistics] *)
Definition frames_statistics (e : env) (a : acc) : result tables :=
  for_each (frame_step e a) (seq 0 (nb_frames_to_process e)) (allocate e a).

(** *** Contacts between proteins, normalised to 1 *)

(** [np.sum(m[:,p_index])] *)
Definition column_sum (m : Nd.t Q) (rows p_index : nat) : Q :=
  foldr Qplus 0%Q ((λ i, Nd.item m [i; p_index]) <$> seq 0 rows).

(** the body of [for p_index in range(0, nb_proteins)]:
    [m[:,p_index] /= float(tmp_sum)] when the sum of the column is above 0 *)
Definition normalise_column (m : Nd.t Q) (p_index : nat) : result (Nd.t Q) :=
  match Nd.shape m with
  | [rows; columns] =>
      if (p_index <? columns)%nat then
        let tmp_sum := column_sum m rows p_index in
        if gt tmp_sum 0 then
          Ok (Nd.mk (Nd.shape m)
                (λ j, match j with
                      | [i; p] => if (p =? p_index)%nat then (Nd.item m j / tmp_sum)%Q
                                  else Nd.item m j
                      | _ => Nd.item m j
                      end))
        else Ok m
      else Raise "IndexError"
  | _ => Raise "IndexError"
  end.

Definition normalise_proteins (e : env) (a : acc) : result (Nd.t Q) :=
  for_each normalise_column (seq 0 (nb_proteins e))
           (Stats.to_float (proteins_ctcts_prot a)).

End Summary.

(** * The vocabulary of the properties *)

(** ** Size groups *)

Module GroupsWords.
Import Groups.

(** what the overlap check leaves: every group lies above the previous end *)
Fixpoint increasing (prev_end : Z) (bs : list (Z * Z)) : Prop :=
  match bs with
  | [] => True
  | (b, e) :: bs' => prev_end < b ∧ b ≤ e ∧ increasing e bs'
  end.

(** the end of the last group *)
Definition last_end (bs : list (Z * Z)) : Z := (default (0, 0) (last bs)).2.

(** the table, size by size *)
Definition table_entry (gn : nat) (bs : list (Z * Z)) (k : Z) : option nat :=
  match declared 0 bs ∅ !! k with
  | Some g => Some g
  | None =>
      if decide (1 ≤ k < last_end bs ∨ (last_end bs ≠ cap ∧ last_end bs < k ≤ cap))
      then Some gn else None
  end.

(** the file of the scenario *)
Definition scenario : list string :=
  [ String.append "1,1,red" (String newline "");
    String.append "2,5,blue" (String newline "");
    String.append "6,max,green" (String newline "") ].

End GroupsWords.

(** ** Cutoff files *)

Module CutoffsWords.
Import Cutoffs.

Section Read.
Variable py_int : string → option Z.
Variable py_float : string → option Q.

(** a line of three fields that read as two integers and a float *)
Definition wellformed (line : string) (t : Z * Z * Q) : Prop :=
  ∃ l f1 f2 f3,
    strip_line line = Ok l ∧ split_comma l = [f1; f2; f3] ∧
    py_int f1 = Some t.1.1 ∧ py_int f2 = Some t.1.2 ∧ py_float f3 = Some t.2.

(** a line the reader stops at: it is empty, it does not split into three
    fields, or a field does not read as a number *)
Definition malformed (line : string) : Prop := ∀ t, ¬ wellformed line t.

End Read.

Definition store (st : gmap (Z * Z) Q * list Z) (t : Z * Z * Q)
  : gmap (Z * Z) Q * list Z :=
  (<[(t.1.2, t.1.1) := t.2]> (<[(t.1.1, t.1.2) := t.2]> st.1),
   st.2 ++ [t.1.1; t.1.2]).

(** the species indices a file names *)
Definition named (ts : list (Z * Z * Q)) : list Z := t ← ts; [t.1.1; t.1.2].

(** a cutoff is given for the pair, in one order or the other *)
Definition given (ts : list (Z * Z * Q)) (s ss : Z) : Prop :=
  ∃ t, t ∈ ts ∧ ((t.1.1 = s ∧ t.1.2 = ss) ∨ (t.1.1 = ss ∧ t.1.2 = s)).

End CutoffsWords.

(** ** Faults of the configuration *)

Module MainWords.
Import Main CutoffsWords.

Section Run.
Variable py_int : string → option Z.
Variable py_float : string → option Q.

(** the faults of a cutoff file: a line that does not read as two integers
    and a float; or, the lines being read as [ts], the smallest species index
    is not 0, a pair of species of the file has no cutoff, or a pair of
    species of the system has none *)
Definition bad_cutoff_file (c : config) : Prop :=
  ∃ lines, nx_cutoff c = Cutoffs.File lines ∧
    ((∃ line, line ∈ lines ∧ malformed py_int py_float line) ∨
     ∃ ts, Forall2 (wellformed py_int py_float) lines ts ∧
       (¬ (0 ∈ named ts ∧ ∀ i, i ∈ named ts → 0 ≤ i) ∨
        (∃ s ss, s ∈ named ts ∧ ss ∈ named ts ∧ ¬ given ts s ss) ∨
        (∃ s ss, (s < found_species c)%nat ∧ (ss < found_species c)%nat ∧
                 ¬ given ts (Z.of_nat s) (Z.of_nat ss)))).

(** the faults of a size-group file read as [bs]: a max below its min, or
    a group that starts at or below the end of the one before *)
Definition bad_groups_file (c : config) : Prop :=
  ∃ lines bs, cluster_groups_file c = Some lines ∧
    Groups.read_groups py_int lines = Ok bs ∧
    ((∃ i lo hi, bs !! i = Some (lo, hi) ∧ hi < lo) ∨
     (∃ i lo hi lo' hi', bs !! i = Some (lo, hi) ∧ bs !! S i = Some (lo', hi') ∧
                         lo' ≤ hi)).

End Run.

(** a run whose cutoff file names the species 1 only *)
Definition no_frame : Process.frame :=
  {| Process.res_mask := λ _ _, Nd.full [1; 1]%nat false;
     Process.headgroup_dists := λ _, [];
     Process.lip_mask_upper := λ _, Nd.full [1; 1]%nat false;
     Process.lip_mask_lower := λ _, Nd.full [1; 1]%nat false;
     Process.nb_lip_upper := 1; Process.nb_lip_lower := 1 |}.

Definition from_one : config :=
  {| nx_cutoff := Cutoffs.File ["1,1,8"%string];
     cluster_groups_file := None;
     cutoff_leaflet := false;
     density := false;
     proteins_nb := [2%nat]; found_length := [1%nat];
     frames := [(Nd.full [2; 2]%nat 1%Q, no_frame)] |}.

End MainWords.

Local Close Scope Z_scope.

(** ** Graphs *)

Module GraphWords.
Import Detect.

Section Graph.
Variable G : graph.

(** one step along an edge, inside the graph *)
Definition step (u w : nat) : Prop := edge G u w = true ∧ w < order G.

Definition reach : nat → nat → Prop := rtc step.

(** the invariant of the search from [v] *)
Record bfs_inv (v : nat) (seen level : list nat) : Prop := {
  inv_nodup : NoDup seen;
  inv_seen : ∀ u, u ∈ seen → reach v u;
  inv_level : ∀ u, u ∈ level → reach v u;
  inv_next : ∀ u w, u ∈ seen → step u w → w ∈ seen ∨ w ∈ level;
}.

End Graph.

End GraphWords.

(** ** Proteins within the cutoff of each other *)

(** the species of a protein, counted off along [proteins_nb] *)
Fixpoint species_at (proteins_nb : list nat) (p : nat) : nat :=
  match proteins_nb with
  | [] => 0
  | n :: rest => if p <? n then 0 else S (species_at rest (p - n))
  end.

(** the cutoff the detector uses for a pair of species *)
Definition cutoff_of (nb_species : nat) (cut : Cutoffs.t) (s ss : nat) : option Q :=
  if Cutoffs.nx_cutoff_file cut && (1 <? nb_species)
  then Cutoffs.cog_cutoff_values cut !! (Z.of_nat s, Z.of_nat ss)
  else Cutoffs.nx_cutoff cut.

(** [distance[i][j] < cutoff] for the species pair of [i] and [j] *)
Definition within (proteins_nb : list nat) (cut : Cutoffs.t) (dist : Nd.t Q)
    (i j : nat) : bool :=
  match cutoff_of (length proteins_nb) cut
          (species_at proteins_nb i) (species_at proteins_nb j) with
  | Some c => negb (Qle_bool c (Nd.item dist [i; j]))
  | None => false
  end.

(** every cutoff the detector will look up is there *)
Definition cutoffs_ready (nb_species : nat) (cut : Cutoffs.t) : Prop :=
  if Cutoffs.nx_cutoff_file cut && (1 <? nb_species)
  then ∀ s ss, s < nb_species → ss < nb_species →
               is_Some (Cutoffs.cog_cutoff_values cut !! (Z.of_nat s, Z.of_nat ss))
  else is_Some (Cutoffs.nx_cutoff cut).

Module DetectWords.
Import Topology Detect.

Section Connectivity.
Variable counts : list nat.
Variable cut : Cutoffs.t.
Variable dist : Nd.t Q.

(** the blocks of species [s] put side by side, up to species [t] *)
Definition row_inv (s cs t : nat) (acc : Nd.t bool) : Prop :=
  Nd.shape acc = [cs; p_start counts t] ∧
  ∀ i k, i < cs → k < p_start counts t →
         Nd.item acc [i; k] = within counts cut dist (p_start counts s + i) k.

(** the rows of the species up to [t] put one under the other *)
Definition rows_inv (t : nat) (acc : Nd.t bool) : Prop :=
  Nd.shape acc = [p_start counts t; sum_list counts] ∧
  ∀ i k, i < p_start counts t → k < sum_list counts →
         Nd.item acc [i; k] = within counts cut dist i k.

End Connectivity.

End DetectWords.

(** ** Accumulators *)

(** [m[i][j] = m[j][i]] throughout *)
Definition symmetric (m : Nd.t nat) : Prop :=
  ∀ i j, Nd.item m [i; j] = Nd.item m [j; i].

(** [(min(p, pp), max(p, pp))] *)
Definition unordered (p pp : nat) : nat * nat := (p `min` pp, p `max` pp).

Module ProcessWords.
Import Process.

(** what the residue accumulators' updates leave alone *)
Definition only_residues (a a' : acc) : Prop :=
  proteins_size a' = proteins_size a ∧ proteins_group a' = proteins_group a ∧
  proteins_nb_neighbours a' = proteins_nb_neighbours a ∧
  proteins_ctcts_prot a' = proteins_ctcts_prot a ∧
  clusters_comp a' = clusters_comp a.

(** what the treatment of pairs and proteins leaves alone *)
Definition same_labels (a a' : acc) : Prop :=
  proteins_size a' = proteins_size a ∧ proteins_group a' = proteins_group a ∧
  clusters_comp a' = clusters_comp a.

(** from [t] to [t'] while the neighbours [l] of [p] are gone through *)
Definition treated_step (p : nat) (l : list nat) (t t' : list (nat * nat)) : Prop :=
  (NoDup t → NoDup t') ∧
  (∀ x, x ∈ t → x ∈ t') ∧
  (∀ pp, pp ∈ l → unordered p pp ∈ t') ∧
  (∀ x, x ∈ t' → x ∈ t ∨ ∃ pp, pp ∈ l ∧ x = unordered p pp).

Section Frame.
Variable network : Detect.graph.

(** the same over the proteins of a cluster *)
Definition treated_all (cluster : list nat) (t t' : list (nat * nat)) : Prop :=
  (NoDup t → NoDup t') ∧
  (∀ x, x ∈ t → x ∈ t') ∧
  (∀ p pp, p ∈ cluster → pp ∈ Detect.neighbors network p → unordered p pp ∈ t') ∧
  (∀ x, x ∈ t' →
        x ∈ t ∨ ∃ p pp, p ∈ cluster ∧ pp ∈ Detect.neighbors network p ∧
                        x = unordered p pp).

End Frame.

End ProcessWords.

(** the sum of [f] over every index of an extent *)
Definition total (sh : list nat) (f : list nat → nat) : nat :=
  sum_list (f <$> Nd.indices sh).

(** [r'] is [r] after [r[m] += 1] *)
Definition added (m : Nd.t bool) (r r' : Nd.t nat) : Prop :=
  Nd.shape r = Nd.shape m ∧ Nd.shape r' = Nd.shape r ∧
  ∀ j, Nd.item r' j = Nd.item r j + (if Nd.item m j then 1 else 0).

(** [d[k][k2]] when both keys are there *)
Definition lookup2 `{Countable K, Countable K2} {V}
    (d : gmap K (gmap K2 V)) (k : K) (k2 : K2) : option V :=
  d !! k ≫= (.!! k2).

(** what the treatment of a pair of proteins of the species [ps] and [pp_s]
    with the contact mask [m] adds to a matrix of residue contacts *)
Definition contribution (ps pp_s : nat) (m : Nd.t bool) (r r' : Nd.t nat) : Prop :=
  if ps =? pp_s
  then (∀ j, Nd.item r' j = Nd.item r j + (if Nd.item m j then 1 else 0)
                            + (if Nd.item (Nd.transpose m) j then 1 else 0)) ∧
       Nd.sum r' = Nd.sum r + 2 * Nd.count m
  else (∀ j, Nd.item r' j = Nd.item r j + (if Nd.item m j then 1 else 0)) ∧
       Nd.sum r' = Nd.sum r + Nd.count m.

(** [x] is the least entry of [row] *)
Definition least (row : list Q) (x : Q) : Prop :=
  x ∈ row ∧ ∀ y, y ∈ row → (x <= y)%Q.

(** [d] is what an atom with these distances to the headgroups of the lower
    and of the upper leaflet gets: the least distance to the upper ones
    minus the least distance to the lower ones *)
Definition delta_of (atom : list Q * list Q) (d : Q) : Prop :=
  ∃ dist_min_lower dist_min_upper,
    least atom.1 dist_min_lower ∧ least atom.2 dist_min_upper ∧
    d = (dist_min_upper - dist_min_lower)%Q.

(** every tuple under a size sums to that size, and is counted at least once *)
Definition comp_ok (comp : gmap Z (gmap (list nat) nat)) : Prop :=
  ∀ size inner t count,
    comp !! size = Some inner → inner !! t = Some count →
    Z.of_nat (sum_list t) = size ∧ 1 ≤ count.

(** no count is lost or lowered *)
Definition comp_le (comp comp' : gmap Z (gmap (list nat) nat)) : Prop :=
  ∀ size inner t count,
    comp !! size = Some inner → inner !! t = Some count →
    ∃ inner' count', comp' !! size = Some inner' ∧ inner' !! t = Some count' ∧
                     count ≤ count'.

(** ** Statistics *)

(** [r] is the matrix of counts [m] as percentages of its total: with a
    total above zero each entry is divided by the total and multiplied by
    100, and the entries add up to 100; with a total of zero it is [m], all
    zeros *)
Definition percent_of (m : Nd.t nat) (r : Nd.t Q) : Prop :=
  Nd.shape r = Nd.shape m ∧
  ((0 < Nd.sum m)%nat →
   (Stats.qsum r == 100)%Q ∧
   ∀ j, (Nd.item r j
         == inject_Z (Z.of_nat (Nd.item m j)) / inject_Z (Z.of_nat (Nd.sum m)) * 100)%Q) ∧
  (Nd.sum m = 0%nat →
   r = Stats.to_float m ∧ ∀ j, j ∈ Nd.indices (Nd.shape m) → Nd.item r j = 0%Q).

(** the three matrices of a species pair in [out] are those of [a] as
    percentages *)
Definition normalised_at (e : Process.env) (a : Process.acc) (out : Stats.contacts)
    (key : nat * nat) : Prop :=
  (∃ m r, Process.proteins_ctcts_res a !! key = Some m ∧
          Stats.res out !! key = Some r ∧ percent_of m r) ∧
  (∀ c_size m,
     lookup2 (Process.proteins_ctcts_res_size a) key c_size = Some m →
     ∃ r, lookup2 (Stats.res_size out) key c_size = Some r ∧ percent_of m r) ∧
  (∀ g g_index,
     Process.groups e = Some g → g_index < Groups.groups_number g →
     ∃ m r, lookup2 (Process.proteins_ctcts_res_group a) key g_index = Some m ∧
            lookup2 (Stats.res_group out) key g_index = Some r ∧ percent_of m r).

(** the accumulators hold the matrices of a species pair *)
Definition allocated (e : Process.env) (a : Process.acc) (key : nat * nat) : Prop :=
  is_Some (Process.proteins_ctcts_res a !! key) ∧
  is_Some (Process.proteins_ctcts_res_size a !! key) ∧
  ∀ g g_index,
    Process.groups e = Some g → g_index < Groups.groups_number g →
    is_Some (lookup2 (Process.proteins_ctcts_res_group a) key g_index).

(** a computation that does not end on a division by zero *)
Definition divides_safely {A} (r : result A) : Prop := r ≠ Raise "ZeroDivisionError".

Module StatsWords.
Import Process Stats.

Section Pair.
Variable a : acc.
Variable key : nat * nat.

(** the body of [for g_index in range(0, groups_number)] *)
Definition group_step (acc : gmap nat (Nd.t Q)) (g_index : nat)
  : result (gmap nat (Nd.t Q)) :=
  inner ← getitem (proteins_ctcts_res_group a) key;
  m ← getitem inner g_index;
  m ← percentages m;
  Ok (<[g_index := m]> acc).

End Pair.

(** the sum of a list of rationals *)
Definition qtotal (xs : list Q) : Q := foldr Qplus 0%Q xs.

(** the fraction of a species in a cluster of composition [comp] *)
Definition fraction (c_size : Z) (comp : list nat) (s_index : nat) : Q :=
  (of_nat (default 0%nat (comp !! s_index)) / inject_Z c_size)%Q.

(** the fractions of a species over the clusters of a size, each
    composition as often as it was seen *)
Definition samples (c_size : Z) (items : list (list nat * nat)) (s_index : nat)
  : list Q :=
  item ← items; replicate item.2 (fraction c_size item.1 s_index).

(** [tmp_n], [tmp_mean] and [tmp_M2] of a species *)
Definition view (w : welford) (s_index : nat) : option (nat * Q * Q) :=
  n ← tmp_n w !! s_index;
  mean ← tmp_mean w !! s_index;
  M2 ← tmp_M2 w !! s_index;
  Some (n, mean, M2).

(** the update of the three by one more value *)
Definition welford_update (t : nat * Q * Q) (x : Q) : nat * Q * Q :=
  let n := S t.1.1 in
  let delta := (x - t.1.2)%Q in
  let mean := (t.1.2 + delta / of_nat n)%Q in
  (n, mean, (t.2 + delta * (x - mean))%Q).

(** the three are the number of the values [xs], their mean and the sum of
    their squared deviations from it *)
Definition moments (xs : list Q) (t : nat * Q * Q) : Prop :=
  t.1.1 = length xs ∧
  (t.1.2 * of_nat (length xs) == qtotal xs)%Q ∧
  (t.2 == qtotal ((λ x, (x - t.1.2) * (x - t.1.2))%Q <$> xs))%Q.

(** the fractions of a species over the clusters of the sizes of a group *)
Definition group_samples (g : Groups.t) (comp : gmap Z (gmap (list nat) nat))
    (sizes : list Z) (g_index s_index : nat) : list Q :=
  c_size ← sizes;
  if decide (c_size ≠ (-1)%Z ∧ c_size ≠ 99999%Z ∧
             Groups.groups_sizes_dict g !! c_size = Some g_index)
  then samples c_size (map_to_list (default ∅ (comp !! c_size))) s_index
  else [].

End StatsWords.

(** Modelled from the spec: the rows reported for a size or a group, each
    species with its own mean times 100 and its own standard deviation
    times 100 *)
Definition report_own (sqrt : Q → Q) (nb_species : nat) (w : Stats.welford)
  : result (list Q * list Q) :=
  std ← map_each (λ s_index,
                    n ← Process.index (Stats.tmp_n w) s_index;
                    if (0 <? n)%nat then
                      M2 ← Process.index (Stats.tmp_M2 w) s_index;
                      v ← Stats.divide M2 (Stats.of_nat n);
                      Ok (sqrt v * 100)%Q
                    else Ok 0%Q)
                 (seq 0 nb_species);
  Ok ((λ m, m * 100)%Q <$> Stats.tmp_mean w, std).

(** ** Small systems *)

Module Examples.
Import Process.

(** the scenario of four proteins of one species: 0 and 1 are 5 apart, 2 and
    3 are 5 apart, every other pair 100, with a cutoff of 8 *)
Definition four_dist : Nd.t Q :=
  Nd.mk [4; 4] (λ idx, match idx with
                       | [0; 1] | [1; 0] | [2; 3] | [3; 2] => 5%Q
                       | [i; j] => if i =? j then 100000%Q else 100%Q
                       | _ => 0%Q
                       end).

Definition four_cut : Cutoffs.t :=
  {| Cutoffs.nx_cutoff_file := false; Cutoffs.nx_cutoff := Some 8%Q;
     Cutoffs.cog_cutoff_values := ∅ |}.

Definition four_env : env :=
  {| nb_species := 1; nb_proteins := 4; nb_frames_to_process := 1;
     prot_index2sindex := Topology.prot_index2sindex [4]; proteins_length := [2];
     groups := None |}.

Definition four_frame : frame :=
  {| res_mask := λ _ _, Nd.mk [2; 2] (λ idx, match idx with [0; 0] => true | _ => false end);
     headgroup_dists := λ _, [];
     lip_mask_upper := λ _, Nd.full [2; 1] false;
     lip_mask_lower := λ _, Nd.full [2; 1] false;
     nb_lip_upper := 1; nb_lip_lower := 1 |}.

(** the run of the four proteins, one frame *)
Definition four_config : Main.config :=
  {| Main.nx_cutoff := Cutoffs.Number 8%Q;
     Main.cluster_groups_file := None;
     Main.cutoff_leaflet := false;
     Main.density := false;
     Main.proteins_nb := [4]; Main.found_length := [2];
     Main.frames := [(four_dist, four_frame)] |}.

(** two proteins of one species, two residues each, one group of sizes *)
Definition pair_env : env :=
  {| nb_species := 1; nb_proteins := 2; nb_frames_to_process := 1;
     prot_index2sindex := [0; 0]; proteins_length := [2];
     groups := Some {| Groups.groups_number := 1;
                       Groups.groups_boundaries := [(1, 2)%Z];
                       Groups.groups_sizes_dict := {[ 1%Z := 0; 2%Z := 0 ]} |} |}.

Definition pair_frame : frame :=
  {| res_mask := λ _ _, Nd.mk [2; 2] (λ idx, match idx with [0; 1] => true | _ => false end);
     headgroup_dists := λ _, [];
     lip_mask_upper := λ _, Nd.full [2; 1] false;
     lip_mask_lower := λ _, Nd.full [2; 1] false;
     nb_lip_upper := 1; nb_lip_lower := 1 |}.

(** the two proteins of [pair_env] with an atom each, nearer to the lower
    leaflet *)
Definition lower_frame : frame :=
  {| res_mask := res_mask pair_frame;
     headgroup_dists := λ _, [([1%Q; 2%Q], [4%Q; 3%Q])];
     lip_mask_upper := lip_mask_upper pair_frame;
     lip_mask_lower := lip_mask_lower pair_frame;
     nb_lip_upper := 2; nb_lip_lower := 2 |}.

(** two proteins in contact *)
Definition both : Detect.graph := {| Detect.order := 2; Detect.edge := λ _ _, true |}.

(** clusters of one protein seen twice, once of the first and once of the
    second of three species *)
Definition three_comp : gmap Z (gmap (list nat) nat) :=
  {[ 1%Z := {[ [1; 0; 0] := 1; [0; 1; 0] := 1 ]} ]}.

(** the square root of a fraction of two squares *)
Definition exact_sqrt (q : Q) : Q := Qmake (Z.sqrt (Qnum q)) (Pos.sqrt (Qden q)).

End Examples.

(** ** More small systems *)

Module Samples.
Import Process Main.

(** two proteins, 5 apart *)
Definition two_dist : Nd.t Q :=
  Nd.mk [2; 2] (λ idx, match idx with
                       | [0; 1] | [1; 0] => 5%Q
                       | _ => 100000%Q
                       end).

(** two proteins of one species, with a cutoff file of one line *)
Definition one_species : config :=
  {| nx_cutoff := Cutoffs.File ["0,0,8"%string];
     cluster_groups_file := None;
     cutoff_leaflet := false;
     density := false;
     proteins_nb := [2]; found_length := [2];
     frames := [(two_dist, Examples.pair_frame)] |}.

(** four proteins in two pairs: 0 with 1, and 2 with 3 *)
Definition two_pairs : Detect.graph :=
  {| Detect.order := 4;
     Detect.edge := λ i j, (i / 2 =? j / 2) && negb (i =? j) |}.

(** the two proteins of [one_species] with the density method *)
Definition dense : config :=
  {| nx_cutoff := Cutoffs.Number 8%Q;
     cluster_groups_file := None;
     cutoff_leaflet := false;
     density := true;
     proteins_nb := [2]; found_length := [2];
     frames := frames one_species |}.

(** the two proteins of [pair_env] with one group, of the size 1: a cluster
    of two is of the group "other", of index 1 *)
Definition other_env : env :=
  {| nb_species := 1; nb_proteins := 2; nb_frames_to_process := 1;
     prot_index2sindex := [0; 0]; proteins_length := [2];
     groups := Some {| Groups.groups_number := 1;
                       Groups.groups_boundaries := [(1, 1)%Z];
                       Groups.groups_sizes_dict := {[ 1%Z := 0; 2%Z := 1 ]} |} |}.

(** the two proteins of [pair_env] with an atom each, nearer to the upper
    leaflet *)
Definition upper_frame : frame :=
  {| res_mask := res_mask Examples.pair_frame;
     headgroup_dists := λ _, [([4%Q; 3%Q], [1%Q; 2%Q])];
     lip_mask_upper := lip_mask_upper Examples.pair_frame;
     lip_mask_lower := lip_mask_lower Examples.pair_frame;
     nb_lip_upper := 2; nb_lip_lower := 2 |}.

(** the same two proteins across the membrane: the atom of the first is
    nearer to the lower leaflet, the atom of the second to the upper one.
    Of the two upper headgroups, the first residue of the first protein
    touches one and the first residue of the second protein both; the
    second residue of the second protein touches a lower headgroup. *)
Definition span_frame : frame :=
  {| res_mask := res_mask Examples.pair_frame;
     headgroup_dists := λ p, if p =? 0 then [([1%Q; 2%Q], [4%Q; 3%Q])]
                             else [([4%Q; 3%Q], [1%Q; 2%Q])];
     lip_mask_upper := λ p, Nd.mk [2; 2] (λ idx, match idx with
                                                 | [0; 1] => true
                                                 | [0; 0] => p =? 1
                                                 | _ => false
                                                 end);
     lip_mask_lower := λ p, Nd.mk [2; 2] (λ idx, match idx with
                                                 | [1; 0] => p =? 1
                                                 | _ => false
                                                 end);
     nb_lip_upper := 2; nb_lip_lower := 2 |}.

End Samples.

(** ** The tables of residue contacts *)

(** the same keys in the tables of residue contacts of [a] and [a'] *)
Definition tables_kept (a a' : Process.acc) : Prop :=
  (∀ k, is_Some (Process.proteins_ctcts_res a !! k)
        ↔ is_Some (Process.proteins_ctcts_res a' !! k)) ∧
  (∀ k, is_Some (Process.proteins_ctcts_res_size a !! k)
        ↔ is_Some (Process.proteins_ctcts_res_size a' !! k)) ∧
  (∀ k j, is_Some (lookup2 (Process.proteins_ctcts_res_group a) k j)
          ↔ is_Some (lookup2 (Process.proteins_ctcts_res_group a') k j)).

(** the matrices by group are those of the declared groups *)
Definition groups_bounded (e : Process.env) (a : Process.acc) : Prop :=
  ∀ g k j, Process.groups e = Some g →
           is_Some (lookup2 (Process.proteins_ctcts_res_group a) k j) →
           j < Groups.groups_number g.

(** ** The statistics of the frames *)

Module SummaryWords.
Import Process Summary.

(** the entry of a frame under a key *)
Definition entry {A} (d : gmap Z (Nd.t A)) (k : Z) (f_index : nat) : option A :=
  arr ← d !! k;
  if Nd.inb [f_index] (Nd.shape arr) then Some (Nd.item arr [f_index]) else None.

(** the sizes that the proteins have in a frame *)
Definition sizes_of (a : acc) (f_index proteins : nat) : list Z :=
  (λ p, Nd.item (proteins_size a) [f_index; p]) <$> seq 0 proteins.

(** the proteins of a frame that have the size [c_size], in % *)
Definition share (proteins : nat) (tmp_sizes : list Z) (c_size : Z) : Q :=
  (inject_Z (count tmp_sizes c_size) / Stats.of_nat proteins * 100)%Q.

(** the number stored for the size [c_size] *)
Definition number (tmp_sizes : list Z) (c_size : Z) : Z :=
  if counted c_size then Z.quot (count tmp_sizes c_size) c_size
  else count tmp_sizes c_size.

(** a size that takes part in the search of the biggest and of the most
    represented cluster *)
Definition present (tmp_sizes : list Z) (c_size : Z) : Prop :=
  (0 < number tmp_sizes c_size)%Z ∧ counted c_size = true.

(** the clusters of a size *)
Definition of_size (cs : list (list nat)) (c_size : Z) : list (list nat) :=
  filter (λ c, Z.of_nat (length c) = c_size) cs.

(** the proteins of a frame carry the sizes of the clusters [cs], which
    hold each of them once *)
Definition sized_by (a : acc) (f_index proteins : nat) (cs : list (list nat)) : Prop :=
  mjoin cs ≡ₚ seq 0 proteins ∧
  ∀ c p, c ∈ cs → p ∈ c → Nd.item (proteins_size a) [f_index; p] = Z.of_nat (length c).

(** what the sizes of a frame leave alone: the entries of the other frames,
    and the tables of the biggest and of the most represented cluster *)
Definition others_kept (f_index : nat) (t t' : tables) : Prop :=
  (∀ k f', f' ≠ f_index → entry (clusters_nb t') k f' = entry (clusters_nb t) k f') ∧
  (∀ k f', f' ≠ f_index → entry (clusters_pc t') k f' = entry (clusters_pc t) k f') ∧
  clusters_biggest t' = clusters_biggest t ∧ clusters_mostrep t' = clusters_mostrep t.

(** [r] holds the biggest of the sizes of [l] present in the frame, or
    zeros when none is *)
Definition biggest_among (proteins : nat) (tmp_sizes : list Z) (l : list Z)
    (r : running) : Prop :=
  (tmp_max_size r = 0%Z ∧ tmp_max_nb r = 0%Z ∧ tmp_max_pc r = 0%Q ∧
   ∀ c, c ∈ l → ¬ present tmp_sizes c) ∨
  (tmp_max_size r ∈ l ∧ present tmp_sizes (tmp_max_size r) ∧
   tmp_max_nb r = number tmp_sizes (tmp_max_size r) ∧
   tmp_max_pc r = share proteins tmp_sizes (tmp_max_size r) ∧
   ∀ c, c ∈ l → present tmp_sizes c → (c ≤ tmp_max_size r)%Z).

(** [r] holds the size of [l] that most proteins of the frame have, or
    zeros when none is present *)
Definition mostrep_among (proteins : nat) (tmp_sizes : list Z) (l : list Z)
    (r : running) : Prop :=
  (tmp_mostrep_size r = 0%Z ∧ tmp_mostrep_nb r = 0%Z ∧ tmp_mostrep_pc r = 0%Q ∧
   ∀ c, c ∈ l → ¬ present tmp_sizes c) ∨
  (tmp_mostrep_size r ∈ l ∧ present tmp_sizes (tmp_mostrep_size r) ∧
   tmp_mostrep_nb r = number tmp_sizes (tmp_mostrep_size r) ∧
   tmp_mostrep_pc r = share proteins tmp_sizes (tmp_mostrep_size r) ∧
   ∀ c, c ∈ l → present tmp_sizes c →
        (share proteins tmp_sizes c <= tmp_mostrep_pc r)%Q).

(** the three entries of a frame in [clusters_biggest] or
    [clusters_mostrep] *)
Definition stored (b : best) (f_index : nat) (v_nb : Z) (v_pc : Q) (v_size : Z) : Prop :=
  Nd.get (nb b) [f_index] = Ok v_nb ∧ Nd.get (pc b) [f_index] = Ok v_pc ∧
  Nd.get (size b) [f_index] = Ok v_size.

(** the tables hold the statistics of the frame [f_index] *)
Definition frame_done (e : env) (a : acc) (f_index : nat) (t : tables) : Prop :=
  ∃ tmp_sizes r,
    row a f_index = Ok tmp_sizes ∧
    (∀ c_size, c_size ∈ Stats.cluster_sizes_sampled a →
       (counted c_size = true → c_size ≠ 0%Z) ∧
       entry (clusters_nb t) c_size f_index = Some (number tmp_sizes c_size) ∧
       entry (clusters_pc t) c_size f_index
       = Some (share (nb_proteins e) tmp_sizes c_size)) ∧
    biggest_among (nb_proteins e) tmp_sizes (Stats.cluster_sizes_sampled a) r ∧
    mostrep_among (nb_proteins e) tmp_sizes (Stats.cluster_sizes_sampled a) r ∧
    stored (clusters_biggest t) f_index (tmp_max_nb r) (tmp_max_pc r) (tmp_max_size r) ∧
    stored (clusters_mostrep t) f_index
      (tmp_mostrep_nb r) (tmp_mostrep_pc r) (tmp_mostrep_size r).

End SummaryWords.

(** ** The sizes of the proteins after a run *)

Module RunWords.
Import Process.

(** what the treatment of a cluster writes as the size of its proteins:
    with the leaflets, -1 or 99999 for an interfacial cluster; otherwise the
    number of its proteins, which has a group when groups are used *)
Definition labelled (e : env) (leaflets : bool) (cluster : list nat) (v : Z) : Prop :=
  (leaflets = true ∧ (v = (-1)%Z ∨ v = 99999%Z)) ∨
  (v = Z.of_nat (length cluster) ∧
   ∀ g, groups e = Some g → is_Some (Groups.groups_sizes_dict g !! v)).

(** the size of a protein in a frame gone through *)
Definition sized (e : env) (leaflets : bool) (v : Z) : Prop :=
  (leaflets = true ∧ (v = (-1)%Z ∨ v = 99999%Z)) ∨
  ((1 ≤ v ≤ Z.of_nat (nb_proteins e))%Z ∧
   ∀ g, groups e = Some g → is_Some (Groups.groups_sizes_dict g !! v)).

End RunWords.

(** ** The contacts of a transmembrane cluster *)

Module LeafletWords.
Import Process.

(** [d[s][k][j]], the contacts of the residue [j] of the species [s] under
    the key [k]; zero while [d[s]] has no key [k] *)
Definition lip_entry `{Countable K} (d : gmap nat (gmap K (Nd.t nat)))
    (s : nat) (k : K) (j : nat) : nat :=
  match lookup2 d s k with
  | Some r => Nd.item r [j]
  | None => 0
  end.

(** the headgroups within reach of the residue [j] of a protein, in its
    mask [m] against the [nb_lip] headgroups of a leaflet:
    [np.sum(pop, axis = 1)[j]] *)
Definition residue_lipids (m : Nd.t bool) (nb_lip j : nat) : nat :=
  sum_list ((λ k, if Nd.item m [j; k] then 1 else 0) <$> seq 0 nb_lip).

(** the same over the proteins of the species [s] of a cluster *)
Definition cluster_lipids (e : env) (mask : nat → Nd.t bool) (nb_lip : nat)
    (cluster : list nat) (s j : nat) : nat :=
  sum_list ((λ p, if decide (prot_index2sindex e !! p = Some s)
                  then residue_lipids (mask p) nb_lip j else 0) <$> cluster).

(** from [d] to [d']: under the key [k], the residue [j] of each species [s]
    has [more s j] more contacts; under every other key, what it had *)
Definition grown `{Countable K} (d d' : gmap nat (gmap K (Nd.t nat))) (k : K)
    (more : nat → nat → nat) : Prop :=
  ∀ s c j, lip_entry d' s c j
           = lip_entry d s c j + (if decide (c = k) then more s j else 0).

(** from [a] to [a'], the four tables of lipid contacts have grown by the
    contacts of the proteins [l] with the leaflets of the frame, under the
    size [c_size] and, with groups, under its group *)
Definition lipids_grown (e : env) (fr : frame) (c_size : Z) (l : list nat)
    (a a' : acc) : Prop :=
  grown (lip_size_upper a) (lip_size_upper a') c_size
        (cluster_lipids e (lip_mask_upper fr) (nb_lip_upper fr) l) ∧
  grown (lip_size_lower a) (lip_size_lower a') c_size
        (cluster_lipids e (lip_mask_lower fr) (nb_lip_lower fr) l) ∧
  ∀ g g_index, groups e = Some g → group_of g c_size = Ok g_index →
    grown (lip_group_upper a) (lip_group_upper a') g_index
          (cluster_lipids e (lip_mask_upper fr) (nb_lip_upper fr) l) ∧
    grown (lip_group_lower a) (lip_group_lower a') g_index
          (cluster_lipids e (lip_mask_lower fr) (nb_lip_lower fr) l).

(** the proteins of the species [s] in a cluster *)
Definition of_species (e : env) (cluster : list nat) (s : nat) : nat :=
  length (filter (λ p, prot_index2sindex e !! p = Some s) cluster).

(** what the visit of [p] adds to its tally of neighbours of the species
    [s]: one for each neighbour of that species, and one more when [p] is
    among its own neighbours, met then both as the protein and as the
    neighbour *)
Definition neighbours_of_species (e : env) (G : Detect.graph) (p s : nat) : nat :=
  sum_list ((λ pp, if decide (prot_index2sindex e !! pp = Some s)
                   then (if decide (pp = p) then 2 else 1) else 0)
            <$> Detect.neighbors G p).

(** the pairs treated so far are those of the proteins [P] gone through
    with their neighbours *)
Definition pairs_of (G : Detect.graph) (P : list nat) (t : list (nat * nat)) : Prop :=
  ∀ q, q ∈ t ↔ ∃ a b, a ∈ P ∧ b ∈ Detect.neighbors G a ∧ q = unordered a b.

(** what the visits of the proteins [P] have added to the tally of [p] for
    the species [s], on account of its neighbour [pp] *)
Definition tallied (e : env) (P : list nat) (p s pp : nat) : nat :=
  if decide (prot_index2sindex e !! pp = Some s ∧ (p ∈ P ∨ pp ∈ P))
  then (if decide (pp = p) then 2 else 1) else 0.

(** the same over the neighbours of [p] *)
Definition tally (e : env) (G : Detect.graph) (P : list nat) (p s : nat) : nat :=
  sum_list (tallied e P p s <$> Detect.neighbors G p).

(** an undirected graph *)
Definition undirected (G : Detect.graph) : Prop :=
  ∀ i j, Detect.edge G i j = Detect.edge G j i.

(** nodes of the graph, each once *)
Definition nodes_once (G : Detect.graph) (cluster : list nat) : Prop :=
  NoDup cluster ∧ ∀ p, p ∈ cluster → p < Detect.order G.

(** the tables of lipid contacts are those of [a] *)
Definition lipids_kept (a a' : acc) : Prop :=
  lip_size_upper a' = lip_size_upper a ∧ lip_size_lower a' = lip_size_lower a ∧
  lip_group_upper a' = lip_group_upper a ∧ lip_group_lower a' = lip_group_lower a.

(** [a] with the tables of lipid contacts of [x] *)
Definition put_lipids (x a : acc) : acc :=
  {| proteins_size := proteins_size a; proteins_group := proteins_group a;
     proteins_nb_neighbours := proteins_nb_neighbours a;
     proteins_ctcts_prot := proteins_ctcts_prot a;
     proteins_ctcts_res := proteins_ctcts_res a;
     proteins_ctcts_res_size := proteins_ctcts_res_size a;
     proteins_ctcts_res_group := proteins_ctcts_res_group a;
     lip_size_upper := lip_size_upper x; lip_size_lower := lip_size_lower x;
     lip_group_upper := lip_group_upper x; lip_group_lower := lip_group_lower x;
     clusters_comp := clusters_comp a |}.

End LeafletWords.

(** ** The tables of the statistics *)

Module ReadyWords.
Import Process Summary.

(** an array over [n] frames under each of the keys *)
Definition has_rows {A} (n : nat) (d : gmap Z (Nd.t A)) (keys : list Z) : Prop :=
  ∀ k, k ∈ keys → ∃ arr, d !! k = Some arr ∧ Nd.shape arr = [n].

(** the three arrays of the biggest or most represented cluster, over [n]
    frames *)
Definition best_rows (n : nat) (b : best) : Prop :=
  Nd.shape (nb b) = [n] ∧ Nd.shape (pc b) = [n] ∧ Nd.shape (size b) = [n].

(** the keys of the tables by group *)
Definition group_keys (e : env) : list Z :=
  match groups e with
  | None => []
  | Some g => Groups.range (-1) (Z.of_nat (Groups.groups_number g) + 2)
  end.

(** the tables as [struct_clusters] and [get_sizes_sampled] make them, and
    as the statistics of a frame leave them *)
Definition ready (e : env) (a : acc) (t : tables) : Prop :=
  let n := nb_frames_to_process e in
  has_rows n (clusters_nb t) (Stats.cluster_sizes_sampled a) ∧
  has_rows n (clusters_pc t) (Stats.cluster_sizes_sampled a) ∧
  has_rows n (clusters_nb_groups t) (group_keys e) ∧
  has_rows n (clusters_pc_groups t) (group_keys e) ∧
  best_rows n (clusters_biggest t) ∧ best_rows n (clusters_mostrep t).

(** a size sampled that the statistics can go through *)
Definition countable (e : env) (c_size : Z) : Prop :=
  counted c_size = true →
  c_size ≠ 0%Z ∧
  ∀ g, groups e = Some g →
       ∃ g_index, Groups.groups_sizes_dict g !! c_size = Some g_index ∧
                  g_index ≤ S (Groups.groups_number g).

End ReadyWords.

(** * Properties *)

Local Open Scope Z_scope.

(** ** The result monad *)

Lemma bind_Ok {A B} (r : result A) (k : A → result B) b :
  (r ≫= k) = Ok b → ∃ a, r = Ok a ∧ k a = Ok b.
Proof. destruct r; simpl; intros; [eauto | done | done]. Qed.

Lemma bind_Ok_l {A B} (r : result A) (k : A → result B) a :
  r = Ok a → (r ≫= k) = k a.
Proof. by intros ->. Qed.

Lemma map_each_Ok {A B} (f : A → result B) xs ys :
  map_each f xs = Ok ys → Forall2 (λ x y, f x = Ok y) xs ys.
Proof.
  revert ys. induction xs as [|x xs IH]; simpl; intros ys H.
  - by inversion H.
  - apply bind_Ok in H as (y & Hy & H). apply bind_Ok in H as (ys' & Hys & H).
    inversion H; subst. constructor; auto.
Qed.

Lemma Forall2_map_each {A B} (f : A → result B) xs ys :
  Forall2 (λ x y, f x = Ok y) xs ys → map_each f xs = Ok ys.
Proof. induction 1 as [|x y xs ys Hxy _ IH]; simpl; [done|]. by rewrite Hxy, IH. Qed.

(** ** Size groups *)

Module GroupsFacts.
Import Groups GroupsWords.

Lemma lookup_assign g sizes d k :
  assign g sizes d !! k = if decide (k ∈ sizes) then Some g else d !! k.
Proof.
  unfold assign. revert d. induction sizes as [|x xs IH]; intros d.
  - destruct (decide (k ∈ [])) as [H|H]; [by apply not_elem_of_nil in H | done].
  - change (foldl (λ d tmp_size, <[tmp_size:=g]> d) (<[x:=g]> d) xs !! k
            = if decide (k ∈ x :: xs) then Some g else d !! k).
    rewrite IH.
    destruct (decide (k ∈ xs)) as [Hin|Hin], (decide (k ∈ x :: xs)) as [Hc|Hc];
      try done.
    + exfalso. apply Hc. by right.
    + apply elem_of_cons in Hc as [->|?]; [apply lookup_insert_eq | done].
    + rewrite lookup_insert_ne; [done|]. intros ->. apply Hc. left.
Qed.

Lemma elem_of_range a b k : k ∈ range a b ↔ a ≤ k < b.
Proof. unfold range. rewrite elem_of_seqZ. lia. Qed.

Lemma lookup_assign_range g a b d k :
  assign g (range a b) d !! k = if decide (a ≤ k < b) then Some g else d !! k.
Proof.
  rewrite lookup_assign.
  destruct (decide (k ∈ range a b)) as [H|H], (decide (a ≤ k < b)) as [H'|H'];
    rewrite elem_of_range in H; tauto.
Qed.

Lemma check_following_Ok prev bs :
  check_following prev bs = Ok tt ↔ increasing prev bs.
Proof.
  revert prev. induction bs as [|[b e] bs IH]; intros prev; simpl; [done|].
  destruct (Z.ltb_spec e b); [split; [done | lia]|].
  destruct (Z.leb_spec b prev); [split; [done | lia]|].
  rewrite IH. intuition lia.
Qed.

Lemma increasing_above prev bs i lo hi :
  increasing prev bs → bs !! i = Some (lo, hi) → prev < lo ∧ lo ≤ hi.
Proof.
  revert prev i. induction bs as [|[b e] bs IH]; intros prev i; simpl; [done|].
  intros (? & ? & Hinc). destruct i as [|i]; simpl.
  - intros [= -> ->]. lia.
  - intros Hi. destruct (IH _ _ Hinc Hi). lia.
Qed.

Lemma declared_untouched g0 bs d k :
  (∀ i lo hi, bs !! i = Some (lo, hi) → ¬ (lo ≤ k ≤ hi)) →
  declared g0 bs d !! k = d !! k.
Proof.
  revert g0 d. induction bs as [|[b e] bs IH]; intros g0 d Hout; simpl; [done|].
  rewrite IH by (intros i lo hi Hi; apply (Hout (S i) lo hi Hi)).
  rewrite lookup_assign_range, decide_False; [done|].
  specialize (Hout 0%nat b e eq_refl). lia.
Qed.

Lemma declared_inside prev g0 bs d i lo hi k :
  increasing prev bs → bs !! i = Some (lo, hi) → lo ≤ k ≤ hi →
  declared g0 bs d !! k = Some (g0 + i)%nat.
Proof.
  revert prev g0 d i. induction bs as [|[b e] bs IH]; intros prev g0 d i; simpl; [done|].
  intros (? & ? & Hinc) Hi Hk. destruct i as [|i]; simpl in Hi.
  - injection Hi as -> ->.
    rewrite declared_untouched.
    + rewrite lookup_assign_range, decide_True by lia. f_equal. lia.
    + intros j lo' hi' Hj. destruct (increasing_above _ _ _ _ _ Hinc Hj). lia.
  - rewrite (IH e (S g0) _ i Hinc Hi Hk). f_equal. lia.
Qed.

Lemma declared_Some g0 bs d k g :
  declared g0 bs d !! k = Some g →
  d !! k = Some g ∨
  ∃ i lo hi, g = (g0 + i)%nat ∧ bs !! i = Some (lo, hi) ∧ lo ≤ k ≤ hi.
Proof.
  revert g0 d. induction bs as [|[b e] bs IH]; intros g0 d; simpl; [auto|].
  intros H. apply IH in H as [H|(i & lo & hi & -> & Hi & Hk)].
  - rewrite lookup_assign_range in H. case_decide; [|auto].
    injection H as <-. right. exists 0%nat, b, e. split; [lia|]. split; [done|lia].
  - right. exists (S i), lo, hi. split; [lia|done].
Qed.

(** the largest key *)
Lemma foldr_max_spec x xs :
  foldr Z.max x xs ∈ x :: xs ∧ ∀ y, y ∈ x :: xs → y ≤ foldr Z.max x xs.
Proof.
  induction xs as [|z zs [IHin IHle]]; simpl.
  - split; [left|]. intros y Hy. apply list_elem_of_singleton in Hy. lia.
  - split.
    + destruct (Z.max_spec z (foldr Z.max x zs)) as [[_ ->]|[_ ->]].
      * apply elem_of_cons in IHin as [->|?]; [left | right; by right].
      * right; left.
    + intros y Hy. rewrite !elem_of_cons in Hy.
      assert (x ≤ foldr Z.max x zs) by (apply IHle; left).
      destruct Hy as [->|[->|Hy]]; [lia|lia|].
      assert (y ≤ foldr Z.max x zs) by (apply IHle; by right). lia.
Qed.

Lemma elem_of_keys (d : gmap Z nat) k : k ∈ (map_to_list d).*1 ↔ is_Some (d !! k).
Proof.
  rewrite list_elem_of_fmap. split.
  - intros ([k' v] & -> & H). apply elem_of_map_to_list in H. by eexists.
  - intros [v H]. exists (k, v). split; [done|]. by apply elem_of_map_to_list.
Qed.

Lemma max_key_intro (d : gmap Z nat) m :
  is_Some (d !! m) → (∀ k, is_Some (d !! k) → k ≤ m) → max_key d = Ok m.
Proof.
  intros Hm Hmax. unfold max_key.
  destruct ((map_to_list d).*1) as [|x xs] eqn:E.
  - apply elem_of_keys in Hm. rewrite E in Hm. by apply not_elem_of_nil in Hm.
  - destruct (foldr_max_spec x xs) as [Hin Hle]. f_equal.
    rewrite <- E in Hin, Hle. apply Z.le_antisymm.
    + apply Hmax. by apply elem_of_keys.
    + apply Hle. by apply elem_of_keys.
Qed.

Lemma declared_max prev bs :
  bs ≠ [] → increasing prev bs → max_key (declared 0 bs ∅) = Ok (last_end bs).
Proof.
  intros Hne Hinc.
  assert (∃ n lo, bs !! n = Some (lo, last_end bs) ∧ length bs = S n) as (n & lo & Hn & Hlen).
  { unfold last_end. destruct (last bs) as [[lo hi]|] eqn:E.
    - rewrite last_lookup in E. exists (pred (length bs)), lo. split; [done|].
      destruct bs; [done | simpl; lia].
    - apply last_None in E. done. }
  apply max_key_intro.
  - destruct (increasing_above _ _ _ _ _ Hinc Hn).
    rewrite (declared_inside prev 0 bs ∅ n lo (last_end bs)); [by eexists|done..|lia].
  - intros k [g Hk]. apply declared_Some in Hk as [Hk|(i & lo' & hi' & _ & Hi & Hk)].
    + by rewrite lookup_empty in Hk.
    + enough (hi' ≤ last_end bs) by lia.
      clear -Hinc Hi Hn Hlen. revert prev i n Hinc Hi Hn Hlen.
      generalize (last_end bs) as m.
      induction bs as [|[b e] bs IH]; intros m prev i n; simpl; [done|].
      intros (? & ? & Hinc) Hi Hn Hlen.
      destruct i as [|i], n as [|n]; simpl in *.
      * simplify_eq. lia.
      * simplify_eq. destruct (increasing_above _ _ _ _ _ Hinc Hn). lia.
      * destruct bs; [done | simpl in Hlen; lia].
      * eapply IH; eauto.
Qed.

End GroupsFacts.

Module GroupsFacts2.
Import Groups GroupsWords GroupsFacts.

Lemma max_key_Ok (d : gmap Z nat) m :
  max_key d = Ok m → is_Some (d !! m) ∧ ∀ k, is_Some (d !! k) → k ≤ m.
Proof.
  unfold max_key. destruct ((map_to_list d).*1) as [|x xs] eqn:E; [done|].
  intros [= <-]. destruct (foldr_max_spec x xs) as [Hin Hle].
  rewrite <- E in Hin, Hle. split; [by apply elem_of_keys|].
  intros k Hk. apply Hle. by apply elem_of_keys.
Qed.

Lemma sizes_dict_spec prev gn bs :
  bs ≠ [] → increasing prev bs →
  ∃ d, sizes_dict gn bs = Ok d ∧ ∀ k, d !! k = table_entry gn bs k.
Proof.
  intros Hne Hinc. unfold sizes_dict.
  pose proof (declared_max prev bs Hne Hinc) as Hmax.
  set (d1 := declared 0 bs ∅) in *. set (m := last_end bs) in *.
  rewrite Hmax. simpl.
  destruct (max_key_Ok _ _ Hmax) as [Hm Hle].
  set (d2 := assign gn (filter (λ tmp_size, d1 !! tmp_size = None) (range 1 m)) d1).
  assert (Hd2 : ∀ k, d2 !! k = match d1 !! k with
                               | Some g => Some g
                               | None => if decide (1 ≤ k < m) then Some gn else None
                               end).
  { intros k. unfold d2. rewrite lookup_assign.
    destruct (decide (k ∈ filter _ _)) as [H|H];
      rewrite list_elem_of_filter, elem_of_range in H.
    - destruct H as [-> ?]. by rewrite decide_True.
    - destruct (d1 !! k) eqn:E; [done|]. rewrite decide_False; [done|tauto]. }
  assert (Hmax2 : max_key d2 = Ok m).
  { apply max_key_intro.
    - rewrite Hd2. destruct Hm as [g ->]. by eexists.
    - intros k [g Hk]. rewrite Hd2 in Hk. destruct (d1 !! k) eqn:E.
      + apply Hle. by eexists.
      + case_decide; [lia|done]. }
  rewrite Hmax2. simpl. destruct (Z.eqb_spec m cap) as [Heq|Hneq]; simpl.
  - exists d2. split; [done|]. intros k. rewrite Hd2. unfold table_entry.
    change (declared 0 bs ∅) with d1. change (last_end bs) with m.
    destruct (d1 !! k); [done|].
    destruct (decide (1 ≤ k < m)), (decide (_ ∨ _)); try done; tauto.
  - eexists. split; [done|]. intros k.
    rewrite lookup_assign_range, Hd2. unfold table_entry.
    change (declared 0 bs ∅) with d1. change (last_end bs) with m.
    destruct (decide (m + 1 ≤ k < cap + 1)) as [Hk|Hk].
    + destruct (d1 !! k) eqn:E.
      * assert (k ≤ m) by (apply Hle; by eexists). lia.
      * rewrite decide_True; [done|]. right. split; [done|lia].
    + destruct (d1 !! k); [done|].
      destruct (decide (1 ≤ k < m)), (decide (_ ∨ _)); try done; [tauto|].
      exfalso. lia.
Qed.

Lemma check_boundaries_Ok bs :
  check_boundaries bs = Ok tt → bs ≠ [] ∧ ∃ prev, increasing prev bs.
Proof.
  destruct bs as [|[b e] bs]; simpl; [done|].
  destruct (Z.ltb_spec e b); [done|]. intros Hf%check_following_Ok.
  split; [done|]. exists (b - 1). simpl. split; [lia|]. split; [lia|done].
Qed.

Lemma initialise_groups_Ok py_int lines cfg :
  initialise_groups py_int lines = Ok cfg →
  read_groups py_int lines = Ok (groups_boundaries cfg) ∧
  check_boundaries (groups_boundaries cfg) = Ok tt ∧
  groups_number cfg = length lines ∧
  ∀ k, groups_sizes_dict cfg !! k
       = table_entry (groups_number cfg) (groups_boundaries cfg) k.
Proof.
  unfold initialise_groups. intros H.
  apply bind_Ok in H as (bs & Hbs & H).
  apply bind_Ok in H as ([] & Hchk & H).
  apply bind_Ok in H as (d & Hd & H). injection H as <-. simpl.
  destruct (check_boundaries_Ok _ Hchk) as [Hne [prev Hinc]].
  destruct (sizes_dict_spec prev (length lines) bs Hne Hinc) as (d' & Hd' & Hspec).
  rewrite Hd' in Hd. injection Hd as <-. done.
Qed.

Lemma initialise_groups_total py_int lines bs :
  read_groups py_int lines = Ok bs → check_boundaries bs = Ok tt →
  ∃ d, initialise_groups py_int lines
       = Ok {| groups_number := length lines; groups_boundaries := bs;
               groups_sizes_dict := d |}.
Proof.
  intros Hbs Hchk. unfold initialise_groups. rewrite Hbs. simpl. rewrite Hchk. simpl.
  destruct (check_boundaries_Ok _ Hchk) as [Hne [prev Hinc]].
  destruct (sizes_dict_spec prev (length lines) bs Hne Hinc) as (d & Hd & _).
  rewrite Hd. simpl. by exists d.
Qed.

Lemma table_entry_inside prev gn bs g lo hi k :
  increasing prev bs → bs !! g = Some (lo, hi) → lo ≤ k ≤ hi →
  table_entry gn bs k = Some g.
Proof.
  intros Hinc Hg Hk. unfold table_entry.
  by rewrite (declared_inside prev 0 bs ∅ g lo hi k Hinc Hg Hk).
Qed.

Lemma table_entry_outside gn bs k :
  (∀ g lo hi, bs !! g = Some (lo, hi) → ¬ (lo ≤ k ≤ hi)) →
  table_entry gn bs k
  = if decide (1 ≤ k < last_end bs ∨ (last_end bs ≠ cap ∧ last_end bs < k ≤ cap))
    then Some gn else None.
Proof.
  intros Hout. unfold table_entry. by rewrite declared_untouched, lookup_empty.
Qed.

Lemma last_end_lookup bs :
  bs ≠ [] → ∃ n lo, bs !! n = Some (lo, last_end bs).
Proof.
  intros Hne. unfold last_end. destruct (last bs) as [[lo hi]|] eqn:E.
  - rewrite last_lookup in E. by exists (pred (length bs)), lo.
  - by apply last_None in E.
Qed.

Lemma scenario_read :
  read_groups dec_int scenario = Ok [(1, 1); (2, 5); (6, cap)].
Proof. reflexivity. Qed.

(** C8, with the bound of the code: the equivalency table built from a
    valid file maps every size inside a declared inclusive range to the
    index of its group; an
    upper bound written max is the bound 100000; every size from 1 to 100000
    outside all declared ranges gets the index groups_number of the group
    "other"; so every size from 1 to 100000 has exactly one group index, and
    a size above 100000 and above every declared range has none.  With the
    groups 1,1 and 2,5 and 6,max, size 3 is in group 1 and size 7 in group 2. *)
Theorem sizes_dict_maps_each_size py_int lines cfg :
  initialise_groups py_int lines = Ok cfg →
  let dict := groups_sizes_dict cfg in
  let outside size :=
    ∀ g lo hi, groups_boundaries cfg !! g = Some (lo, hi) → ¬ (lo ≤ size ≤ hi) in
  (∀ g lo hi size,
     groups_boundaries cfg !! g = Some (lo, hi) → lo ≤ size ≤ hi →
     dict !! size = Some g) ∧
  (∀ i line stripped a c,
     lines !! i = Some line → strip_line line = Ok stripped →
     split_comma stripped = [a; "max"%string; c] →
     ∃ lo, groups_boundaries cfg !! i = Some (lo, 100000)) ∧
  (∀ size, 1 ≤ size ≤ 100000 → outside size →
     dict !! size = Some (groups_number cfg)) ∧
  (∀ size, 1 ≤ size ≤ 100000 →
     ∃ g, dict !! size = Some g ∧ (g ≤ groups_number cfg)%nat) ∧
  (∀ size, 100000 < size →
     (∀ g lo hi, groups_boundaries cfg !! g = Some (lo, hi) → hi < size) →
     dict !! size = None) ∧
  (groups_boundaries cfg = [(1, 1); (2, 5); (6, 100000)] →
     dict !! 3 = Some 1%nat ∧ dict !! 7 = Some 2%nat).
Proof.
  intros H dict outside.
  destruct (initialise_groups_Ok _ _ _ H) as (Hread & Hchk & Hnum & Hspec).
  destruct (check_boundaries_Ok _ Hchk) as [Hne [prev Hinc]].
  destruct (last_end_lookup _ Hne) as (n & lo_n & Hn).
  assert (Hinside : ∀ g lo hi size,
            groups_boundaries cfg !! g = Some (lo, hi) → lo ≤ size ≤ hi →
            dict !! size = Some g).
  { intros g lo hi size Hg Hk. unfold dict. rewrite Hspec.
    by apply (table_entry_inside prev _ _ g lo hi). }
  assert (Hbelow : ∀ size, 1 ≤ size ≤ 100000 → outside size →
            dict !! size = Some (groups_number cfg)).
  { intros size Hsz Hout. unfold dict. rewrite Hspec, table_entry_outside by done.
    apply decide_True. unfold cap.
    destruct (decide (size < last_end (groups_boundaries cfg))); [lia|].
    right. specialize (Hout n lo_n _ Hn).
    destruct (increasing_above _ _ _ _ _ Hinc Hn).
    assert (last_end (groups_boundaries cfg) < size) by lia. lia. }
  split; [done|]. split; [|split; [done|split; [|split]]].
  - intros i line stripped a c Hi Hstrip Hsplit.
    apply map_each_Ok in Hread.
    destruct (Forall2_lookup_l _ _ _ _ _ Hread Hi) as ([lo hi] & Hb & Hline).
    exists lo. rewrite Hb. f_equal. f_equal.
    unfold read_group_line in Hline. rewrite Hstrip in Hline. simpl in Hline.
    rewrite Hsplit in Hline. simpl in Hline.
    apply bind_Ok in Hline as (lo' & _ & Hline). by injection Hline as _ <-.
  - intros size Hsz.
    destruct (dict !! size) as [g|] eqn:E.
    + exists g. split; [done|]. unfold dict in E. rewrite Hspec in E.
      unfold table_entry in E.
      destruct (declared 0 _ ∅ !! size) as [g'|] eqn:E'.
      * injection E as <-. apply declared_Some in E' as [E'|(i & lo & hi & -> & Hi & _)].
        -- by rewrite lookup_empty in E'.
        -- apply lookup_lt_Some in Hi. apply map_each_Ok, Forall2_length in Hread.
           simpl. lia.
      * case_decide; by simplify_eq.
    + exfalso.
      destruct (declared 0 (groups_boundaries cfg) ∅ !! size) as [g|] eqn:E'.
      * unfold dict in E. rewrite Hspec in E. unfold table_entry in E.
        by rewrite E' in E.
      * rewrite Hbelow in E; [done..|].
        intros g lo hi Hg Hk.
        by rewrite (declared_inside prev 0 _ ∅ g lo hi size Hinc Hg Hk) in E'.
  - intros size Hsz Habove. unfold dict. rewrite Hspec, table_entry_outside.
    + apply decide_False. unfold cap. specialize (Habove n lo_n _ Hn). lia.
    + intros g lo hi Hg. specialize (Habove g lo hi Hg). lia.
  - intros Hbs. rewrite Hbs in Hinside. split.
    + apply (Hinside 1%nat 2 5); [done|lia].
    + apply (Hinside 2%nat 6 100000); [done|lia].
Qed.

Lemma scenario_checked : check_boundaries [(1, 1); (2, 5); (6, cap)] = Ok tt.
Proof. reflexivity. Qed.
Lemma sizes_dict_maps_each_size_witness :
  ∃ cfg, initialise_groups dec_int scenario = Ok cfg ∧
         groups_sizes_dict cfg !! 3 = Some 1%nat ∧
         groups_sizes_dict cfg !! 7 = Some 2%nat.
Proof.
  destruct (initialise_groups_total dec_int scenario _ scenario_read scenario_checked)
    as [d Hd].
  eexists. split; [exact Hd|].
  pose proof (sizes_dict_maps_each_size dec_int scenario _ Hd) as H.
  cbv zeta in H.
  destruct H as (_ & _ & _ & _ & _ & H).
  apply H. reflexivity.
Defined.

Lemma sizes_dict_misses_100001 :
  ¬ (∀ cfg, initialise_groups dec_int scenario = Ok cfg →
            ∀ size, 0 < size → ∃ g, groups_sizes_dict cfg !! size = Some g).
Proof.
  intros Hall.
  destruct (initialise_groups_total dec_int scenario _ scenario_read scenario_checked)
    as [d Hd].
  assert (0 < 100001) as Hpos by lia.
  destruct (Hall _ Hd 100001 Hpos) as [g Hg].
  destruct (initialise_groups_Ok _ _ _ Hd) as (_ & _ & _ & Hspec).
  rewrite Hspec in Hg. 
  cbn [groups_number groups_boundaries] in Hg.
  rewrite table_entry_outside in Hg.
  2:{ intros i lo hi Hi%list_elem_of_lookup_2.
       rewrite !elem_of_cons, elem_of_nil in Hi. unfold cap in Hi.
       destruct Hi as [Hi|[Hi|[Hi|[]]]]; injection Hi as -> ->; lia. }
  rewrite decide_False in Hg; [done|].
  change (last_end [(1, 1); (2, 5); (6, cap)]) with cap. unfold cap. lia.
Qed.

End GroupsFacts2.

Lemma not_Ok_bind {A B} (r : result A) (k : A → result B) :
  ¬ is_Ok r → ¬ is_Ok (r ≫= k).
Proof. intros Hr [b Hb]. apply bind_Ok in Hb as (a & Ha & _). apply Hr. by exists a. Qed.

Lemma not_Ok_bind_r {A B} (r : result A) (k : A → result B) :
  (∀ a, r = Ok a → ¬ is_Ok (k a)) → ¬ is_Ok (r ≫= k).
Proof. intros Hk [b Hb]. apply bind_Ok in Hb as (a & Ha & Hb). apply (Hk a Ha). by exists b. Qed.

Lemma for_each_app {A S} (body : S → A → result S) xs ys s :
  for_each body (xs ++ ys) s = (for_each body xs s ≫= for_each body ys).
Proof.
  revert s. induction xs as [|x xs IH]; intros s; simpl; [done|].
  destruct (body s x) as [s'| |]; simpl; [apply IH|done..].
Qed.

Lemma for_each_unit_Ok {A} (body : A → result unit) xs :
  for_each (λ _ x, body x) xs tt = Ok tt ↔ ∀ x, x ∈ xs → body x = Ok tt.
Proof.
  induction xs as [|x xs IH]; simpl.
  - split; [|done]. intros _ x Hx. by apply not_elem_of_nil in Hx.
  - split.
    + intros H. apply bind_Ok in H as ([] & Hx & H). simpl in H. pose proof (proj1 IH H) as H'.
      intros y [->|Hy]%elem_of_cons; [by destruct (body x) as [[]| |]|auto].
    + intros H. rewrite (H x) by left. simpl. apply IH. intros y Hy. apply H. by right.
Qed.

(** ** np.unique, min and max *)

Lemma elem_of_np_unique l x : x ∈ np_unique l ↔ x ∈ l.
Proof. unfold np_unique. by rewrite merge_sort_Permutation, elem_of_remove_dups. Qed.

Lemma NoDup_np_unique l : NoDup (np_unique l).
Proof. unfold np_unique. rewrite merge_sort_Permutation. apply NoDup_remove_dups. Qed.

Lemma foldr_min_spec x xs :
  foldr Z.min x xs ∈ x :: xs ∧ ∀ y, y ∈ x :: xs → foldr Z.min x xs ≤ y.
Proof.
  induction xs as [|z zs [IHin IHle]]; simpl.
  - split; [left|]. intros y Hy. apply list_elem_of_singleton in Hy. lia.
  - split.
    + destruct (Z.min_spec z (foldr Z.min x zs)) as [[_ ->]|[_ ->]].
      * right; left.
      * apply elem_of_cons in IHin as [->|?]; [left | right; by right].
    + intros y Hy. rewrite !elem_of_cons in Hy.
      assert (foldr Z.min x zs ≤ x) by (apply IHle; left).
      destruct Hy as [->|[->|Hy]]; [lia|lia|].
      assert (foldr Z.min x zs ≤ y) by (apply IHle; by right). lia.
Qed.

Lemma py_min_Ok l m : py_min l = Ok m → m ∈ l ∧ ∀ y, y ∈ l → m ≤ y.
Proof. destruct l as [|x xs]; [done|]. intros [= <-]. apply foldr_min_spec. Qed.

Lemma py_max_Ok l m : py_max l = Ok m → m ∈ l ∧ ∀ y, y ∈ l → y ≤ m.
Proof. destruct l as [|x xs]; [done|]. intros [= <-]. apply GroupsFacts.foldr_max_spec. Qed.

Module CutoffsFacts.
Import Cutoffs CutoffsWords.

Section Read.
Variable py_int : string → option Z.
Variable py_float : string → option Q.
Local Abbreviation wellformed := (CutoffsWords.wellformed py_int py_float).
Local Abbreviation malformed := (CutoffsWords.malformed py_int py_float).

Lemma read_wellformed st line t :
  wellformed line t → read_cutoff_line py_int py_float st line = Ok (store st t).
Proof.
  intros (l & f1 & f2 & f3 & Hl & Hsplit & H1 & H2 & H3).
  unfold read_cutoff_line. rewrite Hl. simpl. rewrite Hsplit. simpl.
  unfold Groups.to_int, to_float. rewrite H1, H2, H3. done.
Qed.

Lemma read_all st lines ts :
  Forall2 wellformed lines ts →
  for_each (read_cutoff_line py_int py_float) lines st = Ok (foldl store st ts).
Proof.
  intros H. revert st. induction H as [|line t lines ts Ht _ IH]; intros st; simpl.
  - done.
  - rewrite (read_wellformed _ _ _ Ht). simpl. apply IH.
Qed.

Lemma read_line_Ok st line st' :
  read_cutoff_line py_int py_float st line = Ok st' → ∃ t, wellformed line t.
Proof.
  unfold read_cutoff_line. intros H. apply bind_Ok in H as (l & Hl & H).
  simpl in H. destruct (Nat.eqb_spec (length (split_comma l)) 3) as [Hlen|]; [|done].
  destruct (split_comma l) as [|f1 [|f2 [|f3 [|]]]] eqn:Hsplit; try done.
  simpl in H. apply bind_Ok in H as (s1 & H1 & H). apply bind_Ok in H as (s2 & H2 & H).
  apply bind_Ok in H as (c & H3 & _). unfold Groups.to_int, to_float in *.
  destruct (py_int f1) as [z1|] eqn:E1; [|done].
  destruct (py_int f2) as [z2|] eqn:E2; [|done].
  destruct (py_float f3) as [q|] eqn:E3; [|done].
  exists (z1, z2, q), l, f1, f2, f3. by rewrite Hsplit.
Qed.

Lemma wrong_fields_malformed line l :
  strip_line line = Ok l → length (split_comma l) ≠ 3%nat → malformed line.
Proof.
  intros Hl Hlen t (l' & f1 & f2 & f3 & Hl' & Hsplit & _).
  rewrite Hl in Hl'. injection Hl' as <-. by rewrite Hsplit in Hlen.
Qed.

Lemma read_malformed st lines line :
  line ∈ lines → malformed line →
  ¬ is_Ok (for_each (read_cutoff_line py_int py_float) lines st).
Proof.
  intros Hin Hmal. revert st.
  induction lines as [|x xs IH]; intros st; [by apply not_elem_of_nil in Hin|].
  simpl. apply elem_of_cons in Hin as [<-|Hin].
  - apply not_Ok_bind. intros [st' [t Ht]%read_line_Ok]. by apply (Hmal t).
  - apply not_Ok_bind_r. intros st' _. by apply IH.
Qed.

Lemma stored_indices st ts : (foldl store st ts).2 = st.2 ++ named ts.
Proof.
  revert st. induction ts as [|t ts IH]; intros st; simpl.
  - by rewrite app_nil_r.
  - rewrite IH. simpl. unfold named at 2. simpl. by rewrite <- app_assoc.
Qed.

Lemma stored_keys st ts s ss :
  is_Some ((foldl store st ts).1 !! (s, ss)) ↔
  is_Some (st.1 !! (s, ss)) ∨ given ts s ss.
Proof.
  revert st. induction ts as [|t ts IH]; intros st; simpl.
  - split; [auto|]. intros [?|(t & Ht & _)]; [done|]. by apply not_elem_of_nil in Ht.
  - rewrite IH. simpl. rewrite !lookup_insert_is_Some. unfold given.
    split.
    + intros [[Heq|[_ [Heq|[_ ?]]]]|(t' & Ht' & H)].
      * right. exists t. split; [left|]. right. by simplify_eq.
      * right. exists t. split; [left|]. left. by simplify_eq.
      * by left.
      * right. exists t'. split; [by right|done].
    + intros [?|(t' & [->|Ht']%elem_of_cons & H)].
      * left. destruct (decide ((t.1.2, t.1.1) = (s, ss))); [by left|right].
        split; [done|]. destruct (decide ((t.1.1, t.1.2) = (s, ss))); [by left|right].
        done.
      * left. destruct H as [[<- <-]|[<- <-]].
        -- destruct (decide ((t.1.2, t.1.1) = (t.1.1, t.1.2))); [by left|right].
           split; [done|]. by left.
        -- by left.
      * right. by exists t'.
Qed.

Lemma check_no_gap_Ok values idx :
  check_no_gap values idx = Ok tt →
  0 ∈ idx ∧ (∀ i, i ∈ idx → 0 ≤ i < Z.of_nat (length (np_unique idx))) ∧
  ∀ s ss, 0 ≤ s < Z.of_nat (length (np_unique idx)) →
          0 ≤ ss < Z.of_nat (length (np_unique idx)) →
          is_Some (values !! (s, ss)).
Proof.
  unfold check_no_gap. intros H. set (n := Z.of_nat (length (np_unique idx))) in *.
  apply bind_Ok in H as (lo & Hlo & H). simpl in H.
  destruct (Z.eqb_spec lo 0) as [->|]; [simpl in H|done].
  apply bind_Ok in H as (hi & Hhi & H). simpl in H.
  destruct (Z.leb_spec n hi); [done|].
  apply py_min_Ok in Hlo as [Hin Hmin]. apply py_max_Ok in Hhi as [_ Hmax].
  split; [by apply elem_of_np_unique|]. split.
  - intros i Hi%elem_of_np_unique. specialize (Hmin i Hi). specialize (Hmax i Hi). lia.
  - intros s ss Hs Hss.
    pose proof (proj1 (for_each_unit_Ok
      (λ key, match values !! key with
              | None => Exit "Error: cutoff not specified for all species."
              | Some _ => Ok tt
              end) _) H (s, ss)) as Hkey.
    simpl in Hkey. destruct (values !! (s, ss)); [by eexists|]. exfalso.
    enough (Exit "Error: cutoff not specified for all species." = Ok ()) by done.
    apply Hkey. apply list_elem_of_bind. exists s. split.
    + apply list_elem_of_bind. exists ss. split; [left|].
      apply GroupsFacts.elem_of_range. lia.
    + apply GroupsFacts.elem_of_range. lia.
Qed.

Lemma read_file_Ok lines t :
  read py_int py_float (File lines) = Ok t →
  ∃ st, for_each (read_cutoff_line py_int py_float) lines (∅, []) = Ok st ∧
        check_no_gap st.1 st.2 = Ok tt ∧
        nx_cutoff_file t = true ∧ cog_cutoff_values t = st.1.
Proof.
  simpl. intros H. apply bind_Ok in H as (st & Hst & H).
  apply bind_Ok in H as ([] & Hchk & H). injection H as <-. by exists st.
Qed.
End Read.

Lemma NoDup_list_prod {A B} (l : list A) (k : list B) :
  NoDup l → NoDup k → NoDup (list_prod l k).
Proof.
  intros Hl Hk. induction Hl as [|x l Hx Hl IH]; simpl; [constructor|].
  apply NoDup_app. split; [|split; [|done]].
  - by apply (NoDup_fmap_2 (pair x)).
  - intros [a b] [y [[= -> ->] _]]%list_elem_of_fmap Hin.
    apply list_elem_of_In, in_prod_iff in Hin as [Hin _]. by apply list_elem_of_In in Hin.
Qed.

(** a table whose keys are pairs of the [n] species [0 .. n-1] has at most
    [n * n] entries *)
Lemma size_pairs (values : gmap (Z * Z) Q) (n : nat) :
  (∀ s ss, is_Some (values !! (s, ss)) → 0 ≤ s < Z.of_nat n ∧ 0 ≤ ss < Z.of_nat n) →
  (size values ≤ n * n)%nat.
Proof.
  intros Hkeys. rewrite <- size_dom.
  set (l := seqZ 0 (Z.of_nat n)).
  assert (NoDup (list_prod l l)) as Hnd by (apply NoDup_list_prod; apply NoDup_seqZ).
  transitivity (size (list_to_set (C := gset (Z * Z)) (list_prod l l))).
  - apply subseteq_size. intros [s ss] Hin%elem_of_dom.
    apply elem_of_list_to_set, list_elem_of_In, in_prod_iff.
    destruct (Hkeys _ _ Hin). split; apply list_elem_of_In, elem_of_seqZ; lia.
  - rewrite size_list_to_set by done. rewrite length_prod. unfold l.
    rewrite length_seqZ. lia.
Qed.

End CutoffsFacts.

Module MainFacts.
Import Main CutoffsWords GroupsWords MainWords CutoffsFacts GroupsFacts GroupsFacts2.

Section Run.
Variable py_int : string → option Z.
Variable py_float : string → option Q.
Variable dbscan : Nd.t Q → list Z.
Variable sqrt : Q → Q.
Local Abbreviation bad_cutoff_file := (MainWords.bad_cutoff_file py_int py_float).
Local Abbreviation bad_groups_file := (MainWords.bad_groups_file py_int).

Lemma main_not_configured c :
  ¬ is_Ok (configure py_int py_float c) →
  frames_begun (main py_int py_float dbscan sqrt c) = 0%nat ∧
  ¬ is_Ok (final (main py_int py_float dbscan sqrt c)).
Proof.
  unfold main. destruct (configure py_int py_float c) as [[[cut e] a]| |]; intros H.
  - exfalso. apply H. by eexists.
  - simpl. split; [done|]. by intros [? ?].
  - simpl. split; [done|]. by intros [? ?].
Qed.

Lemma given_named ts s ss : given ts s ss → s ∈ named ts ∧ ss ∈ named ts.
Proof.
  intros (t & Ht & H). unfold named.
  split; apply list_elem_of_bind; exists t; (split; [|done]);
    rewrite !elem_of_cons; destruct H as [[<- <-]|[<- <-]]; auto.
Qed.

Lemma increasing_adjacent prev bs i lo hi lo' hi' :
  increasing prev bs → bs !! i = Some (lo, hi) → bs !! S i = Some (lo', hi') →
  hi < lo'.
Proof.
  revert prev i. induction bs as [|[b e] bs IH]; intros prev i; simpl; [done|].
  intros (_ & _ & Hinc) Hi HSi. destruct i as [|i]; simpl in *.
  - simplify_eq. destruct bs as [|[b' e'] bs]; simpl in *; [done|].
    simplify_eq. lia.
  - eapply IH; eauto.
Qed.

Lemma bad_cutoffs_not_read c :
  bad_cutoff_file c →
  ¬ is_Ok (cut ← Cutoffs.read py_int py_float (nx_cutoff c);
           Cutoffs.check_species (found_species c) cut).
Proof.
  intros (lines & Harg & Hbad). rewrite Harg.
  destruct Hbad as [(line & Hin & Hmal)|(ts & Hts & Hbad)].
  { apply not_Ok_bind. simpl. apply not_Ok_bind.
    by apply (read_malformed _ _ _ _ line). }
  intros [cut' H]. apply bind_Ok in H as (cut & Hread & Hchk).
  apply read_file_Ok in Hread as (st & Hst & Hgap & Hfile & Hvalues).
  rewrite (read_all _ _ _ _ _ Hts) in Hst. injection Hst as <-.
  pose proof (stored_indices (∅, []) ts) as Hidx. simpl in Hidx.
  assert (Hkeys : ∀ s ss, is_Some ((foldl store (∅, []) ts).1 !! (s, ss)) ↔
                          given ts s ss).
  { intros s ss. rewrite stored_keys. simpl. rewrite lookup_empty.
    split; [intros [[? ?]|?]; done | auto]. }
  apply check_no_gap_Ok in Hgap as (H0 & Hrange & Hall).
  rewrite Hidx in H0, Hrange, Hall.
  destruct Hbad as [Hnot|[(s & ss & Hs & Hss & Hnot)|(s & ss & Hs & Hss & Hnot)]].
  - apply Hnot. split; [done|]. intros i Hi. by apply Hrange.
  - apply Hnot, Hkeys, Hall; by apply Hrange.
  - unfold Cutoffs.check_species in Hchk. rewrite Hfile in Hchk.
    rewrite Hvalues in Hchk.
    destruct (Nat.ltb_spec (size (foldl store (∅, []) ts).1)
                (found_species c * found_species c)); [done|].
    assert (size (foldl store (∅, []) ts).1
            ≤ length (np_unique (named ts)) * length (np_unique (named ts)))%nat.
    { apply size_pairs. intros a b Hab%Hkeys%given_named.
      split; apply Hrange; tauto. }
    assert (found_species c ≤ length (np_unique (named ts)))%nat by nia.
    apply Hnot, Hkeys, Hall; lia.
Qed.

Lemma bad_groups_not_read c :
  bad_groups_file c →
  ¬ is_Ok (match cluster_groups_file c with
           | None => Ok None
           | Some lines => g ← Groups.initialise_groups py_int lines; Ok (Some g)
           end).
Proof.
  intros (lines & bs & -> & Hread & Hbad) [g H].
  apply bind_Ok in H as (cfg & Hcfg & _).
  apply initialise_groups_Ok in Hcfg as (Hread' & Hchk & _).
  rewrite Hread in Hread'. injection Hread' as ->.
  apply check_boundaries_Ok in Hchk as [_ [prev Hinc]].
  destruct Hbad as [(i & lo & hi & Hi & ?)|(i & lo & hi & lo' & hi' & Hi & HSi & ?)].
  - destruct (increasing_above _ _ _ _ _ Hinc Hi). lia.
  - pose proof (increasing_adjacent _ _ _ _ _ _ _ Hinc Hi HSi). lia.
Qed.

(** C9: a cutoff file whose species indexing does not start at 0, that
    leaves a pair of species without a cutoff, or that has a malformed
    line (empty, not of three fields, or with a field that is no number),
    and a size-group file with a max smaller than its min or with
    overlapping or non-increasing boundaries, end the run while the
    configuration is loaded: the run does not end well and no frame is
    begun. *)
Theorem configuration_errors_abort (c : config) :
  bad_cutoff_file c ∨ bad_groups_file c →
  frames_begun (main py_int py_float dbscan sqrt c) = 0%nat ∧
  ¬ is_Ok (final (main py_int py_float dbscan sqrt c)).
Proof.
  intros Hbad. apply main_not_configured. unfold configure.
  destruct Hbad as [Hbad|Hbad].
  - apply bad_cutoffs_not_read in Hbad.
    intros [r H]. apply bind_Ok in H as (cut & Hcut & H).
    apply bind_Ok in H as (cut' & Hcut' & _).
    apply Hbad. exists cut'. by rewrite Hcut.
  - apply not_Ok_bind_r. intros cut _. apply not_Ok_bind_r. intros cut' _.
    apply not_Ok_bind. by apply bad_groups_not_read.
Qed.
End Run.

Lemma configuration_errors_abort_witness :
  frames_begun (main dec_int (λ _, Some 8%Q) (λ _, []) id from_one) = 0%nat ∧
  ¬ is_Ok (final (main dec_int (λ _, Some 8%Q) (λ _, []) id from_one)).
Proof.
  apply configuration_errors_abort. left.
  exists ["1,1,8"%string]. split; [reflexivity|]. right.
  exists [(1, 1, 8%Q)]. split.
  - constructor; [|constructor].
    exists "1,1,8"%string, "1"%string, "1"%string, "8"%string.
    repeat split; reflexivity.
  - left. intros [H0 _]. vm_compute in H0.
    repeat (apply elem_of_cons in H0 as [H0|H0]; [discriminate H0|]).
    by apply not_elem_of_nil in H0.
Defined.

End MainFacts.

Module DensityFacts.
Import Detect.

Lemma elem_of_argwhere labels c_lab p :
  p ∈ argwhere labels c_lab ↔ labels !! p = Some c_lab.
Proof.
  unfold argwhere. rewrite list_elem_of_filter, elem_of_seq. split; [tauto|].
  intros H. split; [done|]. apply lookup_lt_Some in H. lia.
Qed.

Lemma NoDup_argwhere labels c_lab : NoDup (argwhere labels c_lab).
Proof. apply NoDup_filter, NoDup_seq. Qed.

Lemma members_of_label labels c_lab :
  (if c_lab =? -1 then Single <$> argwhere labels c_lab
   else [Several (argwhere labels c_lab)]) ≫= members
  = argwhere labels c_lab.
Proof.
  destruct (c_lab =? -1).
  - induction (argwhere labels c_lab) as [|p ps IH]; [done|].
    rewrite fmap_cons, bind_cons, IH. done.
  - simpl. by rewrite app_nil_r.
Qed.

Lemma members_of_groups labels :
  groups_of_labels labels ≫= members = np_unique labels ≫= argwhere labels.
Proof.
  unfold groups_of_labels.
  induction (np_unique labels) as [|l ls IH]; [done|].
  rewrite !bind_cons, bind_app, IH. f_equal. apply members_of_label.
Qed.

(** whatever labels DBSCAN gives, the groups of the density detector hold
    every point index exactly once; every noise point (label -1) is an
    element of its own, of size 1; every other label gives one element, the
    list of exactly the points with that label *)
Lemma density_groups_partition (dbscan : Nd.t Q → list Z) (dist : Nd.t Q) :
  let labels := dbscan dist in
  let groups := detect_clusters_density dbscan dist in
  groups ≫= members ≡ₚ seq 0 (length labels) ∧
  (∀ p, labels !! p = Some (-1) →
        Single p ∈ groups ∧ group_size (Single p) = 1%nat ∧
        ∀ g, g ∈ groups → p ∈ members g → g = Single p) ∧
  (∀ l, l ≠ -1 → l ∈ labels →
        Several (argwhere labels l) ∈ groups ∧
        ∀ p, p ∈ argwhere labels l ↔ labels !! p = Some l) ∧
  (∀ ps, Several ps ∈ groups →
         ∃ l, l ≠ -1 ∧ l ∈ labels ∧ ps = argwhere labels l) ∧
  (∀ p, Single p ∈ groups → labels !! p = Some (-1)).
Proof.
  intros labels groups. unfold groups, detect_clusters_density. fold labels.
  assert (Hin : ∀ g, g ∈ groups_of_labels labels ↔
                     ∃ l, l ∈ labels ∧
                          g ∈ (if l =? -1 then Single <$> argwhere labels l
                               else [Several (argwhere labels l)])).
  { intros g. unfold groups_of_labels. rewrite list_elem_of_bind.
    split; intros (l & H1 & H2); exists l.
    - rewrite elem_of_np_unique in H2. done.
    - rewrite elem_of_np_unique. done. }
  split; [|split; [|split; [|split]]].
  - rewrite members_of_groups. apply NoDup_Permutation.
    + apply NoDup_bind; [| intros; apply NoDup_argwhere | apply NoDup_np_unique].
      intros l1 l2 p _ _ H1%elem_of_argwhere H2%elem_of_argwhere. congruence.
    + apply NoDup_seq.
    + intros p. rewrite list_elem_of_bind, elem_of_seq. split.
      * intros (l & Hp%elem_of_argwhere & _). apply lookup_lt_Some in Hp. lia.
      * intros [_ Hp]. destruct (lookup_lt_is_Some_2 labels p Hp) as [l Hl].
        exists l. split; [by apply elem_of_argwhere|].
        apply elem_of_np_unique. by eapply list_elem_of_lookup_2.
  - intros p Hp. split; [|split; [done|]].
    + apply Hin. exists (-1). split; [by eapply list_elem_of_lookup_2|].
      simpl. apply list_elem_of_fmap. exists p. split; [done|].
      by apply elem_of_argwhere.
    + intros g Hg Hpg. apply (proj1 (Hin g)) in Hg as (l & Hll & Hg).
      destruct (Z.eqb_spec l (-1)) as [->|Hl].
      * apply list_elem_of_fmap in Hg as (q & -> & _). simpl in Hpg.
        apply list_elem_of_singleton in Hpg. by subst.
      * apply list_elem_of_singleton in Hg as ->. simpl in Hpg.
        apply elem_of_argwhere in Hpg. congruence.
  - intros l Hl Hll. split; [|intros p; apply elem_of_argwhere].
    apply Hin. exists l. split; [done|].
    destruct (Z.eqb_spec l (-1)); [done|]. left.
  - intros ps Hg. apply (proj1 (Hin _)) in Hg as (l & Hl & Hg).
    destruct (Z.eqb_spec l (-1)) as [->|Hne].
    + by apply list_elem_of_fmap in Hg as (q & ? & _).
    + apply list_elem_of_singleton in Hg. injection Hg as ->. by exists l.
  - intros p Hg. apply (proj1 (Hin _)) in Hg as (l & Hl & Hg).
    destruct (Z.eqb_spec l (-1)) as [->|Hne].
    + apply list_elem_of_fmap in Hg as (q & [= ->] & Hq). by apply elem_of_argwhere.
    + by apply list_elem_of_singleton in Hg.
Qed.

(** in the loop over the frames the list of groups goes where a graph is
    expected: the processing of the frame raises *)
Lemma density_frame_raises (dbscan : Nd.t Q → list Z) c cut e a f_index f :
  Main.density c = true →
  Main.process_frame dbscan c cut e a f_index f = Raise "NameError".
Proof. intros H. unfold Main.process_frame, Main.detect. by rewrite H. Qed.

(** C3: the density detector does its part: whatever labels DBSCAN gives,
    its groups hold every point index exactly once, a noise point (label
    -1) as an element of its own, of size 1, and every other label as one
    element, the list of exactly the points with that label.  But no
    protein receives a size entry from them: with the density method the
    processing of every frame raises, the groups going where
    [nx.connected_components] expects a graph and [nx] not being imported;
    a run with a frame to process stops at its first frame and does not
    end well. *)
Theorem density_points_never_sized (py_int : string → option Z)
    (py_float : string → option Q) (dbscan : Nd.t Q → list Z) (sqrt : Q → Q)
    (c : Main.config) :
  Main.density c = true →
  (∀ dist,
     let labels := dbscan dist in
     let groups := detect_clusters_density dbscan dist in
     groups ≫= members ≡ₚ seq 0 (length labels) ∧
     (∀ p, labels !! p = Some (-1) →
           Single p ∈ groups ∧ group_size (Single p) = 1%nat ∧
           ∀ g, g ∈ groups → p ∈ members g → g = Single p) ∧
     (∀ l, l ≠ -1 → l ∈ labels →
           Several (argwhere labels l) ∈ groups ∧
           ∀ p, p ∈ argwhere labels l ↔ labels !! p = Some l) ∧
     (∀ ps, Several ps ∈ groups →
            ∃ l, l ≠ -1 ∧ l ∈ labels ∧ ps = argwhere labels l) ∧
     (∀ p, Single p ∈ groups → labels !! p = Some (-1))) ∧
  (∀ cut e a f_index f,
     Main.process_frame dbscan c cut e a f_index f = Raise "NameError") ∧
  (∀ cut e a f fs,
     Main.frames_loop dbscan c cut e (f :: fs) 0 a = (1%nat, Raise "NameError")) ∧
  (Main.frames c ≠ [] →
   ¬ is_Ok (Main.final (Main.main py_int py_float dbscan sqrt c)) ∧
   (Main.frames_begun (Main.main py_int py_float dbscan sqrt c) ≤ 1)%nat).
Proof.
  intros Hdens. split; [|split; [|split]].
  - intros dist. exact (density_groups_partition dbscan dist).
  - intros cut e a f_index f. by apply density_frame_raises.
  - intros cut e a f fs. simpl. by rewrite density_frame_raises.
  - intros Hframes. unfold Main.main.
    destruct (Main.configure py_int py_float c) as [[[cut e] a]| |]; simpl.
    + destruct (Main.frames c) as [|f fs]; [done|]. simpl.
      rewrite density_frame_raises by done. simpl. split; [|lia]. by intros [? ?].
    + split; [|lia]. by intros [? ?].
    + split; [|lia]. by intros [? ?].
Qed.

Lemma density_points_never_sized_witness :
  detect_clusters_density (λ _, [0; -1]) (Nd.full [2%nat; 2%nat] 1%Q)
  = [Single 1; Several [0%nat]] ∧
  Main.main dec_int (λ _, Some 8%Q) (λ _, [0; -1]) id Samples.dense
  = {| Main.frames_begun := 1%nat; Main.final := Raise "NameError" |} ∧
  ¬ is_Ok (Main.final (Main.main dec_int (λ _, Some 8%Q) (λ _, [0; -1]) id Samples.dense)).
Proof.
  split; [vm_compute; reflexivity|]. split; [vm_compute; reflexivity|].
  destruct (density_points_never_sized dec_int (λ _, Some 8%Q) (λ _, [0; -1]) id
              Samples.dense) as (_ & _ & _ & Hmain); [reflexivity|].
  apply Hmain. discriminate.
Defined.

End DensityFacts.

Local Close Scope Z_scope.

Module GraphFacts.
Import Detect GraphWords.

Section Graph.
Variable G : graph.
Hypothesis edge_sym : ∀ i j, edge G i j = edge G j i.
Local Abbreviation step := (GraphWords.step G).
Local Abbreviation reach := (GraphWords.reach G).
Local Abbreviation bfs_inv := (GraphWords.bfs_inv G).

Lemma elem_of_neighbors u w : w ∈ neighbors G u ↔ step u w.
Proof.
  unfold neighbors, GraphWords.step. rewrite list_elem_of_filter, elem_of_seq.
  split; intros []; split; auto; lia.
Qed.

Lemma reach_bounded v u : v < order G → reach v u → u < order G.
Proof. intros Hv H. induction H as [|a b c [_ Hb] _ IH]; auto. Qed.

Lemma reach_sym v u : v < order G → reach v u → reach u v.
Proof.
  intros Hv H. induction H as [|a b c [Hab Hb] _ IH]; [done|].
  eapply rtc_r; [by apply IH|]. split; [by rewrite edge_sym|done].
Qed.

Lemma length_bounded (l : list nat) n :
  NoDup l → (∀ u, u ∈ l → u < n) → length l ≤ n.
Proof.
  intros Hnd Hb. transitivity (length (seq 0 n)); [|by rewrite length_seq].
  apply submseteq_length.
  apply NoDup_submseteq; [done|]. intros u Hu. apply elem_of_seq.
  specialize (Hb u Hu). lia.
Qed.

Lemma bfs_inv_step v seen level :
  bfs_inv v seen level →
  let fresh := remove_dups (filter (λ u, u ∉ seen) level) in
  bfs_inv v (seen ++ fresh) (fresh ≫= neighbors G).
Proof.
  intros [Hnd Hseen Hlevel Hnext] fresh.
  assert (Hfresh : ∀ u, u ∈ fresh ↔ (u ∉ seen) ∧ u ∈ level).
  { intros u. unfold fresh. by rewrite elem_of_remove_dups, list_elem_of_filter. }
  split.
  - apply NoDup_app. split; [done|]. split; [|apply NoDup_remove_dups].
    intros u Hu Hf. by destruct (proj1 (Hfresh u) Hf).
  - intros u [Hu|Hu]%elem_of_app; [auto|]. apply Hlevel.
    by destruct (proj1 (Hfresh u) Hu).
  - intros w (u & Hw & Hu)%list_elem_of_bind.
    pose proof (proj1 (elem_of_neighbors u w) Hw).
    destruct (proj1 (Hfresh u) Hu).
    eapply rtc_r; [by apply Hlevel | done].
  - intros u w [Hu|Hu]%elem_of_app Hstep.
    + left. rewrite elem_of_app.
      destruct (Hnext u w Hu Hstep) as [?|Hw]; [by left|].
      destruct (decide (w ∈ seen)); [by left|]. right. by apply (proj2 (Hfresh w)).
    + right. apply list_elem_of_bind. exists u. split; [|done].
      by apply (proj2 (elem_of_neighbors u w)).
Qed.

Lemma bfs_spec v fuel seen level :
  v < order G → bfs_inv v seen level →
  order G - length seen + 2 ≤ fuel →
  let c := bfs G fuel seen level in
  NoDup c ∧ (∀ u, u ∈ seen → u ∈ c) ∧ (∀ u, u ∈ c → reach v u) ∧
  (∀ u w, u ∈ c → step u w → w ∈ c) ∧
  (∀ u, u ∈ level → u ∈ c).
Proof.
  intros Hv. revert seen level.
  induction fuel as [|fuel IH]; intros seen level Hinv Hfuel; [lia|].
  simpl. destruct level as [|x level'] eqn:Elevel.
  - destruct Hinv as [Hnd Hseen _ Hnext]. split; [done|]. split; [done|].
    split; [done|]. split.
    + intros u w Hu Hstep. destruct (Hnext u w Hu Hstep) as [?|Hw]; [done|].
      by apply not_elem_of_nil in Hw.
    + intros u Hu. by apply not_elem_of_nil in Hu.
  - rewrite <- Elevel in *. clear Elevel x level'.
    pose proof (bfs_inv_step v seen level Hinv) as Hinv'. simpl in Hinv'.
    set (fresh := remove_dups (filter (λ u, u ∉ seen) level)) in *.
    assert (Hfresh : ∀ u, u ∈ fresh ↔ (u ∉ seen) ∧ u ∈ level).
    { intros u. unfold fresh. by rewrite elem_of_remove_dups, list_elem_of_filter. }
    destruct fresh as [|y fresh'] eqn:Efresh.
    + (* nothing new: the next level is empty and the search ends *)
      rewrite app_nil_r in *. simpl in *.
      destruct fuel as [|fuel']; [lia|]. simpl.
      destruct Hinv as [Hnd Hseen Hlevel Hnext].
      assert (Hsub : ∀ u, u ∈ level → u ∈ seen).
      { intros u Hu. destruct (decide (u ∈ seen)); [done|].
        exfalso. apply (not_elem_of_nil u), (proj2 (Hfresh u)). done. }
      split; [done|]. split; [done|]. split; [done|]. split; [|done].
      intros u w Hu Hstep. destruct (Hnext u w Hu Hstep); auto.
    + rewrite <- Efresh in *.
      assert (length seen < length (seen ++ fresh)).
      { rewrite length_app, Efresh. simpl. lia. }
      assert (length (seen ++ fresh) ≤ order G).
      { apply length_bounded; [apply Hinv'|]. intros u Hu.
        apply (reach_bounded v); [done|]. by apply Hinv'. }
      destruct (IH (seen ++ fresh) (fresh ≫= neighbors G) Hinv') as (H1 & H2 & H3 & H4 & H5);
        [lia|].
      split; [done|]. split; [|split; [done|split; [done|]]].
      * intros u Hu. apply H2, elem_of_app. by left.
      * intros u Hu. apply H2, elem_of_app.
        destruct (decide (u ∈ seen)); [by left|]. right. by apply (proj2 (Hfresh u)).
Qed.

Lemma elem_of_component v u :
  v < order G → u ∈ component G v ↔ reach v u.
Proof.
  intros Hv. unfold component.
  destruct (bfs_spec v (S (S (order G))) [] [v] Hv) as (_ & _ & Hreach & Hclosed & Hlevel).
  - split; [constructor|..].
    + intros u' Hu'. by apply not_elem_of_nil in Hu'.
    + intros u' ->%list_elem_of_singleton. constructor.
    + intros u' w Hu'. by apply not_elem_of_nil in Hu'.
  - simpl. lia.
  - split; [apply Hreach|]. intros H.
    assert (v ∈ bfs G (S (S (order G))) [] [v]) as Hin by (apply Hlevel; left).
    clear Hlevel Hreach.
    remember (bfs G (S (S (order G))) [] [v]) as c eqn:Ec. clear Ec.
    induction H as [|a b c' Hab _ IH]; [done|].
    apply IH; [|by eapply Hclosed].
    eapply reach_bounded; [exact Hv|]. eapply rtc_l; [done|constructor].
Qed.

Lemma NoDup_component v : v < order G → NoDup (component G v).
Proof.
  intros Hv. unfold component.
  destruct (bfs_spec v (S (S (order G))) [] [v] Hv) as (Hnd & _); [|simpl; lia|done].
  split; [constructor|..].
  - intros u' Hu'. by apply not_elem_of_nil in Hu'.
  - intros u' ->%list_elem_of_singleton. constructor.
  - intros u' w Hu'. by apply not_elem_of_nil in Hu'.
Qed.

Lemma components_from_spec vs seen :
  (∀ v, v ∈ vs → v < order G) →
  (∀ u w, u ∈ seen → u < order G → reach u w → w ∈ seen) →
  let cs := components_from G vs seen in
  NoDup (mjoin cs) ∧
  (∀ u, u ∈ mjoin cs ↔ (u ∉ seen) ∧ ∃ v, v ∈ vs ∧ reach v u) ∧
  (∀ c, c ∈ cs → ∃ v, v ∈ vs ∧ c = component G v).
Proof.
  revert seen. induction vs as [|v vs IH]; intros seen Hvs Hclosed; simpl.
  - split; [constructor|]. split.
    + intros u. split; [by intros ?%not_elem_of_nil|].
      intros (_ & v & Hv & _). by apply not_elem_of_nil in Hv.
    + intros c Hc. by apply not_elem_of_nil in Hc.
  - assert (Hv : v < order G) by (apply Hvs; left).
    assert (Hvs' : ∀ v', v' ∈ vs → v' < order G) by (intros; apply Hvs; by right).
    destruct (decide (v ∈ seen)) as [Hin|Hin].
    + destruct (IH seen Hvs' Hclosed) as (Hnd & Hel & Hcs).
      split; [done|]. split.
      * intros u. rewrite Hel. split; intros (Hu & v' & Hv' & Hr).
        -- split; [done|]. exists v'. split; [by right|done].
        -- split; [done|]. exists v'. split; [|done].
           apply elem_of_cons in Hv' as [->|?]; [|done].
           exfalso. apply Hu. by apply (Hclosed v).
      * intros c Hc. destruct (Hcs c Hc) as (v' & ? & ?). exists v'.
        split; [by right|done].
    + assert (Hclosed' : ∀ u w, u ∈ seen ++ component G v → u < order G →
                                reach u w → w ∈ seen ++ component G v).
      { intros u w [Hu|Hu]%elem_of_app Hub Hr; apply elem_of_app.
        - left. by apply (Hclosed u).
        - right. apply elem_of_component; [done|].
          apply elem_of_component in Hu; [|done]. by etrans. }
      destruct (IH _ Hvs' Hclosed') as (Hnd & Hel & Hcs).
      change (mjoin (component G v :: components_from G vs (seen ++ component G v)))
        with (component G v ++ mjoin (components_from G vs (seen ++ component G v))).
      split; [|split].
      * apply NoDup_app. split; [by apply NoDup_component|]. split; [|done].
        intros u Hu Hu'. apply Hel in Hu' as [Hu' _]. apply Hu', elem_of_app. by right.
      * intros u. rewrite elem_of_app, Hel, elem_of_app. split.
        -- intros [Hu|(Hu & v' & Hv' & Hr)].
           ++ apply elem_of_component in Hu; [|done]. split.
              ** intros Hs. apply Hin. apply (Hclosed u); [done| |].
                 --- by apply (reach_bounded v).
                 --- by apply reach_sym.
              ** exists v. split; [left|done].
           ++ split; [tauto|]. exists v'. split; [by right|done].
        -- intros (Hu & v' & Hv' & Hr).
           destruct (decide (u ∈ component G v)) as [?|Hnc]; [by left|]. right.
           split; [tauto|]. exists v'. split; [|done].
           apply elem_of_cons in Hv' as [->|?]; [|done].
           exfalso. apply Hnc. by apply elem_of_component.
      * intros c [->|Hc]%elem_of_cons.
        -- exists v. split; [left|done].
        -- destruct (Hcs c Hc) as (v' & ? & ?). exists v'. split; [by right|done].
Qed.

(** the components are a partition of the nodes, each one closed under
    the edges *)
Lemma connected_components_partition :
  mjoin (connected_components G) ≡ₚ seq 0 (order G) ∧
  (∀ c, c ∈ connected_components G →
        c ≠ [] ∧ ∀ u w, u ∈ c → w < order G → edge G u w = true → w ∈ c).
Proof.
  unfold connected_components.
  destruct (components_from_spec (seq 0 (order G)) []) as (Hnd & Hel & Hcs).
  { intros v Hv%elem_of_seq. lia. }
  { intros u w Hu. by apply not_elem_of_nil in Hu. }
  split.
  - apply NoDup_Permutation; [done|apply NoDup_seq|].
    intros u. rewrite Hel, elem_of_seq. split.
    + intros (_ & v & Hv%elem_of_seq & Hr). split; [lia|].
      apply (reach_bounded v); [lia|done].
    + intros [_ Hu]. split; [apply not_elem_of_nil|]. exists u.
      split; [apply elem_of_seq; lia|constructor].
  - intros c Hc. destruct (Hcs c Hc) as (v & Hv%elem_of_seq & ->).
    assert (v < order G) as Hvb by lia. split.
    + intros Hnil. assert (v ∈ component G v) as Hin.
      { apply elem_of_component; [done|constructor]. }
      rewrite Hnil in Hin. by apply not_elem_of_nil in Hin.
    + intros u w Hu Hw He. apply elem_of_component; [done|].
      apply elem_of_component in Hu; [|done].
      eapply rtc_r; [done|]. by split.
Qed.
End Graph.

Lemma sorted_Permutation cs : sorted cs ≡ₚ cs.
Proof. apply merge_sort_Permutation. Qed.

Lemma elem_of_sorted cs c : c ∈ sorted cs ↔ c ∈ cs.
Proof. by rewrite sorted_Permutation. Qed.

Lemma join_sorted cs : mjoin (sorted cs) ≡ₚ mjoin cs.
Proof. by rewrite sorted_Permutation. Qed.

End GraphFacts.

Module TopologyFacts.
Import Topology.

Lemma p_start_S counts s c :
  counts !! s = Some c → p_start counts (S s) = p_start counts s + c.
Proof.
  intros H. unfold p_start. rewrite (take_S_r _ _ _ H), sum_list_with_app. simpl. lia.
Qed.

Lemma p_start_le counts s : p_start counts s ≤ sum_list counts.
Proof.
  unfold p_start. rewrite <- (take_drop s counts) at 2. rewrite sum_list_with_app. lia.
Qed.

Lemma p_start_all counts : p_start counts (length counts) = sum_list counts.
Proof. unfold p_start. by rewrite firstn_all. Qed.

Lemma p_end_le counts s c :
  counts !! s = Some c → p_start counts s + c ≤ sum_list counts.
Proof. intros H. rewrite <- (p_start_S _ _ _ H). apply p_start_le. Qed.

Lemma species_at_spec counts s c p :
  counts !! s = Some c → p_start counts s ≤ p < p_start counts s + c →
  species_at counts p = s.
Proof.
  revert s p. induction counts as [|n rest IH]; intros s p; [done|].
  destruct s as [|s]; simpl.
  - intros [= ->]. unfold p_start. simpl. intros Hp.
    destruct (Nat.ltb_spec p c); [done|lia].
  - intros Hs. unfold p_start. simpl. fold (p_start rest s). intros Hp.
    destruct (Nat.ltb_spec p n); [lia|]. f_equal. apply (IH s _ Hs). lia.
Qed.

Lemma boundaries_lookup counts s c :
  counts !! s = Some c →
  proteins_boundaries counts !! s = Some (p_start counts s, p_start counts s + c).
Proof.
  intros H. unfold proteins_boundaries. rewrite list_lookup_fmap.
  rewrite lookup_seq_lt by (by eapply lookup_lt_Some). simpl. by rewrite H.
Qed.

Lemma sindex_lookup_from k counts p :
  p < sum_list counts →
  mjoin (imap (λ s_index nb, replicate nb (k + s_index)) counts) !! p
  = Some (k + species_at counts p).
Proof.
  revert k p. induction counts as [|n rest IH]; intros k p Hp; [simpl in Hp; lia|].
  simpl in *. destruct (Nat.ltb_spec p n).
  - rewrite lookup_app_l by (by rewrite length_replicate).
    rewrite lookup_replicate_2 by done. f_equal; lia.
  - rewrite lookup_app_r by (rewrite length_replicate; lia).
    rewrite length_replicate.
    rewrite (imap_ext _ (λ s_index nb, replicate nb (S k + s_index))).
    + rewrite IH by lia. f_equal; lia.
    + intros i x _. simpl. f_equal; lia.
Qed.

Lemma sindex_lookup counts p :
  p < sum_list counts → prot_index2sindex counts !! p = Some (species_at counts p).
Proof. intros Hp. apply (sindex_lookup_from 0 counts p Hp). Qed.

Lemma species_at_lt counts p :
  p < sum_list counts → species_at counts p < length counts.
Proof.
  revert p. induction counts as [|n rest IH]; intros p Hp; [simpl in Hp; lia|].
  simpl in *. destruct (Nat.ltb_spec p n); [lia|].
  specialize (IH (p - n)). lia.
Qed.

End TopologyFacts.

Module DetectFacts.
Import Topology TopologyFacts Detect DetectWords.

Section Connectivity.
Variable counts : list nat.
Variable cut : Cutoffs.t.
Variable dist : Nd.t Q.
Local Abbreviation n := (sum_list counts).
Local Abbreviation nb := (length counts).
Hypothesis Hshape : Nd.shape dist = [n; n].

Section PerSpecies.
Local Abbreviation row_inv := (DetectWords.row_inv counts cut dist).
Local Abbreviation rows_inv := (DetectWords.rows_inv counts cut dist).
Hypothesis Hfile : Cutoffs.nx_cutoff_file cut && (1 <? nb) = true.
Hypothesis Hready :
  ∀ s ss, s < nb → ss < nb →
          is_Some (Cutoffs.cog_cutoff_values cut !! (Z.of_nat s, Z.of_nat ss)).

Lemma within_block s ss cs css i k :
  counts !! s = Some cs → counts !! ss = Some css → i < cs → k < css →
  ∃ c, Cutoffs.cog_cutoff_values cut !! (Z.of_nat s, Z.of_nat ss) = Some c ∧
       within counts cut dist (p_start counts s + i) (p_start counts ss + k)
       = negb (Qle_bool c (Nd.item dist [p_start counts s + i; p_start counts ss + k])).
Proof using Hfile Hready.
  intros Hs Hss Hi Hk.
  destruct (Hready s ss) as [c Hc]; [by eapply lookup_lt_Some..|].
  exists c. split; [done|]. unfold within, cutoff_of. rewrite Hfile.
  rewrite (species_at_spec counts s cs), (species_at_spec counts ss css) by (done || lia).
  by rewrite Hc.
Qed.

Lemma block_spec s ss cs css :
  counts !! s = Some cs → counts !! ss = Some css →
  ∃ b, block (proteins_boundaries counts) cut dist s ss = Ok b ∧
       Nd.shape b = [cs; css] ∧
       ∀ i k, i < cs → k < css →
              Nd.item b [i; k]
              = within counts cut dist (p_start counts s + i) (p_start counts ss + k).
Proof using Hfile Hready Hshape.
  intros Hs Hss. unfold block, boundaries.
  rewrite (boundaries_lookup _ _ _ Hs), (boundaries_lookup _ _ _ Hss). simpl.
  unfold slice2. rewrite Hshape. simpl.
  destruct (Hready s ss) as [c Hc]; [by eapply lookup_lt_Some..|].
  unfold getitem. rewrite Hc. simpl. eexists. split; [done|].
  pose proof (p_end_le _ _ _ Hs). pose proof (p_end_le _ _ _ Hss).
  split.
  - simpl. f_equal; [|f_equal]; lia.
  - intros i k Hi Hk. simpl.
    destruct (within_block s ss cs css i k Hs Hss Hi Hk) as (c' & Hc' & ->).
    by simplify_eq.
Qed.

Lemma block_row_loop s cs len a acc :
  counts !! s = Some cs → a + len ≤ nb → row_inv s cs a acc →
  ∃ acc', for_each (λ acc ss_index,
                      d ← block (proteins_boundaries counts) cut dist s ss_index;
                      concatenate1 acc d)
                   (seq a len) acc = Ok acc' ∧
          row_inv s cs (a + len) acc'.
Proof using Hfile Hready Hshape.
  intros Hs. revert a acc. induction len as [|len IH]; intros a acc Hle [Hsh Hit].
  - exists acc. split; [done|]. by rewrite Nat.add_0_r.
  - simpl. destruct (lookup_lt_is_Some_2 counts a) as [ca Ha]; [lia|].
    destruct (block_spec s a cs ca Hs Ha) as (b & -> & Hbsh & Hbit). simpl.
    unfold concatenate1. rewrite Hsh, Hbsh, Nat.eqb_refl.
    replace (a + S len) with (S a + len) by lia. apply IH; [lia|].
    split; simpl.
    + by rewrite (p_start_S _ _ _ Ha).
    + intros i k Hi Hk. rewrite (p_start_S _ _ _ Ha) in Hk.
      destruct (Nat.ltb_spec k (p_start counts a)); [by apply Hit|].
      rewrite Hbit by lia. f_equal. lia.
Qed.

Lemma block_row_spec s cs :
  counts !! s = Some cs →
  ∃ r, block_row nb (proteins_boundaries counts) cut dist s = Ok r ∧
       Nd.shape r = [cs; n] ∧
       ∀ i k, i < cs → k < n →
              Nd.item r [i; k] = within counts cut dist (p_start counts s + i) k.
Proof using Hfile Hready Hshape.
  intros Hs. unfold block_row.
  assert (0 < nb) as Hnb by (apply lookup_lt_Some in Hs; lia).
  destruct (lookup_lt_is_Some_2 counts 0) as [c0 H0]; [done|].
  destruct (block_spec s 0 cs c0 Hs H0) as (b & -> & Hbsh & Hbit). simpl.
  destruct (block_row_loop s cs (nb - 1) 1 b Hs) as (r & -> & Hrsh & Hrit); [lia| |].
  - split.
    + rewrite Hbsh, (p_start_S _ _ _ H0). done.
    + intros i k Hi Hk. rewrite (p_start_S _ _ _ H0) in Hk.
      change (p_start counts 0) with 0 in *. simpl in Hk.
      by rewrite Hbit.
  - exists r. split; [done|].
    replace (1 + (nb - 1)) with (length counts) in * by lia.
    rewrite p_start_all in *. done.
Qed.

Lemma rows_loop len a acc :
  a + len ≤ nb → rows_inv a acc →
  ∃ acc', for_each (λ acc s_index,
                      r ← block_row nb (proteins_boundaries counts) cut dist s_index;
                      concatenate0 acc r)
                   (seq a len) acc = Ok acc' ∧
          rows_inv (a + len) acc'.
Proof using Hfile Hready Hshape.
  revert a acc. induction len as [|len IH]; intros a acc Hle [Hsh Hit].
  - exists acc. split; [done|]. by rewrite Nat.add_0_r.
  - simpl. destruct (lookup_lt_is_Some_2 counts a) as [ca Ha]; [lia|].
    destruct (block_row_spec a ca Ha) as (r & -> & Hrsh & Hrit). simpl.
    unfold concatenate0. rewrite Hsh, Hrsh, Nat.eqb_refl.
    replace (a + S len) with (S a + len) by lia. apply IH; [lia|].
    split; simpl.
    + by rewrite (p_start_S _ _ _ Ha).
    + intros i k Hi Hk. rewrite (p_start_S _ _ _ Ha) in Hi.
      destruct (Nat.ltb_spec i (p_start counts a)); [by apply Hit|].
      rewrite Hrit by lia. f_equal. lia.
Qed.

Lemma connected_matrix_file :
  ∃ m, connected_matrix nb (proteins_boundaries counts) cut dist = Ok m ∧
       Nd.shape m = [n; n] ∧
       ∀ i k, i < n → k < n → Nd.item m [i; k] = within counts cut dist i k.
Proof using Hfile Hready Hshape.
  unfold connected_matrix. rewrite Hfile.
  assert (1 < nb) as Hnb.
  { apply andb_true_iff in Hfile as [_ H]. by apply Nat.ltb_lt in H. }
  destruct (lookup_lt_is_Some_2 counts 0) as [c0 H0]; [lia|].
  destruct (block_row_spec 0 c0 H0) as (r & -> & Hrsh & Hrit). simpl.
  destruct (rows_loop (nb - 1) 1 r) as (m & -> & Hmsh & Hmit); [lia| |].
  - split.
    + by rewrite Hrsh, (p_start_S _ _ _ H0).
    + intros i k Hi Hk. rewrite (p_start_S _ _ _ H0) in Hi.
      change (p_start counts 0) with 0 in *. simpl in Hi.
      by rewrite Hrit.
  - exists m. split; [done|].
    replace (1 + (nb - 1)) with (length counts) in * by lia.
    rewrite p_start_all in *. done.
Qed.
End PerSpecies.

Lemma connected_matrix_spec :
  cutoffs_ready nb cut →
  ∃ m, connected_matrix nb (proteins_boundaries counts) cut dist = Ok m ∧
       Nd.shape m = [n; n] ∧
       ∀ i k, i < n → k < n → Nd.item m [i; k] = within counts cut dist i k.
Proof using Hshape.
  unfold cutoffs_ready.
  destruct (Cutoffs.nx_cutoff_file cut && (1 <? nb)) eqn:Hfile.
  - intros Hready. by apply connected_matrix_file.
  - intros [c Hc]. unfold connected_matrix. rewrite Hfile, Hc.
    eexists. split; [done|]. split; [done|].
    intros i k _ _. unfold within, cutoff_of. by rewrite Hfile, Hc.
Qed.

Lemma detect_clusters_connectivity_spec :
  cutoffs_ready nb cut →
  ∃ G, detect_clusters_connectivity nb (proteins_boundaries counts) cut dist = Ok G ∧
       order G = n ∧
       (∀ i j, edge G i j = edge G j i) ∧
       ∀ i j, i < n → j < n →
              edge G i j = within counts cut dist i j || within counts cut dist j i.
Proof using Hshape.
  intros Hready. unfold detect_clusters_connectivity.
  destruct (connected_matrix_spec Hready) as (m & -> & Hsh & Hit). simpl.
  unfold nx_Graph. rewrite Hsh, Nat.eqb_refl. eexists. split; [done|]. simpl.
  split; [done|]. split.
  - intros i j. apply orb_comm.
  - intros i j Hi Hj. by rewrite !Hit.
Qed.
End Connectivity.

End DetectFacts.

(** inversion of a monadic computation that ended well *)
Ltac inv_ok H :=
  repeat first
    [ progress (simpl in H)
    | match type of H with
      | Ok _ = Ok _ => injection H as H; try subst
      | (_, _) = (_, _) => injection H as ? H; try subst
      | Exit _ = Ok _ => discriminate H
      | Raise _ = Ok _ => discriminate H
      | (_ ≫= _) = Ok _ =>
          let x := fresh "x" in let Hx := fresh "Hx" in
          apply bind_Ok in H as (x & Hx & H)
      | (if ?b then _ else _) = Ok _ =>
          let E := fresh "E" in destruct b eqn:E
      | (match ?x with _ => _ end) = Ok _ =>
          let E := fresh "E" in destruct x eqn:E
      end ].

Module NdFacts.

Lemma inb_spec idx sh : Nd.inb idx sh = true ↔ Forall2 lt idx sh.
Proof.
  revert sh. induction idx as [|i idx IH]; intros [|n sh]; simpl.
  - split; [constructor|done].
  - split; [done|]. inversion 1.
  - split; [done|]. inversion 1.
  - rewrite andb_true_iff, Nat.ltb_lt, IH. split.
    + intros []. by constructor.
    + inversion 1; subst. done.
Qed.

Lemma set_Ok {A} (a a' : Nd.t A) idx v :
  Nd.set a idx v = Ok a' →
  Nd.inb idx (Nd.shape a) = true ∧ Nd.shape a' = Nd.shape a ∧
  Nd.item a' idx = v ∧ ∀ j, j ≠ idx → Nd.item a' j = Nd.item a j.
Proof.
  unfold Nd.set. destruct (Nd.inb idx (Nd.shape a)); [|done].
  intros [= <-]. simpl. split; [done|]. split; [done|]. split.
  - by rewrite decide_True.
  - intros j Hj. by rewrite decide_False.
Qed.

Lemma add_at_Ok (a a' : Nd.t nat) idx n :
  Nd.add_at a idx n = Ok a' →
  Nd.inb idx (Nd.shape a) = true ∧ Nd.shape a' = Nd.shape a ∧
  Nd.item a' idx = Nd.item a idx + n ∧ ∀ j, j ≠ idx → Nd.item a' j = Nd.item a j.
Proof.
  unfold Nd.add_at, Nd.get. intros H.
  destruct (Nd.inb idx (Nd.shape a)) eqn:E; [|done]. simpl in H.
  apply set_Ok in H as (_ & ? & ? & ?). done.
Qed.

End NdFacts.

Module ProcessFacts.
Import Process ProcessWords NdFacts.

Section Frame.
Variable e : env.
Variable fr : frame.
Variable network : Detect.graph.
Variable f_index : nat.

Lemma add_residue_contacts_only key c_size m a a' :
  add_residue_contacts e key c_size m a = Ok a' → only_residues a a'.
Proof. unfold add_residue_contacts. intros H. inv_ok H; done. Qed.

Lemma first_residue_contacts_only key c_size m z a a' :
  first_residue_contacts e key c_size m z a = Ok a' → only_residues a a'.
Proof. unfold first_residue_contacts. intros H. inv_ok H; done. Qed.

(** the treatment of a pair, step by step *)
Lemma treat_pair_Ok c_size p ps st pp st' :
  treat_pair e fr f_index c_size p ps st pp = Ok st' →
  (unordered p pp ∈ st.2 ∧ st' = st) ∨
  ((unordered p pp ∉ st.2) ∧ st'.2 = st.2 ++ [unordered p pp] ∧
   ∃ pp_s pp_len p_len nbn1 a1 a2 prot1 nbn2 prot2,
     index (prot_index2sindex e) pp = Ok pp_s ∧
     index (proteins_length e) pp_s = Ok pp_len ∧
     index (proteins_length e) ps = Ok p_len ∧
     Nd.add_at (proteins_nb_neighbours st.1) [f_index; p; pp_s] 1 = Ok nbn1 ∧
     first_residue_contacts e (pair_key ps pp_s) c_size (pair_mask fr p ps pp pp_s)
       (pair_zeros ps p_len pp_s pp_len) (set_proteins_nb_neighbours nbn1 st.1)
     = Ok a1 ∧
     (if ps =? pp_s
      then add_residue_contacts e (pair_key ps pp_s) c_size
             (Nd.transpose (pair_mask fr p ps pp pp_s)) a1
      else Ok a1) = Ok a2 ∧
     Nd.add_at (proteins_ctcts_prot a2) [p; pp] (Nd.count (pair_mask fr p ps pp pp_s))
     = Ok prot1 ∧
     Nd.add_at (proteins_nb_neighbours a2) [f_index; pp; ps] 1 = Ok nbn2 ∧
     Nd.add_at prot1 [pp; p] (Nd.count (pair_mask fr p ps pp pp_s)) = Ok prot2 ∧
     st'.1 = set_proteins_ctcts_prot prot2
               (set_proteins_nb_neighbours nbn2 (set_proteins_ctcts_prot prot1 a2))).
Proof.
  unfold treat_pair. intros H.
  destruct (decide ((p `min` pp, p `max` pp) ∈ st.2)) as [Hin|Hin].
  { left. split; [done|]. by injection H. }
  right. split; [done|].
  apply bind_Ok in H as (pp_s & Hpp_s & H).
  apply bind_Ok in H as (pp_len & Hpp_len & H).
  apply bind_Ok in H as (p_len & Hp_len & H).
  apply bind_Ok in H as (nbn1 & Hnbn1 & H).
  apply bind_Ok in H as (a1 & Ha1 & H).
  apply bind_Ok in H as (a2 & Ha2 & H).
  apply bind_Ok in H as (prot1 & Hprot1 & H).
  apply bind_Ok in H as (nbn2 & Hnbn2 & H).
  apply bind_Ok in H as (prot2 & Hprot2 & H).
  injection H as <-. split; [done|].
  exists pp_s, pp_len, p_len, nbn1, a1, a2, prot1, nbn2, prot2. done.
Qed.

Lemma treat_pair_labels c_size p ps st pp st' :
  treat_pair e fr f_index c_size p ps st pp = Ok st' → same_labels st.1 st'.1.
Proof.
  intros H. apply treat_pair_Ok in H as [[_ ->]|(_ & _ & H)]; [done|].
  destruct H as (pp_s & pp_len & p_len & nbn1 & a1 & a2 & prot1 & nbn2 & prot2 &
                 _ & _ & _ & _ & Ha1 & Ha2 & _ & _ & _ & ->).
  apply first_residue_contacts_only in Ha1 as (? & ? & _ & _ & ?).
  assert (only_residues a1 a2) as (? & ? & _ & _ & ?).
  { destruct (ps =? pp_s); [by eapply add_residue_contacts_only|].
    by injection Ha2 as <-. }
  repeat split; simpl in *; congruence.
Qed.

Lemma for_each_invariant {A S} (body : S → A → result S) (R : S → S → Prop) xs s s' :
  (∀ s, R s s) → (∀ s1 s2 s3, R s1 s2 → R s2 s3 → R s1 s3) →
  (∀ s x s', x ∈ xs → body s x = Ok s' → R s s') →
  for_each body xs s = Ok s' → R s s'.
Proof.
  intros Hrefl Htrans. revert s. induction xs as [|x xs IH]; intros s Hbody H.
  - injection H as <-. apply Hrefl.
  - simpl in H. apply bind_Ok in H as (s1 & H1 & H).
    eapply Htrans; [eapply Hbody; [left|done]|].
    apply IH; [|done]. intros ???? Hb. eapply Hbody; [by right|done].
Qed.

Lemma same_labels_trans a b c : same_labels a b → same_labels b c → same_labels a c.
Proof. intros (? & ? & ?) (? & ? & ?). repeat split; congruence. Qed.

Lemma treat_lipids_labels c_size p ps pl a a' :
  treat_lipids e fr c_size p ps pl a = Ok a' → same_labels a a'.
Proof. unfold treat_lipids. intros H. inv_ok H; done. Qed.

Lemma treat_protein_labels wl c_size st p st' :
  treat_protein e fr network f_index wl c_size st p = Ok st' →
  same_labels st.1.1 st'.1.1.
Proof.
  unfold treat_protein. intros H.
  apply bind_Ok in H as (ps & _ & H). apply bind_Ok in H as (pl & _ & H).
  apply bind_Ok in H as (a1 & Ha1 & H). apply bind_Ok in H as (comp & _ & H).
  apply bind_Ok in H as (st1 & Hst1 & H). injection H as <-. simpl.
  apply (same_labels_trans _ a1).
  - destruct wl; [by eapply treat_lipids_labels | by injection Ha1 as <-].
  - change a1 with (a1, st.1.2).1.
    eapply (for_each_invariant _ (λ s s', same_labels s.1 s'.1)); [done| |..|exact Hst1].
    + intros ???. apply same_labels_trans.
    + intros ???? Hb. by eapply treat_pair_labels.
Qed.

(** [proteins_size[f_index, cluster] = v] sets the entries of the members
    and no other *)
Lemma write_row_Ok {A} (arr arr' : Nd.t A) cluster v :
  write_row f_index arr cluster v = Ok arr' →
  (∀ p, p ∈ cluster → Nd.item arr' [f_index; p] = v) ∧
  (∀ j, (∀ p, p ∈ cluster → j ≠ [f_index; p]) → Nd.item arr' j = Nd.item arr j).
Proof.
  unfold write_row. revert arr. induction cluster as [|x xs IH]; intros arr H.
  - injection H as <-. split; [|done]. intros p Hp. by apply not_elem_of_nil in Hp.
  - simpl in H. apply bind_Ok in H as (arr1 & H1 & H).
    apply set_Ok in H1 as (_ & _ & Hx & Hother).
    destruct (IH _ H) as [Hin Hout]. split.
    + intros p [->|Hp]%elem_of_cons; [|by apply Hin].
      destruct (decide (x ∈ xs)); [by apply Hin|].
      rewrite Hout; [done|]. intros p Hp [= ->]. done.
    + intros j Hj. rewrite Hout.
      * apply Hother, Hj. left.
      * intros p Hp. apply Hj. by right.
Qed.

Lemma store_size_Ok cluster size group a a' :
  store_size e f_index cluster size group a = Ok a' →
  write_row f_index (proteins_size a) cluster size = Ok (proteins_size a') ∧
  clusters_comp a' = clusters_comp a ∧
  proteins_ctcts_prot a' = proteins_ctcts_prot a ∧
  proteins_nb_neighbours a' = proteins_nb_neighbours a.
Proof.
  unfold store_size. intros H. apply bind_Ok in H as (sizes & Hsizes & H).
  rewrite Hsizes. destruct (groups e).
  - apply bind_Ok in H as (g & _ & H). apply bind_Ok in H as (grp & _ & H).
    by injection H as <-.
  - by injection H as <-.
Qed.

Lemma treat_proteins_labels wl c_size cluster st st' :
  for_each (treat_protein e fr network f_index wl c_size) cluster st = Ok st' →
  same_labels st.1.1 st'.1.1.
Proof.
  apply (for_each_invariant _ (λ s s', same_labels s.1.1 s'.1.1)); [done| |].
  - intros ???. apply same_labels_trans.
  - intros ???? Hb. by eapply treat_protein_labels.
Qed.

Lemma account_size wl cluster a a' :
  account e fr network f_index wl cluster a = Ok a' →
  write_row f_index (proteins_size a) cluster (Z.of_nat (length cluster))
  = Ok (proteins_size a').
Proof.
  unfold account. intros H. apply bind_Ok in H as (a1 & Ha1 & H).
  apply bind_Ok in H as (st & Hst & H). injection H as <-.
  apply store_size_Ok in Ha1 as (-> & _). f_equal.
  apply treat_proteins_labels in Hst as (Hsz & _). simpl in *. by rewrite Hsz.
Qed.

(** the size entries after the clusters of a frame, disjoint, are gone
    through *)
Lemma clusters_sizes wl cs a a' :
  for_each (λ a cluster, account e fr network f_index wl cluster a) cs a = Ok a' →
  NoDup (mjoin cs) →
  (∀ c p, c ∈ cs → p ∈ c →
          Nd.item (proteins_size a') [f_index; p] = Z.of_nat (length c)) ∧
  (∀ j, (∀ c p, c ∈ cs → p ∈ c → j ≠ [f_index; p]) →
        Nd.item (proteins_size a') j = Nd.item (proteins_size a) j).
Proof.
  revert a. induction cs as [|c cs IH]; intros a H Hnd.
  - injection H as <-. split; [|done]. intros c p Hc. by apply not_elem_of_nil in Hc.
  - simpl in H. apply bind_Ok in H as (a1 & Ha1 & H).
    change (mjoin (c :: cs)) with (c ++ mjoin cs) in Hnd.
    apply NoDup_app in Hnd as (_ & Hdisj & Hnd).
    apply account_size, write_row_Ok in Ha1 as [Hin Hout].
    destruct (IH _ H Hnd) as [IHin IHout]. split.
    + intros c' p [->|Hc']%elem_of_cons Hp; [|by eapply IHin].
      rewrite IHout; [by apply Hin|].
      intros c'' q Hc'' Hq [= ->]. apply (Hdisj q Hp).
      apply list_elem_of_join. by exists c''.
    + intros j Hj. rewrite IHout.
      * apply Hout. intros p Hp. apply (Hj c); [left|done].
      * intros c' p Hc' Hp. apply (Hj c'); [by right|done].
Qed.
End Frame.
End ProcessFacts.

Module SumFacts.

Lemma sum_list_ext {A} (f g : A → nat) l :
  (∀ x, f x = g x) → sum_list (f <$> l) = sum_list (g <$> l).
Proof.
  intros E. induction l as [|x l IH]; [done|].
  rewrite !fmap_cons. change (f x + sum_list (f <$> l) = g x + sum_list (g <$> l)).
  by rewrite E, IH.
Qed.

Lemma sum_list_add {A} (f g : A → nat) l :
  sum_list ((λ x, f x + g x) <$> l) = sum_list (f <$> l) + sum_list (g <$> l).
Proof.
  induction l as [|x l IH]; [done|]. rewrite !fmap_cons.
  change (f x + g x + sum_list ((λ x, f x + g x) <$> l)
          = f x + sum_list (f <$> l) + (g x + sum_list (g <$> l))).
  rewrite IH. lia.
Qed.

Lemma sum_list_bind {A B} (f : B → nat) (g : A → list B) l :
  sum_list (f <$> (l ≫= g)) = sum_list ((λ x, sum_list (f <$> g x)) <$> l).
Proof.
  induction l as [|x l IH]; [done|].
  change ((x :: l) ≫= g) with (g x ++ (l ≫= g)).
  rewrite fmap_app, sum_list_with_app, IH. done.
Qed.

Lemma sum_list_zero {A} (l : list A) : sum_list ((λ _, 0) <$> l) = 0.
Proof. induction l as [|x l IH]; [done|]. exact IH. Qed.

Lemma sum_list_swap {A B} (g : A → B → nat) l1 l2 :
  sum_list ((λ i, sum_list (g i <$> l2)) <$> l1)
  = sum_list ((λ k, sum_list ((λ i, g i k) <$> l1)) <$> l2).
Proof.
  induction l1 as [|i l1 IH].
  - symmetry. apply sum_list_zero.
  - rewrite fmap_cons.
    change (sum_list (g i <$> l2) + sum_list ((λ i, sum_list (g i <$> l2)) <$> l1)
            = sum_list ((λ k, g i k + sum_list ((λ i, g i k) <$> l1)) <$> l2)).
    by rewrite IH, <- sum_list_add.
Qed.

Lemma total_ext sh f g : (∀ j, f j = g j) → total sh f = total sh g.
Proof. apply sum_list_ext. Qed.

Lemma total_add sh f g : total sh (λ j, f j + g j) = total sh f + total sh g.
Proof. apply sum_list_add. Qed.

Lemma total_cons n sh f :
  total (n :: sh) f = sum_list ((λ i, total sh (λ j, f (i :: j))) <$> seq 0 n).
Proof.
  unfold total. simpl. rewrite sum_list_bind. apply sum_list_ext. intros i.
  by rewrite <- list_fmap_compose.
Qed.

Lemma total_snoc sh n f :
  total (sh ++ [n]) f = sum_list ((λ k, total sh (λ j, f (j ++ [k]))) <$> seq 0 n).
Proof.
  revert f. induction sh as [|m sh IH]; intros f.
  - change ([] ++ [n]) with [n]. rewrite total_cons. apply sum_list_ext. intros k.
    by unfold total.
  - change ((m :: sh) ++ [n]) with (m :: sh ++ [n]). rewrite total_cons.
    rewrite (sum_list_ext _ (λ i, sum_list ((λ k, total sh (λ j, f (i :: j ++ [k])))
                                             <$> seq 0 n))) by (intros i; apply IH).
    rewrite sum_list_swap. apply sum_list_ext. intros k. by rewrite total_cons.
Qed.

Lemma total_rev sh f : total (rev sh) (λ j, f (rev j)) = total sh f.
Proof.
  revert f. induction sh as [|n sh IH]; intros f; [done|].
  simpl rev. rewrite total_snoc, total_cons. apply sum_list_ext. intros k.
  rewrite <- (IH (λ j, f (k :: j))). apply total_ext. intros j.
  by rewrite rev_app_distr.
Qed.

Lemma count_transpose m : Nd.count (Nd.transpose m) = Nd.count m.
Proof. apply (total_rev (Nd.shape m) (λ j, if Nd.item m j then 1 else 0)). Qed.

End SumFacts.

Module ConnectivityFacts.
Import Topology Detect Process GraphWords DetectWords ProcessWords Examples.
Import TopologyFacts DetectFacts GraphFacts ProcessFacts.

(** C1: for a frame gone through with the connectivity detector, the graph
    joins i and j exactly when the distance of i and j is below the cutoff
    of their species pair; its components, the clusters, hold every protein
    index exactly once and none is empty; a protein within the cutoff of a
    second, itself within the cutoff of a third, shares their cluster
    whatever the distance of the first and the third; and once the clusters
    are processed the size entry of every protein is the size of its
    cluster, each entry being written for the one cluster of the protein. *)
Theorem connectivity_clusters_partition (counts : list nat) (cut : Cutoffs.t)
    (dist : Nd.t Q) :
  Nd.shape dist = [sum_list counts; sum_list counts] →
  cutoffs_ready (length counts) cut →
  ∃ G, detect_clusters_connectivity (length counts) (proteins_boundaries counts) cut dist
       = Ok G ∧
    let n := sum_list counts in
    let clusters := sorted (connected_components G) in
    (∀ i j, i < n → j < n →
            edge G i j = true ↔
            within counts cut dist i j = true ∨ within counts cut dist j i = true) ∧
    mjoin clusters ≡ₚ seq 0 n ∧
    (∀ c, c ∈ clusters → 1 ≤ length c) ∧
    (∀ A B C, A < n → B < n → C < n →
              within counts cut dist A B = true → within counts cut dist B C = true →
              ∃ c, c ∈ clusters ∧ A ∈ c ∧ B ∈ c ∧ C ∈ c) ∧
    (∀ e fr f_index a a',
       process_clusters e fr G f_index a = Ok a' →
       ∀ p, p < n →
            ∃ c, c ∈ clusters ∧ p ∈ c ∧
                 Nd.item (proteins_size a') [f_index; p] = Z.of_nat (length c)).
Proof.
  intros Hshape Hready.
  destruct (detect_clusters_connectivity_spec counts cut dist Hshape Hready)
    as (G & HG & Horder & Hsym & Hedge).
  exists G. split; [done|]. intros n clusters.
  destruct (connected_components_partition G Hsym) as [Hpart Hclosed].
  rewrite Horder in Hpart, Hclosed. fold n in Hpart, Hclosed.
  assert (Hperm : mjoin clusters ≡ₚ seq 0 n).
  { unfold clusters. by rewrite join_sorted. }
  assert (Hcover : ∀ p, p < n → ∃ c, c ∈ clusters ∧ p ∈ c).
  { intros p Hp. assert (p ∈ mjoin clusters) as Hin.
    { rewrite Hperm. apply elem_of_seq. lia. }
    apply list_elem_of_join in Hin as (c & ? & ?). by exists c. }
  assert (Hstep : ∀ c u w, c ∈ clusters → u ∈ c → u < n → w < n →
                           within counts cut dist u w = true → w ∈ c).
  { intros c u w Hc Hu Hun Hwn Hw. apply (proj1 (elem_of_sorted _ _)) in Hc.
    destruct (Hclosed c Hc) as [_ Hcl]. apply (Hcl u w Hu Hwn).
    rewrite Hedge by done. by rewrite Hw. }
  split; [|split; [done|split; [|split]]].
  - intros i j Hi Hj. rewrite (Hedge i j Hi Hj), orb_true_iff. done.
  - intros c Hc. apply (proj1 (elem_of_sorted _ _)) in Hc.
    destruct (Hclosed c Hc) as [Hne _].
    destruct c; [done|simpl; lia].
  - intros A B C HA HB HC HAB HBC. destruct (Hcover A HA) as (c & Hc & HAc).
    exists c. assert (B ∈ c) by by apply (Hstep c A B).
    split; [done|]. split; [done|]. split; [done|]. by apply (Hstep c B C).
  - intros e fr f_index a a' Hproc p Hp. destruct (Hcover p Hp) as (c & Hc & Hpc).
    exists c. split; [done|]. split; [done|].
    unfold process_clusters in Hproc. fold clusters in Hproc.
    apply clusters_sizes in Hproc as [Hin _]; [by apply Hin|].
    rewrite Hperm. apply NoDup_seq.
Qed.

Lemma connectivity_clusters_partition_witness :
  ∃ G a0 a',
    detect_clusters_connectivity 1 (proteins_boundaries [4]) four_cut four_dist = Ok G ∧
    sorted (connected_components G) = [[0; 1]; [2; 3]] ∧
    Struct.struct_proteins four_env = Ok a0 ∧
    process_clusters four_env four_frame G 0 a0 = Ok a' ∧
    ∀ p, p < 4 → Nd.item (proteins_size a') [0; p] = 2%Z.
Proof.
  destruct (connectivity_clusters_partition [4] four_cut four_dist eq_refl)
    as (G & HG & _ & _ & _ & _ & Hsize).
  { simpl. by eexists. }
  vm_compute in HG. injection HG as <-.
  eexists. eexists. eexists. split; [reflexivity|].
  split; [vm_compute; reflexivity|]. split; [vm_compute; reflexivity|].
  split; [vm_compute; reflexivity|].
  intros p Hp.
  destruct p as [|[|[|[|p]]]]; [vm_compute; reflexivity..|lia].
Defined.

End ConnectivityFacts.

Module CompositionFacts.
Import Process ProcessWords Examples ProcessFacts.

Lemma store_composition_eq c_size t comp :
  store_composition c_size t comp
  = <[c_size := <[t := S (default 0 (default ∅ (comp !! c_size) !! t))]>
                  (default ∅ (comp !! c_size))]> comp.
Proof.
  unfold store_composition.
  destruct (comp !! c_size) as [inner|] eqn:E; simpl.
  - rewrite E. simpl. destruct (inner !! t) as [v|] eqn:Et; simpl.
    + by rewrite Et.
    + rewrite lookup_insert_eq. simpl. by rewrite insert_insert_eq.
  - rewrite lookup_insert_eq. simpl. rewrite lookup_empty. simpl.
    rewrite lookup_insert_eq. simpl. by rewrite !insert_insert_eq.
Qed.

Lemma store_composition_ok c_size t comp :
  Z.of_nat (sum_list t) = c_size → comp_ok comp →
  comp_ok (store_composition c_size t comp).
Proof.
  intros Hsum Hok size inner t' count. rewrite store_composition_eq.
  destruct (decide (size = c_size)) as [->|Hne].
  - rewrite lookup_insert_eq. intros [= <-].
    destruct (decide (t' = t)) as [->|Hnet].
    + rewrite lookup_insert_eq. intros [= <-]. split; [done|lia].
    + rewrite lookup_insert_ne by done.
      destruct (comp !! c_size) as [inner|] eqn:E; simpl; [|by rewrite lookup_empty].
      by apply Hok.
  - rewrite lookup_insert_ne by done. apply Hok.
Qed.

Lemma store_composition_le c_size t comp :
  comp_le comp (store_composition c_size t comp).
Proof.
  intros size inner t' count Hsize Ht'. rewrite store_composition_eq.
  destruct (decide (size = c_size)) as [->|Hne].
  - rewrite lookup_insert_eq, Hsize. simpl.
    destruct (decide (t' = t)) as [->|Hnet].
    + eexists _, _. split; [reflexivity|].
      rewrite lookup_insert_eq, Ht'. simpl. split; [reflexivity|lia].
    + eexists _, count. split; [reflexivity|].
      rewrite lookup_insert_ne by done. split; [done|lia].
  - rewrite lookup_insert_ne by done. by exists inner, count.
Qed.

Lemma comp_le_refl comp : comp_le comp comp.
Proof. intros size inner t count ??. by exists inner, count. Qed.

Lemma comp_le_trans c1 c2 c3 : comp_le c1 c2 → comp_le c2 c3 → comp_le c1 c3.
Proof.
  intros H12 H23 size inner t count Hs Ht.
  destruct (H12 _ _ _ _ Hs Ht) as (inner2 & count2 & Hs2 & Ht2 & ?).
  destruct (H23 _ _ _ _ Hs2 Ht2) as (inner3 & count3 & Hs3 & Ht3 & ?).
  exists inner3, count3. split; [done|]. split; [done|lia].
Qed.

Lemma sum_list_insert (l : list nat) i x y :
  l !! i = Some x → sum_list (<[i := y]> l) + x = sum_list l + y.
Proof.
  revert i. induction l as [|z l IH]; intros [|i]; simpl; try done.
  - intros [= ->]. lia.
  - intros H. specialize (IH _ H). lia.
Qed.

Lemma incr_sum l i l' : incr l i = Ok l' → sum_list l' = S (sum_list l).
Proof.
  unfold incr, index. destruct (l !! i) as [x|] eqn:E; [|done].
  intros [= <-]. pose proof (sum_list_insert l i x (S x) E). lia.
Qed.

Section Frame.
Variable e : env.
Variable fr : frame.
Variable network : Detect.graph.
Variable f_index : nat.

Lemma treat_protein_comp wl c_size st p st' :
  treat_protein e fr network f_index wl c_size st p = Ok st' →
  sum_list st'.2 = S (sum_list st.2).
Proof.
  unfold treat_protein. intros H.
  apply bind_Ok in H as (ps & _ & H). apply bind_Ok in H as (pl & _ & H).
  apply bind_Ok in H as (a1 & _ & H). apply bind_Ok in H as (comp & Hcomp & H).
  apply bind_Ok in H as (st1 & _ & H). injection H as <-. simpl.
  by apply incr_sum in Hcomp.
Qed.

Lemma treat_proteins_comp wl c_size cluster st st' :
  for_each (treat_protein e fr network f_index wl c_size) cluster st = Ok st' →
  sum_list st'.2 = sum_list st.2 + length cluster.
Proof.
  revert st. induction cluster as [|p cluster IH]; intros st H.
  - injection H as <-. simpl. lia.
  - simpl in H. apply bind_Ok in H as (st1 & H1 & H).
    apply treat_protein_comp in H1. apply IH in H. simpl. lia.
Qed.

(** a cluster adds one tuple, which sums to its size *)
Lemma account_comp wl cluster a a' :
  account e fr network f_index wl cluster a = Ok a' →
  ∃ t, sum_list t = length cluster ∧
       clusters_comp a'
       = store_composition (Z.of_nat (length cluster)) t (clusters_comp a).
Proof.
  unfold account. intros H. apply bind_Ok in H as (a1 & Ha1 & H).
  apply bind_Ok in H as (st & Hst & H). injection H as <-.
  apply store_size_Ok in Ha1 as (_ & Hcomp & _).
  pose proof (treat_proteins_comp _ _ _ _ _ Hst) as Hsum.
  apply treat_proteins_labels in Hst as (_ & _ & Hc). simpl in *.
  exists st.2. split.
  - rewrite Hsum. clear. induction (nb_species e); simpl; lia.
  - by rewrite Hc, Hcomp.
Qed.

Lemma account_invariant wl cluster a a' :
  account e fr network f_index wl cluster a = Ok a' →
  comp_ok (clusters_comp a) →
  comp_ok (clusters_comp a') ∧ comp_le (clusters_comp a) (clusters_comp a').
Proof.
  intros (t & Hsum & ->)%account_comp Hok. split.
  - apply store_composition_ok; [by rewrite Hsum|done].
  - apply store_composition_le.
Qed.

Lemma process_cluster_TM_invariant a cluster a' :
  process_cluster_TM e fr network f_index a cluster = Ok a' →
  comp_ok (clusters_comp a) →
  comp_ok (clusters_comp a') ∧ comp_le (clusters_comp a) (clusters_comp a').
Proof.
  unfold process_cluster_TM. intros H Hok.
  apply bind_Ok in H as (dist & _ & H). destruct (classify dist).
  - apply store_size_Ok in H as (_ & -> & _). split; [done|apply comp_le_refl].
  - apply store_size_Ok in H as (_ & -> & _). split; [done|apply comp_le_refl].
  - by eapply account_invariant.
Qed.

Lemma for_each_comp {A} (body : acc → A → result acc) xs a a' :
  (∀ a x a', body a x = Ok a' → comp_ok (clusters_comp a) →
             comp_ok (clusters_comp a') ∧ comp_le (clusters_comp a) (clusters_comp a')) →
  for_each body xs a = Ok a' → comp_ok (clusters_comp a) →
  comp_ok (clusters_comp a') ∧ comp_le (clusters_comp a) (clusters_comp a').
Proof.
  intros Hbody. revert a. induction xs as [|x xs IH]; intros a H Hok.
  - injection H as <-. split; [done|apply comp_le_refl].
  - simpl in H. apply bind_Ok in H as (a1 & H1 & H).
    destruct (Hbody _ _ _ H1 Hok) as [Hok1 Hle1].
    destruct (IH _ H Hok1) as [Hok' Hle']. split; [done|].
    by eapply comp_le_trans.
Qed.
End Frame.

Section Run.
Variable dbscan : Nd.t Q → list Z.

Lemma process_frame_invariant c cut e a f_index f a' :
  Main.process_frame dbscan c cut e a f_index f = Ok a' →
  comp_ok (clusters_comp a) →
  comp_ok (clusters_comp a') ∧ comp_le (clusters_comp a) (clusters_comp a').
Proof.
  unfold Main.process_frame. intros H. apply bind_Ok in H as (d & _ & H).
  destruct d as [G|gs]; [|done]. destruct (Main.cutoff_leaflet c).
  - unfold process_clusters_TM in H. revert H. apply for_each_comp.
    intros ???. apply process_cluster_TM_invariant.
  - unfold process_clusters in H. revert H. apply for_each_comp.
    intros ???. apply account_invariant.
Qed.

Lemma frames_loop_invariant c cut e fs f_index a n a' :
  Main.frames_loop dbscan c cut e fs f_index a = (n, Ok a') →
  comp_ok (clusters_comp a) →
  comp_ok (clusters_comp a') ∧ comp_le (clusters_comp a) (clusters_comp a').
Proof.
  revert f_index a. induction fs as [|f fs IH]; intros f_index a H Hok; simpl in H.
  - injection H as _ <-. split; [done|apply comp_le_refl].
  - destruct (Main.process_frame dbscan c cut e a f_index f) as [a1| |] eqn:E;
      [|done..].
    destruct (process_frame_invariant _ _ _ _ _ _ _ E Hok) as [Hok1 Hle1].
    destruct (IH _ _ H Hok1) as [Hok' Hle']. split; [done|].
    by eapply comp_le_trans.
Qed.

(** C10: through the frames of a run the composition table keeps every
    tuple under a size summing to that size and every count at least 1,
    and no count ever goes down; the table of [struct_clusters] is empty
    and so starts well. *)
Theorem composition_invariant c cut e fs f_index a n a' :
  Main.frames_loop dbscan c cut e fs f_index a = (n, Ok a') →
  comp_ok (clusters_comp a) →
  comp_ok (clusters_comp a') ∧ comp_le (clusters_comp a) (clusters_comp a') ∧
  comp_ok ∅.
Proof.
  intros H Hok. destruct (frames_loop_invariant _ _ _ _ _ _ _ _ H Hok) as [? ?].
  split; [done|]. split; [done|]. by intros ???? ?%lookup_empty_Some.
Qed.
End Run.

Import ConnectivityFacts.

Lemma composition_invariant_witness :
  ∃ a0 a',
    Struct.struct_proteins four_env = Ok a0 ∧
    Main.frames_loop (λ _, []) four_config four_cut four_env
      (Main.frames four_config) 0 a0 = (1, Ok a') ∧
    comp_ok (clusters_comp a') ∧ comp_le (clusters_comp a0) (clusters_comp a') ∧
    clusters_comp a' !! 2%Z = Some {[ [2] := 2 ]}.
Proof.
  eexists. eexists. split; [vm_compute; reflexivity|].
  split; [vm_compute; reflexivity|].
  match goal with
  | |- comp_ok (clusters_comp ?a') ∧ comp_le (clusters_comp ?a0) _ ∧ _ =>
      destruct (composition_invariant (λ _, []) four_config four_cut four_env
                  (Main.frames four_config) 0 a0 1 a') as (Hok & Hle & _)
  end.
  - vm_compute. reflexivity.
  - intros size inner t count H.
    destruct (lookup_empty_Some (M := gmap Z) size inner H).
  - split; [exact Hok|]. split; [exact Hle|]. vm_compute. reflexivity.
Defined.

End CompositionFacts.

Module PairFacts.
Import Process ProcessWords Examples ProcessFacts NdFacts.

Lemma add_at_item (a a' : Nd.t nat) idx n :
  Nd.add_at a idx n = Ok a' →
  ∀ j, Nd.item a' j = Nd.item a j + (if decide (j = idx) then n else 0).
Proof.
  intros (_ & _ & Hidx & Hother)%add_at_Ok j.
  destruct (decide (j = idx)) as [->|Hne]; [done|]. rewrite Hother by done. lia.
Qed.

Section Frame.
Variable e : env.
Variable fr : frame.
Variable network : Detect.graph.
Variable f_index : nat.
Local Abbreviation treated_all := (ProcessWords.treated_all network).

(** *** The pairs treated *)

Lemma treat_pair_treated c_size p ps st pp st' :
  treat_pair e fr f_index c_size p ps st pp = Ok st' →
  treated_step p [pp] st.2 st'.2.
Proof.
  intros [[Hin ->]|(Hnin & -> & _)]%treat_pair_Ok; fold (unordered p pp) in *.
  - split; [done|]. split; [done|]. split; [|by left].
    by intros ? ->%list_elem_of_singleton.
  - split; [|split; [|split]].
    + intros Hnd. apply NoDup_app. split; [done|]. split; [|apply NoDup_singleton].
      by intros x Hx ->%list_elem_of_singleton.
    + intros x Hx. apply elem_of_app. by left.
    + intros ? ->%list_elem_of_singleton. apply elem_of_app. right. left.
    + intros x [?| ->%list_elem_of_singleton]%elem_of_app; [by left|].
      right. exists pp. split; [left|done].
Qed.

Lemma treat_pairs_treated c_size p ps l st st' :
  for_each (treat_pair e fr f_index c_size p ps) l st = Ok st' →
  treated_step p l st.2 st'.2.
Proof.
  revert st. induction l as [|pp l IH]; intros st H.
  - injection H as <-. split; [done|]. split; [done|]. split; [|by left].
    intros pp Hpp. by apply not_elem_of_nil in Hpp.
  - simpl in H. apply bind_Ok in H as (st1 & H1 & H).
    apply treat_pair_treated in H1 as (Hnd1 & Hsub1 & Hin1 & Hfrom1).
    apply IH in H as (Hnd & Hsub & Hin & Hfrom).
    split; [auto|]. split; [auto|]. split.
    + intros pp' [->|Hpp']%elem_of_cons; [apply Hsub, Hin1; left | by apply Hin].
    + intros x Hx. destruct (Hfrom x Hx) as [Hx1|(pp' & ? & ->)].
      * destruct (Hfrom1 x Hx1) as [?|(pp' & ->%list_elem_of_singleton & ->)];
          [by left|]. right. exists pp. split; [left|done].
      * right. exists pp'. split; [by right|done].
Qed.

Lemma treat_protein_treated wl c_size st p st' :
  treat_protein e fr network f_index wl c_size st p = Ok st' →
  treated_step p (Detect.neighbors network p) st.1.2 st'.1.2.
Proof.
  unfold treat_protein. intros H.
  apply bind_Ok in H as (ps & _ & H). apply bind_Ok in H as (pl & _ & H).
  apply bind_Ok in H as (a1 & _ & H). apply bind_Ok in H as (comp & _ & H).
  apply bind_Ok in H as (st1 & Hst1 & H). injection H as <-.
  by apply treat_pairs_treated in Hst1.
Qed.

Lemma treat_proteins_treated wl c_size cluster st st' :
  for_each (treat_protein e fr network f_index wl c_size) cluster st = Ok st' →
  treated_all cluster st.1.2 st'.1.2.
Proof.
  revert st. induction cluster as [|p cluster IH]; intros st H.
  - injection H as <-. split; [done|]. split; [done|]. split; [|by left].
    intros p pp Hp. by apply not_elem_of_nil in Hp.
  - simpl in H. apply bind_Ok in H as (st1 & H1 & H).
    apply treat_protein_treated in H1 as (Hnd1 & Hsub1 & Hin1 & Hfrom1).
    apply IH in H as (Hnd & Hsub & Hin & Hfrom).
    split; [auto|]. split; [auto|]. split.
    + intros p' pp [->|Hp']%elem_of_cons Hpp; [by apply Hsub, Hin1 | by apply Hin].
    + intros x Hx. destruct (Hfrom x Hx) as [Hx1|(p' & pp & ? & ? & ->)].
      * destruct (Hfrom1 x Hx1) as [?|(pp & ? & ->)]; [by left|].
        right. exists p, pp. split; [left|done].
      * right. exists p', pp. split; [by right|done].
Qed.

(** *** The contacts between proteins stay symmetric *)

Lemma treat_pair_contacts c_size p ps st pp st' :
  treat_pair e fr f_index c_size p ps st pp = Ok st' →
  unordered p pp ∉ st.2 →
  ∃ pp_s, index (prot_index2sindex e) pp = Ok pp_s ∧
    let n := Nd.count (pair_mask fr p ps pp pp_s) in
    (∀ j, Nd.item (proteins_ctcts_prot st'.1) j
          = Nd.item (proteins_ctcts_prot st.1) j
            + (if decide (j = [p; pp]) then n else 0)
            + (if decide (j = [pp; p]) then n else 0)) ∧
    (∀ j, Nd.item (proteins_nb_neighbours st'.1) j
          = Nd.item (proteins_nb_neighbours st.1) j
            + (if decide (j = [f_index; p; pp_s]) then 1 else 0)
            + (if decide (j = [f_index; pp; ps]) then 1 else 0)).
Proof.
  intros [[Hin _]|(_ & _ & H)]%treat_pair_Ok Hnin; [done|].
  destruct H as (pp_s & pp_len & p_len & nbn1 & a1 & a2 & prot1 & nbn2 & prot2 &
                 Hpp_s & _ & _ & Hnbn1 & Ha1 & Ha2 & Hprot1 & Hnbn2 & Hprot2 & ->).
  exists pp_s. split; [done|]. simpl.
  apply first_residue_contacts_only in Ha1 as (_ & _ & Hn1 & Hp1 & _).
  assert (only_residues a1 a2) as (_ & _ & Hn2 & Hp2 & _).
  { destruct (ps =? pp_s); [by eapply add_residue_contacts_only|].
    by injection Ha2 as <-. }
  simpl in *. split; intros j.
  - rewrite (add_at_item _ _ _ _ Hprot2), (add_at_item _ _ _ _ Hprot1).
    by rewrite Hp2, Hp1.
  - rewrite (add_at_item _ _ _ _ Hnbn2), Hn2, Hn1, (add_at_item _ _ _ _ Hnbn1). done.
Qed.

Lemma treat_pair_symmetric c_size p ps st pp st' :
  treat_pair e fr f_index c_size p ps st pp = Ok st' →
  symmetric (proteins_ctcts_prot st.1) → symmetric (proteins_ctcts_prot st'.1).
Proof.
  intros H Hsym. destruct (decide (unordered p pp ∈ st.2)) as [Hin|Hnin].
  - apply treat_pair_Ok in H as [[_ ->]|(Hnin & _)]; done.
  - destruct (treat_pair_contacts _ _ _ _ _ _ H Hnin) as (pp_s & _ & Hprot & _).
    intros i j. rewrite !Hprot, (Hsym i j).
    destruct (decide ([i; j] = [p; pp])), (decide ([i; j] = [pp; p])),
             (decide ([j; i] = [p; pp])), (decide ([j; i] = [pp; p]));
      simplify_eq; lia.
Qed.

Lemma treat_lipids_only c_size p ps pl a a' :
  treat_lipids e fr c_size p ps pl a = Ok a' →
  proteins_ctcts_prot a' = proteins_ctcts_prot a.
Proof. unfold treat_lipids. intros H. inv_ok H; done. Qed.

Lemma for_each_preserves {A S} (body : S → A → result S) (P : S → Prop) xs s s' :
  (∀ s x s', body s x = Ok s' → P s → P s') →
  for_each body xs s = Ok s' → P s → P s'.
Proof.
  intros Hbody. revert s. induction xs as [|x xs IH]; intros s H Hs.
  - by injection H as <-.
  - simpl in H. apply bind_Ok in H as (s1 & H1 & H). eauto.
Qed.

Lemma treat_protein_symmetric wl c_size st p st' :
  treat_protein e fr network f_index wl c_size st p = Ok st' →
  symmetric (proteins_ctcts_prot st.1.1) → symmetric (proteins_ctcts_prot st'.1.1).
Proof.
  unfold treat_protein. intros H Hsym.
  apply bind_Ok in H as (ps & _ & H). apply bind_Ok in H as (pl & _ & H).
  apply bind_Ok in H as (a1 & Ha1 & H). apply bind_Ok in H as (comp & _ & H).
  apply bind_Ok in H as (st1 & Hst1 & H). injection H as <-. simpl.
  refine (for_each_preserves _ (λ s, symmetric (proteins_ctcts_prot s.1))
            _ _ _ _ Hst1 _).
  - intros ???. apply treat_pair_symmetric.
  - simpl. destruct wl; [|by injection Ha1 as <-].
    by rewrite (treat_lipids_only _ _ _ _ _ _ Ha1).
Qed.

Lemma account_symmetric wl cluster a a' :
  account e fr network f_index wl cluster a = Ok a' →
  symmetric (proteins_ctcts_prot a) → symmetric (proteins_ctcts_prot a').
Proof.
  unfold account. intros H Hsym. apply bind_Ok in H as (a1 & Ha1 & H).
  apply bind_Ok in H as (st & Hst & H). injection H as <-. simpl.
  apply store_size_Ok in Ha1 as (_ & _ & Hp & _).
  refine (for_each_preserves _ (λ s, symmetric (proteins_ctcts_prot s.1.1))
            _ _ _ _ Hst _).
  - intros ???. apply treat_protein_symmetric.
  - simpl. by rewrite Hp.
Qed.

Lemma process_clusters_symmetric a a' :
  process_clusters e fr network f_index a = Ok a' →
  symmetric (proteins_ctcts_prot a) → symmetric (proteins_ctcts_prot a').
Proof.
  unfold process_clusters. intros H.
  refine (for_each_preserves _ (λ a, symmetric (proteins_ctcts_prot a)) _ _ _ _ H).
  intros ???. apply account_symmetric.
Qed.

Lemma process_clusters_TM_symmetric a a' :
  process_clusters_TM e fr network f_index a = Ok a' →
  symmetric (proteins_ctcts_prot a) → symmetric (proteins_ctcts_prot a').
Proof.
  unfold process_clusters_TM. intros H0.
  refine (for_each_preserves _ (λ a, symmetric (proteins_ctcts_prot a)) _ _ _ _ H0).
  intros a1 cluster a2 H Hsym. unfold process_cluster_TM in H.
  apply bind_Ok in H as (dist & _ & H). destruct (classify dist).
  - apply store_size_Ok in H as (_ & _ & Hp & _). by rewrite Hp.
  - apply store_size_Ok in H as (_ & _ & Hp & _). by rewrite Hp.
  - by eapply account_symmetric.
Qed.

(** C7: while a cluster is gone through, every pair of a member and one
    of its neighbours in the graph is treated, and treated once: the list
    of the pairs treated has no repetition and holds exactly those pairs.
    A pair on its treatment adds its number of residue contacts to the
    entries [p][pp] and [pp][p] of the contacts between proteins and one
    to the neighbour tallies of both, so the contacts between proteins,
    symmetric before a pair, a protein, a cluster or a frame, are
    symmetric after it. *)
Theorem each_pair_treated_once wl c_size cluster a comp st' :
  for_each (treat_protein e fr network f_index wl c_size) cluster (a, [], comp)
  = Ok st' →
  NoDup st'.1.2 ∧
  (∀ p pp, p ∈ cluster → pp ∈ Detect.neighbors network p →
           unordered p pp ∈ st'.1.2) ∧
  (∀ x, x ∈ st'.1.2 →
        ∃ p pp, p ∈ cluster ∧ pp ∈ Detect.neighbors network p ∧ x = unordered p pp) ∧
  (∀ c_size p ps st pp st1,
     treat_pair e fr f_index c_size p ps st pp = Ok st1 →
     (symmetric (proteins_ctcts_prot st.1) → symmetric (proteins_ctcts_prot st1.1)) ∧
     (unordered p pp ∈ st.2 → st1 = st) ∧
     (unordered p pp ∉ st.2 → p ≠ pp →
      ∃ pp_s, index (prot_index2sindex e) pp = Ok pp_s ∧
        let n := Nd.count (pair_mask fr p ps pp pp_s) in
        Nd.item (proteins_ctcts_prot st1.1) [p; pp]
        = Nd.item (proteins_ctcts_prot st.1) [p; pp] + n ∧
        Nd.item (proteins_ctcts_prot st1.1) [pp; p]
        = Nd.item (proteins_ctcts_prot st.1) [pp; p] + n ∧
        Nd.item (proteins_nb_neighbours st1.1) [f_index; p; pp_s]
        = Nd.item (proteins_nb_neighbours st.1) [f_index; p; pp_s] + 1 ∧
        Nd.item (proteins_nb_neighbours st1.1) [f_index; pp; ps]
        = Nd.item (proteins_nb_neighbours st.1) [f_index; pp; ps] + 1)) ∧
  (symmetric (proteins_ctcts_prot a) → symmetric (proteins_ctcts_prot st'.1.1)) ∧
  (∀ a a', process_clusters e fr network f_index a = Ok a' →
           symmetric (proteins_ctcts_prot a) → symmetric (proteins_ctcts_prot a')) ∧
  (∀ a a', process_clusters_TM e fr network f_index a = Ok a' →
           symmetric (proteins_ctcts_prot a) → symmetric (proteins_ctcts_prot a')).
Proof.
  intros H. pose proof (treat_proteins_treated _ _ _ _ _ H) as (Hnd & _ & Hin & Hfrom).
  simpl in *. split; [apply Hnd; constructor|]. split; [done|]. split.
  { intros x Hx. destruct (Hfrom x Hx) as [Hx'|?]; [|done].
    by apply not_elem_of_nil in Hx'. }
  split; [|split; [|split]].
  - intros c_size' p ps st pp st1 Hpair. split; [by eapply treat_pair_symmetric|].
    split.
    + intros Hin'. by apply treat_pair_Ok in Hpair as [[_ ->]|(? & _)].
    + intros Hnin Hne.
      destruct (treat_pair_contacts _ _ _ _ _ _ Hpair Hnin) as (pp_s & Hpp & Hprot & Hnbn).
      exists pp_s. split; [done|]. simpl. rewrite !Hprot, !Hnbn.
      repeat case_decide; simplify_eq; lia.
  - refine (for_each_preserves _ (λ s, symmetric (proteins_ctcts_prot s.1.1))
              _ _ _ _ H).
    intros ???. apply treat_protein_symmetric.
  - apply process_clusters_symmetric.
  - apply process_clusters_TM_symmetric.
Qed.
End Frame.

Import ConnectivityFacts CompositionFacts.

Lemma each_pair_treated_once_witness :
  ∃ G a0 st',
    Detect.detect_clusters_connectivity 1 (Topology.proteins_boundaries [4])
      four_cut four_dist = Ok G ∧
    Struct.struct_proteins four_env = Ok a0 ∧
    for_each (treat_protein four_env four_frame G 0 false 2) [0; 1] (a0, [], [0])
    = Ok st' ∧
    st'.1.2 = [(0, 1)] ∧ NoDup st'.1.2 ∧
    Nd.item (proteins_ctcts_prot st'.1.1) [0; 1] = 1 ∧
    Nd.item (proteins_ctcts_prot st'.1.1) [1; 0] = 1.
Proof.
  eexists. eexists. eexists. split; [vm_compute; reflexivity|].
  split; [vm_compute; reflexivity|].
  match goal with
  | |- for_each ?f ?cl (?a0, [], ?comp) = Ok ?st' ∧ _ =>
      assert (for_each f cl (a0, [], comp) = Ok st') as H by (vm_compute; reflexivity)
  end.
  split; [exact H|]. split; [vm_compute; reflexivity|].
  split; [exact (proj1 (each_pair_treated_once _ _ _ _ _ _ _ _ _ _ H))|].
  split; vm_compute; reflexivity.
Defined.

End PairFacts.

Module ContactFacts.
Import Process ProcessWords Examples ProcessFacts NdFacts SumFacts.

Lemma add_mask_Ok a m a' : Nd.add_mask a m = Ok a' → added m a a'.
Proof.
  unfold Nd.add_mask. destruct (decide _) as [E|]; [|done]. intros [= <-]. done.
Qed.

Lemma add_mask_at_Ok `{Countable K} (d : gmap K (Nd.t nat)) k m d' :
  add_mask_at d k m = Ok d' →
  ∃ r r', d !! k = Some r ∧ added m r r' ∧ d' = <[k := r']> d.
Proof.
  unfold add_mask_at, getitem. intros H1.
  apply bind_Ok in H1 as (r & Hr & H1). apply bind_Ok in H1 as (r' & Hr' & H1).
  injection H1 as <-. destruct (d !! k) as [r0|] eqn:E; [|done]. injection Hr as ->.
  exists r, r'. split; [done|]. split; [by apply add_mask_Ok|done].
Qed.

Lemma add_mask_at2_Ok `{Countable K, Countable K2}
    (d : gmap K (gmap K2 (Nd.t nat))) k k2 m d' :
  add_mask_at2 d k k2 m = Ok d' →
  ∃ r r', lookup2 d k k2 = Some r ∧ added m r r' ∧ lookup2 d' k k2 = Some r' ∧
          ∀ i, i ≠ k → d' !! i = d !! i.
Proof.
  unfold add_mask_at2, getitem, lookup2. intros H1.
  apply bind_Ok in H1 as (inner & Hi & H1). apply bind_Ok in H1 as (inner' & Hi' & H1).
  injection H1 as <-. destruct (d !! k) as [i0|] eqn:E; [|done]. injection Hi as ->.
  apply add_mask_at_Ok in Hi' as (r & r' & Hr & Hadd & ->).
  exists r, r'. simpl. split; [done|]. split; [done|]. split.
  - rewrite lookup_insert_eq. simpl. by rewrite lookup_insert_eq.
  - intros i Hne. by rewrite lookup_insert_ne.
Qed.

Lemma allocate_at2_Ok `{Countable K, Countable K2} {V}
    (d : gmap K (gmap K2 V)) k k2 v d' :
  allocate_at2 d k k2 v = Ok d' →
  lookup2 d' k k2 = Some (default v (lookup2 d k k2)).
Proof.
  unfold allocate_at2, getitem, lookup2. intros H1.
  apply bind_Ok in H1 as (inner & Hi & H1).
  destruct (d !! k) as [i0|] eqn:E; [|done]. injection Hi as ->. simpl.
  destruct (inner !! k2) as [x|] eqn:E2; injection H1 as <-; simpl.
  - rewrite E. simpl. by rewrite E2.
  - rewrite lookup_insert_eq. simpl. by rewrite lookup_insert_eq.
Qed.

Lemma added_twice m1 m2 r r1 r2 :
  added m1 r r1 → added m2 r1 r2 →
  Nd.shape r = Nd.shape m1 ∧ Nd.shape m2 = Nd.shape m1 ∧ Nd.shape r2 = Nd.shape r ∧
  ∀ j, Nd.item r2 j = Nd.item r j + (if Nd.item m1 j then 1 else 0)
                      + (if Nd.item m2 j then 1 else 0).
Proof.
  intros (S1 & S1' & I1) (S2 & S2' & I2). split; [done|]. split; [congruence|].
  split; [congruence|]. intros j. by rewrite I2, I1.
Qed.

Lemma sum_added m r r' : added m r r' → Nd.sum r' = Nd.sum r + Nd.count m.
Proof.
  intros (Sm & Sr & I). unfold Nd.sum, Nd.count. rewrite Sr, <- Sm.
  rewrite <- sum_list_add. by apply sum_list_ext.
Qed.

Section Frame.
Variable e : env.
Variable fr : frame.
Variable f_index : nat.

Lemma group_contacts key c_size m (a : acc) by_group :
  (match groups e with
   | None => Ok a
   | Some g =>
       g_index ← group_of g c_size;
       by_group ← add_mask_at2 (proteins_ctcts_res_group a) key g_index m;
       Ok (set_proteins_ctcts_res_group by_group a)
   end) = Ok by_group →
  proteins_ctcts_res by_group = proteins_ctcts_res a ∧
  proteins_ctcts_res_size by_group = proteins_ctcts_res_size a ∧
  ∀ g, groups e = Some g →
       ∃ g_index t t',
         group_of g c_size = Ok g_index ∧
         lookup2 (proteins_ctcts_res_group a) key g_index = Some t ∧
         lookup2 (proteins_ctcts_res_group by_group) key g_index = Some t' ∧
         added m t t'.
Proof.
  destruct (groups e) as [g|]; intros H1.
  - apply bind_Ok in H1 as (g_index & Hg & H1).
    apply bind_Ok in H1 as (d' & Hd' & H1). injection H1 as <-. simpl.
    split; [done|]. split; [done|]. intros ? [= <-].
    apply add_mask_at2_Ok in Hd' as (t & t' & ? & ? & ? & _).
    by exists g_index, t, t'.
  - injection H1 as <-. done.
Qed.

Lemma add_residue_contacts_spec key c_size m a a' :
  add_residue_contacts e key c_size m a = Ok a' →
  (∃ r r', proteins_ctcts_res a !! key = Some r ∧
           proteins_ctcts_res a' !! key = Some r' ∧ added m r r') ∧
  (∃ s s', lookup2 (proteins_ctcts_res_size a) key c_size = Some s ∧
           lookup2 (proteins_ctcts_res_size a') key c_size = Some s' ∧
           added m s s') ∧
  (∀ g, groups e = Some g →
        ∃ g_index t t',
          group_of g c_size = Ok g_index ∧
          lookup2 (proteins_ctcts_res_group a) key g_index = Some t ∧
          lookup2 (proteins_ctcts_res_group a') key g_index = Some t' ∧
          added m t t').
Proof.
  unfold add_residue_contacts. intros H1.
  apply bind_Ok in H1 as (res & Hres & H1).
  apply bind_Ok in H1 as (by_size & Hsize & H1).
  apply group_contacts in H1 as (Er & Es & Hg). simpl in *.
  apply add_mask_at_Ok in Hres as (r & r' & Hr & Hadd & ->).
  apply add_mask_at2_Ok in Hsize as (s & s' & Hs & Hadds & Hs' & _).
  split; [|split; [|done]].
  - exists r, r'. rewrite Er, lookup_insert_eq. done.
  - exists s, s'. by rewrite Es.
Qed.

Lemma first_residue_contacts_spec key c_size m zeros a a' :
  first_residue_contacts e key c_size m zeros a = Ok a' →
  (∃ r r', proteins_ctcts_res a !! key = Some r ∧
           proteins_ctcts_res a' !! key = Some r' ∧ added m r r') ∧
  (∃ s', lookup2 (proteins_ctcts_res_size a') key c_size = Some s' ∧
         added m (default zeros (lookup2 (proteins_ctcts_res_size a) key c_size)) s') ∧
  (∀ g, groups e = Some g →
        ∃ g_index t t',
          group_of g c_size = Ok g_index ∧
          lookup2 (proteins_ctcts_res_group a) key g_index = Some t ∧
          lookup2 (proteins_ctcts_res_group a') key g_index = Some t' ∧
          added m t t').
Proof.
  unfold first_residue_contacts. intros H1.
  apply bind_Ok in H1 as (res & Hres & H1).
  apply bind_Ok in H1 as (by_size0 & Hsize0 & H1).
  apply bind_Ok in H1 as (by_size & Hsize & H1).
  apply group_contacts in H1 as (Er & Es & Hg). simpl in *.
  apply add_mask_at_Ok in Hres as (r & r' & Hr & Hadd & ->).
  apply allocate_at2_Ok in Hsize0.
  apply add_mask_at2_Ok in Hsize as (s & s' & Hs & Hadds & Hs' & _).
  split; [|split; [|done]].
  - exists r, r'. rewrite Er, lookup_insert_eq. done.
  - exists s'. rewrite Es. split; [done|]. congruence.
Qed.

(** a size of the group "other" has no matrix by group: the treatment of
    a pair of a cluster of such a size raises *)
Lemma other_group_not_counted key c_size m zeros a g inner :
  groups e = Some g → group_of g c_size = Ok (Groups.groups_number g) →
  proteins_ctcts_res_group a !! key = Some inner →
  inner !! Groups.groups_number g = None →
  ¬ is_Ok (first_residue_contacts e key c_size m zeros a).
Proof.
  intros Hg Hother Hkey Hnone [a' Ha'].
  apply first_residue_contacts_spec in Ha' as (_ & _ & Hgroup).
  destruct (Hgroup g Hg) as (g_index & t & t' & Hgi & Ht & _).
  rewrite Hother in Hgi. injection Hgi as <-.
  unfold lookup2 in Ht. rewrite Hkey in Ht. simpl in Ht. congruence.
Qed.

Lemma per_group_other sh g g_index :
  groups e = Some g → Groups.groups_number g ≤ g_index →
  Struct.per_group e sh !! g_index = None.
Proof.
  intros Hg Hle. unfold Struct.per_group. rewrite Hg.
  assert (∀ l (d : gmap nat (Nd.t nat)),
            d !! g_index = None → g_index ∉ l →
            foldl (λ d i, <[i := Nd.full sh 0]> d) d l !! g_index = None) as Hfold.
  { induction l as [|i l IH]; intros d Hd Hl; [done|]. simpl.
    apply not_elem_of_cons in Hl as [Hne Hl]. apply IH; [|done].
    by rewrite lookup_insert_ne. }
  apply Hfold; [done|]. rewrite elem_of_seq. lia.
Qed.

Lemma contribution_once ps pp_s m r r' :
  (ps =? pp_s) = false → added m r r' → contribution ps pp_s m r r'.
Proof.
  intros E Hadd. unfold contribution. rewrite E. split; [apply Hadd|].
  by apply sum_added.
Qed.

Lemma contribution_twice ps pp_s m r r1 r2 :
  (ps =? pp_s) = true → added m r r1 → added (Nd.transpose m) r1 r2 →
  contribution ps pp_s m r r2.
Proof.
  intros E H1 H2. unfold contribution. rewrite E.
  split; [by apply (added_twice _ _ _ _ _ H1 H2)|].
  rewrite (sum_added _ _ _ H2), (sum_added _ _ _ H1), count_transpose. lia.
Qed.

(** C5: a pair of neighbouring proteins, treated, has its mask of residue
    contacts added to the matrix of its species pair, keyed by the lower
    species index first, in the overall table, in the table by size and,
    with groups, in the table by group.  For two proteins of one species
    the transposed mask is added as well, so each of the three matrices
    grows by twice the number of residue pairs in contact; for two
    species the mask goes in once, rows along the protein of the lower
    species index. *)
Theorem homotypic_contacts_counted_twice c_size p ps st pp st' :
  treat_pair e fr f_index c_size p ps st pp = Ok st' →
  unordered p pp ∉ st.2 →
  ∃ pp_s pp_len p_len,
    index (prot_index2sindex e) pp = Ok pp_s ∧
    index (proteins_length e) pp_s = Ok pp_len ∧
    index (proteins_length e) ps = Ok p_len ∧
    let m := pair_mask fr p ps pp pp_s in
    let key := pair_key ps pp_s in
    (ps < pp_s → key = (ps, pp_s) ∧ m = res_mask fr p pp) ∧
    (pp_s < ps → key = (pp_s, ps) ∧ m = res_mask fr pp p) ∧
    (ps = pp_s → key = (ps, ps) ∧ m = res_mask fr pp p) ∧
    (∃ r r', proteins_ctcts_res st.1 !! key = Some r ∧
             proteins_ctcts_res st'.1 !! key = Some r' ∧
             contribution ps pp_s m r r') ∧
    (∃ s',
       lookup2 (proteins_ctcts_res_size st'.1) key c_size = Some s' ∧
       contribution ps pp_s m
         (default (pair_zeros ps p_len pp_s pp_len)
                  (lookup2 (proteins_ctcts_res_size st.1) key c_size)) s') ∧
    (∀ g, groups e = Some g →
          ∃ g_index t t',
            group_of g c_size = Ok g_index ∧
            lookup2 (proteins_ctcts_res_group st.1) key g_index = Some t ∧
            lookup2 (proteins_ctcts_res_group st'.1) key g_index = Some t' ∧
            contribution ps pp_s m t t').
Proof.
  intros [[Hin _]|(_ & _ & H1)]%treat_pair_Ok Hnin; [done|].
  destruct H1 as (pp_s & pp_len & p_len & nbn1 & a1 & a2 & prot1 & nbn2 & prot2 &
                  Hpp_s & Hpp_len & Hp_len & _ & Ha1 & Ha2 & _ & _ & _ & ->).
  exists pp_s, pp_len, p_len. split; [done|]. split; [done|]. split; [done|].
  simpl. unfold pair_key, pair_mask.
  split. { intros Hlt. rewrite (proj2 (Nat.ltb_lt _ _) Hlt). split; [f_equal; lia|done]. }
  split. { intros Hlt. rewrite (proj2 (Nat.ltb_ge _ _)) by lia. split; [f_equal; lia|done]. }
  split. { intros <-. rewrite Nat.ltb_irrefl. split; [f_equal; lia|done]. }
  fold (pair_key ps pp_s). fold (pair_mask fr p ps pp pp_s).
  apply first_residue_contacts_spec in Ha1
    as ((r & r1 & Hr & Hr1 & Hadd) & (s1 & Hs1 & Hadds) & Hg1). simpl in *.
  destruct (ps =? pp_s) eqn:E.
  - apply add_residue_contacts_spec in Ha2
      as ((r1' & r2 & Hr1' & Hr2 & Hadd2) & (s1' & s2 & Hs1' & Hs2 & Hadds2) & Hg2).
    assert (r1' = r1) as -> by congruence. assert (s1' = s1) as -> by congruence.
    split; [|split].
    + exists r, r2. split; [done|]. split; [done|]. by eapply contribution_twice.
    + exists s2. split; [done|]. by eapply contribution_twice.
    + intros g Hgr. destruct (Hg1 g Hgr) as (gi & t & t1 & Hgi & Ht & Ht1 & Haddt).
      destruct (Hg2 g Hgr) as (gi' & t1' & t2 & Hgi' & Ht1' & Ht2 & Haddt2).
      assert (gi' = gi) as -> by congruence. assert (t1' = t1) as -> by congruence.
      exists gi, t, t2. split; [done|]. split; [done|]. split; [done|].
      by eapply contribution_twice.
  - injection Ha2 as <-. split; [|split].
    + exists r, r1. split; [done|]. split; [done|]. by apply contribution_once.
    + exists s1. split; [done|]. by apply contribution_once.
    + intros g Hgr. destruct (Hg1 g Hgr) as (gi & t & t1 & Hgi & Ht & Ht1 & Haddt).
      exists gi, t, t1. split; [done|]. split; [done|]. split; [done|].
      by apply contribution_once.
Qed.
End Frame.

Lemma homotypic_contacts_counted_twice_witness :
  ∃ a0 st' r r',
    Struct.struct_proteins pair_env = Ok a0 ∧
    treat_pair pair_env pair_frame 0 2 0 0 (a0, []) 1 = Ok st' ∧
    proteins_ctcts_res a0 !! (0, 0) = Some r ∧
    proteins_ctcts_res st'.1 !! (0, 0) = Some r' ∧
    Nd.sum r' = Nd.sum r + 2 ∧
    Nd.item r' [0; 1] = Nd.item r [0; 1] + 1 ∧
    Nd.item r' [1; 0] = Nd.item r [1; 0] + 1 ∧
    Nd.item r' [0; 0] = Nd.item r [0; 0].
Proof.
  assert ((a0 ← Struct.struct_proteins pair_env;
           st' ← treat_pair pair_env pair_frame 0 2 0 0 (a0, []) 1;
           Ok tt) = Ok tt) as Hrun by (vm_compute; reflexivity).
  apply bind_Ok in Hrun as (a0 & Ha0 & Hrun). apply bind_Ok in Hrun as (st' & H & _).
  destruct (homotypic_contacts_counted_twice _ _ _ _ _ _ _ _ _ H)
    as (pp_s & pp_len & p_len & Hpp_s & _ & _ & H').
  { simpl. apply not_elem_of_nil. }
  injection Hpp_s as <-. cbv zeta in H'.
  destruct H' as (_ & _ & _ & (r & r' & Hr & Hr' & Hall & Hsum) & _).
  exists a0, st', r, r'. split; [exact Ha0|]. split; [exact H|].
  split; [exact Hr|]. split; [exact Hr'|]. rewrite Hsum, !Hall.
  assert (Nd.count (pair_mask pair_frame 0 0 1 0) = 1) as -> by (vm_compute; reflexivity).
  repeat split; simpl; lia.
Defined.

End ContactFacts.

Module AccountFacts.
Import Process ProcessWords LeafletWords ProcessFacts NdFacts PairFacts SumFacts.

(** *** Sums over lists *)

Lemma sum_list_fmap_ext {A} (f g : A → nat) l :
  (∀ y, y ∈ l → f y = g y) → sum_list (f <$> l) = sum_list (g <$> l).
Proof.
  induction l as [|x l IH]; intros Hfg; [done|]. csimpl.
  rewrite (Hfg x) by left. rewrite IH; [done|]. intros y Hy. apply Hfg. by right.
Qed.

Lemma sum_list_at `{EqDecision A} (l : list A) (x : A) (c : nat) :
  NoDup l →
  sum_list ((λ y, if decide (y = x) then c else 0) <$> l)
  = if decide (x ∈ l) then c else 0.
Proof.
  induction l as [|y l IH]; intros Hnd.
  - destruct (decide (x ∈ [])) as [Hx|Hx]; [|done]. by apply not_elem_of_nil in Hx.
  - apply NoDup_cons in Hnd as [Hy Hnd]. rewrite fmap_cons.
    change (sum_list (?a :: ?r)) with (a + sum_list r). rewrite IH by done.
    destruct (decide (y = x)) as [->|Hne].
    + destruct (decide (x ∈ l)); [done|].
      destruct (decide (x ∈ x :: l)) as [|Hx]; [lia|]. destruct Hx. left.
    + destruct (decide (x ∈ l)) as [Hx|Hx].
      * destruct (decide (x ∈ y :: l)) as [|Hx']; [done|]. destruct Hx'. by right.
      * destruct (decide (x ∈ y :: l)) as [[->|?]%elem_of_cons|]; done.
Qed.

(** *** The tables of lipid contacts *)

Lemma getitem_found `{Countable K} {V} (d : gmap K V) k v :
  getitem d k = Ok v → d !! k = Some v.
Proof. unfold getitem. destruct (d !! k); [|done]. by intros [= ->]. Qed.

Lemma checked_Ok (P : Prop) `{Decision P} msg (x : unit) :
  (if decide P then Ok tt else Raise msg) = Ok x → P.
Proof. by destruct (decide P). Qed.

Lemma index_found {A} (l : list A) i x : index l i = Ok x → l !! i = Some x.
Proof. unfold index. destruct (l !! i); [|done]. by intros [= ->]. Qed.

Lemma lip_entry_insert `{Countable K} (d : gmap nat (gmap K (Nd.t nat)))
    k (k2 : K) inner r s c j :
  d !! k = Some inner →
  lip_entry (<[k := <[k2 := r]> inner]> d) s c j
  = if decide (s = k ∧ c = k2) then Nd.item r [j] else lip_entry d s c j.
Proof.
  intros Hk. unfold lip_entry, lookup2.
  destruct (decide (s = k)) as [->|Hs].
  - rewrite lookup_insert_eq, Hk. simpl. destruct (decide (c = k2)) as [->|Hc].
    + rewrite lookup_insert_eq. by rewrite decide_True.
    + rewrite lookup_insert_ne by done. by rewrite decide_False by (by intros [_ ?]).
  - rewrite lookup_insert_ne by done. by rewrite decide_False by (by intros [? _]).
Qed.

Lemma add_array_at2_entry `{Countable K} (d : gmap nat (gmap K (Nd.t nat)))
    k (k2 : K) v d' :
  add_array_at2 d k k2 v = Ok d' →
  ∀ s c j, lip_entry d' s c j
           = lip_entry d s c j
             + (if decide (s = k ∧ c = k2) then Nd.item v [j] else 0).
Proof.
  unfold add_array_at2. intros Hrun.
  apply bind_Ok in Hrun as (inner & Hinner & Hrun). apply bind_Ok in Hrun as (r & Hr & Hrun).
  apply bind_Ok in Hrun as (r' & Hr' & Hrun). injection Hrun as <-.
  apply getitem_found in Hinner. apply getitem_found in Hr.
  unfold Nd.add in Hr'. destruct (decide (Nd.shape r = Nd.shape v)); [|done].
  injection Hr' as <-. intros s c j. rewrite (lip_entry_insert _ _ _ _ _ _ _ _ Hinner).
  destruct (decide (s = k ∧ c = k2)) as [[-> ->]|]; [|lia].
  unfold lip_entry, lookup2. rewrite Hinner. simpl. by rewrite Hr.
Qed.

Lemma allocate_at2_entry `{Countable K} (d : gmap nat (gmap K (Nd.t nat)))
    k (k2 : K) sh d' :
  allocate_at2 d k k2 (Nd.full sh 0) = Ok d' →
  ∀ s c j, lip_entry d' s c j = lip_entry d s c j.
Proof.
  unfold allocate_at2. intros Hrun. apply bind_Ok in Hrun as (inner & Hinner & Hrun).
  apply getitem_found in Hinner. destruct (inner !! k2) eqn:E.
  - by injection Hrun as <-.
  - injection Hrun as <-. intros s c j. rewrite (lip_entry_insert _ _ _ _ _ _ _ _ Hinner).
    destruct (decide (s = k ∧ c = k2)) as [[-> ->]|]; [|done].
    unfold lip_entry, lookup2. rewrite Hinner. simpl. by rewrite E.
Qed.

Lemma sum_axis1_pop pl nb m pop :
  Nd.add_mask (Nd.full [pl; nb] 0) m = Ok pop →
  ∀ j, Nd.item (Nd.sum_axis1 pop) [j] = residue_lipids m nb j.
Proof.
  unfold Nd.add_mask. destruct (decide _); [|done]. intros [= <-] j. reflexivity.
Qed.

Lemma lipid_contacts_Ok c_size ps pl nb m by_size r :
  lipid_contacts c_size ps pl nb m by_size = Ok r →
  (∀ j, Nd.item r.1 [j] = residue_lipids m nb j) ∧
  ∀ s c j, lip_entry r.2 s c j
           = lip_entry by_size s c j
             + (if decide (s = ps ∧ c = c_size) then residue_lipids m nb j else 0).
Proof.
  unfold lipid_contacts. intros H. apply bind_Ok in H as (pop & Hpop & H).
  apply bind_Ok in H as (d1 & Hd1 & H). apply bind_Ok in H as (d2 & Hd2 & H).
  injection H as <-. simpl. pose proof (sum_axis1_pop _ _ _ _ Hpop) as Hs.
  split; [done|]. intros s c j.
  rewrite (add_array_at2_entry _ _ _ _ _ Hd2), (allocate_at2_entry _ _ _ _ _ Hd1), Hs.
  done.
Qed.

Lemma grown_refl `{Countable K} (d : gmap nat (gmap K (Nd.t nat))) (k : K) :
  grown d d k (λ _ _, 0).
Proof. intros s c j. destruct (decide (c = k)); lia. Qed.

Lemma grown_trans `{Countable K} (d1 d2 d3 : gmap nat (gmap K (Nd.t nat))) (k : K)
    more1 more2 more :
  (∀ s j, more s j = more1 s j + more2 s j) →
  grown d1 d2 k more1 → grown d2 d3 k more2 → grown d1 d3 k more.
Proof.
  intros Hmore H12 H23 s c j. rewrite H23, H12, Hmore.
  destruct (decide (c = k)); lia.
Qed.

Lemma unordered_eq a b x y :
  unordered a b = unordered x y → (a = x ∧ b = y) ∨ (a = y ∧ b = x).
Proof. unfold unordered. intros [= ? ?]. lia. Qed.

Lemma unordered_comm x y : unordered x y = unordered y x.
Proof. unfold unordered. f_equal; lia. Qed.

Lemma NoDup_neighbors G p : NoDup (Detect.neighbors G p).
Proof. apply NoDup_filter, NoDup_seq. Qed.

Lemma incr_lookup l i l' :
  incr l i = Ok l' →
  length l' = length l ∧
  ∀ s n, l !! s = Some n → l' !! s = Some (n + if decide (i = s) then 1 else 0).
Proof.
  unfold incr. intros H. apply bind_Ok in H as (x & Hx & H). injection H as <-.
  apply index_found in Hx. split; [apply length_insert|]. intros s n Hs.
  destruct (decide (i = s)) as [->|Hne].
  - rewrite list_lookup_insert_eq by (by eapply lookup_lt_Some).
    f_equal. assert (x = n) by congruence. lia.
  - rewrite list_lookup_insert_ne by done. rewrite Hs. f_equal. lia.
Qed.

Section Frame.
Variable e : env.
Variable fr : frame.
Variable network : Detect.graph.
Variable f_index : nat.

(** *** The contacts with the lipids *)

Local Abbreviation upper := (cluster_lipids e (lip_mask_upper fr) (nb_lip_upper fr)).
Local Abbreviation lower := (cluster_lipids e (lip_mask_lower fr) (nb_lip_lower fr)).

Local Abbreviation lipids_grown := (LeafletWords.lipids_grown e fr).

Lemma cluster_lipids_app mask nb l1 l2 s j :
  cluster_lipids e mask nb (l1 ++ l2) s j
  = cluster_lipids e mask nb l1 s j + cluster_lipids e mask nb l2 s j.
Proof. unfold cluster_lipids. by rewrite fmap_app, sum_list_with_app. Qed.

Lemma cluster_lipids_one mask nb p ps s j :
  prot_index2sindex e !! p = Some ps →
  cluster_lipids e mask nb [p] s j
  = if decide (s = ps) then residue_lipids (mask p) nb j else 0.
Proof.
  intros Hp. unfold cluster_lipids. csimpl. rewrite Hp.
  destruct (decide (Some ps = Some s)) as [[= ->]|Hne].
  - rewrite decide_True by done. lia.
  - rewrite decide_False; [lia|]. by intros ->.
Qed.

Lemma lipids_kept_grown c_size a a' : lipids_kept a a' → lipids_grown c_size [] a a'.
Proof.
  unfold LeafletWords.lipids_grown. intros (-> & -> & -> & ->).
  split; [apply grown_refl|]. split; [apply grown_refl|].
  intros g g_index _ _. split; apply grown_refl.
Qed.

Lemma lipids_grown_trans c_size l1 l2 a1 a2 a3 :
  lipids_grown c_size l1 a1 a2 → lipids_grown c_size l2 a2 a3 →
  lipids_grown c_size (l1 ++ l2) a1 a3.
Proof.
  intros (Hu1 & Hl1 & Hg1) (Hu2 & Hl2 & Hg2).
  split; [|split].
  - eapply grown_trans; [|exact Hu1|exact Hu2]. intros. apply cluster_lipids_app.
  - eapply grown_trans; [|exact Hl1|exact Hl2]. intros. apply cluster_lipids_app.
  - intros g g_index Hg Hgi.
    destruct (Hg1 g g_index Hg Hgi) as [Hgu1 Hgl1].
    destruct (Hg2 g g_index Hg Hgi) as [Hgu2 Hgl2]. split.
    + eapply grown_trans; [|exact Hgu1|exact Hgu2]. intros. apply cluster_lipids_app.
    + eapply grown_trans; [|exact Hgl1|exact Hgl2]. intros. apply cluster_lipids_app.
Qed.

Lemma lipids_kept_after c_size l a1 a2 a3 :
  lipids_grown c_size l a1 a2 → lipids_kept a2 a3 → lipids_grown c_size l a1 a3.
Proof. unfold LeafletWords.lipids_grown. intros H12 (-> & -> & -> & ->). exact H12. Qed.

Lemma lipids_kept_before c_size l a1 a2 a3 :
  lipids_kept a1 a2 → lipids_grown c_size l a2 a3 → lipids_grown c_size l a1 a3.
Proof. unfold LeafletWords.lipids_grown. intros (<- & <- & <- & <-) H23. exact H23. Qed.

(** the contacts of a protein with the two leaflets, by size and by group *)
Lemma treat_lipids_Ok c_size p ps pl a a' :
  prot_index2sindex e !! p = Some ps →
  treat_lipids e fr c_size p ps pl a = Ok a' →
  lipids_grown c_size [p] a a' ∧
  proteins_nb_neighbours a' = proteins_nb_neighbours a.
Proof.
  intros Hp. unfold treat_lipids. intros H.
  apply bind_Ok in H as (up & Hup & H). apply bind_Ok in H as (lo & Hlo & H).
  simpl in Hlo. apply lipid_contacts_Ok in Hup as [Hup1 Hup2].
  apply lipid_contacts_Ok in Hlo as [Hlo1 Hlo2].
  assert (grown (lip_size_upper a) up.2 c_size (upper [p])) as Hgu.
  { intros s c j. rewrite Hup2, (cluster_lipids_one _ _ _ _ _ _ Hp).
    destruct (decide (c = c_size)) as [->|Hc], (decide (s = ps)) as [->|Hs].
    - by rewrite decide_True.
    - by rewrite decide_False by (by intros [? _]).
    - by rewrite decide_False by (by intros [_ ?]).
    - by rewrite decide_False by (by intros [? _]). }
  assert (grown (lip_size_lower a) lo.2 c_size (lower [p])) as Hgl.
  { intros s c j. rewrite Hlo2, (cluster_lipids_one _ _ _ _ _ _ Hp).
    destruct (decide (c = c_size)) as [->|Hc], (decide (s = ps)) as [->|Hs].
    - by rewrite decide_True.
    - by rewrite decide_False by (by intros [? _]).
    - by rewrite decide_False by (by intros [_ ?]).
    - by rewrite decide_False by (by intros [? _]). }
  destruct (groups e) as [g|] eqn:Hg.
  - apply bind_Ok in H as (g_index & Hgi & H).
    apply bind_Ok in H as (gu & Hgu' & H). apply bind_Ok in H as (g_index' & Hgi' & H).
    apply bind_Ok in H as (gl & Hgl' & H). injection H as <-. simpl in *.
    assert (g_index' = g_index) as -> by congruence.
    split; [|done]. split; [done|]. split; [done|].
    intros g0 gi Hg0 Hgi0. rewrite Hg in Hg0. injection Hg0 as <-.
    assert (gi = g_index) as -> by congruence.
    split.
    + intros s c j. rewrite (add_array_at2_entry _ _ _ _ _ Hgu'), Hup1.
      rewrite (cluster_lipids_one _ _ _ _ _ _ Hp).
      destruct (decide (c = g_index)) as [->|Hc], (decide (s = ps)) as [->|Hs].
      * by rewrite decide_True.
      * by rewrite decide_False by (by intros [? _]).
      * by rewrite decide_False by (by intros [_ ?]).
      * by rewrite decide_False by (by intros [? _]).
    + intros s c j. rewrite (add_array_at2_entry _ _ _ _ _ Hgl'), Hlo1.
      rewrite (cluster_lipids_one _ _ _ _ _ _ Hp).
      destruct (decide (c = g_index)) as [->|Hc], (decide (s = ps)) as [->|Hs].
      * by rewrite decide_True.
      * by rewrite decide_False by (by intros [? _]).
      * by rewrite decide_False by (by intros [_ ?]).
      * by rewrite decide_False by (by intros [? _]).
  - injection H as <-. simpl. split; [|done]. split; [done|]. split; [done|].
    intros g0 gi Hg0. by rewrite Hg in Hg0.
Qed.

Lemma lipids_kept_refl a : lipids_kept a a.
Proof. done. Qed.

Lemma lipids_kept_trans a1 a2 a3 :
  lipids_kept a1 a2 → lipids_kept a2 a3 → lipids_kept a1 a3.
Proof. intros (? & ? & ? & ?) (? & ? & ? & ?). repeat split; congruence. Qed.

Lemma add_residue_contacts_lipids key c_size m a a' :
  add_residue_contacts e key c_size m a = Ok a' → lipids_kept a a'.
Proof. unfold add_residue_contacts. intros H. inv_ok H; done. Qed.

Lemma first_residue_contacts_lipids key c_size m z a a' :
  first_residue_contacts e key c_size m z a = Ok a' → lipids_kept a a'.
Proof. unfold first_residue_contacts. intros H. inv_ok H; done. Qed.

Lemma treat_pair_lipids c_size p ps st pp st' :
  treat_pair e fr f_index c_size p ps st pp = Ok st' → lipids_kept st.1 st'.1.
Proof.
  intros H. apply treat_pair_Ok in H as [[_ ->]|(_ & _ & H)]; [done|].
  destruct H as (pp_s & pp_len & p_len & nbn1 & a1 & a2 & prot1 & nbn2 & prot2 &
                 _ & _ & _ & _ & Ha1 & Ha2 & _ & _ & _ & ->).
  apply first_residue_contacts_lipids in Ha1 as (? & ? & ? & ?).
  assert (lipids_kept a1 a2) as (? & ? & ? & ?).
  { destruct (ps =? pp_s); [by eapply add_residue_contacts_lipids|].
    by injection Ha2 as <-. }
  repeat split; simpl in *; congruence.
Qed.

Lemma treat_pairs_lipids c_size p ps l st st' :
  for_each (treat_pair e fr f_index c_size p ps) l st = Ok st' →
  lipids_kept st.1 st'.1.
Proof.
  apply (for_each_invariant _ (λ s s', lipids_kept s.1 s'.1)).
  - intros. apply lipids_kept_refl.
  - intros ???. apply lipids_kept_trans.
  - intros ??? _. apply treat_pair_lipids.
Qed.

Lemma store_size_lipids cluster size group a a' :
  store_size e f_index cluster size group a = Ok a' → lipids_kept a a'.
Proof. unfold store_size. intros H. inv_ok H; done. Qed.

Lemma treat_protein_lipids c_size st p st' :
  treat_protein e fr network f_index true c_size st p = Ok st' →
  lipids_grown c_size [p] st.1.1 st'.1.1.
Proof.
  unfold treat_protein. intros H. apply bind_Ok in H as (ps & Hps & H).
  apply bind_Ok in H as (pl & Hpl & H). apply bind_Ok in H as (a1 & Ha1 & H).
  apply bind_Ok in H as (tmp_comp & Hcomp & H). apply bind_Ok in H as (st1 & Hst1 & H).
  injection H as <-. simpl. apply index_found in Hps.
  apply (treat_lipids_Ok _ _ _ _ _ _ Hps) in Ha1 as [Ha1 _].
  apply treat_pairs_lipids in Hst1. simpl in Hst1.
  exact (lipids_kept_after _ _ _ _ _ Ha1 Hst1).
Qed.

Lemma treat_proteins_lipids c_size l st st' :
  for_each (treat_protein e fr network f_index true c_size) l st = Ok st' →
  lipids_grown c_size l st.1.1 st'.1.1.
Proof.
  revert st. induction l as [|p l IH]; intros st H.
  - injection H as <-. apply lipids_kept_grown, lipids_kept_refl.
  - simpl in H. apply bind_Ok in H as (st1 & H1 & H).
    apply treat_protein_lipids in H1. apply IH in H.
    exact (lipids_grown_trans _ [p] l _ _ _ H1 H).
Qed.

Lemma account_lipids cluster a a' :
  account e fr network f_index true cluster a = Ok a' →
  lipids_grown (Z.of_nat (length cluster)) cluster a a'.
Proof.
  unfold account. intros H. apply bind_Ok in H as (a1 & Ha1 & H).
  apply bind_Ok in H as (st & Hst & H). injection H as <-.
  apply store_size_lipids in Ha1. apply treat_proteins_lipids in Hst. simpl in Hst.
  eapply lipids_kept_before; [exact Ha1|].
  eapply lipids_kept_after; [exact Hst|]. done.
Qed.

(** *** The tallies of neighbours *)

Local Abbreviation pairs_of := (LeafletWords.pairs_of network).
Local Abbreviation tallied := (LeafletWords.tallied e).
Local Abbreviation tally := (LeafletWords.tally e network).

Lemma treat_lipids_neighbours c_size p ps pl a a' :
  treat_lipids e fr c_size p ps pl a = Ok a' →
  proteins_nb_neighbours a' = proteins_nb_neighbours a.
Proof. unfold treat_lipids. intros H. inv_ok H; done. Qed.

Lemma treat_pairs_tally c_size x ps (P : list nat) l st st' :
  NoDup l → (∀ y, y ∈ l → unordered x y ∈ st.2 ↔ y ∈ P) →
  for_each (treat_pair e fr f_index c_size x ps) l st = Ok st' →
  ∀ p s, Nd.item (proteins_nb_neighbours st'.1) [f_index; p; s]
         = Nd.item (proteins_nb_neighbours st.1) [f_index; p; s]
           + sum_list ((λ y, if decide (y ∈ P) then 0
                             else (if decide (p = x ∧ prot_index2sindex e !! y = Some s)
                                   then 1 else 0)
                                  + (if decide (p = y ∧ s = ps) then 1 else 0))
                       <$> l).
Proof.
  revert st. induction l as [|y l IH]; intros st Hnd Ht H p s.
  - injection H as <-. csimpl. lia.
  - apply NoDup_cons in Hnd as [Hy Hnd]. simpl in H.
    apply bind_Ok in H as (st1 & H1 & H).
    rewrite fmap_cons. change (sum_list (?a :: ?r)) with (a + sum_list r).
    destruct (decide (y ∈ P)) as [HP|HP].
    + assert (unordered x y ∈ st.2) as Hin by (apply Ht; [left|done]).
      apply treat_pair_Ok in H1 as [[_ ->]|(Hnin & _)]; [|done].
      rewrite (IH st Hnd); [lia| |done]. intros y' Hy'. apply Ht. by right.
    + assert (unordered x y ∉ st.2) as Hnin.
      { intros Hin. apply HP, Ht; [left|done]. }
      pose proof (treat_pair_Ok _ _ _ _ _ _ _ _ _ H1) as [[Hin _]|(_ & Ht1 & _)];
        [done|].
      destruct (treat_pair_contacts _ _ _ _ _ _ _ _ _ H1 Hnin) as (pp_s & Hpp & Hn).
      cbv zeta in Hn. destruct Hn as [_ Hn]. apply index_found in Hpp.
      rewrite (IH st1 Hnd); [rewrite Hn| |done].
      * assert ((if decide ([f_index; p; s] = [f_index; x; pp_s]) then 1 else 0)
                = (if decide (p = x ∧ prot_index2sindex e !! y = Some s) then 1 else 0))
          as ->.
        { destruct (decide ([f_index; p; s] = [f_index; x; pp_s])) as [[= -> ->]|Hne].
          - by rewrite decide_True.
          - rewrite decide_False; [done|]. intros [-> Hs]. apply Hne.
            rewrite Hpp in Hs. by injection Hs as ->. }
        assert ((if decide ([f_index; p; s] = [f_index; y; ps]) then 1 else 0)
                = (if decide (p = y ∧ s = ps) then 1 else 0)) as ->.
        { destruct (decide ([f_index; p; s] = [f_index; y; ps])) as [[= -> ->]|Hne].
          - by rewrite decide_True.
          - rewrite decide_False; [done|]. intros [-> ->]. by apply Hne. }
        lia.
      * intros y' Hy'. rewrite Ht1, elem_of_app, list_elem_of_singleton.
        rewrite <- (Ht y') by (by right). split; [|by left].
        intros [?|Heq]; [done|].
        apply unordered_eq in Heq as [[_ ->]|[-> ->]]; done.
Qed.

Section Undirected.
Hypothesis Hsym : undirected network.

Lemma neighbors_sym p q :
  p < Detect.order network → q ∈ Detect.neighbors network p →
  p ∈ Detect.neighbors network q.
Proof.
  intros Hp [Hq ?]%GraphFacts.elem_of_neighbors.
  apply GraphFacts.elem_of_neighbors. split; [|done]. by rewrite Hsym.
Qed.

Lemma treat_protein_tally wl c_size P st x st' :
  x ∉ P → x < Detect.order network → (∀ a, a ∈ P → a < Detect.order network) →
  pairs_of P st.1.2 →
  treat_protein e fr network f_index wl c_size st x = Ok st' →
  pairs_of (P ++ [x]) st'.1.2 ∧
  ∀ p s, p < Detect.order network →
         Nd.item (proteins_nb_neighbours st'.1.1) [f_index; p; s] + tally P p s
         = Nd.item (proteins_nb_neighbours st.1.1) [f_index; p; s]
           + tally (P ++ [x]) p s.
Proof.
  unfold LeafletWords.pairs_of, LeafletWords.tally. intros HxP Hx HP Hpairs H.
  pose proof (treat_protein_treated _ _ _ _ _ _ _ _ _ H) as (_ & Hsub & Hin & Hfrom).
  split.
  { intros q. split.
    - intros Hq. destruct (Hfrom q Hq) as [Hq0|(pp & Hpp & ->)].
      + apply Hpairs in Hq0 as (a & b & Ha & Hb & ->). exists a, b.
        rewrite elem_of_app. auto.
      + exists x, pp. rewrite elem_of_app, list_elem_of_singleton. auto.
    - intros (a & b & [Ha| ->%list_elem_of_singleton]%elem_of_app & Hb & ->).
      + apply Hsub, Hpairs. eauto.
      + by apply Hin. }
  unfold treat_protein in H. apply bind_Ok in H as (ps & Hps & H).
  apply bind_Ok in H as (pl & Hpl & H). apply bind_Ok in H as (a1 & Ha1 & H).
  apply bind_Ok in H as (tmp_comp & Hcomp & H). apply bind_Ok in H as (st1 & Hst1 & H).
  injection H as <-. simpl. apply index_found in Hps.
  assert (proteins_nb_neighbours a1 = proteins_nb_neighbours st.1.1) as Hn1.
  { destruct wl; [by eapply treat_lipids_neighbours|by injection Ha1 as <-]. }
  assert (∀ y, y ∈ Detect.neighbors network x → unordered x y ∈ st.1.2 ↔ y ∈ P)
    as Hchar.
  { intros y Hy. rewrite Hpairs. split.
    - intros (a & b & Ha & Hb & Heq). symmetry in Heq.
      apply unordered_eq in Heq as [[-> ->]|[-> ->]]; done.
    - intros HyP. exists y, x. split; [done|]. split; [by apply neighbors_sym|].
      apply unordered_comm. }
  pose proof (treat_pairs_tally c_size x ps P _ (a1, st.1.2) st1
                (NoDup_neighbors network x) Hchar Hst1) as Hadd.
  simpl in Hadd. rewrite Hn1 in Hadd.
  intros p s Hp. rewrite Hadd.
  destruct (decide (p = x)) as [->|Hpx].
  - rewrite <- Nat.add_assoc. f_equal. rewrite <- sum_list_add.
    apply sum_list_fmap_ext. intros y Hy. unfold LeafletWords.tallied.
    assert (x ∈ P ++ [x]) as HxP' by (rewrite elem_of_app, list_elem_of_singleton; auto).
    destruct (decide (prot_index2sindex e !! y = Some s)) as [Hys|Hys].
    + rewrite (decide_True (P := _ ∧ (x ∈ P ++ [x] ∨ _))) by auto.
      destruct (decide (y ∈ P)) as [HyP|HyP].
      * rewrite decide_True by auto.
        rewrite (decide_False (P := y = x)) by (by intros ->). done.
      * rewrite (decide_False (P := _ ∧ (x ∈ P ∨ y ∈ P))) by (by intros [_ [?|?]]).
        rewrite (decide_True (P := x = x ∧ _)) by done.
        destruct (decide (y = x)) as [->|Hyx].
        -- rewrite decide_True; [done|]. split; [done|]. congruence.
        -- rewrite decide_False; [done|]. by intros [-> _].
    + rewrite (decide_False (P := _ ∧ (x ∈ P ++ [x] ∨ _))) by (by intros [? _]).
      rewrite (decide_False (P := _ ∧ (x ∈ P ∨ y ∈ P))) by (by intros [? _]).
      rewrite (decide_False (P := x = x ∧ _)) by (by intros [_ ?]).
      destruct (decide (y ∈ P)); [done|].
      rewrite decide_False; [done|]. intros [-> ->]. by apply Hys.
  - set (c := if decide ((p ∉ P) ∧ prot_index2sindex e !! x = Some s) then 1 else 0).
    rewrite (sum_list_fmap_ext _ (λ y, if decide (y = p) then c else 0)).
    2:{ intros y Hy. simpl. unfold c.
        rewrite (decide_False (P := p = x ∧ _)) by (by intros [? _]).
        destruct (decide (y = p)) as [->|Hyp].
        - destruct (decide (p ∈ P)) as [HpP|HpP].
          + rewrite decide_False; [done|]. by intros [? _].
          + destruct (decide (s = ps)) as [->|Hs].
            * rewrite decide_True by done. by rewrite decide_True.
            * rewrite decide_False by (by intros [_ ?]).
              rewrite decide_False; [done|]. intros [_ Hxs]. congruence.
        - rewrite (decide_False (P := p = y ∧ _)) by (by intros [-> _]).
          by destruct (decide (y ∈ P)). }
    rewrite (sum_list_at _ _ _ (NoDup_neighbors network x)).
    rewrite (sum_list_fmap_ext (tallied (P ++ [x]) p s)
               (λ y, tallied P p s y + if decide (y = x) then c else 0)).
    2:{ intros y Hy. unfold LeafletWords.tallied, c.
        destruct (decide (y = x)) as [->|Hyx].
        - rewrite (decide_False (P := x = p)) by done.
          destruct (decide (prot_index2sindex e !! x = Some s)) as [Hxs|Hxs].
          + rewrite (decide_True (P := _ ∧ (_ ∨ x ∈ P ++ [x]))).
            2:{ split; [done|]. right. rewrite elem_of_app, list_elem_of_singleton.
                auto. }
            destruct (decide (p ∈ P)) as [HpP|HpP].
            * rewrite decide_True by auto.
              rewrite decide_False; [done|]. by intros [? _].
            * rewrite decide_False by (by intros [_ [?|?]]).
              by rewrite decide_True.
          + rewrite (decide_False (P := _ ∧ (_ ∨ x ∈ P ++ [x]))) by (by intros [? _]).
            rewrite (decide_False (P := _ ∧ (p ∈ P ∨ x ∈ P))) by (by intros [? _]).
            rewrite decide_False; [done|]. by intros [_ ?].
        - assert ((p ∈ P ++ [x] ∨ y ∈ P ++ [x]) ↔ (p ∈ P ∨ y ∈ P)) as Hiff.
          { rewrite !elem_of_app, !list_elem_of_singleton. tauto. }
          destruct (decide (prot_index2sindex e !! y = Some s ∧ (p ∈ P ∨ y ∈ P)))
            as [[? Hor]|Hno].
          + rewrite decide_True; [lia|]. split; [done|]. by apply Hiff.
          + rewrite decide_False; [lia|]. intros [? Hor]. apply Hno.
            split; [done|]. by apply Hiff. }
    rewrite sum_list_add, (sum_list_at _ _ _ (NoDup_neighbors network p)).
    destruct (decide (p ∈ Detect.neighbors network x)) as [Hpn|Hpn].
    + rewrite decide_True by (by apply neighbors_sym). lia.
    + rewrite decide_False; [lia|]. intros Hxn. apply Hpn. by apply neighbors_sym.
Qed.

Lemma treat_proteins_tally wl c_size l P st st' :
  NoDup (P ++ l) → (∀ a, a ∈ P ++ l → a < Detect.order network) →
  pairs_of P st.1.2 →
  for_each (treat_protein e fr network f_index wl c_size) l st = Ok st' →
  ∀ p s, p < Detect.order network →
         Nd.item (proteins_nb_neighbours st'.1.1) [f_index; p; s] + tally P p s
         = Nd.item (proteins_nb_neighbours st.1.1) [f_index; p; s]
           + tally (P ++ l) p s.
Proof.
  revert P st. induction l as [|x l IH]; intros P st Hnd Hnodes Hpairs H p s Hp.
  - injection H as <-. by rewrite app_nil_r.
  - simpl in H. apply bind_Ok in H as (st1 & H1 & H).
    assert (x ∉ P) as HxP.
    { apply NoDup_app in Hnd as (_ & Hnd & _). intros HxP. apply (Hnd x HxP). left. }
    apply (treat_protein_tally _ _ P) in H1 as [Hpairs1 H1]; [|done| |  |done].
    + rewrite (cons_middle x P l), app_assoc in Hnd, Hnodes |- *.
      pose proof (IH (P ++ [x]) st1 Hnd Hnodes Hpairs1 H p s Hp) as H2.
      pose proof (H1 p s Hp) as H1'. lia.
    + apply Hnodes. rewrite elem_of_app. right. left.
    + intros a Ha. apply Hnodes. rewrite elem_of_app. by left.
Qed.

(** the tally of a protein of the cluster for a species grows by its
    neighbours of that species *)
Lemma account_neighbours wl cluster a a' :
  account e fr network f_index wl cluster a = Ok a' →
  nodes_once network cluster →
  ∀ p s, p ∈ cluster →
         Nd.item (proteins_nb_neighbours a') [f_index; p; s]
         = Nd.item (proteins_nb_neighbours a) [f_index; p; s]
           + neighbours_of_species e network p s.
Proof.
  unfold account. intros H [Hnd Hnodes] p s Hp.
  apply bind_Ok in H as (a1 & Ha1 & H). apply bind_Ok in H as (st & Hst & H).
  injection H as <-. simpl.
  apply store_size_Ok in Ha1 as (_ & _ & _ & Hn).
  assert (pairs_of [] []) as Hpairs.
  { intros q. split; [by intros ?%not_elem_of_nil|].
    by intros (? & ? & ?%not_elem_of_nil & _). }
  pose proof (treat_proteins_tally wl _ cluster []
                (a1, [], replicate (nb_species e) 0) st Hnd Hnodes Hpairs Hst
                p s (Hnodes p Hp)) as Hsum.
  simpl in Hsum. rewrite Hn in Hsum.
  assert (tally [] p s = 0) as Hzero.
  { unfold LeafletWords.tally.
    rewrite <- (sum_list_zero (Detect.neighbors network p)).
    apply sum_list_fmap_ext. intros y _. unfold LeafletWords.tallied.
    rewrite decide_False; [done|].
    by intros [_ [?%not_elem_of_nil|?%not_elem_of_nil]]. }
  assert (tally cluster p s = neighbours_of_species e network p s) as Hall.
  { unfold LeafletWords.tally, neighbours_of_species.
    apply sum_list_fmap_ext. intros y _. unfold LeafletWords.tallied.
    destruct (decide (prot_index2sindex e !! y = Some s)) as [Hy|Hy].
    - by rewrite decide_True by auto.
    - by rewrite decide_False by (by intros [? _]). }
  lia.
Qed.
End Undirected.

(** *** The composition of the cluster *)

Lemma of_species_cons p l s :
  of_species e (p :: l) s
  = (if decide (prot_index2sindex e !! p = Some s) then 1 else 0) + of_species e l s.
Proof.
  unfold of_species. rewrite filter_cons.
  by destruct (decide (prot_index2sindex e !! p = Some s)).
Qed.

Lemma treat_protein_counts wl c_size st p st' :
  treat_protein e fr network f_index wl c_size st p = Ok st' →
  length st'.2 = length st.2 ∧
  ∀ s n, st.2 !! s = Some n → st'.2 !! s = Some (n + of_species e [p] s).
Proof.
  unfold treat_protein. intros H. apply bind_Ok in H as (ps & Hps & H).
  apply bind_Ok in H as (pl & Hpl & H). apply bind_Ok in H as (a1 & Ha1 & H).
  apply bind_Ok in H as (tmp_comp & Hcomp & H). apply bind_Ok in H as (st1 & Hst1 & H).
  injection H as <-. simpl. apply index_found in Hps.
  apply incr_lookup in Hcomp as [Hlen Hcomp]. split; [done|].
  intros s n Hs. rewrite (Hcomp s n Hs), of_species_cons, Hps. f_equal.
  unfold of_species. simpl.
  destruct (decide (ps = s)) as [->|Hne].
  - by rewrite decide_True.
  - rewrite decide_False; [done|]. by intros [= ?].
Qed.

Lemma treat_proteins_counts wl c_size l st st' :
  for_each (treat_protein e fr network f_index wl c_size) l st = Ok st' →
  length st'.2 = length st.2 ∧
  ∀ s n, st.2 !! s = Some n → st'.2 !! s = Some (n + of_species e l s).
Proof.
  revert st. induction l as [|p l IH]; intros st H.
  - injection H as <-. split; [done|]. intros s n ->. f_equal.
    unfold of_species. simpl. lia.
  - simpl in H. apply bind_Ok in H as (st1 & H1 & H).
    apply treat_protein_counts in H1 as [Hlen1 H1]. apply IH in H as [Hlen H].
    split; [congruence|]. intros s n Hs.
    rewrite (H s _ (H1 s n Hs)). f_equal.
    rewrite (of_species_cons p l), (of_species_cons p []).
    unfold of_species at 1. simpl. lia.
Qed.

(** the tuple stored holds, for each species, the number of its proteins
    in the cluster *)
Lemma account_composition wl cluster a a' :
  account e fr network f_index wl cluster a = Ok a' →
  ∃ t, length t = nb_species e ∧
       (∀ s, s < nb_species e → t !! s = Some (of_species e cluster s)) ∧
       clusters_comp a'
       = store_composition (Z.of_nat (length cluster)) t (clusters_comp a).
Proof.
  unfold account. intros H.
  apply bind_Ok in H as (a1 & Ha1 & H). apply bind_Ok in H as (st & Hst & H).
  injection H as <-. simpl. exists st.2.
  apply store_size_Ok in Ha1 as (_ & Hc & _ & _).
  pose proof (treat_proteins_labels _ _ _ _ _ _ _ _ _ Hst) as (_ & _ & Hc').
  apply treat_proteins_counts in Hst as [Hlen Hcount]. simpl in *.
  rewrite length_replicate in Hlen. split; [done|]. split.
  - intros s Hs. rewrite (Hcount s 0); [done|]. by apply lookup_replicate.
  - by rewrite Hc', Hc.
Qed.

(** *** The accounting of [process_clusters] in that of [process_clusters_TM] *)

Lemma put_lipids_self a : put_lipids a a = a.
Proof. by destruct a. Qed.

Lemma put_lipids_kept x y a : lipids_kept x y → put_lipids y a = put_lipids x a.
Proof. intros (Hsu & Hsl & Hgu & Hgl). unfold put_lipids. by rewrite Hsu, Hsl, Hgu, Hgl. Qed.

Lemma add_residue_contacts_put x key c_size m a a' :
  add_residue_contacts e key c_size m a = Ok a' →
  add_residue_contacts e key c_size m (put_lipids x a) = Ok (put_lipids x a').
Proof.
  unfold add_residue_contacts. intros H. simpl.
  apply bind_Ok in H as (res & Hres & H). rewrite Hres. simpl in *.
  apply bind_Ok in H as (by_size & Hsize & H). rewrite Hsize. simpl in *.
  destruct (groups e); [|by injection H as <-].
  apply bind_Ok in H as (g_index & Hgi & H). rewrite Hgi. simpl in *.
  apply bind_Ok in H as (by_group & Hgroup & H). rewrite Hgroup. simpl.
  by injection H as <-.
Qed.

Lemma first_residue_contacts_put x key c_size m z a a' :
  first_residue_contacts e key c_size m z a = Ok a' →
  first_residue_contacts e key c_size m z (put_lipids x a) = Ok (put_lipids x a').
Proof.
  unfold first_residue_contacts. intros H. simpl.
  apply bind_Ok in H as (res & Hres & H). rewrite Hres. simpl in *.
  apply bind_Ok in H as (by_size0 & Hsize0 & H). rewrite Hsize0. simpl in *.
  apply bind_Ok in H as (by_size & Hsize & H). rewrite Hsize. simpl in *.
  destruct (groups e); [|by injection H as <-].
  apply bind_Ok in H as (g_index & Hgi & H). rewrite Hgi. simpl in *.
  apply bind_Ok in H as (by_group & Hgroup & H). rewrite Hgroup. simpl.
  by injection H as <-.
Qed.

Lemma treat_pair_put x c_size p ps a t pp st' :
  treat_pair e fr f_index c_size p ps (a, t) pp = Ok st' →
  treat_pair e fr f_index c_size p ps (put_lipids x a, t) pp
  = Ok (put_lipids x st'.1, st'.2).
Proof.
  intros H. apply treat_pair_Ok in H as [[Hin ->]|(Hnin & Ht & H)].
  - unfold treat_pair. simpl in *. fold (unordered p pp). by rewrite decide_True.
  - destruct H as (pp_s & pp_len & p_len & nbn1 & a1 & a2 & prot1 & nbn2 & prot2 &
                   Hpp & Hppl & Hpl & Hnbn1 & Ha1 & Ha2 & Hprot1 & Hnbn2 & Hprot2 & Hst).
    destruct st' as [a' t']. simpl in *. subst a' t'.
    unfold treat_pair. simpl. fold (unordered p pp). rewrite decide_False by done.
    rewrite Hpp. simpl. rewrite Hppl. simpl. rewrite Hpl. simpl.
    rewrite Hnbn1. simpl.
    change (set_proteins_nb_neighbours nbn1 (put_lipids x a))
      with (put_lipids x (set_proteins_nb_neighbours nbn1 a)).
    rewrite (first_residue_contacts_put x _ _ _ _ _ _ Ha1). simpl.
    assert ((if ps =? pp_s
             then add_residue_contacts e (pair_key ps pp_s) c_size
                    (Nd.transpose (pair_mask fr p ps pp pp_s)) (put_lipids x a1)
             else Ok (put_lipids x a1)) = Ok (put_lipids x a2)) as ->.
    { destruct (ps =? pp_s); [by apply add_residue_contacts_put|].
      by injection Ha2 as <-. }
    simpl. rewrite Hprot1. simpl. rewrite Hnbn2. simpl. rewrite Hprot2. simpl.
    reflexivity.
Qed.

Lemma treat_pairs_put x c_size p ps l a t st' :
  for_each (treat_pair e fr f_index c_size p ps) l (a, t) = Ok st' →
  for_each (treat_pair e fr f_index c_size p ps) l (put_lipids x a, t)
  = Ok (put_lipids x st'.1, st'.2).
Proof.
  revert a t. induction l as [|pp l IH]; intros a t H.
  - by injection H as <-.
  - simpl in H. apply bind_Ok in H as ([a1 t1] & H1 & H). simpl.
    rewrite (treat_pair_put x _ _ _ _ _ _ _ H1). simpl. by apply IH.
Qed.

Lemma treat_lipids_put x c_size p ps pl a a' :
  treat_lipids e fr c_size p ps pl a = Ok a' → put_lipids x a' = put_lipids x a.
Proof. unfold treat_lipids. intros H. inv_ok H; done. Qed.

Lemma treat_protein_put x c_size a t comp p st' :
  treat_protein e fr network f_index true c_size (a, t, comp) p = Ok st' →
  treat_protein e fr network f_index false c_size (put_lipids x a, t, comp) p
  = Ok (put_lipids x st'.1.1, st'.1.2, st'.2).
Proof.
  unfold treat_protein. intros H. apply bind_Ok in H as (ps & Hps & H).
  apply bind_Ok in H as (pl & Hpl & H). apply bind_Ok in H as (a1 & Ha1 & H).
  apply bind_Ok in H as (tmp_comp & Hcomp & H). apply bind_Ok in H as (st1 & Hst1 & H).
  injection H as <-. simpl in *. rewrite Hps. simpl. rewrite Hpl. simpl.
  rewrite Hcomp. simpl. apply (treat_lipids_put x) in Ha1. rewrite <- Ha1.
  by rewrite (treat_pairs_put x _ _ _ _ _ _ _ Hst1).
Qed.

Lemma treat_proteins_put x c_size l a t comp st' :
  for_each (treat_protein e fr network f_index true c_size) l (a, t, comp) = Ok st' →
  for_each (treat_protein e fr network f_index false c_size) l
           (put_lipids x a, t, comp)
  = Ok (put_lipids x st'.1.1, st'.1.2, st'.2).
Proof.
  revert a t comp. induction l as [|p l IH]; intros a t comp H.
  - by injection H as <-.
  - simpl in H. apply bind_Ok in H as ([[a1 t1] comp1] & H1 & H). simpl.
    rewrite (treat_protein_put x _ _ _ _ _ _ H1). simpl. by apply IH.
Qed.

(** without the leaflets the same cluster leaves the same accumulators,
    but for the tables of lipid contacts, which it does not touch *)
Lemma account_without_lipids cluster a a' :
  account e fr network f_index true cluster a = Ok a' →
  account e fr network f_index false cluster a = Ok (put_lipids a a').
Proof.
  unfold account. intros H. apply bind_Ok in H as (a1 & Ha1 & H).
  apply bind_Ok in H as ([[a2 t2] comp2] & Hst & H). injection H as <-.
  rewrite Ha1. simpl. apply (treat_proteins_put a1) in Hst.
  rewrite put_lipids_self in Hst. rewrite Hst. simpl.
  apply store_size_lipids in Ha1.
  by rewrite <- (put_lipids_kept _ _ _ Ha1).
Qed.

End Frame.

End AccountFacts.

Module LeafletFacts.
Import Process ProcessWords LeafletWords Examples Samples ProcessFacts NdFacts AccountFacts.

Lemma length_filter_all {A} (P : A → Prop) `{∀ x, Decision (P x)} (l : list A) :
  length (filter P l) = length l ↔ Forall P l.
Proof.
  induction l as [|x l IH]; [by split|].
  rewrite filter_cons. pose proof (length_filter P l) as Hle.
  destruct (decide (P x)) as [Hx|Hx]; simpl.
  - rewrite Forall_cons. split.
    + intros [= E]. split; [done|]. by apply IH.
    + intros [_ Hl]. f_equal. by apply IH.
  - split; [lia|]. by intros [? _]%Forall_cons.
Qed.

Lemma length_filter_none {A} (P : A → Prop) `{∀ x, Decision (P x)} (l : list A) :
  length (filter P l) = 0 ↔ Forall (λ x, ¬ P x) l.
Proof.
  induction l as [|x l IH]; [by split|].
  rewrite filter_cons. destruct (decide (P x)) as [Hx|Hx]; simpl.
  - split; [done|]. by intros [? _]%Forall_cons.
  - rewrite Forall_cons, IH. tauto.
Qed.

Lemma positive_spec d : Qle_bool d 0 = false ↔ (0 < d)%Q.
Proof.
  destruct (Qle_bool d 0) eqn:E.
  - apply Qle_bool_iff in E. split; [done|]. intros Hlt. by apply Qlt_not_le in Hlt.
  - split; [|done]. intros _. apply Qnot_le_lt. intros Hle.
    apply Qle_bool_iff in Hle. congruence.
Qed.

Lemma classify_lower dist :
  Forall (λ d, (0 < d)%Q) dist → classify dist = InterfacialLower.
Proof.
  intros Hall. unfold classify.
  rewrite (proj2 (Nat.eqb_eq _ _)); [done|]. apply length_filter_all.
  eapply Forall_impl; [exact Hall|]. intros d. apply positive_spec.
Qed.

Lemma classify_upper dist :
  dist ≠ [] → Forall (λ d, ¬ (0 < d)%Q) dist → classify dist = InterfacialUpper.
Proof.
  intros Hne Hall. unfold classify.
  assert (length (filter (λ d, Qle_bool d 0 = false) dist) = 0) as ->.
  { apply length_filter_none. eapply Forall_impl; [exact Hall|].
    intros d Hd Hp. by apply Hd, positive_spec. }
  destruct dist; done.
Qed.

Lemma classify_transmembrane dist :
  Exists (λ d, (0 < d)%Q) dist → Exists (λ d, ¬ (0 < d)%Q) dist →
  classify dist = Transmembrane.
Proof.
  intros Hpos Hneg. unfold classify.
  rewrite (proj2 (Nat.eqb_neq _ _)).
  - rewrite (proj2 (Nat.eqb_neq _ _)); [done|]. intros E.
    apply length_filter_none in E. apply Exists_exists in Hpos as (d & Hd & Hp).
    rewrite Forall_forall in E. by apply (E d Hd), positive_spec.
  - intros E. apply length_filter_all in E.
    apply Exists_exists in Hneg as (d & Hd & Hp).
    rewrite Forall_forall in E. by apply Hp, positive_spec, E.
Qed.

Lemma Qmin_cases x y : Qmin x y = x ∨ Qmin x y = y.
Proof. unfold Qmin, GenericMinMax.gmin. destruct (x ?= y)%Q; auto. Qed.

Lemma np_min_Ok row x : np_min row = Ok x → least row x.
Proof.
  destruct row as [|y ys]; [done|]. intros [= <-].
  induction ys as [|z ys [IHin IHle]]; simpl.
  - split; [left|]. intros ? ->%list_elem_of_singleton. apply Qle_refl.
  - split.
    + destruct (Qmin_cases z (foldr Qmin y ys)) as [-> | ->]; [right; left|].
      apply elem_of_cons in IHin as [E|?]; [rewrite E; left|by right; right].
    + intros w [->|[->|Hw]%elem_of_cons]%elem_of_cons.
      * eapply Qle_trans; [apply Q.le_min_r|]. apply IHle. left.
      * apply Q.le_min_l.
      * eapply Qle_trans; [apply Q.le_min_r|]. apply IHle. by right.
Qed.

Section Frame.
Variable e : env.
Variable fr : frame.
Variable network : Detect.graph.
Variable f_index : nat.

Lemma leaflet_delta_Ok cluster dist :
  leaflet_delta fr cluster = Ok dist →
  Forall2 delta_of (cluster ≫= headgroup_dists fr) dist.
Proof.
  unfold leaflet_delta. destruct cluster as [|p cluster]; [done|].
  generalize ((p :: cluster) ≫= headgroup_dists fr). intros atoms H.
  apply map_each_Ok in H. eapply Forall2_impl; [exact H|].
  intros atom d Hd. simpl in Hd.
  apply bind_Ok in Hd as (lo & Hlo & Hd). apply bind_Ok in Hd as (up & Hup & Hd).
  injection Hd as <-. exists lo, up. split; [by apply np_min_Ok|].
  split; [by apply np_min_Ok|done].
Qed.

Lemma store_size_group cluster size group a a' g :
  store_size e f_index cluster size group a = Ok a' → groups e = Some g →
  ∃ v, group = Ok v ∧
       write_row f_index (proteins_group a) cluster v = Ok (proteins_group a').
Proof.
  unfold store_size. intros H Hg. rewrite Hg in H.
  apply bind_Ok in H as (sizes & _ & H). apply bind_Ok in H as (v & Hv & H).
  apply bind_Ok in H as (grp & Hgrp & H). injection H as <-. by exists v.
Qed.

Lemma sentinel_stored cluster size group a a' :
  store_size e f_index cluster size (Ok group) a = Ok a' →
  ∀ p, p ∈ cluster →
       Nd.item (proteins_size a') [f_index; p] = size ∧
       (is_Some (groups e) → Nd.item (proteins_group a') [f_index; p] = group).
Proof.
  intros H p Hp. split.
  - apply store_size_Ok in H as (Hw & _). by apply write_row_Ok in Hw as [Hw _]; auto.
  - intros [g Hg]. destruct (store_size_group _ _ _ _ _ _ H Hg) as (v & [= <-] & Hw).
    by apply write_row_Ok in Hw as [Hw _]; auto.
Qed.

Lemma account_group wl cluster a a' g :
  account e fr network f_index wl cluster a = Ok a' → groups e = Some g →
  ∃ g_index, group_of g (Z.of_nat (length cluster)) = Ok g_index ∧
             ∀ p, p ∈ cluster →
                  Nd.item (proteins_group a') [f_index; p] = Z.of_nat g_index.
Proof.
  unfold account. intros H Hg. apply bind_Ok in H as (a1 & Ha1 & H).
  apply bind_Ok in H as (st & Hst & H). injection H as <-. simpl.
  destruct (store_size_group _ _ _ _ _ _ Ha1 Hg) as (v & Hv & Hw).
  unfold group_entry in Hv. rewrite Hg in Hv.
  apply bind_Ok in Hv as (g_index & Hgi & Hv). injection Hv as <-.
  exists g_index. split; [done|]. intros p Hp.
  apply treat_proteins_labels in Hst as (_ & -> & _). simpl.
  by apply write_row_Ok in Hw as [Hw _]; auto.
Qed.

(** C2: with the leaflets given, each atom of a cluster gets the least of
    its distances to the upper headgroups minus the least of its
    distances to the lower ones.  With all of these above zero the
    cluster is interfacial on the lower side: its proteins get the size
    -1 and, with groups, the group -1.  With none above zero (the cluster
    having atoms) it is interfacial on the upper side: size 99999, group
    [groups_number + 1].  With both kinds it is transmembrane and
    accounted for in full: but for the tables of lipid contacts, which
    [process_clusters] leaves alone, the accumulators end as the
    accounting of [process_clusters] leaves them for this cluster.  Its
    proteins get the number of proteins of the cluster as size and, with
    groups, the group of that size.  Under that size, and with groups
    under that group, the tables of the contacts with the upper and with
    the lower leaflet grow, at each residue of each species, by the
    headgroups within reach of that residue in the proteins of that
    species of the cluster; under every other key they keep what they
    had.  The composition stored is the tuple of the numbers of proteins
    of each species in the cluster.  The matrix of the contacts between
    proteins stays symmetric.  In an undirected graph, for a cluster of
    nodes each named once, the tally of each of its proteins grows, for
    each species, by its neighbours of that species (itself counted twice
    when it is its own neighbour). *)
Theorem leaflet_classification a cluster a' :
  process_cluster_TM e fr network f_index a cluster = Ok a' →
  ∃ dist,
    leaflet_delta fr cluster = Ok dist ∧
    Forall2 delta_of (cluster ≫= headgroup_dists fr) dist ∧
    (Forall (λ d, (0 < d)%Q) dist →
     classify dist = InterfacialLower ∧
     ∀ p, p ∈ cluster →
          Nd.item (proteins_size a') [f_index; p] = (-1)%Z ∧
          (is_Some (groups e) →
           Nd.item (proteins_group a') [f_index; p] = (-1)%Z)) ∧
    (dist ≠ [] → Forall (λ d, ¬ (0 < d)%Q) dist →
     classify dist = InterfacialUpper ∧
     ∀ p, p ∈ cluster →
          Nd.item (proteins_size a') [f_index; p] = 99999%Z ∧
          ∀ g, groups e = Some g →
               Nd.item (proteins_group a') [f_index; p]
               = (Z.of_nat (Groups.groups_number g) + 1)%Z) ∧
    (Exists (λ d, (0 < d)%Q) dist → Exists (λ d, ¬ (0 < d)%Q) dist →
     let c_size := Z.of_nat (length cluster) in
     classify dist = Transmembrane ∧
     account e fr network f_index true cluster a = Ok a' ∧
     account e fr network f_index false cluster a = Ok (put_lipids a a') ∧
     (∀ p, p ∈ cluster → Nd.item (proteins_size a') [f_index; p] = c_size) ∧
     grown (lip_size_upper a) (lip_size_upper a') c_size
           (cluster_lipids e (lip_mask_upper fr) (nb_lip_upper fr) cluster) ∧
     grown (lip_size_lower a) (lip_size_lower a') c_size
           (cluster_lipids e (lip_mask_lower fr) (nb_lip_lower fr) cluster) ∧
     (∀ g, groups e = Some g →
           ∃ g_index,
             group_of g c_size = Ok g_index ∧
             (∀ p, p ∈ cluster →
                   Nd.item (proteins_group a') [f_index; p] = Z.of_nat g_index) ∧
             grown (lip_group_upper a) (lip_group_upper a') g_index
                   (cluster_lipids e (lip_mask_upper fr) (nb_lip_upper fr) cluster) ∧
             grown (lip_group_lower a) (lip_group_lower a') g_index
                   (cluster_lipids e (lip_mask_lower fr) (nb_lip_lower fr) cluster)) ∧
     (∃ tmp_comp,
        length tmp_comp = nb_species e ∧
        (∀ s, s < nb_species e → tmp_comp !! s = Some (of_species e cluster s)) ∧
        clusters_comp a' = store_composition c_size tmp_comp (clusters_comp a)) ∧
     (symmetric (proteins_ctcts_prot a) → symmetric (proteins_ctcts_prot a')) ∧
     (undirected network → nodes_once network cluster →
      ∀ p s, p ∈ cluster →
             Nd.item (proteins_nb_neighbours a') [f_index; p; s]
             = Nd.item (proteins_nb_neighbours a) [f_index; p; s]
               + neighbours_of_species e network p s)).
Proof.
  unfold process_cluster_TM. intros H. apply bind_Ok in H as (dist & Hdist & H).
  exists dist. split; [done|]. split; [by apply leaflet_delta_Ok|].
  split; [|split].
  - intros Hall. rewrite (classify_lower _ Hall) in *. split; [done|].
    exact (sentinel_stored _ _ _ _ _ H).
  - intros Hne Hall. rewrite (classify_upper _ Hne Hall) in *. split; [done|].
    intros p Hp. split.
    + apply store_size_Ok in H as (Hw & _). by apply write_row_Ok in Hw as [Hw _]; auto.
    + intros g Hg. destruct (store_size_group _ _ _ _ _ _ H Hg) as (v & Hv & Hw).
      rewrite Hg in Hv. injection Hv as <-.
      by apply write_row_Ok in Hw as [Hw _]; auto.
  - intros Hpos Hneg. rewrite (classify_transmembrane _ Hpos Hneg) in *.
    cbv zeta. split; [done|]. split; [done|].
    split; [by apply account_without_lipids|].
    destruct (account_lipids _ _ _ _ _ _ _ H) as (Hup & Hlo & Hgroup).
    split; [|split; [done|split; [done|split; [|split; [|split]]]]].
    + intros p Hp. pose proof (account_size _ _ _ _ _ _ _ _ H) as Hw.
      apply write_row_Ok in Hw as [Hw _]. auto.
    + intros g Hg. destruct (account_group _ _ _ _ _ H Hg) as (g_index & Hgi & Hgr).
      exists g_index. split; [done|]. split; [done|]. exact (Hgroup g g_index Hg Hgi).
    + exact (account_composition _ _ _ _ _ _ _ _ H).
    + exact (PairFacts.account_symmetric _ _ _ _ _ _ _ _ H).
    + intros Hsym Hnodes. exact (account_neighbours _ _ _ _ Hsym _ _ _ _ H Hnodes).
Qed.
End Frame.

Import ContactFacts.

Lemma leaflet_classification_witness :
  ∃ a0 a1 a2 a3,
    Struct.struct_proteins pair_env = Ok a0 ∧
    (process_cluster_TM pair_env lower_frame both 0 a0 [0; 1] = Ok a1 ∧
     leaflet_delta lower_frame [0; 1] = Ok [2%Q; 2%Q] ∧
     classify [2%Q; 2%Q] = InterfacialLower ∧
     Nd.item (proteins_size a1) [0; 1] = (-1)%Z ∧
     Nd.item (proteins_group a1) [0; 1] = (-1)%Z) ∧
    (process_cluster_TM pair_env upper_frame both 0 a0 [0; 1] = Ok a2 ∧
     leaflet_delta upper_frame [0; 1] = Ok [(-2 # 1)%Q; (-2 # 1)%Q] ∧
     classify [(-2 # 1)%Q; (-2 # 1)%Q] = InterfacialUpper ∧
     Nd.item (proteins_size a2) [0; 1] = 99999%Z ∧
     Nd.item (proteins_group a2) [0; 1] = 2%Z) ∧
    (process_cluster_TM pair_env span_frame both 0 a0 [0; 1] = Ok a3 ∧
     leaflet_delta span_frame [0; 1] = Ok [2%Q; (-2 # 1)%Q] ∧
     classify [2%Q; (-2 # 1)%Q] = Transmembrane ∧
     Nd.item (proteins_size a3) [0; 1] = 2%Z ∧
     Nd.item (proteins_group a3) [0; 1] = 0%Z ∧
     lip_entry (lip_size_upper a3) 0 2%Z 0 = 3 ∧
     lip_entry (lip_size_lower a3) 0 2%Z 1 = 1 ∧
     lip_entry (lip_group_upper a3) 0 0 0 = 3 ∧
     lip_entry (lip_group_lower a3) 0 0 1 = 1 ∧
     Nd.item (proteins_nb_neighbours a3) [0; 0; 0] = 3 ∧
     clusters_comp a3 = store_composition 2%Z [2] (clusters_comp a0) ∧
     account pair_env span_frame both 0 false [0; 1] a0 = Ok (put_lipids a0 a3)).
Proof.
  assert ((a0 ← Struct.struct_proteins pair_env;
           a1 ← process_cluster_TM pair_env lower_frame both 0 a0 [0; 1];
           a2 ← process_cluster_TM pair_env upper_frame both 0 a0 [0; 1];
           a3 ← process_cluster_TM pair_env span_frame both 0 a0 [0; 1];
           _ ← (if decide (lip_entry (lip_size_upper a0) 0 2%Z 0 = 0 ∧
                           lip_entry (lip_size_lower a0) 0 2%Z 1 = 0 ∧
                           lip_entry (lip_group_upper a0) 0 0 0 = 0 ∧
                           lip_entry (lip_group_lower a0) 0 0 1 = 0 ∧
                           Nd.item (proteins_nb_neighbours a0) [0; 0; 0] = 0)
                then Ok tt else Raise "AssertionError");
           Ok tt) = Ok tt) as Hrun by (vm_compute; reflexivity).
  apply bind_Ok in Hrun as (a0 & Ha0 & Hrun). apply bind_Ok in Hrun as (a1 & H1 & Hrun).
  apply bind_Ok in Hrun as (a2 & H2 & Hrun). apply bind_Ok in Hrun as (a3 & H3 & Hrun).
  apply bind_Ok in Hrun as (? & Hzero & _).
  apply checked_Ok in Hzero as (Zsu & Zsl & Zgu & Zgl & Znb).
  exists a0, a1, a2, a3. split; [exact Ha0|].
  assert (groups pair_env
          = Some {| Groups.groups_number := 1;
                    Groups.groups_boundaries := [(1, 2)%Z];
                    Groups.groups_sizes_dict := {[ 1%Z := 0; 2%Z := 0 ]} |}) as Hg
      by reflexivity.
  split; [|split].
  - split; [exact H1|].
    destruct (leaflet_classification _ _ _ _ _ _ _ H1) as (dist & Hdist & _ & Hlower & _).
    assert (leaflet_delta lower_frame [0; 1] = Ok [2%Q; 2%Q]) as Hd
        by (vm_compute; reflexivity).
    assert (dist = [2%Q; 2%Q]) as -> by congruence.
    split; [exact Hd|].
    assert (Forall (λ d, (0 < d)%Q) [2%Q; 2%Q]) as Hpos by (repeat constructor).
    destruct (Hlower Hpos) as [Hc Hp]. split; [exact Hc|].
    destruct (Hp 1) as [Hs Hgr]; [right; left|]. split; [exact Hs|].
    apply Hgr. eexists. reflexivity.
  - split; [exact H2|].
    destruct (leaflet_classification _ _ _ _ _ _ _ H2) as (dist & Hdist & _ & _ & Hupper & _).
    assert (leaflet_delta upper_frame [0; 1] = Ok [(-2 # 1)%Q; (-2 # 1)%Q]) as Hd
        by (vm_compute; reflexivity).
    assert (dist = [(-2 # 1)%Q; (-2 # 1)%Q]) as -> by congruence.
    split; [exact Hd|].
    assert (Forall (λ d, ¬ (0 < d)%Q) [(-2 # 1)%Q; (-2 # 1)%Q]) as Hneg
        by (repeat constructor; intros Hlt; discriminate Hlt).
    destruct (Hupper ltac:(discriminate) Hneg) as [Hc Hp]. split; [exact Hc|].
    destruct (Hp 1) as [Hs Hgr]; [right; left|]. split; [exact Hs|].
    exact (Hgr _ Hg).
  - split; [exact H3|].
    destruct (leaflet_classification _ _ _ _ _ _ _ H3) as (dist & Hdist & _ & _ & _ & Hspan).
    assert (leaflet_delta span_frame [0; 1] = Ok [2%Q; (-2 # 1)%Q]) as Hd
        by (vm_compute; reflexivity).
    assert (dist = [2%Q; (-2 # 1)%Q]) as -> by congruence.
    split; [exact Hd|].
    assert (Exists (λ d, (0 < d)%Q) [2%Q; (-2 # 1)%Q]) as Hpos
        by (apply Exists_cons_hd; reflexivity).
    assert (Exists (λ d, ¬ (0 < d)%Q) [2%Q; (-2 # 1)%Q]) as Hneg
        by (apply Exists_cons_tl, Exists_cons_hd; intros Hlt; discriminate Hlt).
    destruct (Hspan Hpos Hneg)
      as (Hc & _ & Hplain & Hsize & Hup & Hlo & Hgroup & Hcomp & _ & Hnb).
    split; [exact Hc|]. split; [apply (Hsize 1); right; left|].
    destruct (Hgroup _ Hg) as (g_index & Hgi & Hgr & Hgup & Hglo).
    assert (g_index = 0) as -> by (vm_compute in Hgi; congruence).
    split; [apply (Hgr 1); right; left|].
    split; [rewrite (Hup 0 2%Z 0), Zsu; reflexivity|].
    split; [rewrite (Hlo 0 2%Z 1), Zsl; reflexivity|].
    split; [rewrite (Hgup 0 0 0), Zgu; reflexivity|].
    split; [rewrite (Hglo 0 0 1), Zgl; reflexivity|].
    split.
    + assert (undirected both) as Hsym by (intros i j; reflexivity).
      assert (nodes_once both [0; 1]) as Hnodes.
      { split.
        { apply NoDup_cons. split; [|apply NoDup_singleton].
          intros Hin%list_elem_of_singleton. discriminate Hin. }
        intros p [->|[->|[]%elem_of_nil]%elem_of_cons]%elem_of_cons; repeat constructor. }
      rewrite (Hnb Hsym Hnodes 0 0), Znb; [reflexivity|left].
    + split; [|exact Hplain]. destruct Hcomp as (t & Hlen & Ht & ->).
      assert (t = [2]) as ->; [|reflexivity].
      destruct t as [|n [|? ?]]; [discriminate Hlen| |discriminate Hlen].
      specialize (Ht 0 ltac:(repeat constructor)). injection Ht as ->. reflexivity.
Defined.

End LeafletFacts.

Module StatsFacts.
Import Process Stats StatsWords SumFacts.

Lemma bind_safely {A B} (r : result A) (k : A → result B) :
  divides_safely r → (∀ a, divides_safely (k a)) → divides_safely (r ≫= k).
Proof.
  destruct r; simpl; intros Hr Hk; [apply Hk|discriminate|].
  intros [= ->]. by apply Hr.
Qed.

Lemma for_each_safely {A S} (body : S → A → result S) xs s :
  (∀ s x, divides_safely (body s x)) → divides_safely (for_each body xs s).
Proof.
  intros Hbody. revert s. induction xs as [|x xs IH]; intros s; [discriminate|].
  simpl. apply bind_safely; [apply Hbody|apply IH].
Qed.

Lemma getitem_safely `{Countable K} {V} (d : gmap K V) k : divides_safely (getitem d k).
Proof. unfold getitem. destruct (d !! k); discriminate. Qed.

Lemma getitem_Some `{Countable K} {V} (d : gmap K V) k v :
  d !! k = Some v → getitem d k = Ok v.
Proof. unfold getitem. by intros ->. Qed.

(** *** Sums of rationals *)

Lemma qsum_to_float_list {A} (f : A → nat) l :
  foldr Qplus 0%Q ((λ j, inject_Z (Z.of_nat (f j))) <$> l)
  == inject_Z (Z.of_nat (sum_list (f <$> l))).
Proof.
  induction l as [|x l IH]; [reflexivity|]. rewrite !fmap_cons.
  change (inject_Z (Z.of_nat (f x))
          + foldr Qplus 0 ((λ j, inject_Z (Z.of_nat (f j))) <$> l)
          == inject_Z (Z.of_nat (f x + sum_list (f <$> l))))%Q.
  rewrite IH, Nat2Z.inj_add, inject_Z_plus. reflexivity.
Qed.

Lemma qsum_to_float m : qsum (to_float m) == inject_Z (Z.of_nat (Nd.sum m)).
Proof. apply (qsum_to_float_list (Nd.item m)). Qed.

Lemma qsum_scaled_list {A} (g : A → Q) (t : Q) l :
  (foldr Qplus 0 ((λ j, g j / t * 100) <$> l)
   == foldr Qplus 0 (g <$> l) / t * 100)%Q.
Proof.
  induction l as [|x l IH]; [reflexivity|]. rewrite !fmap_cons.
  change (g x / t * 100 + foldr Qplus 0 ((λ j, g j / t * 100) <$> l)
          == (g x + foldr Qplus 0 (g <$> l)) / t * 100)%Q.
  rewrite IH. unfold Qdiv. ring.
Qed.

Lemma sum_zero_items (m : Nd.t nat) :
  Nd.sum m = 0%nat → ∀ j, j ∈ Nd.indices (Nd.shape m) → Nd.item m j = 0%nat.
Proof.
  unfold Nd.sum. generalize (Nd.indices (Nd.shape m)). intros l.
  induction l as [|x l IH]; intros Hsum j Hj; [by apply not_elem_of_nil in Hj|].
  rewrite fmap_cons in Hsum.
  change (Nd.item m x + sum_list (Nd.item m <$> l) = 0)%nat in Hsum.
  apply elem_of_cons in Hj as [->|Hj]; [lia|]. apply IH; [lia|done].
Qed.

(** *** A matrix of contacts *)

Lemma percentages_spec (m : Nd.t nat) :
  ∃ r, percentages m = Ok r ∧ percent_of m r.
Proof.
  unfold percentages, scale, percent_of. destruct (0 <? Nd.sum m)%nat eqn:E.
  - apply Nat.ltb_lt in E.
    assert (¬ (inject_Z (Z.of_nat (Nd.sum m)) == 0)%Q) as Hne.
    { change 0%Q with (inject_Z 0). rewrite inject_Z_injective. lia. }
    destruct (Qeq_bool (qsum (to_float m)) 0) eqn:E0.
    { apply Qeq_bool_iff in E0. rewrite qsum_to_float in E0. done. }
    eexists. split; [done|]. split; [done|]. split; [|lia]. intros _. split.
    + unfold qsum at 1. simpl.
      rewrite (qsum_scaled_list (λ j, inject_Z (Z.of_nat (Nd.item m j)))).
      rewrite (qsum_to_float_list (Nd.item m)), qsum_to_float.
      fold (Nd.sum m). generalize dependent (inject_Z (Z.of_nat (Nd.sum m))).
      intros t Ht. field. exact Ht.
    + intros j. simpl. rewrite qsum_to_float. reflexivity.
  - apply Nat.ltb_ge in E. eexists. split; [done|]. split; [done|].
    split; [lia|]. intros Hz. split; [done|]. intros j Hj. simpl.
    by rewrite (sum_zero_items m Hz j Hj).
Qed.

Lemma percentages_safely m : divides_safely (percentages m).
Proof. destruct (percentages_spec m) as (r & -> & _). discriminate. Qed.

Lemma percentages_percent m r : percentages m = Ok r → percent_of m r.
Proof. destruct (percentages_spec m) as (r' & -> & Hr). by intros [= <-]. Qed.

(** *** A dictionary of matrices *)

Lemma traverse_list_Ok `{Countable K} {A B} (f : A → result B)
    (l : list (K * A)) (acc d' : gmap K B) :
  for_each (λ acc kv, b ← f kv.2; Ok (<[kv.1 := b]> acc)) l acc = Ok d' →
  NoDup l.*1 →
  ∀ k, (∀ a, (k, a) ∈ l → ∃ b, f a = Ok b ∧ d' !! k = Some b) ∧
       (k ∉ l.*1 → d' !! k = acc !! k).
Proof.
  revert acc. induction l as [|[k0 a0] l IH]; intros acc Hrun Hnd k.
  - injection Hrun as <-. split; [|done]. intros a Ha. by apply not_elem_of_nil in Ha.
  - simpl in Hrun. apply bind_Ok in Hrun as (acc1 & Hacc1 & Hrun).
    apply bind_Ok in Hacc1 as (b0 & Hb0 & Hacc1). injection Hacc1 as <-.
    rewrite fmap_cons in Hnd. apply NoDup_cons in Hnd as [Hk0 Hnd]. simpl in *.
    destruct (IH _ Hrun Hnd k) as [Hin Hout]. split.
    + intros a [[= -> ->]|Ha]%elem_of_cons; [|by apply Hin].
      exists b0. split; [done|]. rewrite Hout by done.
      by rewrite lookup_insert_eq.
    + intros Hk. apply not_elem_of_cons in Hk as [Hne Hk].
      rewrite Hout by done. by rewrite lookup_insert_ne.
Qed.

Lemma traverse_Ok `{Countable K} {A B} (f : A → result B) (d : gmap K A) d' :
  traverse f d = Ok d' →
  ∀ k a, d !! k = Some a → ∃ b, f a = Ok b ∧ d' !! k = Some b.
Proof.
  intros Hrun k a Hka.
  destruct (traverse_list_Ok f _ _ _ Hrun (NoDup_fst_map_to_list d) k) as [Hin _].
  apply Hin. by apply elem_of_map_to_list.
Qed.

Lemma for_each_total {A S} (body : S → A → result S) xs s :
  (∀ s x, is_Ok (body s x)) → is_Ok (for_each body xs s).
Proof.
  intros Hbody. revert s. induction xs as [|x xs IH]; intros s; [by exists s|].
  simpl. destruct (Hbody s x) as [s1 ->]. apply IH.
Qed.

Lemma traverse_total `{Countable K} {A B} (f : A → result B) (d : gmap K A) :
  (∀ a, is_Ok (f a)) → is_Ok (traverse f d).
Proof.
  intros Hf. apply for_each_total. intros acc kv. destruct (Hf kv.2) as [b Hb].
  rewrite Hb. by eexists.
Qed.

Lemma traverse_safely `{Countable K} {A B} (f : A → result B) (d : gmap K A) :
  (∀ a, divides_safely (f a)) → divides_safely (traverse f d).
Proof.
  intros Hf. apply for_each_safely. intros acc kv.
  apply bind_safely; [apply Hf|]. intros b. discriminate.
Qed.

Lemma for_each_total_in {A S} (body : S → A → result S) xs s :
  (∀ s x, x ∈ xs → is_Ok (body s x)) → is_Ok (for_each body xs s).
Proof.
  revert s. induction xs as [|x xs IH]; intros s Hbody; [by exists s|].
  simpl. destruct (Hbody s x) as [s1 ->]; [left|]. apply IH.
  intros s' x' Hx'. apply Hbody. by right.
Qed.

(** *** The matrices of a species pair *)

Section Pair.
Variable e : env.
Variable a : acc.
Variable key : nat * nat.
Local Abbreviation group_step := (StatsWords.group_step a key).

Lemma group_step_Ok acc g_index acc' :
  group_step acc g_index = Ok acc' →
  ∃ m r, lookup2 (proteins_ctcts_res_group a) key g_index = Some m ∧
         percentages m = Ok r ∧ acc' = <[g_index := r]> acc.
Proof.
  unfold StatsWords.group_step, getitem, lookup2. intros H1.
  apply bind_Ok in H1 as (inner & Hi & H1). apply bind_Ok in H1 as (m & Hm & H1).
  apply bind_Ok in H1 as (r & Hr & H1). injection H1 as <-.
  destruct (proteins_ctcts_res_group a !! key) as [i0|]; [|done].
  injection Hi as ->. simpl. destruct (inner !! g_index) as [m0|]; [|done].
  injection Hm as ->. by exists m, r.
Qed.

Lemma group_loop_Ok l acc by_group :
  for_each group_step l acc = Ok by_group →
  (∀ g_index, g_index ∈ l →
     ∃ m r, lookup2 (proteins_ctcts_res_group a) key g_index = Some m ∧
            percentages m = Ok r ∧ by_group !! g_index = Some r) ∧
  (∀ g_index, g_index ∉ l → by_group !! g_index = acc !! g_index).
Proof.
  revert acc. induction l as [|g0 l IH]; intros acc Hrun.
  - injection Hrun as <-. split; [|done]. intros ? Hin. by apply not_elem_of_nil in Hin.
  - simpl in Hrun. apply bind_Ok in Hrun as (acc1 & Hacc1 & Hrun).
    apply group_step_Ok in Hacc1 as (m & r & Hm & Hr & ->).
    destruct (IH _ Hrun) as [Hin Hout]. split.
    + intros g_index Hg. destruct (decide (g_index ∈ l)) as [Hl|Hl]; [by apply Hin|].
      apply elem_of_cons in Hg as [->|?]; [|done].
      exists m, r. split; [done|]. split; [done|].
      by rewrite (Hout _ Hl), lookup_insert_eq.
    + intros g_index [Hne Hl]%not_elem_of_cons.
      by rewrite (Hout _ Hl), lookup_insert_ne.
Qed.

Lemma normalise_pair_Ok out out' :
  normalise_pair e a out key = Ok out' →
  normalised_at e a out' key ∧
  ∀ k, k ≠ key →
       res out' !! k = res out !! k ∧ res_size out' !! k = res_size out !! k ∧
       res_group out' !! k = res_group out !! k.
Proof.
  unfold normalise_pair, getitem. intros H1.
  apply bind_Ok in H1 as (m & Hm & H1). apply bind_Ok in H1 as (r & Hr & H1).
  apply bind_Ok in H1 as (bs & Hbs & H1). apply bind_Ok in H1 as (bs' & Hbs' & H1).
  apply bind_Ok in H1 as (bg & Hbg & H1). injection H1 as <-. simpl.
  destruct (proteins_ctcts_res a !! key) as [m0|] eqn:Em; [|done]. injection Hm as ->.
  destruct (proteins_ctcts_res_size a !! key) as [bs0|] eqn:Es; [|done].
  injection Hbs as ->. split; [|intros k Hne; by rewrite !lookup_insert_ne].
  split; [|split].
  - exists m, r. split; [done|]. simpl. rewrite lookup_insert_eq.
    split; [done|]. by apply percentages_percent.
  - intros c_size m' Hm'. unfold lookup2 in *. rewrite Es in Hm'. simpl in *.
    destruct (traverse_Ok _ _ _ Hbs' _ _ Hm') as (r' & Hr' & Hl).
    exists r'. rewrite lookup_insert_eq. simpl. split; [done|].
    by apply percentages_percent.
  - intros g g_index Hg Hlt. rewrite Hg in Hbg.
    apply group_loop_Ok in Hbg as [Hin _].
    destruct (Hin g_index) as (m' & r' & Hm' & Hr' & Hl).
    { apply elem_of_seq. lia. }
    exists m', r'. split; [done|]. unfold lookup2. simpl. rewrite lookup_insert_eq.
    split; [done|]. by apply percentages_percent.
Qed.

Lemma normalise_pair_total out : allocated e a key → is_Ok (normalise_pair e a out key).
Proof.
  intros ([m Hm] & [bs Hbs] & Hgroup). unfold normalise_pair.
  rewrite (getitem_Some _ _ _ Hm), (getitem_Some _ _ _ Hbs). simpl.
  destruct (percentages_spec m) as (r & -> & _). simpl.
  destruct (traverse_total percentages bs) as [bs' ->].
  { intros m'. destruct (percentages_spec m') as (r' & -> & _). by eexists. }
  simpl.
  assert (is_Ok (match groups e with
                 | None => Ok ∅
                 | Some g => for_each group_step (seq 0 (Groups.groups_number g)) ∅
                 end)) as [bg Hbg].
  { destruct (groups e) as [g|] eqn:Eg; [|by eexists].
    apply for_each_total_in. intros acc g_index [_ Hlt]%elem_of_seq.
    destruct (Hgroup g g_index eq_refl) as [m' Hm']; [lia|].
    unfold StatsWords.group_step, getitem, lookup2 in *.
    destruct (proteins_ctcts_res_group a !! key) as [inner|]; [|done]. simpl in *.
    rewrite Hm'. simpl. destruct (percentages_spec m') as (r' & -> & _). by eexists. }
  unfold StatsWords.group_step in Hbg. rewrite Hbg. by eexists.
Qed.

Lemma normalise_pair_safely out : divides_safely (normalise_pair e a out key).
Proof.
  unfold normalise_pair. apply bind_safely; [apply getitem_safely|]. intros m.
  apply bind_safely; [apply percentages_safely|]. intros r.
  apply bind_safely; [apply getitem_safely|]. intros bs.
  apply bind_safely; [apply traverse_safely, percentages_safely|]. intros bs'.
  apply bind_safely; [|discriminate].
  destruct (groups e); [|discriminate]. apply for_each_safely. intros acc g_index.
  apply bind_safely; [apply getitem_safely|]. intros inner.
  apply bind_safely; [apply getitem_safely|]. intros m'.
  apply bind_safely; [apply percentages_safely|]. discriminate.
Qed.
End Pair.

Lemma normalise_pairs_Ok e a l out out' :
  for_each (normalise_pair e a) l out = Ok out' →
  (∀ key, key ∈ l → normalised_at e a out' key) ∧
  (∀ k, k ∉ l →
        res out' !! k = res out !! k ∧ res_size out' !! k = res_size out !! k ∧
        res_group out' !! k = res_group out !! k).
Proof.
  revert out. induction l as [|key0 l IH]; intros out Hrun.
  - injection Hrun as <-. split; [|done]. intros ? Hin. by apply not_elem_of_nil in Hin.
  - simpl in Hrun. apply bind_Ok in Hrun as (out1 & Hout1 & Hrun).
    apply normalise_pair_Ok in Hout1 as [Hat Hother].
    destruct (IH _ Hrun) as [Hin Hout]. split.
    + intros key Hkey. destruct (decide (key ∈ l)) as [Hl|Hl]; [by apply Hin|].
      apply elem_of_cons in Hkey as [->|?]; [|done].
      destruct (Hout _ Hl) as (E1 & E2 & E3). unfold normalised_at, lookup2 in *.
      rewrite E1, E2, E3. exact Hat.
    + intros k [Hne Hl]%not_elem_of_cons.
      destruct (Hout _ Hl) as (-> & -> & ->). by apply Hother.
Qed.

(** C4: the finalisation replaces every matrix of residue contacts, the
    overall one of a species pair, the one of each cluster size and the one
    of each group, by its percentages: the entries of a matrix whose total
    is above zero are divided by that total and multiplied by 100, and add
    up to 100; a matrix whose total is zero is left as it is, all zeros.
    No division by zero happens, and the finalisation of accumulators that
    hold their matrices ends well. *)
Theorem contacts_normalised_to_100 (e : env) (a : acc) :
  divides_safely (normalise_contacts e a) ∧
  (∀ m, ∃ r, percentages m = Ok r ∧ percent_of m r) ∧
  ((∀ key, key ∈ Struct.species_pairs (nb_species e) → allocated e a key) →
   is_Ok (normalise_contacts e a)) ∧
  (∀ out, normalise_contacts e a = Ok out →
          ∀ key, key ∈ Struct.species_pairs (nb_species e) → normalised_at e a out key).
Proof.
  split; [|split; [|split]].
  - apply for_each_safely. intros out key. apply normalise_pair_safely.
  - apply percentages_spec.
  - intros Halloc. apply for_each_total_in. intros out key Hkey.
    by apply normalise_pair_total, Halloc.
  - intros out Hrun. by apply normalise_pairs_Ok in Hrun as [Hin _].
Qed.

End StatsFacts.

Module WelfordFacts.
Import Process Stats StatsWords.

(** *** The recurrences *)

Lemma of_nat_S n : (of_nat (S n) == of_nat n + 1)%Q.
Proof.
  unfold of_nat. rewrite Nat2Z.inj_succ, <- Z.add_1_r, inject_Z_plus. reflexivity.
Qed.

Lemma of_nat_S_nonzero n : ¬ (of_nat (S n) == 0)%Q.
Proof.
  unfold of_nat. change 0%Q with (inject_Z 0). rewrite inject_Z_injective. lia.
Qed.

Lemma qtotal_app xs ys : (qtotal (xs ++ ys) == qtotal xs + qtotal ys)%Q.
Proof.
  induction xs as [|x xs IH]; simpl.
  - ring.
  - rewrite IH. ring.
Qed.

(** the squared deviations from [a], from those from [m] *)
Lemma deviations_shift (m a : Q) xs :
  (qtotal ((λ x, (x - a) * (x - a)) <$> xs)
   == qtotal ((λ x, (x - m) * (x - m)) <$> xs)
      + 2 * (m - a) * (qtotal xs - of_nat (length xs) * m)
      + of_nat (length xs) * ((m - a) * (m - a)))%Q.
Proof.
  induction xs as [|x xs IH].
  - simpl. unfold of_nat. simpl. ring.
  - rewrite !fmap_cons. simpl length.
    change (qtotal (?y :: ?ys)) with (y + qtotal ys)%Q.
    cbv beta. rewrite IH, of_nat_S. ring.
Qed.

Lemma moments_nil : moments [] (0%nat, 0%Q, 0%Q).
Proof. split; [done|]. split; reflexivity. Qed.

Lemma moments_snoc xs t x :
  moments xs t → moments (xs ++ [x]) (welford_update t x).
Proof.
  destruct t as [[n m] M]. intros (Hn & Hm & HM). simpl in *. subst n.
  split; [rewrite length_app; simpl; lia|].
  assert (length (xs ++ [x]) = S (length xs)) as -> by (rewrite length_app; simpl; lia).
  pose proof (of_nat_S_nonzero (length xs)) as Hnz.
  pose proof (of_nat_S (length xs)) as HS.
  split.
  - rewrite qtotal_app. simpl. rewrite <- Hm.
    generalize dependent (of_nat (S (length xs))). intros k Hk Hnz.
    rewrite Hnz. field. rewrite <- Hnz. exact Hk.
  - rewrite fmap_app, qtotal_app. simpl.
    rewrite (deviations_shift m), <- HM, <- Hm.
    generalize dependent (of_nat (S (length xs))). intros k Hk Hnz.
    rewrite Hnz. field. rewrite <- Hnz. exact Hk.
Qed.

Lemma moments_foldl xs :
  moments xs (foldl welford_update (0%nat, 0%Q, 0%Q) xs).
Proof.
  induction xs as [|x xs IH] using rev_ind; [apply moments_nil|].
  rewrite foldl_app. simpl. by apply moments_snoc.
Qed.

(** *** The loops *)

Lemma welford_step_Ok c_size comp w s w' :
  welford_step c_size comp w s = Ok w' →
  ∃ t, view w s = Some t ∧
       view w' s = Some (welford_update t (fraction c_size comp s)) ∧
       ∀ s', s' ≠ s → view w' s' = view w s'.
Proof.
  unfold welford_step, index, divide. intros H.
  apply bind_Ok in H as (n & Hn & H). apply bind_Ok in H as (c & Hc & H).
  apply bind_Ok in H as (x & Hx & H). apply bind_Ok in H as (m & Hm & H).
  apply bind_Ok in H as (step & Hstep & H). apply bind_Ok in H as (M & HM & H).
  injection H as <-.
  destruct (tmp_n w !! s) as [n0|] eqn:En; [|done]. injection Hn as ->.
  destruct (comp !! s) as [c0|] eqn:Ec; [|done]. injection Hc as ->.
  destruct (tmp_mean w !! s) as [m0|] eqn:Em; [|done]. injection Hm as ->.
  destruct (tmp_M2 w !! s) as [M0|] eqn:EM; [|done]. injection HM as ->.
  destruct (Qeq_bool (inject_Z c_size) 0); [done|]. injection Hx as <-.
  destruct (Qeq_bool (of_nat (S n)) 0); [done|]. injection Hstep as <-.
  exists (n, m, M). unfold view. rewrite En, Em, EM. split; [done|]. simpl. split.
  - rewrite !list_lookup_insert_eq by (by eapply lookup_lt_Some).
    simpl. unfold welford_update, fraction. simpl. by rewrite Ec.
  - intros s' Hne. by rewrite !list_lookup_insert_ne.
Qed.

Lemma species_loop c_size comp l w w' :
  for_each (welford_step c_size comp) l w = Ok w' → NoDup l →
  ∀ s t, view w s = Some t →
         view w' s = Some (if decide (s ∈ l)
                           then welford_update t (fraction c_size comp s) else t).
Proof.
  revert w. induction l as [|s0 l IH]; intros w H Hnd s t Ht.
  - injection H as <-. done.
  - simpl in H. apply bind_Ok in H as (w1 & Hw1 & H).
    apply NoDup_cons in Hnd as [Hs0 Hnd].
    apply welford_step_Ok in Hw1 as (t0 & Ht0 & Hupd & Hother).
    destruct (decide (s = s0)) as [->|Hne].
    + rewrite Ht in Ht0. injection Ht0 as <-.
      rewrite (IH _ H Hnd _ _ Hupd). rewrite decide_False by done.
      rewrite decide_True by left. done.
    + rewrite <- (Hother _ Hne) in Ht. rewrite (IH _ H Hnd _ _ Ht).
      destruct (decide (s ∈ l)) as [Hl|Hl].
      * rewrite decide_True by (by right). done.
      * rewrite decide_False; [done|]. by intros [?|?]%elem_of_cons.
Qed.

Lemma repeat_loop nb c_size comp (ks : list nat) w w' :
  for_each (λ w _, for_each (welford_step c_size comp) (seq 0 nb) w) ks w = Ok w' →
  ∀ s t, s < nb → view w s = Some t →
         view w' s
         = Some (foldl welford_update t (replicate (length ks) (fraction c_size comp s))).
Proof.
  revert w. induction ks as [|k ks IH]; intros w H s t Hs Ht.
  - injection H as <-. done.
  - simpl in H. apply bind_Ok in H as (w1 & Hw1 & H).
    pose proof (species_loop _ _ _ _ _ Hw1 (NoDup_seq 0 nb) s t Ht) as Ht1.
    rewrite decide_True in Ht1 by (apply elem_of_seq; lia).
    by rewrite (IH _ H s _ Hs Ht1).
Qed.

Lemma items_loop nb c_size items w w' :
  welford_items nb c_size items w = Ok w' →
  ∀ s t, s < nb → view w s = Some t →
         view w' s = Some (foldl welford_update t (samples c_size items s)).
Proof.
  unfold welford_items. revert w. induction items as [|item items IH]; intros w H s t Hs Ht.
  - injection H as <-. done.
  - simpl in H. apply bind_Ok in H as (w1 & Hw1 & H).
    pose proof (repeat_loop _ _ _ _ _ _ Hw1 s t Hs Ht) as Ht1.
    rewrite length_seq in Ht1. rewrite (IH _ H s _ Hs Ht1).
    unfold samples. simpl. by rewrite foldl_app.
Qed.

Lemma view_zero nb s : s < nb → view (welford_zero nb) s = Some (0%nat, 0%Q, 0%Q).
Proof.
  intros Hs. unfold view, welford_zero. simpl.
  by rewrite !(lookup_replicate_2 _ _ _ Hs).
Qed.

(** the three of each species after the loops over the compositions of a
    size *)
Lemma welford_items_moments nb c_size items w :
  welford_items nb c_size items (welford_zero nb) = Ok w →
  ∀ s, s < nb → ∃ t, view w s = Some t ∧ moments (samples c_size items s) t.
Proof.
  intros H s Hs.
  exists (foldl welford_update (0%nat, 0%Q, 0%Q) (samples c_size items s)). split.
  - apply (items_loop _ _ _ _ _ H s _ Hs). by apply view_zero.
  - apply moments_foldl.
Qed.

(** *** By group *)

Lemma welford_group_Ok nb g comp ws c_size ws' :
  welford_group nb g comp ws c_size = Ok ws' →
  (¬ (c_size ≠ (-1)%Z ∧ c_size ≠ 99999%Z) ∧ ws' = ws) ∨
  (c_size ≠ (-1)%Z ∧ c_size ≠ 99999%Z ∧
   ∃ g_index inner w w',
     Groups.groups_sizes_dict g !! c_size = Some g_index ∧
     comp !! c_size = Some inner ∧ ws !! g_index = Some w ∧
     welford_items nb c_size (map_to_list inner) w = Ok w' ∧
     ws' = <[g_index := w']> ws).
Proof.
  unfold welford_group, group_of, getitem, index. intros H.
  destruct (decide _) as [[H1 H2]|Hs]; [|left; split; [done|congruence]].
  right. split; [done|]. split; [done|].
  apply bind_Ok in H as (g_index & Hg & H). apply bind_Ok in H as (inner & Hi & H).
  apply bind_Ok in H as (w & Hw & H). apply bind_Ok in H as (w' & Hw' & H).
  injection H as <-.
  destruct (Groups.groups_sizes_dict g !! c_size) as [g0|] eqn:Eg; [|done].
  injection Hg as ->.
  destruct (comp !! c_size) as [i0|] eqn:Ei; [|done]. injection Hi as ->.
  destruct (ws !! g_index) as [w0|] eqn:Ew; [|done]. injection Hw as ->.
  exists g_index, inner, w, w'. repeat split; done.
Qed.

Lemma groups_loop nb g comp sizes ws ws' :
  for_each (welford_group nb g comp) sizes ws = Ok ws' →
  ∀ g_index w s t,
    ws !! g_index = Some w → s < nb → view w s = Some t →
    ∃ w', ws' !! g_index = Some w' ∧
          view w' s
          = Some (foldl welford_update t (group_samples g comp sizes g_index s)).
Proof.
  revert ws. induction sizes as [|c_size sizes IH]; intros ws H g_index w s t Hw Hs Ht.
  - injection H as <-. by exists w.
  - simpl in H. apply bind_Ok in H as (ws1 & Hws1 & H).
    unfold group_samples. simpl. rewrite foldl_app. fold (group_samples g comp sizes g_index s).
    apply welford_group_Ok in Hws1
      as [[Hsent ->]|(H1 & H2 & g0 & inner & w0 & w0' & Hg0 & Hinner & Hw0 & Hrun & ->)].
    + rewrite decide_False by tauto. simpl. by apply (IH _ H _ w).
    + destruct (decide (g_index = g0)) as [->|Hne].
      * rewrite decide_True by done. rewrite Hinner. simpl.
        rewrite Hw in Hw0. injection Hw0 as <-.
        apply (IH _ H g0 w0'); [|done|].
        -- apply list_lookup_insert_eq. by eapply lookup_lt_Some.
        -- by apply (items_loop _ _ _ _ _ Hrun).
      * rewrite decide_False by (intros (_ & _ & E); congruence). simpl.
        apply (IH _ H g_index w); [|done..].
        by rewrite list_lookup_insert_ne.
Qed.

(** the three of each species and group after the loops over the sizes *)
Lemma welford_groups_moments nb g gmax comp sizes ws :
  for_each (welford_group nb g comp) sizes (replicate gmax (welford_zero nb)) = Ok ws →
  ∀ g_index s, g_index < gmax → s < nb →
    ∃ w t, ws !! g_index = Some w ∧ view w s = Some t ∧
           moments (group_samples g comp sizes g_index s) t.
Proof.
  intros H g_index s Hg Hs.
  destruct (groups_loop _ _ _ _ _ _ H g_index (welford_zero nb) s (0%nat, 0%Q, 0%Q))
    as (w & Hw & Hview); [by apply lookup_replicate_2|done|by apply view_zero|].
  exists w. eexists. split; [done|]. split; [exact Hview|]. apply moments_foldl.
Qed.

End WelfordFacts.

Module CompositionStats.
Import Process Stats StatsWords Examples WelfordFacts.

Section Report.
Variable sqrt : Q → Q.

Lemma report_step_std nb w rows s rows' :
  report_step sqrt nb w rows s = Ok rows' →
  ∀ n, tmp_n w !! s = Some (S n) →
       ∃ M2, tmp_M2 w !! s = Some M2 ∧
             rows'.2 = replicate nb (sqrt (M2 / of_nat (S n)) * 100)%Q.
Proof.
  unfold report_step. intros H n Hn. apply bind_Ok in H as (n' & Hn' & H).
  unfold index in Hn'. rewrite Hn in Hn'. injection Hn' as <-.
  change (0 <? S n)%nat with true in H. cbv iota in H.
  apply bind_Ok in H as (M2 & HM2 & H). apply bind_Ok in H as (v & Hv & H).
  injection H as <-. unfold divide in Hv.
  destruct (Qeq_bool (of_nat (S n)) 0); [done|]. injection Hv as <-.
  unfold index in HM2. destruct (tmp_M2 w !! s) as [M2'|]; [|done].
  injection HM2 as ->. by exists M2.
Qed.

Lemma report_step_avg nb w rows s rows' :
  report_step sqrt nb w rows s = Ok rows' →
  rows'.1 = (λ m, m * 100)%Q <$> tmp_mean w.
Proof.
  unfold report_step. intros H. apply bind_Ok in H as (n & _ & H).
  destruct (0 <? n)%nat; [|by injection H as <-].
  apply bind_Ok in H as (M2 & _ & H). apply bind_Ok in H as (v & _ & H).
  by injection H as <-.
Qed.

Lemma report_last nb w rows last n :
  nb = S last → report sqrt nb w = Ok rows → tmp_n w !! last = Some (S n) →
  rows.1 = (λ m, m * 100)%Q <$> tmp_mean w ∧
  ∃ M2, tmp_M2 w !! last = Some M2 ∧
        rows.2 = replicate nb (sqrt (M2 / of_nat (S n)) * 100)%Q.
Proof.
  intros -> H Hn. unfold report in H. rewrite seq_S, for_each_app in H.
  apply bind_Ok in H as (rows1 & _ & H). simpl in H.
  apply bind_Ok in H as (rows2 & H & E). injection E as <-.
  split; [by eapply report_step_avg|by eapply report_step_std].
Qed.

(** C6: for each species the loops over the compositions of a size, or of
    the sizes of a group, leave the number of clusters seen, the mean of
    the fraction of the species in them and the sum of the squared
    deviations from that mean, and the means are reported times 100
    species by species.  The row of standard deviations, though, holds in
    every column the value of the last species.  For three species and
    clusters of one protein seen once with a protein of the first species
    and once with one of the second, the variances are 1/4, 1/4 and 0:
    the three columns reported are the square root of 0 times 100, where
    each species on its own gives the square roots of 1/4, 1/4 and 0
    times 100. *)
Theorem std_row_repeats_last_species :
  (∀ nb c_size items w,
     welford_items nb c_size items (welford_zero nb) = Ok w →
     ∀ s, s < nb → ∃ t, view w s = Some t ∧ moments (samples c_size items s) t) ∧
  (∀ nb g gmax comp sizes ws,
     for_each (welford_group nb g comp) sizes (replicate gmax (welford_zero nb))
     = Ok ws →
     ∀ g_index s, g_index < gmax → s < nb →
       ∃ w t, ws !! g_index = Some w ∧ view w s = Some t ∧
              moments (group_samples g comp sizes g_index s) t) ∧
  (∀ nb w rows last n,
     nb = S last → report sqrt nb w = Ok rows → tmp_n w !! last = Some (S n) →
     rows.1 = (λ m, m * 100)%Q <$> tmp_mean w ∧
     ∃ M2, tmp_M2 w !! last = Some M2 ∧
           rows.2 = replicate nb (sqrt (M2 / of_nat (S n)) * 100)%Q) ∧
  ∃ w avg std own v0 v1 v2,
    (inner ← getitem three_comp 1%Z;
     welford_items 3 1 (map_to_list inner) (welford_zero 3)) = Ok w ∧
    composition_of_size sqrt 3 three_comp 1 = Ok (avg, std) ∧
    report_own sqrt 3 w = Ok (avg, own) ∧
    tmp_n w = [2; 2; 2] ∧
    Forall2 Qeq (tmp_mean w) [1 # 2; 1 # 2; 0]%Q ∧
    Forall2 Qeq avg [50; 50; 0]%Q ∧
    Forall2 (λ M2 v, v = (M2 / of_nat 2)%Q) (tmp_M2 w) [v0; v1; v2] ∧
    (v0 == 1 # 4)%Q ∧ (v1 == 1 # 4)%Q ∧ (v2 == 0)%Q ∧
    own = [sqrt v0 * 100; sqrt v1 * 100; sqrt v2 * 100]%Q ∧
    std = [sqrt v2 * 100; sqrt v2 * 100; sqrt v2 * 100]%Q.
Proof.
  split; [apply welford_items_moments|]. split; [apply welford_groups_moments|].
  split; [apply report_last|].
  eexists. eexists. eexists. eexists. eexists. eexists. eexists.
  split; [vm_compute; reflexivity|]. split; [vm_compute; reflexivity|].
  split; [vm_compute; reflexivity|]. split; [reflexivity|].
  split; [repeat constructor|]. split; [repeat constructor|].
  split; [repeat constructor|]. split; [reflexivity|]. split; [reflexivity|].
  split; [reflexivity|]. split; reflexivity.
Qed.
End Report.

(** with square roots taken, the row reported is 0, 0, 0 and the one of
    each species on its own 50, 50, 0 *)
Lemma std_row_of_three_comp :
  ∃ avg std own,
    composition_of_size exact_sqrt 3 three_comp 1 = Ok (avg, std) ∧
    (w ← (inner ← getitem three_comp 1%Z;
          welford_items 3 1 (map_to_list inner) (welford_zero 3));
     report_own exact_sqrt 3 w) = Ok (avg, own) ∧
    Forall2 Qeq std [0; 0; 0]%Q ∧ Forall2 Qeq own [50; 50; 0]%Q.
Proof.
  eexists. eexists. eexists. split; [vm_compute; reflexivity|].
  split; [vm_compute; reflexivity|]. split; repeat constructor.
Qed.

End CompositionStats.

Module IdentifyFacts.
Import Topology Identify TopologyFacts.

Lemma species_at_range counts p :
  p < sum_list counts →
  ∃ c, counts !! species_at counts p = Some c ∧
       p_start counts (species_at counts p) ≤ p
       < p_start counts (species_at counts p) + c.
Proof.
  revert p. induction counts as [|n rest IH]; intros p Hp; [simpl in Hp; lia|].
  simpl in *. destruct (Nat.ltb_spec p n).
  - exists n. split; [done|]. unfold p_start. simpl. lia.
  - destruct (IH (p - n)) as (c & Hc & Hrange); [lia|].
    exists c. split; [done|]. unfold p_start in *. simpl. lia.
Qed.

Lemma boundaries_inv counts s lo hi :
  proteins_boundaries counts !! s = Some (lo, hi) →
  ∃ c, counts !! s = Some c ∧ lo = p_start counts s ∧ hi = p_start counts s + c.
Proof.
  unfold proteins_boundaries. rewrite list_lookup_fmap. intros H.
  destruct (seq 0 (length counts) !! s) as [s'|] eqn:E; [|done].
  apply lookup_seq in E as [-> Hs]. simpl in *. injection H as <- <-.
  destruct (lookup_lt_is_Some_2 counts s Hs) as [c Hc]. exists c. by rewrite Hc.
Qed.

(** [prot_index2rel] after the species before [k] *)
Lemma rel_loop counts k p :
  k ≤ length counts → p < sum_list counts →
  foldl (λ rel s_index,
           sub_slice rel (p_start counts s_index)
             (p_start counts s_index + default 0 (counts !! s_index))
             (Z.of_nat (p_start counts s_index)))
        (Z.of_nat <$> seq 0 (sum_list counts)) (seq 0 k) !! p
  = Some (if p <? p_start counts k
          then Z.of_nat (p - p_start counts (species_at counts p))
          else Z.of_nat p).
Proof.
  intros Hk Hp. induction k as [|k IH].
  - simpl. rewrite list_lookup_fmap, lookup_seq_lt by done. simpl.
    unfold p_start. simpl. done.
  - rewrite seq_S, foldl_app. simpl. unfold sub_slice at 1.
    rewrite list_lookup_imap, IH by lia. simpl.
    destruct (lookup_lt_is_Some_2 counts k) as [c Hc]; [lia|].
    rewrite Hc. simpl. rewrite (p_start_S _ _ _ Hc).
    destruct (Nat.leb_spec (p_start counts k) p) as [Hle|Hlt]; simpl.
    + rewrite (proj2 (Nat.ltb_ge _ _) Hle).
      destruct (Nat.ltb_spec p (p_start counts k + c)) as [Hin|Hout]; [|done].
      rewrite (species_at_spec counts k c p Hc) by lia. f_equal. lia.
    + rewrite (proj2 (Nat.ltb_lt _ _) Hlt).
      by rewrite (proj2 (Nat.ltb_lt p (p_start counts k + c))) by lia.
Qed.

(** X1: the dictionaries of [identify_proteins] agree: a protein index
    below the number of proteins has one species, the one whose boundaries
    hold it, and its index relative to the species is its distance from the
    start of these boundaries, below the number of proteins of the
    species. *)
Theorem dictionaries_agree (proteins_nb : list nat) (p : nat) :
  p < sum_list proteins_nb →
  ∃ s lo hi,
    prot_index2sindex proteins_nb !! p = Some s ∧
    proteins_boundaries proteins_nb !! s = Some (lo, hi) ∧
    lo ≤ p < hi ∧ proteins_nb !! s = Some (hi - lo) ∧
    prot_index2rel proteins_nb !! p = Some (Z.of_nat (p - lo)) ∧
    ∀ s' lo' hi', proteins_boundaries proteins_nb !! s' = Some (lo', hi') →
                  lo' ≤ p < hi' → s' = s.
Proof.
  intros Hp. destruct (species_at_range _ _ Hp) as (c & Hc & Hrange).
  exists (species_at proteins_nb p), (p_start proteins_nb (species_at proteins_nb p)),
         (p_start proteins_nb (species_at proteins_nb p) + c).
  split; [by apply sindex_lookup|]. split; [by apply boundaries_lookup|].
  split; [done|]. split; [rewrite Hc; f_equal; lia|]. split.
  - unfold prot_index2rel. rewrite rel_loop by done.
    rewrite p_start_all. by rewrite (proj2 (Nat.ltb_lt _ _) Hp).
  - intros s' lo' hi' (c' & Hc' & -> & ->)%boundaries_inv Hin.
    symmetry. by apply (species_at_spec _ _ c').
Qed.

Lemma dictionaries_agree_witness :
  ∃ s lo hi,
    prot_index2sindex [2; 3] !! 3 = Some s ∧
    proteins_boundaries [2; 3] !! s = Some (lo, hi) ∧
    s = 1 ∧ lo = 2 ∧ hi = 5 ∧ prot_index2rel [2; 3] !! 3 = Some 1%Z.
Proof.
  destruct (dictionaries_agree [2; 3] 3) as (s & lo & hi & Hs & Hb & _ & _ & Hrel & _).
  { simpl. lia. }
  exists s, lo, hi. split; [exact Hs|]. split; [exact Hb|].
  vm_compute in Hs. injection Hs as <-. vm_compute in Hb. injection Hb as <- <-.
  split; [reflexivity|]. split; [reflexivity|]. split; [reflexivity|]. exact Hrel.
Defined.

End IdentifyFacts.

Local Open Scope Z_scope.

Module ConfigFacts.
Import Cutoffs CutoffsWords CutoffsFacts Main MainFacts.

Section Read.
Variable py_int : string → option Z.
Variable py_float : string → option Q.
Local Abbreviation wellformed := (CutoffsWords.wellformed py_int py_float).

Lemma read_lines_Ok lines st st' :
  for_each (read_cutoff_line py_int py_float) lines st = Ok st' →
  ∃ ts, Forall2 wellformed lines ts ∧ st' = foldl store st ts.
Proof.
  revert st. induction lines as [|line lines IH]; intros st H.
  - injection H as <-. by exists [].
  - simpl in H. apply bind_Ok in H as (st1 & H1 & H).
    destruct (read_line_Ok _ _ _ _ _ H1) as [t Ht].
    rewrite (read_wellformed _ _ _ _ _ Ht) in H1. injection H1 as <-.
    destruct (IH _ H) as (ts & Hts & ->). exists (t :: ts). split; [by constructor|done].
Qed.

Lemma store_symmetric (ts : list (Z * Z * Q)) (st : gmap (Z * Z) Q * list Z) :
  (∀ s ss, st.1 !! (s, ss) = st.1 !! (ss, s)) →
  ∀ s ss, (foldl store st ts).1 !! (s, ss) = (foldl store st ts).1 !! (ss, s).
Proof.
  revert st. induction ts as [|t ts IH]; intros st Hsym; [done|].
  simpl. apply IH. intros s ss. unfold store. simpl.
  destruct (decide ((t.1.2, t.1.1) = (s, ss))) as [E|E].
  - rewrite E, lookup_insert_eq. injection E as <- <-.
    destruct (decide (t.1.1 = t.1.2)) as [E'|E'].
    + rewrite E'. by rewrite lookup_insert_eq.
    + rewrite lookup_insert_ne by congruence. by rewrite lookup_insert_eq.
  - rewrite (lookup_insert_ne _ _ (s, ss)) by done.
    destruct (decide ((t.1.1, t.1.2) = (s, ss))) as [E1|E1].
    + rewrite E1, lookup_insert_eq. injection E1 as <- <-.
      by rewrite lookup_insert_eq.
    + rewrite (lookup_insert_ne _ _ (s, ss)) by done.
      rewrite !lookup_insert_ne by congruence. apply Hsym.
Qed.

Lemma read_file_table lines t :
  read py_int py_float (File lines) = Ok t →
  nx_cutoff_file t = true ∧ Cutoffs.nx_cutoff t = None ∧
  (∀ s ss, cog_cutoff_values t !! (s, ss) = cog_cutoff_values t !! (ss, s)) ∧
  ∃ n, 0 < n ∧ (size (cog_cutoff_values t) ≤ Z.to_nat n * Z.to_nat n)%nat ∧
       ∀ s ss, is_Some (cog_cutoff_values t !! (s, ss)) ↔ 0 ≤ s < n ∧ 0 ≤ ss < n.
Proof.
  intros H.
  assert (Cutoffs.nx_cutoff t = None) as Hnone.
  { simpl in H. apply bind_Ok in H as (st0 & _ & H).
    apply bind_Ok in H as (u & _ & H). by injection H as <-. }
  apply read_file_Ok in H as (st & Hst & Hgap & Hfile & Hvalues).
  split; [done|]. split; [done|]. rewrite Hvalues.
  destruct (read_lines_Ok _ _ _ Hst) as (ts & Hts & ->).
  pose proof (stored_indices (∅, []) ts) as Hidx. simpl in Hidx.
  assert (Hkeys : ∀ s ss, is_Some ((foldl store (∅, []) ts).1 !! (s, ss)) ↔
                          given ts s ss).
  { intros s ss. rewrite stored_keys. simpl. rewrite lookup_empty.
    split; [intros [[? ?]|?]; done | auto]. }
  apply check_no_gap_Ok in Hgap as (H0 & Hrange & Hall). rewrite Hidx in *.
  split; [apply store_symmetric; intros; simpl; by rewrite !lookup_empty|].
  exists (Z.of_nat (length (np_unique (named ts)))).
  split; [specialize (Hrange 0 H0); lia|]. split.
  - rewrite Nat2Z.id. apply size_pairs.
    intros s ss Hs%Hkeys%given_named. split; apply Hrange; tauto.
  - intros s ss. split.
    + intros Hs%Hkeys%given_named. split; apply Hrange; tauto.
    + intros [Hs Hss]. by apply Hall.
Qed.

(** X2: a cutoff file that is read gives a table over the pairs of the
    species indices [0 .. n-1], [n] above zero, and over nothing else;
    the cutoff of a pair is the same in both orders of its indices. *)
Theorem cutoff_table_square_symmetric lines t :
  read py_int py_float (File lines) = Ok t →
  nx_cutoff_file t = true ∧ Cutoffs.nx_cutoff t = None ∧
  (∀ s ss, cog_cutoff_values t !! (s, ss) = cog_cutoff_values t !! (ss, s)) ∧
  ∃ n, 0 < n ∧ (size (cog_cutoff_values t) ≤ Z.to_nat n * Z.to_nat n)%nat ∧
       ∀ s ss, is_Some (cog_cutoff_values t !! (s, ss)) ↔ 0 ≤ s < n ∧ 0 ≤ ss < n.
Proof. apply read_file_table. Qed.
End Read.

Lemma cutoff_table_square_symmetric_witness :
  ∃ t, read dec_int (λ _, Some 8%Q) (File ["0,0,8"%string]) = Ok t ∧
       nx_cutoff_file t = true ∧ is_Some (cog_cutoff_values t !! (0, 0)).
Proof.
  eexists. split; [vm_compute; reflexivity|].
  match goal with
  | |- nx_cutoff_file ?t = true ∧ _ =>
      destruct (cutoff_table_square_symmetric dec_int (λ _, Some 8%Q)
                  ["0,0,8"%string] t) as (Hfile & _ & _ & n & Hn & _ & Hkeys)
  end.
  - vm_compute. reflexivity.
  - split; [exact Hfile|]. apply Hkeys. lia.
Defined.

End ConfigFacts.

Local Close Scope Z_scope.

Module RunFacts.
Import Process Main Samples ConfigFacts.

Section Run.
Variable py_int : string → option Z.
Variable py_float : string → option Q.
Variable dbscan : Nd.t Q → list Z.

Lemma configure_Ok c cut e a :
  configure py_int py_float c = Ok (cut, e, a) →
  ∃ cut0 g,
    Cutoffs.read py_int py_float (nx_cutoff c) = Ok cut0 ∧
    Cutoffs.check_species (found_species c) cut0 = Ok cut ∧
    match cluster_groups_file c with
    | None => g = None
    | Some lines => ∃ g', Groups.initialise_groups py_int lines = Ok g' ∧ g = Some g'
    end ∧
    e = {| nb_species := found_species c;
           nb_proteins := sum_list (proteins_nb c);
           nb_frames_to_process := length (frames c);
           prot_index2sindex := Topology.prot_index2sindex (proteins_nb c);
           proteins_length := found_length c;
           groups := g |} ∧
    Struct.struct_proteins e = Ok a.
Proof.
  unfold configure. intros H. apply bind_Ok in H as (cut0 & Hcut0 & H).
  apply bind_Ok in H as (cut' & Hcut & H). apply bind_Ok in H as (g & Hg & H).
  apply bind_Ok in H as (a' & Ha & H). injection H as <- <- <-.
  exists cut0, g. split; [done|]. split; [done|]. split; [|done].
  destruct (cluster_groups_file c) as [lines|]; [|by injection Hg as <-].
  apply bind_Ok in Hg as (g' & Hg' & Hg). injection Hg as <-. by exists g'.
Qed.

Lemma checked_cutoffs_ready arg nb cut0 cut :
  Cutoffs.read py_int py_float arg = Ok cut0 →
  Cutoffs.check_species nb cut0 = Ok cut → 0 < nb →
  cutoffs_ready nb cut.
Proof.
  intros Hread Hchk Hnb. unfold Cutoffs.check_species in Hchk.
  destruct arg as [q|lines|]; [| |done].
  - injection Hread as <-. simpl in Hchk. injection Hchk as <-.
    unfold cutoffs_ready. simpl. by eexists.
  - apply read_file_table in Hread as (Hfile & Hnone & _ & n & Hn & Hsize & Hkeys).
    rewrite Hfile in Hchk.
    destruct (Nat.ltb_spec (size (Cutoffs.cog_cutoff_values cut0)) (nb * nb));
      [done|].
    destruct (Nat.eqb_spec nb 1) as [->|Hne].
    + apply bind_Ok in Hchk as (c00 & _ & Hchk). injection Hchk as <-.
      unfold cutoffs_ready. simpl. by eexists.
    + injection Hchk as <-. unfold cutoffs_ready. rewrite Hfile.
      rewrite (proj2 (Nat.ltb_lt 1 nb)) by lia. simpl.
      intros s ss Hs Hss. apply Hkeys. nia.
Qed.

Lemma configured_detection c cut e a :
  configure py_int py_float c = Ok (cut, e, a) →
  0 < found_species c → density c = false →
  cutoffs_ready (found_species c) cut ∧
  ∀ dist,
    Nd.shape dist = [sum_list (proteins_nb c); sum_list (proteins_nb c)] →
    ∃ G, detect dbscan c cut dist = Ok (Detect.Network G) ∧
         Detect.order G = sum_list (proteins_nb c) ∧
         (∀ i j, Detect.edge G i j = Detect.edge G j i) ∧
         ∀ i j, i < sum_list (proteins_nb c) → j < sum_list (proteins_nb c) →
                Detect.edge G i j
                = within (proteins_nb c) cut dist i j
                  || within (proteins_nb c) cut dist j i.
Proof.
  intros (cut0 & g & Hread & Hchk & _)%configure_Ok Hnb Hdens.
  pose proof (checked_cutoffs_ready _ _ _ _ Hread Hchk Hnb) as Hready.
  split; [done|]. intros dist Hshape. unfold detect. rewrite Hdens.
  destruct (DetectFacts.detect_clusters_connectivity_spec
              (proteins_nb c) cut dist Hshape Hready) as (G & HG & Hrest).
  exists G. unfold found_species. rewrite HG. done.
Qed.

(** X3: once the configuration is loaded, for a system with a protein
    at least, every cutoff the connectivity detector looks up is there:
    on the square matrix of the distances of a frame the detection ends
    well, with a graph over the proteins whose edges are the pairs within
    the cutoff of their species. *)
Theorem configured_detection_succeeds c cut e a :
  configure py_int py_float c = Ok (cut, e, a) →
  0 < found_species c → density c = false →
  cutoffs_ready (found_species c) cut ∧
  ∀ dist,
    Nd.shape dist = [sum_list (proteins_nb c); sum_list (proteins_nb c)] →
    ∃ G, detect dbscan c cut dist = Ok (Detect.Network G) ∧
         Detect.order G = sum_list (proteins_nb c) ∧
         (∀ i j, Detect.edge G i j = Detect.edge G j i) ∧
         ∀ i j, i < sum_list (proteins_nb c) → j < sum_list (proteins_nb c) →
                Detect.edge G i j
                = within (proteins_nb c) cut dist i j
                  || within (proteins_nb c) cut dist j i.
Proof. apply configured_detection. Qed.
End Run.

Lemma configured_detection_succeeds_witness :
  ∃ cut e a G,
    configure dec_int (λ _, Some 8%Q) one_species = Ok (cut, e, a) ∧
    detect (λ _, []) one_species cut (Nd.full [2; 2] 1%Q) = Ok (Detect.Network G) ∧
    Detect.order G = 2.
Proof.
  assert ((x ← configure dec_int (λ _, Some 8%Q) one_species; Ok tt) = Ok tt) as Hrun
      by (vm_compute; reflexivity).
  apply bind_Ok in Hrun as ([[cut e] a] & H & _).
  destruct (configured_detection_succeeds dec_int (λ _, Some 8%Q) (λ _, [])
              one_species cut e a H) as [_ Hdet]; [unfold found_species; simpl; lia|reflexivity|].
  destruct (Hdet (Nd.full [2; 2] 1%Q) eq_refl) as (G & HG & Hord & _).
  exists cut, e, a, G. split; [exact H|]. split; [exact HG|exact Hord].
Defined.

End RunFacts.

Module TablesFacts.
Import Process ProcessWords ProcessFacts NdFacts ContactFacts StatsFacts.

Lemma tables_kept_refl a : tables_kept a a.
Proof. done. Qed.

Lemma tables_kept_trans a b c : tables_kept a b → tables_kept b c → tables_kept a c.
Proof.
  intros (H1 & H2 & H3) (H1' & H2' & H3'). split; [|split].
  - intros k. by rewrite H1.
  - intros k. by rewrite H2.
  - intros k j. by rewrite H3.
Qed.

(** *** The allocation *)

Lemma per_group_keys e sh g j :
  groups e = Some g →
  is_Some (Struct.per_group e sh !! j) ↔ j < Groups.groups_number g.
Proof.
  intros Hg. unfold Struct.per_group. rewrite Hg.
  assert (∀ l (d : gmap nat (Nd.t nat)),
            is_Some (foldl (λ d i, <[i := Nd.full sh 0]> d) d l !! j)
            ↔ is_Some (d !! j) ∨ j ∈ l) as Hfold.
  { induction l as [|i l IH]; intros d; simpl.
    - rewrite elem_of_nil. tauto.
    - rewrite IH, lookup_insert_is_Some, elem_of_cons.
      split.
      + intros [[Hi|[_ Hd]]|Hl]; auto.
      + intros [Hd|[Hi|Hl]]; auto. destruct (decide (i = j)); auto. }
  rewrite Hfold, lookup_empty, elem_of_seq. split.
  - intros [[? ?]|?]; [done|lia].
  - intros ?. right. lia.
Qed.

Section Allocation.
Variable e : env.

(** the body of the loop over the second species *)
Local Abbreviation allocate_pair s_index1 len1 :=
  (λ (a : acc) (s_index2 : nat),
     len2 ← index (proteins_length e) s_index2;
     let key := (s_index1, s_index2) in
     let a := set_proteins_ctcts_res
                (<[key := Nd.full [len1; len2] 0]> (proteins_ctcts_res a)) a in
     let a := set_proteins_ctcts_res_size
                (<[key := ∅]> (proteins_ctcts_res_size a)) a in
     Ok (set_proteins_ctcts_res_group
           (<[key := Struct.per_group e [len1; len2]]> (proteins_ctcts_res_group a)) a)).

Lemma allocate_pair_Ok s1 len1 a s2 a' :
  allocate_pair s1 len1 a s2 = Ok a' →
  allocated e a' (s1, s2) ∧
  (∀ key, allocated e a key → allocated e a' key) ∧
  (groups_bounded e a → groups_bounded e a').
Proof.
  intros H. apply bind_Ok in H as (len2 & _ & H).
  injection H as <-. split; [|split].
  - split; [|split]; simpl.
    + rewrite lookup_insert_eq. by eexists.
    + rewrite lookup_insert_eq. by eexists.
    + intros g j Hg Hj. unfold lookup2. rewrite lookup_insert_eq. simpl.
      by apply (per_group_keys e _ g).
  - intros key (H1 & H2 & H3). split; [|split]; simpl.
    + rewrite lookup_insert_is_Some. destruct (decide ((s1, s2) = key)); auto.
    + rewrite lookup_insert_is_Some. destruct (decide ((s1, s2) = key)); auto.
    + intros g j Hg Hj. unfold lookup2.
      destruct (decide ((s1, s2) = key)) as [<-|Hne].
      * rewrite lookup_insert_eq. simpl. by apply (per_group_keys e _ g).
      * rewrite lookup_insert_ne by done. by apply (H3 g).
  - intros Hb g k j Hg. simpl. unfold lookup2.
    destruct (decide ((s1, s2) = k)) as [<-|Hne].
    + rewrite lookup_insert_eq. simpl. by apply per_group_keys.
    + rewrite lookup_insert_ne by done. by apply Hb.
Qed.

Lemma allocate_pairs_Ok s1 len1 l a a' :
  for_each (allocate_pair s1 len1) l a = Ok a' →
  (∀ s2, s2 ∈ l → allocated e a' (s1, s2)) ∧
  (∀ key, allocated e a key → allocated e a' key) ∧
  (groups_bounded e a → groups_bounded e a').
Proof.
  revert a. induction l as [|s2 l IH]; intros a H.
  - injection H as <-. split; [|done]. intros ? Hin. by apply not_elem_of_nil in Hin.
  - simpl in H. apply bind_Ok in H as (a1 & Ha1 & H).
    apply allocate_pair_Ok in Ha1 as (Hkey & Hkeep & Hb).
    destruct (IH _ H) as (Hin & Hkeep' & Hb'). split; [|split; [auto|auto]].
    intros s [->|Hs]%elem_of_cons; auto.
Qed.

Lemma struct_species_Ok a s1 a' :
  Struct.struct_species e a s1 = Ok a' →
  (∀ s2, s2 ∈ seq s1 (nb_species e - s1) → allocated e a' (s1, s2)) ∧
  (∀ key, allocated e a key → allocated e a' key) ∧
  (groups_bounded e a → groups_bounded e a').
Proof.
  unfold Struct.struct_species. intros H. apply bind_Ok in H as (len1 & _ & H).
  apply (allocate_pairs_Ok s1 len1) in H as (Hin & Hkeep & Hb).
  split; [done|]. split.
  - intros key Hkey. apply Hkeep. exact Hkey.
  - intros Hbound. apply Hb. exact Hbound.
Qed.

Lemma struct_species_loop l a a' :
  for_each (Struct.struct_species e) l a = Ok a' →
  (∀ s1 s2, s1 ∈ l → s2 ∈ seq s1 (nb_species e - s1) → allocated e a' (s1, s2)) ∧
  (∀ key, allocated e a key → allocated e a' key) ∧
  (groups_bounded e a → groups_bounded e a').
Proof.
  revert a. induction l as [|s1 l IH]; intros a H.
  - injection H as <-. split; [|done]. intros ?? Hin. by apply not_elem_of_nil in Hin.
  - simpl in H. apply bind_Ok in H as (a1 & Ha1 & H).
    apply struct_species_Ok in Ha1 as (Hkey & Hkeep & Hb).
    destruct (IH _ H) as (Hin & Hkeep' & Hb'). split; [|split; [auto|auto]].
    intros s s2 [->|Hs]%elem_of_cons Hs2; auto.
Qed.

Lemma struct_proteins_tables a :
  Struct.struct_proteins e = Ok a →
  (∀ key, key ∈ Struct.species_pairs (nb_species e) → allocated e a key) ∧
  groups_bounded e a.
Proof.
  unfold Struct.struct_proteins. intros (Hin & _ & Hb)%struct_species_loop. split.
  - intros [s1 s2] Hkey. unfold Struct.species_pairs in Hkey.
    apply list_elem_of_bind in Hkey as (s1' & Hkey & Hs1).
    apply list_elem_of_bind in Hkey as (s2' & Hkey & Hs2).
    apply list_elem_of_singleton in Hkey as [= -> ->]. by apply Hin.
  - apply Hb. intros g k j _ [x Hx]. unfold lookup2 in Hx. simpl in Hx.
    by rewrite lookup_empty in Hx.
Qed.
End Allocation.

(** *** The frames *)

Lemma tables_kept_eq a a' :
  proteins_ctcts_res a' = proteins_ctcts_res a →
  proteins_ctcts_res_size a' = proteins_ctcts_res_size a →
  proteins_ctcts_res_group a' = proteins_ctcts_res_group a →
  tables_kept a a'.
Proof. intros H1 H2 H3. unfold tables_kept. by rewrite H1, H2, H3. Qed.

Lemma getitem_Ok `{Countable K} {V} (d : gmap K V) k v :
  getitem d k = Ok v → d !! k = Some v.
Proof. unfold getitem. destruct (d !! k); [by intros [= ->]|done]. Qed.

Lemma add_mask_at_keys `{Countable K} (d : gmap K (Nd.t nat)) k m d' :
  add_mask_at d k m = Ok d' → ∀ i, is_Some (d !! i) ↔ is_Some (d' !! i).
Proof.
  intros (r & r' & Hr & _ & ->)%add_mask_at_Ok i.
  rewrite lookup_insert_is_Some. split; [|intros [<-|[_ ?]]; [by eexists|done]].
  intros Hi. destruct (decide (k = i)); auto.
Qed.

Lemma add_mask_at2_keys `{Countable K, Countable K2}
    (d : gmap K (gmap K2 (Nd.t nat))) k k2 m d' :
  add_mask_at2 d k k2 m = Ok d' →
  (∀ i, is_Some (d !! i) ↔ is_Some (d' !! i)) ∧
  (∀ i j, is_Some (lookup2 d i j) ↔ is_Some (lookup2 d' i j)).
Proof.
  unfold add_mask_at2. intros H1.
  apply bind_Ok in H1 as (inner & Hi & H1). apply bind_Ok in H1 as (inner' & Hi' & H1).
  injection H1 as <-. apply getitem_Ok in Hi.
  pose proof (add_mask_at_keys _ _ _ _ Hi') as Hkeys. split.
  - intros i. rewrite lookup_insert_is_Some. split; [|intros [<-|[_ ?]]; [by eexists|done]].
    intros ?. destruct (decide (k = i)); auto.
  - intros i j. unfold lookup2. destruct (decide (k = i)) as [<-|Hne].
    + rewrite lookup_insert_eq, Hi. simpl. apply Hkeys.
    + by rewrite lookup_insert_ne.
Qed.

Lemma allocate_at2_keys `{Countable K, Countable K2} {V}
    (d : gmap K (gmap K2 V)) k k2 v d' :
  allocate_at2 d k k2 v = Ok d' → ∀ i, is_Some (d !! i) ↔ is_Some (d' !! i).
Proof.
  unfold allocate_at2. intros H1 i.
  apply bind_Ok in H1 as (inner & Hi & H1). apply getitem_Ok in Hi.
  destruct (inner !! k2); injection H1 as <-; [done|].
  rewrite lookup_insert_is_Some. split; [|intros [<-|[_ ?]]; [by eexists|done]].
  intros ?. destruct (decide (k = i)); auto.
Qed.

Section Frame.
Variable e : env.
Variable fr : frame.
Variable network : Detect.graph.
Variable f_index : nat.

Lemma group_contacts_keys key c_size m (a : acc) a' :
  match groups e with
  | None => Ok a
  | Some g =>
      g_index ← group_of g c_size;
      by_group ← add_mask_at2 (proteins_ctcts_res_group a) key g_index m;
      Ok (set_proteins_ctcts_res_group by_group a)
  end = Ok a' →
  proteins_ctcts_res a' = proteins_ctcts_res a ∧
  proteins_ctcts_res_size a' = proteins_ctcts_res_size a ∧
  ∀ i j, is_Some (lookup2 (proteins_ctcts_res_group a) i j)
         ↔ is_Some (lookup2 (proteins_ctcts_res_group a') i j).
Proof.
  destruct (groups e) as [g|]; intros H1.
  - apply bind_Ok in H1 as (gi & _ & H1). apply bind_Ok in H1 as (bg & Hbg & H1).
    injection H1 as <-. apply add_mask_at2_keys in Hbg as [_ Hbg]. done.
  - by injection H1 as <-.
Qed.

Lemma add_residue_contacts_kept key c_size m a a' :
  add_residue_contacts e key c_size m a = Ok a' → tables_kept a a'.
Proof.
  unfold add_residue_contacts. intros H1.
  apply bind_Ok in H1 as (r & Hr & H1). apply bind_Ok in H1 as (bs & Hbs & H1).
  apply group_contacts_keys in H1 as (E1 & E2 & Hg). simpl in *.
  split; [|split].
  - rewrite E1. by eapply add_mask_at_keys.
  - rewrite E2. by eapply add_mask_at2_keys.
  - exact Hg.
Qed.

Lemma first_residue_contacts_kept key c_size m zeros a a' :
  first_residue_contacts e key c_size m zeros a = Ok a' → tables_kept a a'.
Proof.
  unfold first_residue_contacts. intros H1.
  apply bind_Ok in H1 as (r & Hr & H1). apply bind_Ok in H1 as (bs0 & Hbs0 & H1).
  apply bind_Ok in H1 as (bs & Hbs & H1).
  apply group_contacts_keys in H1 as (E1 & E2 & Hg). simpl in *.
  split; [|split].
  - rewrite E1. by eapply add_mask_at_keys.
  - rewrite E2. intros k.
    rewrite (allocate_at2_keys _ _ _ _ _ Hbs0 k). by eapply add_mask_at2_keys.
  - exact Hg.
Qed.

Lemma treat_pair_kept c_size p ps st pp st' :
  treat_pair e fr f_index c_size p ps st pp = Ok st' → tables_kept st.1 st'.1.
Proof.
  intros H. apply treat_pair_Ok in H as [[_ ->]|(_ & _ & H)]; [done|].
  destruct H as (pp_s & pp_len & p_len & nbn1 & a1 & a2 & prot1 & nbn2 & prot2 &
                 _ & _ & _ & _ & Ha1 & Ha2 & _ & _ & _ & ->).
  apply first_residue_contacts_kept in Ha1.
  assert (tables_kept a1 a2) as Ha12.
  { destruct (ps =? pp_s); [by eapply add_residue_contacts_kept|].
    by injection Ha2 as <-. }
  apply (tables_kept_trans _ a1); [exact Ha1|].
  apply (tables_kept_trans _ a2); [exact Ha12|]. by apply tables_kept_eq.
Qed.

Lemma treat_lipids_kept c_size p ps pl a a' :
  treat_lipids e fr c_size p ps pl a = Ok a' → tables_kept a a'.
Proof. unfold treat_lipids. intros H. inv_ok H; by apply tables_kept_eq. Qed.

Lemma treat_protein_kept wl c_size st p st' :
  treat_protein e fr network f_index wl c_size st p = Ok st' →
  tables_kept st.1.1 st'.1.1.
Proof.
  unfold treat_protein. intros H.
  apply bind_Ok in H as (ps & _ & H). apply bind_Ok in H as (pl & _ & H).
  apply bind_Ok in H as (a1 & Ha1 & H). apply bind_Ok in H as (comp & _ & H).
  apply bind_Ok in H as (st1 & Hst1 & H). injection H as <-. simpl.
  apply (tables_kept_trans _ a1).
  - destruct wl; [by eapply treat_lipids_kept | by injection Ha1 as <-].
  - change a1 with (a1, st.1.2).1.
    eapply (for_each_invariant _ (λ s s', tables_kept s.1 s'.1)); [done| |..|exact Hst1].
    + intros ???. apply tables_kept_trans.
    + intros ???? Hb. by eapply treat_pair_kept.
Qed.

Lemma store_size_kept cluster size group a a' :
  store_size e f_index cluster size group a = Ok a' → tables_kept a a'.
Proof. unfold store_size. intros H. inv_ok H; by apply tables_kept_eq. Qed.

Lemma account_kept wl cluster a a' :
  account e fr network f_index wl cluster a = Ok a' → tables_kept a a'.
Proof.
  unfold account. intros H. apply bind_Ok in H as (a1 & Ha1 & H).
  apply bind_Ok in H as (st & Hst & H). injection H as <-.
  apply store_size_kept in Ha1. apply (tables_kept_trans _ a1); [done|].
  apply (tables_kept_trans _ st.1.1); [|by apply tables_kept_eq].
  change a1 with (a1, @nil (nat * nat), replicate (nb_species e) 0).1.1.
  eapply (for_each_invariant _ (λ s s', tables_kept s.1.1 s'.1.1)); [done| |..|exact Hst].
  - intros ???. apply tables_kept_trans.
  - intros ???? Hb. by eapply treat_protein_kept.
Qed.

Lemma process_cluster_TM_kept a cluster a' :
  process_cluster_TM e fr network f_index a cluster = Ok a' → tables_kept a a'.
Proof.
  unfold process_cluster_TM. intros H.
  apply bind_Ok in H as (dist & _ & H). destruct (classify dist).
  - by eapply store_size_kept.
  - by eapply store_size_kept.
  - by eapply account_kept.
Qed.
End Frame.

Section Run.
Variable dbscan : Nd.t Q → list Z.

Lemma process_frame_kept c cut e a f_index f a' :
  Main.process_frame dbscan c cut e a f_index f = Ok a' → tables_kept a a'.
Proof.
  unfold Main.process_frame. intros H. apply bind_Ok in H as (d & _ & H).
  destruct d as [G|gs]; [|done]. destruct (Main.cutoff_leaflet c).
  - unfold process_clusters_TM in H. revert H.
    apply (for_each_invariant _ tables_kept); [done|apply tables_kept_trans|].
    intros ???? Hb. by eapply process_cluster_TM_kept.
  - unfold process_clusters in H. revert H.
    apply (for_each_invariant _ tables_kept); [done|apply tables_kept_trans|].
    intros ???? Hb. by eapply account_kept.
Qed.

Lemma frames_loop_kept c cut e fs f_index a n a' :
  Main.frames_loop dbscan c cut e fs f_index a = (n, Ok a') → tables_kept a a'.
Proof.
  revert f_index a. induction fs as [|f fs IH]; intros f_index a H; simpl in H.
  - by injection H as _ <-.
  - destruct (Main.process_frame dbscan c cut e a f_index f) as [a1| |] eqn:E;
      [|done..].
    apply process_frame_kept in E. apply IH in H. by eapply tables_kept_trans.
Qed.

Lemma allocated_kept e a a' key : tables_kept a a' → allocated e a key → allocated e a' key.
Proof.
  intros (H1 & H2 & H3) (A1 & A2 & A3). split; [by apply H1|]. split; [by apply H2|].
  intros g gi Hg Hgi. apply H3. by eapply A3.
Qed.

(** X4: the tables of residue contacts that [struct_proteins] allocates
    hold a matrix for every pair of species, and with groups one for every
    declared group and no other; the frames of a run that ends well change
    no key of them, so that the normalisation of the contacts at the end
    finds every matrix it reads and ends well. *)
Theorem finalisation_finds_its_tables c cut e fs f_index a n a' :
  Struct.struct_proteins e = Ok a →
  Main.frames_loop dbscan c cut e fs f_index a = (n, Ok a') →
  (∀ key, key ∈ Struct.species_pairs (nb_species e) → allocated e a' key) ∧
  groups_bounded e a' ∧
  is_Ok (Stats.normalise_contacts e a').
Proof.
  intros [Halloc Hb]%struct_proteins_tables Hkept%frames_loop_kept.
  assert (∀ key, key ∈ Struct.species_pairs (nb_species e) → allocated e a' key) as H'.
  { intros key Hkey. by eapply allocated_kept, Halloc. }
  split; [exact H'|]. split.
  - intros g k j Hg Hj. apply (Hb g k); [done|]. by apply Hkept.
  - apply for_each_total_in. intros out key Hkey. by apply normalise_pair_total, H'.
Qed.
End Run.

Lemma finalisation_finds_its_tables_witness :
  ∃ a a',
    Struct.struct_proteins Examples.pair_env = Ok a ∧
    Main.frames_loop (λ _, []) Samples.one_species Examples.four_cut Examples.pair_env
      (Main.frames Samples.one_species) 0 a = (1, Ok a') ∧
    allocated Examples.pair_env a' (0, 0) ∧
    is_Ok (Stats.normalise_contacts Examples.pair_env a').
Proof.
  assert ((a ← Struct.struct_proteins Examples.pair_env;
           a' ← (Main.frames_loop (λ _, []) Samples.one_species Examples.four_cut
                   Examples.pair_env (Main.frames Samples.one_species) 0 a).2;
           Ok tt) = Ok tt) as Hrun by (vm_compute; reflexivity).
  apply bind_Ok in Hrun as (a & Ha & Hrun). apply bind_Ok in Hrun as (a' & Ha' & _).
  assert ((Main.frames_loop (λ _, []) Samples.one_species Examples.four_cut
             Examples.pair_env (Main.frames Samples.one_species) 0 a).1 = 1) as Hn.
  { simpl. destruct (Main.process_frame _ _ _ _ _ _ _); reflexivity. }
  assert (Main.frames_loop (λ _, []) Samples.one_species Examples.four_cut
            Examples.pair_env (Main.frames Samples.one_species) 0 a = (1, Ok a')) as Hloop.
  { destruct (Main.frames_loop _ _ _ _ _ _ _) as [n r]. simpl in *. congruence. }
  destruct (finalisation_finds_its_tables (λ _, []) Samples.one_species Examples.four_cut
              Examples.pair_env (Main.frames Samples.one_species) 0 a 1 a' Ha Hloop)
    as (Halloc & _ & Hok).
  exists a, a'. split; [exact Ha|]. split; [exact Hloop|]. split; [|exact Hok].
  apply Halloc. vm_compute. left.
Defined.

End TablesFacts.

Module OtherGroupFacts.
Import Process ProcessWords ProcessFacts NdFacts ContactFacts StatsFacts TablesFacts.

Lemma groups_bounded_kept e a a' :
  tables_kept a a' → groups_bounded e a → groups_bounded e a'.
Proof. intros (_ & _ & H3) Hb g k j Hg Hj. apply (Hb g k); [done|]. by apply H3. Qed.

(** a loop that ended well ran its body on every element *)
Lemma for_each_reaches {A S} (body : S → A → result S) (R : S → S → Prop) xs s s' x :
  (∀ s, R s s) → (∀ s1 s2 s3, R s1 s2 → R s2 s3 → R s1 s3) →
  (∀ s x s', body s x = Ok s' → R s s') →
  for_each body xs s = Ok s' → x ∈ xs →
  ∃ s1 s2, R s s1 ∧ body s1 x = Ok s2.
Proof.
  intros Hrefl Htrans Hbody. revert s. induction xs as [|y xs IH]; intros s H Hx.
  - by apply not_elem_of_nil in Hx.
  - simpl in H. apply bind_Ok in H as (s1 & H1 & H).
    apply elem_of_cons in Hx as [->|Hx].
    + exists s, s1. split; [apply Hrefl|done].
    + destruct (IH _ H Hx) as (t1 & t2 & HR & Ht). exists t1, t2. split; [|done].
      eapply Htrans; [by eapply Hbody|done].
Qed.

Section Frame.
Variable e : env.
Variable fr : frame.
Variable network : Detect.graph.
Variable f_index : nat.
Variable g : Groups.t.
Variable c_size : Z.
Variable g_index : nat.
Hypothesis Hgroups : groups e = Some g.
Hypothesis Hsize : Groups.groups_sizes_dict g !! c_size = Some g_index.
Hypothesis Hother : Groups.groups_number g ≤ g_index.

Lemma first_residue_contacts_other key m zeros a :
  groups_bounded e a → ¬ is_Ok (first_residue_contacts e key c_size m zeros a).
Proof.
  intros Hb [a' Ha']. unfold first_residue_contacts in Ha'.
  apply bind_Ok in Ha' as (r & Hr & H1). apply bind_Ok in H1 as (bs0 & Hbs0 & H1).
  apply bind_Ok in H1 as (bs & Hbs & H1). rewrite Hgroups in H1.
  apply bind_Ok in H1 as (gi & Hgi & H1). apply bind_Ok in H1 as (bg & Hbg & H1).
  unfold group_of in Hgi. apply getitem_Ok in Hgi. rewrite Hsize in Hgi.
  injection Hgi as <-. apply add_mask_at2_Ok in Hbg as (t & t' & Ht & _).
  simpl in Ht. assert (g_index < Groups.groups_number g); [|lia].
  apply (Hb g key); [done|]. by eexists.
Qed.

Lemma treat_pair_other p ps st pp st' :
  groups_bounded e st.1 →
  treat_pair e fr f_index c_size p ps st pp = Ok st' →
  unordered p pp ∈ st.2 ∧ st' = st.
Proof.
  intros Hb H. apply treat_pair_Ok in H as [?|(_ & _ & H)]; [done|].
  destruct H as (pp_s & pp_len & p_len & nbn1 & a1 & a2 & prot1 & nbn2 & prot2 &
                 _ & _ & _ & _ & Ha1 & _).
  exfalso. eapply first_residue_contacts_other; [|by eexists]. exact Hb.
Qed.

Lemma treat_pairs_other p ps l st st' :
  groups_bounded e st.1 →
  for_each (treat_pair e fr f_index c_size p ps) l st = Ok st' →
  st' = st ∧ ∀ pp, pp ∈ l → unordered p pp ∈ st.2.
Proof.
  intros Hb. induction l as [|pp l IH]; intros H.
  - injection H as <-. split; [done|]. intros ? Hin. by apply not_elem_of_nil in Hin.
  - simpl in H. apply bind_Ok in H as (st1 & H1 & H).
    apply treat_pair_other in H1 as [Hin ->]; [|done].
    destruct (IH H) as [-> Hl]. split; [done|].
    intros q [->|Hq]%elem_of_cons; auto.
Qed.

Lemma treat_protein_other wl st p st' :
  groups_bounded e st.1.1 →
  treat_protein e fr network f_index wl c_size st p = Ok st' →
  groups_bounded e st'.1.1 ∧ st'.1.2 = st.1.2 ∧
  ∀ pp, pp ∈ Detect.neighbors network p → unordered p pp ∈ st.1.2.
Proof.
  unfold treat_protein. intros Hb H.
  apply bind_Ok in H as (ps & _ & H). apply bind_Ok in H as (pl & _ & H).
  apply bind_Ok in H as (a1 & Ha1 & H). apply bind_Ok in H as (comp & _ & H).
  apply bind_Ok in H as (st1 & Hst1 & H). injection H as <-. simpl.
  assert (groups_bounded e a1) as Hb1.
  { destruct wl; [|by injection Ha1 as <-].
    eapply groups_bounded_kept; [|exact Hb]. by eapply treat_lipids_kept. }
  apply treat_pairs_other in Hst1 as [-> Hin]; [|done]. done.
Qed.

Lemma treat_proteins_other wl cluster st st' :
  groups_bounded e st.1.1 →
  for_each (treat_protein e fr network f_index wl c_size) cluster st = Ok st' →
  ∀ p pp, p ∈ cluster → pp ∈ Detect.neighbors network p → unordered p pp ∈ st.1.2.
Proof.
  revert st. induction cluster as [|q cluster IH]; intros st Hb H p pp Hp Hpp.
  - by apply not_elem_of_nil in Hp.
  - simpl in H. apply bind_Ok in H as (st1 & H1 & H).
    apply treat_protein_other in H1 as (Hb1 & Ht & Hin); [|done].
    apply elem_of_cons in Hp as [->|Hp]; [by apply Hin|].
    rewrite <- Ht. by eapply IH.
Qed.
End Frame.

Section Cluster.
Variable e : env.
Variable fr : frame.
Variable network : Detect.graph.
Variable f_index : nat.

Lemma account_other wl cluster g g_index a p pp :
  groups e = Some g →
  Groups.groups_sizes_dict g !! Z.of_nat (length cluster) = Some g_index →
  Groups.groups_number g ≤ g_index →
  groups_bounded e a →
  p ∈ cluster → pp ∈ Detect.neighbors network p →
  ¬ is_Ok (account e fr network f_index wl cluster a).
Proof.
  intros Hg Hsize Hother Hb Hp Hpp [a' H]. unfold account in H.
  apply bind_Ok in H as (a1 & Ha1 & H). apply bind_Ok in H as (st & Hst & _).
  apply store_size_kept in Ha1.
  eapply (treat_proteins_other e fr network f_index g _ g_index Hg Hsize Hother)
    in Hst; [| |exact Hp|exact Hpp].
  - simpl in Hst. by apply not_elem_of_nil in Hst.
  - simpl. by eapply groups_bounded_kept.
Qed.

(** X5: with groups of sizes, the matrices of residue contacts by group
    exist for the declared groups only; the treatment of the clusters of a
    frame does not end well when one of them, of a size that the dictionary
    of sizes sends to the group "other" (an index from [groups_number]
    on), holds a protein with a neighbour. *)
Theorem other_group_cluster_halts g g_index a cluster p pp :
  groups e = Some g →
  groups_bounded e a →
  cluster ∈ Detect.sorted (Detect.connected_components network) →
  Groups.groups_sizes_dict g !! Z.of_nat (length cluster) = Some g_index →
  Groups.groups_number g ≤ g_index →
  p ∈ cluster → pp ∈ Detect.neighbors network p →
  ¬ is_Ok (process_clusters e fr network f_index a).
Proof.
  intros Hg Hb Hc Hsize Hother Hp Hpp [a' H]. unfold process_clusters in H.
  eapply (for_each_reaches _ tables_kept) in H as (a1 & a2 & Hk & Ha);
    [|done|apply tables_kept_trans| |exact Hc].
  - eapply account_other; [exact Hg|exact Hsize|exact Hother| |exact Hp|exact Hpp|by eexists].
    by eapply groups_bounded_kept.
  - intros ??? Hacc. by eapply account_kept.
Qed.
End Cluster.

Lemma other_group_cluster_halts_witness :
  ∃ a, Struct.struct_proteins Samples.other_env = Ok a ∧
       ¬ is_Ok (process_clusters Samples.other_env Examples.pair_frame Examples.both 0 a).
Proof.
  assert ((a ← Struct.struct_proteins Samples.other_env; Ok tt) = Ok tt) as Hrun
      by (vm_compute; reflexivity).
  apply bind_Ok in Hrun as (a & Ha & _). exists a. split; [exact Ha|].
  apply (other_group_cluster_halts Samples.other_env Examples.pair_frame Examples.both 0
           {| Groups.groups_number := 1;
              Groups.groups_boundaries := [(1, 1)%Z];
              Groups.groups_sizes_dict := {[ 1%Z := 0; 2%Z := 1 ]} |}
           1 a [0; 1] 0 1).
  - reflexivity.
  - by apply struct_proteins_tables.
  - vm_compute. left.
  - vm_compute. reflexivity.
  - simpl. lia.
  - left.
  - vm_compute. right. left.
Defined.

End OtherGroupFacts.

Module SummaryFacts.
Import Process Summary SummaryWords ProcessFacts NdFacts StatsFacts TablesFacts StatsWords.

(** *** One entry *)

Lemma set_at_Ok {A} (d : gmap Z (Nd.t A)) k f v d' :
  set_at d k f v = Ok d' →
  entry d' k f = Some v ∧
  ∀ k' f', k' ≠ k ∨ f' ≠ f → entry d' k' f' = entry d k' f'.
Proof.
  unfold set_at. intros H. apply bind_Ok in H as (arr & Harr & H).
  apply bind_Ok in H as (arr' & Harr' & H). injection H as <-.
  apply getitem_Ok in Harr. apply set_Ok in Harr' as (Hin & Hsh & Hv & Hother).
  unfold entry. split.
  - rewrite lookup_insert_eq.
    change ((if Nd.inb [f] (Nd.shape arr') then Some (Nd.item arr' [f]) else None)
            = Some v).
    by rewrite Hsh, Hin, Hv.
  - intros k' f' Hne. destruct (decide (k' = k)) as [->|Hk].
    + rewrite lookup_insert_eq, Harr.
      change ((if Nd.inb [f'] (Nd.shape arr') then Some (Nd.item arr' [f']) else None)
              = (if Nd.inb [f'] (Nd.shape arr) then Some (Nd.item arr [f']) else None)).
      rewrite Hsh, Hother; [done|].
      intros [= ->]. by destruct Hne.
    + by rewrite lookup_insert_ne.
Qed.

Lemma add_at_entries {A} (plus : A → A → A) (d : gmap Z (Nd.t A)) k f v d' :
  add_at plus d k f v = Ok d' →
  ∀ k' f', k' ≠ k ∨ f' ≠ f → entry d' k' f' = entry d k' f'.
Proof.
  unfold add_at. intros H. apply bind_Ok in H as (arr & Harr & H).
  apply bind_Ok in H as (x & Hx & H).
  assert (set_at d k f (plus x v) = Ok d') as Hset.
  { unfold set_at. by rewrite Harr. }
  by apply set_at_Ok in Hset as [_ ?].
Qed.

Lemma py_int_div (a s : Z) : s ≠ 0%Z → py_int (inject_Z a / inject_Z s) = Z.quot a s.
Proof.
  intros Hs. unfold py_int, Qdiv, Qinv, inject_Z. simpl.
  destruct s as [|p|p]; [done| |]; simpl.
  - by rewrite Z.mul_1_r.
  - rewrite <- (Z.quot_opp_opp a (Z.neg p)) by done. f_equal. lia.
Qed.

Lemma divide_Ok x y q : Stats.divide x y = Ok q → ¬ (y == 0)%Q ∧ q = (x / y)%Q.
Proof.
  unfold Stats.divide. destruct (Qeq_bool y 0) eqn:E; [done|]. intros [= <-].
  split; [|done]. by apply Qeq_bool_neq.
Qed.

Lemma row_Ok a f ts :
  row a f = Ok ts →
  ∃ frames proteins, Nd.shape (proteins_size a) = [frames; proteins] ∧
                     f < frames ∧ ts = sizes_of a f proteins.
Proof.
  unfold row. destruct (Nd.shape (proteins_size a)) as [|frames [|proteins [|]]]; try done.
  destruct (f <? frames) eqn:E; [|done]. intros [= <-].
  exists frames, proteins. apply Nat.ltb_lt in E. done.
Qed.

(** *** The loop over the sizes *)

Section Sizes.
Variable e : env.
Variable tmp_sizes : list Z.
Variable f_index : nat.

Local Abbreviation number := (SummaryWords.number tmp_sizes).
Local Abbreviation share := (SummaryWords.share (nb_proteins e) tmp_sizes).

Local Abbreviation others_kept := (SummaryWords.others_kept f_index).

Lemma size_step_Ok st c_size st' :
  size_step e tmp_sizes f_index st c_size = Ok st' →
  nb_proteins e ≠ 0 ∧ (counted c_size = true → c_size ≠ 0%Z) ∧
  set_at (clusters_nb st.1) c_size f_index (number c_size) = Ok (clusters_nb st'.1) ∧
  set_at (clusters_pc st.1) c_size f_index (share c_size) = Ok (clusters_pc st'.1) ∧
  clusters_biggest st'.1 = clusters_biggest st.1 ∧
  clusters_mostrep st'.1 = clusters_mostrep st.1 ∧
  st'.2 =
    (let r := st.2 in
     let r := if (0 <? number c_size)%Z && (tmp_max_size r <? c_size)%Z && counted c_size
              then {| tmp_max_nb := number c_size; tmp_max_pc := share c_size;
                      tmp_max_size := c_size;
                      tmp_mostrep_nb := tmp_mostrep_nb r;
                      tmp_mostrep_pc := tmp_mostrep_pc r;
                      tmp_mostrep_size := tmp_mostrep_size r |}
              else r in
     if (0 <? number c_size)%Z && gt (share c_size) (tmp_mostrep_pc r) && counted c_size
     then {| tmp_max_nb := tmp_max_nb r; tmp_max_pc := tmp_max_pc r;
             tmp_max_size := tmp_max_size r;
             tmp_mostrep_nb := number c_size; tmp_mostrep_pc := share c_size;
             tmp_mostrep_size := c_size |}
     else r).
Proof.
  unfold size_step. intros H.
  apply bind_Ok in H as (x & [Hnp ->]%divide_Ok & H).
  apply bind_Ok in H as (tmp_nb & Hnb & H).
  assert ((counted c_size = true → c_size ≠ 0%Z) ∧ tmp_nb = number c_size) as [Hc ->].
  { unfold SummaryWords.number. destruct (counted c_size).
    - apply bind_Ok in Hnb as (y & [Hy ->]%divide_Ok & Hnb). injection Hnb as <-.
      assert (c_size ≠ 0%Z) as Hne by (by intros ->).
      split; [done|]. by apply py_int_div.
    - injection Hnb as <-. done. }
  apply bind_Ok in H as (nbs & Hnbs & H). apply bind_Ok in H as (pcs & Hpcs & H).
  split.
  { intros E. apply Hnp. unfold Stats.of_nat. by rewrite E. }
  split; [done|].
  destruct (groups e) as [g|]; [destruct (counted c_size) eqn:Ec|].
  - apply bind_Ok in H as (gi & _ & H). apply bind_Ok in H as (nbg & _ & H).
    apply bind_Ok in H as (pcg & _ & H). injection H as <-. done.
  - injection H as <-. done.
  - injection H as <-. done.
Qed.

Lemma size_step_kept st c_size st' :
  size_step e tmp_sizes f_index st c_size = Ok st' → others_kept st.1 st'.1.
Proof.
  intros (_ & _ & Hnb & Hpc & Hb & Hm & _)%size_step_Ok.
  apply set_at_Ok in Hnb as [_ Hnb]. apply set_at_Ok in Hpc as [_ Hpc].
  split; [|split; [|done]].
  - intros k f' Hf. apply Hnb. by right.
  - intros k f' Hf. apply Hpc. by right.
Qed.

Lemma others_kept_trans t1 t2 t3 : others_kept t1 t2 → others_kept t2 t3 → others_kept t1 t3.
Proof.
  intros (A1 & A2 & A3 & A4) (B1 & B2 & B3 & B4). split; [|split; [|split]].
  - intros k f' Hf. by rewrite B1, A1.
  - intros k f' Hf. by rewrite B2, A2.
  - congruence.
  - congruence.
Qed.

Lemma sizes_loop_kept l st st' :
  for_each (size_step e tmp_sizes f_index) l st = Ok st' → others_kept st.1 st'.1.
Proof.
  apply (for_each_invariant _ (λ s s', others_kept s.1 s'.1)).
  - done.
  - intros ???. apply others_kept_trans.
  - intros ???? Hb. by eapply size_step_kept.
Qed.

(** the entries of the frame under the sizes gone through *)
Lemma sizes_loop_entries l st st' :
  for_each (size_step e tmp_sizes f_index) l st = Ok st' →
  (l ≠ [] → nb_proteins e ≠ 0) ∧
  ∀ c_size, c_size ∈ l →
    (counted c_size = true → c_size ≠ 0%Z) ∧
    entry (clusters_nb st'.1) c_size f_index = Some (number c_size) ∧
    entry (clusters_pc st'.1) c_size f_index = Some (share c_size).
Proof.
  revert st. induction l as [|c l IH]; intros st H.
  - split; [done|]. intros ? Hin. by apply not_elem_of_nil in Hin.
  - simpl in H. apply bind_Ok in H as (st1 & H1 & H).
    apply size_step_Ok in H1 as (Hnp & Hc & Hnb & Hpc & _).
    destruct (IH _ H) as [_ Hl]. split; [done|].
    intros c' Hc'. destruct (decide (c' ∈ l)) as [Hin|Hout]; [by apply Hl|].
    apply elem_of_cons in Hc' as [->|?]; [|done]. split; [done|].
    apply set_at_Ok in Hnb as [Hnb _]. apply set_at_Ok in Hpc as [Hpc _].
    clear IH Hl. revert st1 H Hnb Hpc. induction l as [|d l IH]; intros st1 H Hnb Hpc.
    + by injection H as <-.
    + simpl in H. apply bind_Ok in H as (st2 & H2 & H).
      apply not_elem_of_cons in Hout as [Hne Hout].
      apply size_step_Ok in H2 as (_ & _ & Hnb2 & Hpc2 & _).
      apply set_at_Ok in Hnb2 as [_ Hnb2]. apply set_at_Ok in Hpc2 as [_ Hpc2].
      apply (IH Hout st2 H).
      * rewrite Hnb2; [done|by left].
      * rewrite Hpc2; [done|by left].
Qed.

Lemma count_nonneg c : (0 ≤ count tmp_sizes c)%Z.
Proof. unfold count. lia. Qed.

Lemma present_positive c :
  present tmp_sizes c → (0 < c)%Z ∧ (0 < count tmp_sizes c)%Z.
Proof.
  intros [Hn Hc]. unfold SummaryWords.number in Hn. rewrite Hc in Hn.
  pose proof (count_nonneg c) as H0.
  destruct (decide (0 < c)%Z) as [Hpos|Hneg].
  - split; [done|]. destruct (decide (count tmp_sizes c = 0%Z)) as [E|]; [|lia].
    rewrite E in Hn. by rewrite Z.quot_0_l in Hn by lia.
  - exfalso. destruct (decide (c = 0%Z)) as [->|Hne].
    + assert (∀ x, x ÷ 0 = 0)%Z as Hq by (by intros []). rewrite Hq in Hn. lia.
    + assert (count tmp_sizes c ÷ c = - (count tmp_sizes c ÷ - c))%Z as Hq.
      { rewrite <- (Z.quot_opp_r _ (- c)) by lia. by rewrite Z.opp_involutive. }
      assert (0 ≤ count tmp_sizes c ÷ - c)%Z; [|lia].
      apply Z.quot_pos; lia.
Qed.

Lemma share_positive c :
  nb_proteins e ≠ 0 → (0 < count tmp_sizes c)%Z → (0 < share c)%Q.
Proof.
  intros Hnp Hc. unfold SummaryWords.share.
  apply Qmult_lt_0_compat; [|done]. apply Qlt_shift_div_l.
  - unfold Stats.of_nat. change 0%Q with (inject_Z 0). rewrite <- Zlt_Qlt. lia.
  - rewrite Qmult_0_l. change 0%Q with (inject_Z 0). by rewrite <- Zlt_Qlt.
Qed.

Lemma gt_spec x y : gt x y = true ↔ (y < x)%Q.
Proof.
  unfold gt. rewrite negb_true_iff. split.
  - intros H. apply Qnot_le_lt. intros Hle. apply Qle_bool_iff in Hle. congruence.
  - intros H. destruct (Qle_bool x y) eqn:E; [|done].
    apply Qle_bool_iff in E. by apply Qle_not_lt in E.
Qed.

(** the search of the biggest and of the most represented size *)
Lemma size_step_running pre st c_size st' :
  size_step e tmp_sizes f_index st c_size = Ok st' →
  biggest_among (nb_proteins e) tmp_sizes pre st.2 →
  mostrep_among (nb_proteins e) tmp_sizes pre st.2 →
  biggest_among (nb_proteins e) tmp_sizes (pre ++ [c_size]) st'.2 ∧
  mostrep_among (nb_proteins e) tmp_sizes (pre ++ [c_size]) st'.2.
Proof.
  intros (Hnp & _ & _ & _ & _ & _ & ->)%size_step_Ok Hbig Hrep.
  destruct st as [t r]. simpl in *.
  assert (((0 <? number c_size)%Z && counted c_size = true) ↔ present tmp_sizes c_size)
    as Hpresent.
  { unfold present. rewrite andb_true_iff, Z.ltb_lt. done. }
  split.
  - (* the biggest *)
    set (r1 := if (0 <? number c_size)%Z && (tmp_max_size r <? c_size)%Z
                  && counted c_size
               then _ else r).
    assert (biggest_among (nb_proteins e) tmp_sizes (pre ++ [c_size]) r1) as H1.
    { unfold r1.
      destruct ((0 <? number c_size)%Z && (tmp_max_size r <? c_size)%Z
                && counted c_size) eqn:Econd.
      - apply andb_true_iff in Econd as [[En Elt]%andb_true_iff Ec].
        apply Z.ltb_lt in En. apply Z.ltb_lt in Elt.
        right. simpl. split; [apply elem_of_app; right; left|].
        split; [done|]. split; [done|]. split; [done|].
        intros c [Hc| ->%list_elem_of_singleton]%elem_of_app Hp; [|lia].
        destruct Hbig as [(_ & _ & _ & Hnone)|(_ & _ & _ & _ & Hle)].
        + by destruct (Hnone c Hc).
        + specialize (Hle c Hc Hp). lia.
      - assert (present tmp_sizes c_size → (c_size ≤ tmp_max_size r)%Z) as Hle'.
        { intros [Hn Hcd]. rewrite Hcd, andb_true_r in Econd.
          apply andb_false_iff in Econd as [En|Elt].
          - apply Z.ltb_ge in En. lia.
          - by apply Z.ltb_ge in Elt. }
        destruct Hbig as [(E0 & ? & ? & Hnone)|(Hin & ? & ? & ? & Hle)].
        + left. do 3 (split; [done|]).
          intros c [Hc| ->%list_elem_of_singleton]%elem_of_app Hp; [by apply (Hnone c)|].
          pose proof (present_positive _ Hp) as [? _]. specialize (Hle' Hp). lia.
        + right. split; [apply elem_of_app; by left|]. do 3 (split; [done|]).
          intros c [Hc| ->%list_elem_of_singleton]%elem_of_app Hp; [by apply Hle|auto]. }
    clearbody r1.
    by destruct ((0 <? number c_size)%Z && gt (share c_size) (tmp_mostrep_pc r1)
                 && counted c_size).
  - (* the most represented *)
    set (r1 := if (0 <? number c_size)%Z && (tmp_max_size r <? c_size)%Z
                  && counted c_size
               then _ else r).
    assert (tmp_mostrep_nb r1 = tmp_mostrep_nb r ∧ tmp_mostrep_pc r1 = tmp_mostrep_pc r
            ∧ tmp_mostrep_size r1 = tmp_mostrep_size r) as (E1 & E2 & E3).
    { unfold r1. by destruct (_ && _ && _). }
    rewrite E2. clearbody r1.
    destruct ((0 <? number c_size)%Z && gt (share c_size) (tmp_mostrep_pc r)
              && counted c_size) eqn:Econd.
    + apply andb_true_iff in Econd as [[En Egt]%andb_true_iff Ec].
      apply Z.ltb_lt in En. apply gt_spec in Egt.
      right. simpl. split; [apply elem_of_app; right; left|].
      split; [done|]. split; [done|]. split; [done|].
      intros c [Hc| ->%list_elem_of_singleton]%elem_of_app Hp; [|apply Qle_refl].
      destruct Hrep as [(_ & _ & _ & Hnone)|(_ & _ & _ & Hpc & Hle)].
      * by destruct (Hnone c Hc).
      * apply Qlt_le_weak. eapply Qle_lt_trans; [by apply Hle|done].
    + unfold mostrep_among. rewrite E1, E2, E3.
      destruct Hrep as [(E0 & ? & Hpc & Hnone)|(Hin & ? & ? & Hpc & Hle)].
      * left. do 3 (split; [done|]).
        intros c [Hc| ->%list_elem_of_singleton]%elem_of_app Hp; [by apply (Hnone c)|].
        pose proof (present_positive _ Hp) as [_ Hcount].
        pose proof (share_positive c_size Hnp Hcount) as Hpos.
        destruct Hp as [Hn Hcd]. rewrite Hcd, andb_true_r in Econd.
        apply andb_false_iff in Econd as [En|Egt].
        -- apply Z.ltb_ge in En. lia.
        -- rewrite Hpc in Egt. apply (proj2 (gt_spec _ _)) in Hpos. congruence.
      * right. split; [apply elem_of_app; by left|]. do 3 (split; [done|]).
        intros c [Hc| ->%list_elem_of_singleton]%elem_of_app Hp; [by apply Hle|].
        destruct Hp as [Hn Hcd]. rewrite Hcd, andb_true_r in Econd.
        apply andb_false_iff in Econd as [En|Egt].
        -- apply Z.ltb_ge in En. lia.
        -- apply Qnot_lt_le. intros Hlt. apply (proj2 (gt_spec _ _)) in Hlt. congruence.
Qed.

Lemma sizes_loop_running pre l st st' :
  for_each (size_step e tmp_sizes f_index) l st = Ok st' →
  biggest_among (nb_proteins e) tmp_sizes pre st.2 →
  mostrep_among (nb_proteins e) tmp_sizes pre st.2 →
  biggest_among (nb_proteins e) tmp_sizes (pre ++ l) st'.2 ∧
  mostrep_among (nb_proteins e) tmp_sizes (pre ++ l) st'.2.
Proof.
  revert pre st. induction l as [|c l IH]; intros pre st H Hbig Hrep.
  - injection H as <-. by rewrite app_nil_r.
  - simpl in H. apply bind_Ok in H as (st1 & H1 & H).
    destruct (size_step_running pre _ _ _ H1 Hbig Hrep) as [Hbig1 Hrep1].
    rewrite (cons_middle c pre l), app_assoc. by apply (IH _ st1).
Qed.
End Sizes.

(** *** The loop over the frames *)

Lemma get_set_Ok {A} (arr arr' : Nd.t A) f v :
  Nd.set arr [f] v = Ok arr' →
  Nd.get arr' [f] = Ok v ∧
  ∀ f' x, f' ≠ f → Nd.get arr [f'] = Ok x → Nd.get arr' [f'] = Ok x.
Proof.
  intros (Hin & Hsh & Hv & Hother)%set_Ok. unfold Nd.get. rewrite Hsh, Hin, Hv.
  split; [done|]. intros f' x Hne. rewrite Hother; [done|]. by intros [= ->].
Qed.

Lemma store_best_Ok b f v_nb v_pc v_size b' :
  store_best b f v_nb v_pc v_size = Ok b' →
  stored b' f v_nb v_pc v_size ∧
  ∀ f' x y z, f' ≠ f → stored b f' x y z → stored b' f' x y z.
Proof.
  unfold store_best. intros H. apply bind_Ok in H as (nbs & [H1 K1]%get_set_Ok & H).
  apply bind_Ok in H as (pcs & [H2 K2]%get_set_Ok & H).
  apply bind_Ok in H as (sizes & [H3 K3]%get_set_Ok & H). injection H as <-.
  split; [done|]. intros f' x y z Hne (? & ? & ?). unfold stored. simpl. auto.
Qed.

(** what a loop wrote for an element stays when every step keeps it *)
Lemma for_each_written {X S} `{EqDecision X} (body : S → X → result S)
    (P : X → S → Prop) xs s s' :
  (∀ s x s', body s x = Ok s' → P x s') →
  (∀ s x y s', x ≠ y → body s y = Ok s' → P x s → P x s') →
  for_each body xs s = Ok s' → ∀ x, x ∈ xs → P x s'.
Proof.
  intros Hown Hkeep. revert s. induction xs as [|y xs IH]; intros s H x Hx.
  - by apply not_elem_of_nil in Hx.
  - simpl in H. apply bind_Ok in H as (s1 & H1 & H).
    destruct (decide (x ∈ xs)) as [Hin|Hout]; [by eapply IH|].
    apply elem_of_cons in Hx as [->|?]; [|done].
    apply Hown in H1. clear IH. revert s1 H H1.
    induction xs as [|z xs IH]; intros s1 H H1.
    + by injection H as <-.
    + simpl in H. apply bind_Ok in H as (s2 & H2 & H).
      apply not_elem_of_cons in Hout as [Hne Hout].
      apply (IH Hout s2 H). by eapply Hkeep.
Qed.

Section Frames.
Variable e : env.
Variable a : acc.

Lemma frame_step_Ok t f t' :
  frame_step e a t f = Ok t' →
  frame_done e a f t' ∧ ∀ f', f' ≠ f → frame_done e a f' t → frame_done e a f' t'.
Proof.
  unfold frame_step. intros H. apply bind_Ok in H as (ts & Hrow & H).
  apply bind_Ok in H as (st & Hst & H). apply bind_Ok in H as (big & Hbig & H).
  apply bind_Ok in H as (rep & Hrep & H). injection H as <-.
  pose proof (sizes_loop_kept _ _ _ _ _ _ Hst) as (Knb & Kpc & Kbig & Krep).
  pose proof (sizes_loop_entries _ _ _ _ _ _ Hst) as [_ Hentries].
  apply (sizes_loop_running _ _ _ []) in Hst as [Rbig Rrep]; simpl in *.
  2: { left. repeat split; try reflexivity. intros ? Hin. by apply not_elem_of_nil in Hin. }
  2: { left. repeat split; try reflexivity. intros ? Hin. by apply not_elem_of_nil in Hin. }
  apply store_best_Ok in Hbig as [Hbig Obig]. apply store_best_Ok in Hrep as [Hrep Orep].
  split.
  - exists ts, st.2. done.
  - intros f' Hne (ts' & r' & Hrow' & He' & Hb' & Hr' & Sb' & Sr').
    exists ts', r'. split; [done|]. split; [|split; [done|split; [done|split]]].
    + intros c Hc. destruct (He' c Hc) as (? & ? & ?). simpl.
      rewrite Knb, Kpc by done. done.
    + simpl. apply Obig; [done|]. by rewrite Kbig.
    + simpl. apply Orep; [done|]. by rewrite Krep.
Qed.

Lemma frames_loop_done fs t t' :
  for_each (frame_step e a) fs t = Ok t' → ∀ f, f ∈ fs → frame_done e a f t'.
Proof.
  apply (for_each_written _ (λ f t, frame_done e a f t)).
  - intros ??? H. by apply frame_step_Ok in H as [? _].
  - intros ???? Hne H. apply frame_step_Ok in H as [_ H]. by apply H.
Qed.

Lemma frames_statistics_done t f :
  frames_statistics e a = Ok t → f < nb_frames_to_process e → frame_done e a f t.
Proof.
  intros H Hf. eapply frames_loop_done; [exact H|]. apply elem_of_seq. lia.
Qed.
End Frames.

End SummaryFacts.

Module FrameFacts.
Import Process Summary SummaryWords ProcessFacts NdFacts StatsFacts TablesFacts StatsWords.
Import SummaryFacts.

(** *** Counting *)

Lemma elem_of_indices idx sh : idx ∈ Nd.indices sh ↔ Forall2 lt idx sh.
Proof.
  revert idx. induction sh as [|n sh IH]; intros idx; simpl.
  - rewrite list_elem_of_singleton. split; [intros ->; constructor|by inversion 1].
  - rewrite list_elem_of_bind. split.
    + intros (i & Hidx & Hi). apply list_elem_of_fmap in Hidx as (idx' & -> & Hidx').
      apply elem_of_seq in Hi. constructor; [lia|by apply IH].
    + inversion 1 as [|i ? idx' ? Hi Hrest]; subst. exists i. split.
      * apply list_elem_of_fmap. exists idx'. split; [done|by apply IH].
      * apply elem_of_seq. lia.
Qed.

(** the sizes of a frame are among the sizes sampled *)
Lemma sizes_sampled a f frames proteins x :
  Nd.shape (proteins_size a) = [frames; proteins] → f < frames →
  x ∈ sizes_of a f proteins → x ∈ Stats.cluster_sizes_sampled a.
Proof.
  intros Hsh Hf Hx. unfold sizes_of in Hx.
  apply list_elem_of_fmap in Hx as (p & -> & Hp). apply elem_of_seq in Hp.
  unfold Stats.cluster_sizes_sampled. apply elem_of_np_unique.
  unfold Stats.values. apply list_elem_of_fmap. exists [f; p]. split; [done|].
  rewrite Hsh. apply elem_of_indices. repeat constructor; lia.
Qed.

(** each element counted under its own value *)
Lemma count_total (ts l : list Z) :
  NoDup l → (∀ x, x ∈ ts → x ∈ l) →
  sum_list ((λ c, length (filter (λ x, x = c) ts)) <$> l) = length ts.
Proof.
  intros Hnd. induction ts as [|x ts IH]; intros Hin.
  - exact (SumFacts.sum_list_zero l).
  - change (length (x :: ts)) with (S (length ts)).
    rewrite <- IH by (intros y Hy; apply Hin; by right). clear IH.
    assert (x ∈ l) as Hx by (apply Hin; left). clear Hin.
    induction Hnd as [|c l Hc Hnd IH]; [by apply not_elem_of_nil in Hx|].
    rewrite !fmap_cons.
    change (length (filter (λ y, y = c) (x :: ts))
            + sum_list ((λ c, length (filter (λ y, y = c) (x :: ts))) <$> l)
            = S (length (filter (λ y, y = c) ts)
                 + sum_list ((λ c, length (filter (λ y, y = c) ts)) <$> l)))%nat.
    rewrite filter_cons. destruct (decide (x = c)) as [->|Hne].
    + simpl. f_equal. f_equal. clear IH Hx Hnd.
      induction l as [|d l IH]; [done|]. apply not_elem_of_cons in Hc as [Hd Hc].
      rewrite !fmap_cons.
      change (length (filter (λ y, y = d) (c :: ts))
              + sum_list ((λ c0, length (filter (λ y, y = c0) (c :: ts))) <$> l)
              = length (filter (λ y, y = d) ts)
                + sum_list ((λ c0, length (filter (λ y, y = c0) ts)) <$> l))%nat.
      rewrite filter_cons, decide_False by done. by rewrite IH.
    + apply elem_of_cons in Hx as [?|Hx]; [done|]. rewrite IH by done. lia.
Qed.

Lemma share_total proteins ts l :
  NoDup l → (∀ x, x ∈ ts → x ∈ l) →
  (qtotal (share proteins ts <$> l)
   == Stats.of_nat (length ts) / Stats.of_nat proteins * 100)%Q.
Proof.
  intros Hnd Hin. unfold qtotal, share.
  rewrite (qsum_scaled_list (λ c, inject_Z (count ts c)) (Stats.of_nat proteins) l).
  unfold count.
  rewrite (qsum_to_float_list (λ c, length (filter (λ x, x = c) ts)) l).
  by rewrite count_total.
Qed.

(** X6: in the statistics of a frame the percentages of the proteins under
    the sizes sampled add up to 100: every protein of the frame has one of
    these sizes, and is counted under it alone. *)
Theorem frame_percentages_add_up_to_100 (e : env) (a : acc) (t : tables) (f_index : nat) :
  frames_statistics e a = Ok t →
  f_index < nb_frames_to_process e →
  Nd.shape (proteins_size a) = [nb_frames_to_process e; nb_proteins e] →
  0 < nb_proteins e →
  ∃ pcs, Forall2 (λ c_size v, entry (clusters_pc t) c_size f_index = Some v)
                 (Stats.cluster_sizes_sampled a) pcs ∧
         (qtotal pcs == 100)%Q.
Proof.
  intros Hrun Hf Hsh Hnp.
  destruct (frames_statistics_done e a t f_index Hrun Hf)
    as (ts & r & Hrow & Hentries & _).
  apply row_Ok in Hrow as (frames & proteins & Hsh' & Hf' & ->).
  rewrite Hsh in Hsh'. injection Hsh' as <- <-.
  exists (share (nb_proteins e) (sizes_of a f_index (nb_proteins e))
            <$> Stats.cluster_sizes_sampled a).
  split.
  - apply Forall2_fmap_r, Forall_Forall2_diag, Forall_forall.
    intros c Hc. by destruct (Hentries c Hc) as (_ & _ & ?).
  - rewrite share_total.
    + unfold sizes_of. rewrite length_fmap, length_seq.
      assert (¬ (Stats.of_nat (nb_proteins e) == 0)%Q) as Hne.
      { unfold Stats.of_nat. change 0%Q with (inject_Z 0). rewrite inject_Z_injective. lia. }
      field. exact Hne.
    + apply NoDup_np_unique.
    + intros x Hx. by eapply sizes_sampled.
Qed.

(** *** The clusters behind the sizes *)

Lemma count_constant {A} (g : A → Z) (cl : list A) (v c : Z) :
  (∀ p, p ∈ cl → g p = v) →
  length (filter (λ x, x = c) (g <$> cl)) = if decide (v = c) then length cl else 0.
Proof.
  induction cl as [|p cl IH]; intros Hg; [by destruct (decide _)|].
  specialize (IH (λ q Hq, Hg q (list_elem_of_further _ _ _ Hq))).
  rewrite fmap_cons, filter_cons, (Hg p) by left.
  destruct (decide (v = c)); simpl; by rewrite IH.
Qed.

Lemma count_clusters (g : nat → Z) (cs : list (list nat)) (c : Z) :
  (∀ cl p, cl ∈ cs → p ∈ cl → g p = Z.of_nat (length cl)) →
  Z.of_nat (length (filter (λ x, x = c) (g <$> mjoin cs)))
  = (c * Z.of_nat (length (of_size cs c)))%Z.
Proof.
  induction cs as [|cl cs IH]; intros Hg; [simpl; lia|].
  change (mjoin (cl :: cs)) with (cl ++ mjoin cs).
  rewrite fmap_app, filter_app, length_app, Nat2Z.inj_add.
  rewrite IH by (intros cl' p Hcl'; apply Hg; by right).
  rewrite (count_constant g cl (Z.of_nat (length cl))) by (intros p Hp; apply Hg; [left|done]).
  unfold of_size. rewrite filter_cons.
  destruct (decide (Z.of_nat (length cl) = c)) as [<-|Hne]; simpl; lia.
Qed.

Section Clusters.
Variable a : acc.
Variable f_index proteins : nat.
Variable cs : list (list nat).
Hypothesis Hsized : sized_by a f_index proteins cs.

Local Abbreviation tmp_sizes := (sizes_of a f_index proteins).

Lemma count_sized c :
  count tmp_sizes c = (c * Z.of_nat (length (of_size cs c)))%Z.
Proof.
  destruct Hsized as [Hperm Hg]. unfold count, sizes_of. rewrite <- Hperm.
  by apply (count_clusters (λ p, Nd.item (proteins_size a) [f_index; p])).
Qed.

Lemma number_sized c :
  counted c = true → c ≠ 0%Z →
  number tmp_sizes c = Z.of_nat (length (of_size cs c)).
Proof.
  intros Hc Hne. unfold number. rewrite Hc, count_sized, Z.mul_comm.
  by apply Z.quot_mul.
Qed.

Lemma cluster_bounded cl : cl ∈ cs → length cl ≤ proteins.
Proof.
  intros Hcl. destruct Hsized as [Hperm _].
  assert (length (mjoin cs) = proteins) as <- by (by rewrite Hperm, length_seq).
  apply list_elem_of_split in Hcl as (l1 & l2 & ->).
  rewrite join_app, length_app. simpl. rewrite length_app. lia.
Qed.

Lemma present_cluster c :
  present tmp_sizes c → ∃ cl, cl ∈ cs ∧ Z.of_nat (length cl) = c.
Proof.
  intros Hp. pose proof (present_positive _ _ Hp) as [Hc Hcount].
  rewrite count_sized in Hcount.
  destruct (of_size cs c) as [|cl l] eqn:E; [simpl in Hcount; lia|].
  assert (cl ∈ of_size cs c) as Hin by (rewrite E; left).
  apply list_elem_of_filter in Hin as [? ?]. by exists cl.
Qed.

Lemma cluster_present cl :
  (Z.of_nat proteins < 99999)%Z → cl ∈ cs → cl ≠ [] → present tmp_sizes (Z.of_nat (length cl)).
Proof.
  intros Hsmall Hcl Hne. pose proof (cluster_bounded cl Hcl) as Hle.
  assert (0 < length cl) as Hpos by (destruct cl; [done|simpl; lia]).
  assert (counted (Z.of_nat (length cl)) = true) as Hc.
  { unfold counted. apply andb_true_iff. rewrite !negb_true_iff, !Z.eqb_neq. lia. }
  split; [|done]. rewrite number_sized by (done || lia).
  assert (cl ∈ of_size cs (Z.of_nat (length cl))) as Hin.
  { apply list_elem_of_filter. done. }
  destruct (of_size cs (Z.of_nat (length cl))); [by apply not_elem_of_nil in Hin|].
  simpl. lia.
Qed.

Lemma cluster_sampled frames cl :
  Nd.shape (proteins_size a) = [frames; proteins] → f_index < frames →
  cl ∈ cs → cl ≠ [] → Z.of_nat (length cl) ∈ Stats.cluster_sizes_sampled a.
Proof.
  intros Hsh Hf Hcl Hne. destruct cl as [|p cl']; [done|].
  destruct Hsized as [Hperm Hg].
  apply (sizes_sampled a f_index frames proteins); [done..|].
  unfold sizes_of. apply list_elem_of_fmap. exists p. split.
  - symmetry. apply Hg; [done|left].
  - rewrite <- Hperm. apply list_elem_of_join. eexists. split; [left|done].
Qed.

Lemma some_cluster : 0 < proteins → ∃ cl, cl ∈ cs ∧ cl ≠ [].
Proof.
  intros Hpos. destruct Hsized as [Hperm _].
  assert (0 ∈ mjoin cs) as Hin by (rewrite Hperm; apply elem_of_seq; lia).
  apply list_elem_of_join in Hin as (cl & Hin & Hcl). exists cl. split; [done|].
  intros ->. by apply not_elem_of_nil in Hin.
Qed.
End Clusters.

Lemma share_le proteins ts c1 c2 :
  0 < proteins → (share proteins ts c1 <= share proteins ts c2)%Q →
  (count ts c1 ≤ count ts c2)%Z.
Proof.
  intros Hpos Hle. unfold share in Hle.
  apply Qmult_le_r in Hle; [|done]. unfold Qdiv in Hle.
  apply Qmult_le_r in Hle.
  - by rewrite Zle_Qle.
  - apply Qinv_lt_0_compat. unfold Stats.of_nat. change 0%Q with (inject_Z 0).
    rewrite <- Zlt_Qlt. lia.
Qed.

Section Frame.
Variable e : env.
Variable a : acc.
Variable t : tables.
Variable f_index : nat.
Variable cs : list (list nat).
Hypothesis Hrun : frames_statistics e a = Ok t.
Hypothesis Hf : f_index < nb_frames_to_process e.
Hypothesis Hshape :
  Nd.shape (proteins_size a) = [nb_frames_to_process e; nb_proteins e].
Hypothesis Hsized : sized_by a f_index (nb_proteins e) cs.

Lemma frame_done_sized :
  ∃ r,
    (∀ c_size, c_size ∈ Stats.cluster_sizes_sampled a →
       (counted c_size = true → c_size ≠ 0%Z) ∧
       entry (clusters_nb t) c_size f_index
       = Some (number (sizes_of a f_index (nb_proteins e)) c_size)) ∧
    biggest_among (nb_proteins e) (sizes_of a f_index (nb_proteins e))
      (Stats.cluster_sizes_sampled a) r ∧
    mostrep_among (nb_proteins e) (sizes_of a f_index (nb_proteins e))
      (Stats.cluster_sizes_sampled a) r ∧
    stored (clusters_biggest t) f_index (tmp_max_nb r) (tmp_max_pc r) (tmp_max_size r) ∧
    stored (clusters_mostrep t) f_index
      (tmp_mostrep_nb r) (tmp_mostrep_pc r) (tmp_mostrep_size r).
Proof.
  destruct (frames_statistics_done e a t f_index Hrun Hf)
    as (ts & r & Hrow & Hentries & Hbig & Hrep & Sbig & Srep).
  apply row_Ok in Hrow as (frames & proteins & Hsh' & Hf' & ->).
  rewrite Hshape in Hsh'. injection Hsh' as <- <-.
  exists r. split; [|done]. intros c Hc. by destruct (Hentries c Hc) as (? & ? & _).
Qed.

(** X7: when the proteins of a frame carry the sizes of its clusters, as
    [process_clusters] leaves them, [clusters_nb] holds for the frame,
    under a size sampled other than -1 and 99999, the number of the clusters
    of that size: the proteins that have the size, divided by the size. *)
Theorem clusters_counted_by_size c_size :
  c_size ∈ Stats.cluster_sizes_sampled a → counted c_size = true →
  entry (clusters_nb t) c_size f_index = Some (Z.of_nat (length (of_size cs c_size))).
Proof.
  intros Hc Hcounted. destruct frame_done_sized as (r & Hentries & _).
  destruct (Hentries c_size Hc) as [Hne ->]. f_equal.
  apply (number_sized a f_index (nb_proteins e) cs Hsized); auto.
Qed.

(** X8: for such a frame of fewer than 99999 proteins, [clusters_biggest]
    holds the size of a cluster that no other exceeds, the number of the
    clusters of that size and the percentage of the proteins in them. *)
Theorem biggest_cluster_of_frame :
  0 < nb_proteins e → (Z.of_nat (nb_proteins e) < 99999)%Z →
  ∃ big, big ∈ cs ∧ (∀ c, c ∈ cs → length c ≤ length big) ∧
         stored (clusters_biggest t) f_index
           (Z.of_nat (length (of_size cs (Z.of_nat (length big)))))
           (inject_Z (Z.of_nat (length big)
                      * Z.of_nat (length (of_size cs (Z.of_nat (length big)))))
            / Stats.of_nat (nb_proteins e) * 100)%Q
           (Z.of_nat (length big)).
Proof.
  intros Hpos Hsmall. destruct frame_done_sized as (r & _ & Hbig & _ & Sbig & _).
  destruct (some_cluster _ _ _ _ Hsized Hpos) as (cl0 & Hcl0 & Hne0).
  pose proof (cluster_present _ _ _ _ Hsized cl0 Hsmall Hcl0 Hne0) as Hp0.
  pose proof (cluster_sampled _ _ _ _ Hsized _ cl0 Hshape Hf Hcl0 Hne0) as Hs0.
  destruct Hbig as [(_ & _ & _ & Hnone)|(Hin & Hp & Hnb & Hpc & Hle)].
  { by destruct (Hnone _ Hs0). }
  destruct (present_cluster _ _ _ _ Hsized _ Hp) as (big & Hbig & Hlen).
  exists big. split; [done|]. split.
  - intros c Hc. destruct c as [|p c']; [simpl; lia|].
    assert (Z.of_nat (length (p :: c')) ≤ tmp_max_size r)%Z; [|lia].
    apply Hle.
    + by eapply (cluster_sampled _ _ _ _ Hsized).
    + by apply (cluster_present _ _ _ _ Hsized).
  - rewrite Hlen. destruct Hp as [Hn Hcounted].
    pose proof (present_positive _ _ (conj Hn Hcounted)) as [Hc _].
    rewrite Hnb, Hpc in Sbig. unfold share in Sbig.
    rewrite (count_sized _ _ _ _ Hsized) in Sbig.
    rewrite (number_sized _ _ _ _ Hsized) in Sbig by (done || lia). done.
Qed.

(** X9: for such a frame of fewer than 99999 proteins, [clusters_mostrep]
    holds a size whose clusters together hold at least as many proteins as
    the clusters of any other size, with the number of these clusters and
    the percentage of the proteins in them. *)
Theorem most_represented_size_of_frame :
  0 < nb_proteins e → (Z.of_nat (nb_proteins e) < 99999)%Z →
  ∃ rep, rep ∈ cs ∧
         (∀ c, c ∈ cs →
               length c * length (of_size cs (Z.of_nat (length c)))
               ≤ length rep * length (of_size cs (Z.of_nat (length rep)))) ∧
         stored (clusters_mostrep t) f_index
           (Z.of_nat (length (of_size cs (Z.of_nat (length rep)))))
           (inject_Z (Z.of_nat (length rep)
                      * Z.of_nat (length (of_size cs (Z.of_nat (length rep)))))
            / Stats.of_nat (nb_proteins e) * 100)%Q
           (Z.of_nat (length rep)).
Proof.
  intros Hpos Hsmall. destruct frame_done_sized as (r & _ & _ & Hrep & _ & Srep).
  destruct (some_cluster _ _ _ _ Hsized Hpos) as (cl0 & Hcl0 & Hne0).
  pose proof (cluster_present _ _ _ _ Hsized cl0 Hsmall Hcl0 Hne0) as Hp0.
  pose proof (cluster_sampled _ _ _ _ Hsized _ cl0 Hshape Hf Hcl0 Hne0) as Hs0.
  destruct Hrep as [(_ & _ & _ & Hnone)|(Hin & Hp & Hnb & Hpc & Hle)].
  { by destruct (Hnone _ Hs0). }
  destruct (present_cluster _ _ _ _ Hsized _ Hp) as (rep & Hrep & Hlen).
  exists rep. split; [done|]. split.
  - intros c Hc. destruct c as [|p c']; [simpl; lia|].
    assert (share (nb_proteins e) (sizes_of a f_index (nb_proteins e))
              (Z.of_nat (length (p :: c')))
            <= tmp_mostrep_pc r)%Q as Hshare.
    { apply Hle.
      - by eapply (cluster_sampled _ _ _ _ Hsized).
      - by apply (cluster_present _ _ _ _ Hsized). }
    rewrite Hpc in Hshare. apply share_le in Hshare; [|done].
    rewrite !(count_sized _ _ _ _ Hsized), <- Hlen in Hshare. nia.
  - rewrite Hlen. destruct Hp as [Hn Hcounted].
    pose proof (present_positive _ _ (conj Hn Hcounted)) as [Hc _].
    rewrite Hnb, Hpc in Srep. unfold share in Srep.
    rewrite (count_sized _ _ _ _ Hsized) in Srep.
    rewrite (number_sized _ _ _ _ Hsized) in Srep by (done || lia). done.
Qed.
End Frame.

(** a check that passed *)
Lemma checked (P : Prop) `{Decision P} (u : unit) :
  (if decide P then Ok tt else Raise "AssertionError") = Ok u → P.
Proof. by destruct (decide P). Qed.

Lemma sized_by_clusters e fr G f a a' :
  process_clusters e fr G f a = Ok a' →
  mjoin (Detect.sorted (Detect.connected_components G)) ≡ₚ seq 0 (nb_proteins e) →
  sized_by a' f (nb_proteins e) (Detect.sorted (Detect.connected_components G)).
Proof.
  intros Hrun Hperm. split; [done|]. unfold process_clusters in Hrun.
  apply clusters_sizes in Hrun as [Hin _]; [done|]. rewrite Hperm. apply NoDup_seq.
Qed.

Lemma frame_percentages_add_up_to_100_witness :
  ∃ a0 a' t pcs,
    Struct.struct_proteins Examples.four_env = Ok a0 ∧
    process_clusters Examples.four_env Examples.four_frame Samples.two_pairs 0 a0
    = Ok a' ∧
    frames_statistics Examples.four_env a' = Ok t ∧
    Forall2 (λ c_size v, entry (clusters_pc t) c_size 0 = Some v)
            (Stats.cluster_sizes_sampled a') pcs ∧
    (qtotal pcs == 100)%Q.
Proof.
  assert ((a0 ← Struct.struct_proteins Examples.four_env;
           a' ← process_clusters Examples.four_env Examples.four_frame
                  Samples.two_pairs 0 a0;
           t ← frames_statistics Examples.four_env a';
           _ ← (if decide (Nd.shape (proteins_size a') = [1; 4])
                then Ok tt else Raise "AssertionError");
           Ok tt) = Ok tt) as Hrun by (vm_compute; reflexivity).
  apply bind_Ok in Hrun as (a0 & Ha0 & Hrun). apply bind_Ok in Hrun as (a' & Ha' & Hrun).
  apply bind_Ok in Hrun as (t & Ht & Hrun). apply bind_Ok in Hrun as (u & Hsh & _).
  apply checked in Hsh.
  destruct (frame_percentages_add_up_to_100 Examples.four_env a' t 0 Ht)
    as (pcs & Hpcs & Hsum); [simpl; lia|exact Hsh|simpl; lia|].
  exists a0, a', t, pcs. done.
Defined.

Lemma clusters_counted_by_size_witness :
  ∃ a0 a' t,
    Struct.struct_proteins Examples.four_env = Ok a0 ∧
    process_clusters Examples.four_env Examples.four_frame Samples.two_pairs 0 a0
    = Ok a' ∧
    frames_statistics Examples.four_env a' = Ok t ∧
    entry (clusters_nb t) 2 0 = Some 2%Z.
Proof.
  assert ((a0 ← Struct.struct_proteins Examples.four_env;
           a' ← process_clusters Examples.four_env Examples.four_frame
                  Samples.two_pairs 0 a0;
           t ← frames_statistics Examples.four_env a';
           _ ← (if decide (Nd.shape (proteins_size a') = [1; 4])
                then Ok tt else Raise "AssertionError");
           _ ← (if decide (2%Z ∈ Stats.cluster_sizes_sampled a')
                then Ok tt else Raise "AssertionError");
           Ok tt) = Ok tt) as Hrun by (vm_compute; reflexivity).
  apply bind_Ok in Hrun as (a0 & Ha0 & Hrun). apply bind_Ok in Hrun as (a' & Ha' & Hrun).
  apply bind_Ok in Hrun as (t & Ht & Hrun). apply bind_Ok in Hrun as (u & Hsh & Hrun).
  apply bind_Ok in Hrun as (u' & Hin & _).
  apply checked in Hsh. apply checked in Hin.
  exists a0, a', t. split; [exact Ha0|]. split; [exact Ha'|]. split; [exact Ht|].
  apply (clusters_counted_by_size Examples.four_env a' t 0 [[0; 1]; [2; 3]] Ht).
  - simpl. lia.
  - exact Hsh.
  - apply (sized_by_clusters _ _ _ _ _ _ Ha'). reflexivity.
  - exact Hin.
  - reflexivity.
Defined.

Lemma biggest_cluster_of_frame_witness :
  ∃ a0 a' t,
    Struct.struct_proteins Examples.four_env = Ok a0 ∧
    process_clusters Examples.four_env Examples.four_frame Samples.two_pairs 0 a0
    = Ok a' ∧
    frames_statistics Examples.four_env a' = Ok t ∧
    ∃ big, big ∈ [[0; 1]; [2; 3]] ∧
           Nd.get (size (clusters_biggest t)) [0] = Ok (Z.of_nat (length big)).
Proof.
  assert ((a0 ← Struct.struct_proteins Examples.four_env;
           a' ← process_clusters Examples.four_env Examples.four_frame
                  Samples.two_pairs 0 a0;
           t ← frames_statistics Examples.four_env a';
           _ ← (if decide (Nd.shape (proteins_size a') = [1; 4])
                then Ok tt else Raise "AssertionError");
           Ok tt) = Ok tt) as Hrun by (vm_compute; reflexivity).
  apply bind_Ok in Hrun as (a0 & Ha0 & Hrun). apply bind_Ok in Hrun as (a' & Ha' & Hrun).
  apply bind_Ok in Hrun as (t & Ht & Hrun). apply bind_Ok in Hrun as (u & Hsh & _).
  apply checked in Hsh.
  exists a0, a', t. split; [exact Ha0|]. split; [exact Ha'|]. split; [exact Ht|].
  destruct (biggest_cluster_of_frame Examples.four_env a' t 0 [[0; 1]; [2; 3]] Ht)
    as (big & Hbig & _ & _ & _ & Hsize).
  - simpl. lia.
  - exact Hsh.
  - apply (sized_by_clusters _ _ _ _ _ _ Ha'). reflexivity.
  - simpl. lia.
  - simpl. lia.
  - exists big. split; [exact Hbig|exact Hsize].
Defined.

Lemma most_represented_size_of_frame_witness :
  ∃ a0 a' t,
    Struct.struct_proteins Examples.four_env = Ok a0 ∧
    process_clusters Examples.four_env Examples.four_frame Samples.two_pairs 0 a0
    = Ok a' ∧
    frames_statistics Examples.four_env a' = Ok t ∧
    ∃ rep, rep ∈ [[0; 1]; [2; 3]] ∧
           Nd.get (size (clusters_mostrep t)) [0] = Ok (Z.of_nat (length rep)).
Proof.
  assert ((a0 ← Struct.struct_proteins Examples.four_env;
           a' ← process_clusters Examples.four_env Examples.four_frame
                  Samples.two_pairs 0 a0;
           t ← frames_statistics Examples.four_env a';
           _ ← (if decide (Nd.shape (proteins_size a') = [1; 4])
                then Ok tt else Raise "AssertionError");
           Ok tt) = Ok tt) as Hrun by (vm_compute; reflexivity).
  apply bind_Ok in Hrun as (a0 & Ha0 & Hrun). apply bind_Ok in Hrun as (a' & Ha' & Hrun).
  apply bind_Ok in Hrun as (t & Ht & Hrun). apply bind_Ok in Hrun as (u & Hsh & _).
  apply checked in Hsh.
  exists a0, a', t. split; [exact Ha0|]. split; [exact Ha'|]. split; [exact Ht|].
  destruct (most_represented_size_of_frame Examples.four_env a' t 0 [[0; 1]; [2; 3]] Ht)
    as (rep & Hrep & _ & _ & _ & Hsize).
  - simpl. lia.
  - exact Hsh.
  - apply (sized_by_clusters _ _ _ _ _ _ Ha'). reflexivity.
  - simpl. lia.
  - simpl. lia.
  - exists rep. split; [exact Hrep|exact Hsize].
Defined.

End FrameFacts.

Module ColumnFacts.
Import Process Summary SummaryWords ProcessFacts NdFacts StatsFacts StatsWords.
Import SummaryFacts.

Lemma column_sum_ext (m m' : Nd.t Q) rows p :
  (∀ i, Nd.item m' [i; p] = Nd.item m [i; p]) → column_sum m' rows p = column_sum m rows p.
Proof.
  intros H. unfold column_sum. f_equal. apply list_fmap_ext. intros _ i _. apply H.
Qed.

Lemma normalise_column_Ok m p m' :
  normalise_column m p = Ok m' →
  ∃ rows columns,
    Nd.shape m = [rows; columns] ∧ p < columns ∧ Nd.shape m' = Nd.shape m ∧
    (∀ i q, q ≠ p → Nd.item m' [i; q] = Nd.item m [i; q]) ∧
    (∀ i, Nd.item m' [i; p]
          = if gt (column_sum m rows p) 0
            then (Nd.item m [i; p] / column_sum m rows p)%Q
            else Nd.item m [i; p]).
Proof.
  unfold normalise_column.
  destruct (Nd.shape m) as [|rows [|columns [|]]] eqn:Hsh; try done.
  destruct (p <? columns) eqn:Hp; [|done]. apply Nat.ltb_lt in Hp.
  intros H. exists rows, columns. split; [done|]. split; [done|].
  destruct (gt (column_sum m rows p) 0); injection H as <-; simpl.
  - split; [done|]. split.
    + intros i q Hq. apply Nat.eqb_neq in Hq. by rewrite Hq.
    + intros i. by rewrite Nat.eqb_refl.
  - done.
Qed.

Lemma columns_loop l m m' rows columns :
  for_each normalise_column l m = Ok m' → NoDup l →
  Nd.shape m = [rows; columns] →
  Nd.shape m' = Nd.shape m ∧
  (∀ i p, p ∉ l → Nd.item m' [i; p] = Nd.item m [i; p]) ∧
  (∀ i p, p ∈ l →
          Nd.item m' [i; p]
          = if gt (column_sum m rows p) 0
            then (Nd.item m [i; p] / column_sum m rows p)%Q
            else Nd.item m [i; p]).
Proof.
  revert m. induction l as [|q l IH]; intros m H Hnd Hsh.
  - injection H as <-. split; [done|]. split; [done|].
    intros ?? Hin. by apply not_elem_of_nil in Hin.
  - simpl in H. apply bind_Ok in H as (m1 & H1 & H).
    apply NoDup_cons in Hnd as [Hq Hnd].
    apply normalise_column_Ok in H1 as (rows' & columns' & Hsh' & _ & Hsh1 & Hother & Hown).
    rewrite Hsh in Hsh'. injection Hsh' as <- <-.
    destruct (IH m1 H Hnd) as (Hs & Hout & Hin); [by rewrite Hsh1|].
    split; [by rewrite Hs|]. split.
    + intros i p [Hne Hp]%not_elem_of_cons. rewrite Hout by done. by apply Hother.
    + intros i p [->|Hp]%elem_of_cons.
      * rewrite Hout by done. apply Hown.
      * assert (p ≠ q) as Hne by (by intros ->).
        rewrite Hin by done. rewrite (column_sum_ext m m1) by (intros; by apply Hother).
        by rewrite Hother.
Qed.

Lemma column_scaled (g : nat → Q) (s : Q) l :
  (foldr Qplus 0 ((λ i, g i / s) <$> l) == foldr Qplus 0 (g <$> l) / s)%Q.
Proof.
  induction l as [|x l IH]; [reflexivity|]. rewrite !fmap_cons.
  change (g x / s + foldr Qplus 0 ((λ i, g i / s) <$> l)
          == (g x + foldr Qplus 0 (g <$> l)) / s)%Q.
  rewrite IH. unfold Qdiv. ring.
Qed.

(** X10: the contacts between proteins are normalised column by column: the
    entries of the column of a protein that made contacts are its counts
    divided by their total, and sum to 1; a column without contacts stays
    at zero.  No column is divided twice and none by zero. *)
Theorem contacts_between_proteins_normalised (e : env) (a : acc) (m : Nd.t Q) (p : nat) :
  normalise_proteins e a = Ok m →
  Nd.shape (proteins_ctcts_prot a) = [nb_proteins e; nb_proteins e] →
  p < nb_proteins e →
  let contacts := λ i, Nd.item (proteins_ctcts_prot a) [i; p] in
  let total := sum_list (contacts <$> seq 0 (nb_proteins e)) in
  (total = 0 → ∀ i, i < nb_proteins e → Nd.item m [i; p] = 0%Q) ∧
  (0 < total →
   (∀ i, (Nd.item m [i; p] == Stats.of_nat (contacts i) / Stats.of_nat total)%Q) ∧
   (column_sum m (nb_proteins e) p == 1)%Q).
Proof.
  intros Hrun Hsh Hp contacts total. unfold normalise_proteins in Hrun.
  apply (columns_loop _ _ _ (nb_proteins e) (nb_proteins e)) in Hrun
    as (_ & _ & Hin); [|apply NoDup_seq|done].
  assert (p ∈ seq 0 (nb_proteins e)) as Hp' by (apply elem_of_seq; lia).
  assert (column_sum (Stats.to_float (proteins_ctcts_prot a)) (nb_proteins e) p
          == Stats.of_nat total)%Q as Hsum.
  { unfold column_sum, Stats.to_float. simpl.
    apply (qsum_to_float_list contacts (seq 0 (nb_proteins e))). }
  split.
  - intros Hzero i Hi. rewrite (Hin i p Hp').
    assert (gt (column_sum (Stats.to_float (proteins_ctcts_prot a)) (nb_proteins e) p) 0
            = false) as ->.
    { destruct (gt _ 0) eqn:E; [|done]. apply gt_spec in E.
      rewrite Hsum, Hzero in E. by apply Qlt_irrefl in E. }
    simpl. fold (contacts i).
    assert (contacts i = 0) as ->; [|done].
    assert (contacts i ∈ contacts <$> seq 0 (nb_proteins e)) as Hc.
    { apply list_elem_of_fmap. exists i. split; [done|]. apply elem_of_seq. lia. }
    revert Hzero Hc. unfold total. generalize (contacts <$> seq 0 (nb_proteins e)).
    intros l. induction l as [|x l IH]; intros Hz Hc; [by apply not_elem_of_nil in Hc|].
    simpl in Hz. apply elem_of_cons in Hc as [->|Hc]; [lia|]. apply IH; [lia|done].
  - intros Hpos.
    assert (0 < Stats.of_nat total)%Q as Hpos'.
    { unfold Stats.of_nat. change 0%Q with (inject_Z 0). rewrite <- Zlt_Qlt. lia. }
    assert (gt (column_sum (Stats.to_float (proteins_ctcts_prot a)) (nb_proteins e) p) 0
            = true) as Hgt.
    { apply gt_spec. by rewrite Hsum. }
    assert (∀ i, (Nd.item m [i; p] == Stats.of_nat (contacts i) / Stats.of_nat total)%Q)
      as Hitems.
    { intros i. rewrite (Hin i p Hp'), Hgt, Hsum. reflexivity. }
    split; [exact Hitems|].
    unfold column_sum.
    assert (∀ l, (foldr Qplus 0 ((λ i, Nd.item m [i; p]) <$> l)
                  == foldr Qplus 0 ((λ i, Stats.of_nat (contacts i) / Stats.of_nat total)
                                      <$> l))%Q) as Hext.
    { induction l as [|x l IH]; [reflexivity|]. rewrite !fmap_cons. simpl.
      by rewrite IH, Hitems. }
    rewrite Hext, (column_scaled (λ i, Stats.of_nat (contacts i)) (Stats.of_nat total)).
    unfold Stats.of_nat at 1.
    rewrite (qsum_to_float_list contacts (seq 0 (nb_proteins e))).
    fold total. fold (Stats.of_nat total). field.
    intros E. rewrite E in Hpos'. by apply Qlt_irrefl in Hpos'.
Qed.

Lemma contacts_between_proteins_normalised_witness :
  ∃ a0 a' m,
    Struct.struct_proteins Examples.four_env = Ok a0 ∧
    process_clusters Examples.four_env Examples.four_frame Samples.two_pairs 0 a0
    = Ok a' ∧
    normalise_proteins Examples.four_env a' = Ok m ∧
    (column_sum m 4 0 == 1)%Q.
Proof.
  assert ((a0 ← Struct.struct_proteins Examples.four_env;
           a' ← process_clusters Examples.four_env Examples.four_frame
                  Samples.two_pairs 0 a0;
           m ← normalise_proteins Examples.four_env a';
           _ ← (if decide (Nd.shape (proteins_ctcts_prot a') = [4; 4])
                then Ok tt else Raise "AssertionError");
           _ ← (if decide (0 < sum_list ((λ i, Nd.item (proteins_ctcts_prot a') [i; 0])
                                           <$> seq 0 4))
                then Ok tt else Raise "AssertionError");
           Ok tt) = Ok tt) as Hrun by (vm_compute; reflexivity).
  apply bind_Ok in Hrun as (a0 & Ha0 & Hrun). apply bind_Ok in Hrun as (a' & Ha' & Hrun).
  apply bind_Ok in Hrun as (m & Hm & Hrun). apply bind_Ok in Hrun as (u & Hsh & Hrun).
  apply bind_Ok in Hrun as (u' & Hpos & _).
  apply FrameFacts.checked in Hsh. apply FrameFacts.checked in Hpos.
  exists a0, a', m. split; [exact Ha0|]. split; [exact Ha'|]. split; [exact Hm|].
  destruct (contacts_between_proteins_normalised Examples.four_env a' m 0 Hm Hsh)
    as [_ Hnorm]; [simpl; lia|].
  destruct (Hnorm Hpos) as [_ Hone]. exact Hone.
Defined.

End ColumnFacts.

Module SizedFacts.
Import Process ProcessWords RunWords ProcessFacts NdFacts TablesFacts.

Section Frame.
Variable e : env.
Variable fr : frame.
Variable network : Detect.graph.
Variable f_index : nat.

Lemma write_row_shape {A} (arr arr' : Nd.t A) cluster v :
  write_row f_index arr cluster v = Ok arr' → Nd.shape arr' = Nd.shape arr.
Proof.
  unfold write_row. revert arr. induction cluster as [|x xs IH]; intros arr H.
  - by injection H as <-.
  - simpl in H. apply bind_Ok in H as (arr1 & H1 & H).
    apply set_Ok in H1 as (_ & Hsh & _). rewrite (IH _ H). done.
Qed.

Lemma account_written wl cluster a a' :
  account e fr network f_index wl cluster a = Ok a' →
  ∃ v, write_row f_index (proteins_size a) cluster v = Ok (proteins_size a') ∧
       labelled e false cluster v.
Proof.
  intros H. exists (Z.of_nat (length cluster)). split; [by eapply account_size|].
  right. split; [done|]. intros g Hg. unfold account in H.
  apply bind_Ok in H as (a1 & Ha1 & _).
  destruct (LeafletFacts.store_size_group _ _ _ _ _ _ _ _ Ha1 Hg) as (v & Hv & _).
  unfold group_entry in Hv. rewrite Hg in Hv.
  apply bind_Ok in Hv as (gi & Hgi & _). unfold group_of in Hgi.
  apply getitem_Ok in Hgi. by eexists.
Qed.

Lemma labelled_leaflets cluster v : labelled e false cluster v → labelled e true cluster v.
Proof. intros [[? _]|?]; [done|by right]. Qed.

Lemma process_cluster_TM_written a cluster a' :
  process_cluster_TM e fr network f_index a cluster = Ok a' →
  ∃ v, write_row f_index (proteins_size a) cluster v = Ok (proteins_size a') ∧
       labelled e true cluster v.
Proof.
  unfold process_cluster_TM. intros H.
  apply bind_Ok in H as (dist & _ & H). destruct (classify dist).
  - apply store_size_Ok in H as (H & _). exists (-1)%Z. split; [done|]. left. auto.
  - apply store_size_Ok in H as (H & _). exists 99999%Z. split; [done|]. left. auto.
  - apply account_written in H as (v & H & Hv). exists v. split; [done|].
    by apply labelled_leaflets.
Qed.

(** a protein of no cluster of the list keeps its entry *)
Lemma clusters_free (body : acc → list nat → result acc) leaflets cs a a' p :
  (∀ a cl a', body a cl = Ok a' →
              ∃ v, write_row f_index (proteins_size a) cl v = Ok (proteins_size a') ∧
                   labelled e leaflets cl v) →
  Forall (λ cl, p ∉ cl) cs →
  for_each body cs a = Ok a' →
  Nd.item (proteins_size a') [f_index; p] = Nd.item (proteins_size a) [f_index; p].
Proof.
  intros Hbody Hfree. revert a. induction Hfree as [|c cs Hc Hfree IH]; intros a H.
  - by injection H as <-.
  - simpl in H. apply bind_Ok in H as (a1 & H1 & H).
    apply Hbody in H1 as (v & Hw & _). apply write_row_Ok in Hw as [_ Hout].
    rewrite (IH _ H). apply Hout. intros q Hq [= ->]. done.
Qed.

(** the sizes after the clusters of a frame *)
Lemma clusters_written (body : acc → list nat → result acc) leaflets cs a a' :
  (∀ a cl a', body a cl = Ok a' →
              ∃ v, write_row f_index (proteins_size a) cl v = Ok (proteins_size a') ∧
                   labelled e leaflets cl v) →
  for_each body cs a = Ok a' →
  Nd.shape (proteins_size a') = Nd.shape (proteins_size a) ∧
  (∀ j, (∀ p, j ≠ [f_index; p]) →
        Nd.item (proteins_size a') j = Nd.item (proteins_size a) j) ∧
  (∀ cl p, cl ∈ cs → p ∈ cl →
           ∃ cl', cl' ∈ cs ∧
                  labelled e leaflets cl' (Nd.item (proteins_size a') [f_index; p])).
Proof.
  intros Hbody. revert a. induction cs as [|c cs IH]; intros a H.
  - injection H as <-. split; [done|]. split; [done|].
    intros ?? Hin. by apply not_elem_of_nil in Hin.
  - simpl in H. apply bind_Ok in H as (a1 & H1 & H).
    pose proof (Hbody _ _ _ H1) as (v & Hw & Hv).
    pose proof (write_row_shape _ _ _ _ Hw) as Hsh1.
    apply write_row_Ok in Hw as [Hin1 Hout1].
    destruct (IH _ H) as (Hsh & Hout & Hin). split; [by rewrite Hsh|]. split.
    + intros j Hj. rewrite Hout by done. apply Hout1. intros p _. apply Hj.
    + intros cl p Hcl Hp.
      destruct (decide (Forall (λ cl, p ∉ cl) cs)) as [Hfree|Hocc].
      * apply elem_of_cons in Hcl as [->|Hcl].
        -- exists c. split; [left|].
           rewrite (clusters_free body leaflets cs a1 a' p Hbody Hfree H).
           by rewrite (Hin1 p Hp).
        -- rewrite Forall_forall in Hfree. by destruct (Hfree cl Hcl).
      * apply not_Forall_Exists in Hocc; [|apply _].
        apply Exists_exists in Hocc as (cl2 & Hcl2 & Hp2).
        assert (p ∈ cl2) as Hp2' by (by apply dec_stable).
        destruct (Hin cl2 p Hcl2 Hp2') as (cl' & ? & ?).
        exists cl'. split; [by right|done].
Qed.
(** the same when no protein is in two clusters: the entry of a protein
    is the one written for its own cluster *)
Lemma clusters_labelled (body : acc → list nat → result acc) leaflets cs a a' :
  (∀ a cl a', body a cl = Ok a' →
              ∃ v, write_row f_index (proteins_size a) cl v = Ok (proteins_size a') ∧
                   labelled e leaflets cl v) →
  for_each body cs a = Ok a' → NoDup (mjoin cs) →
  ∀ cl p, cl ∈ cs → p ∈ cl →
          labelled e leaflets cl (Nd.item (proteins_size a') [f_index; p]).
Proof.
  intros Hbody. revert a. induction cs as [|c cs IH]; intros a H Hnd cl p Hcl Hp.
  - by apply not_elem_of_nil in Hcl.
  - simpl in H. apply bind_Ok in H as (a1 & H1 & H).
    change (mjoin (c :: cs)) with (c ++ mjoin cs) in Hnd.
    apply NoDup_app in Hnd as (_ & Hdisj & Hnd).
    apply elem_of_cons in Hcl as [->|Hcl]; [|by eapply IH].
    pose proof (Hbody _ _ _ H1) as (v & Hw & Hv).
    apply write_row_Ok in Hw as [Hin1 _].
    rewrite (clusters_free body leaflets cs a1 a' p Hbody); [by rewrite (Hin1 p Hp)| |done].
    apply Forall_forall. intros cl2 Hcl2 Hp2. apply (Hdisj p Hp).
    apply list_elem_of_join. by exists cl2.
Qed.
End Frame.

Lemma length_member {A} (cl : list A) cs : cl ∈ cs → length cl ≤ length (mjoin cs).
Proof.
  intros (l1 & l2 & ->)%list_elem_of_split.
  rewrite join_app, length_app. simpl. rewrite length_app. lia.
Qed.

Section Run.
Variable py_int : string → option Z.
Variable py_float : string → option Q.
Variable dbscan : Nd.t Q → list Z.
Variable c : Main.config.
Variable cut : Cutoffs.t.
Variable e : env.
Variable a0 : acc.
Hypothesis Hcfg : Main.configure py_int py_float c = Ok (cut, e, a0).
Hypothesis Hdens : Main.density c = false.
Hypothesis Hspecies : 0 < Main.found_species c.

Local Abbreviation proteins := (sum_list (Main.proteins_nb c)).

Lemma configured_proteins : nb_proteins e = proteins.
Proof using Hcfg.
  destruct (RunFacts.configure_Ok _ _ _ _ _ _ Hcfg) as (cut0 & g & _ & _ & _ & He & _).
  by rewrite He.
Qed.

Lemma process_frame_written a k f a' :
  Nd.shape f.1 = [proteins; proteins] →
  Main.process_frame dbscan c cut e a k f = Ok a' →
  Nd.shape (proteins_size a') = Nd.shape (proteins_size a) ∧
  (∀ j, (∀ p, j ≠ [k; p]) →
        Nd.item (proteins_size a') j = Nd.item (proteins_size a) j) ∧
  (∀ p, p < proteins →
        sized e (Main.cutoff_leaflet c) (Nd.item (proteins_size a') [k; p])).
Proof using Hcfg Hdens Hspecies.
  intros Hshape H.
  destruct (RunFacts.configured_detection py_int py_float dbscan c cut e a0
              Hcfg Hspecies Hdens) as [_ Hdet].
  destruct (Hdet f.1 Hshape) as (G & HG & Horder & Hsym & _).
  unfold Main.process_frame in H. rewrite HG in H. simpl in H.
  destruct (GraphFacts.connected_components_partition G Hsym) as [Hpart Hclosed].
  rewrite Horder in Hpart.
  assert (∀ leaflets cl v,
            cl ∈ Detect.sorted (Detect.connected_components G) →
            labelled e leaflets cl v → sized e leaflets v) as Hsized.
  { intros leaflets cl v Hcl [Hv|[-> Hg]]; [by left|]. right. split; [|done].
    apply (proj1 (GraphFacts.elem_of_sorted _ _)) in Hcl.
    destruct (Hclosed cl Hcl) as [Hne _].
    pose proof (length_member cl _ Hcl) as Hle. rewrite Hpart, length_seq in Hle.
    rewrite configured_proteins. destruct cl; [done|]. simpl in *. lia. }
  assert (∀ p, p < proteins →
               ∃ cl, cl ∈ Detect.sorted (Detect.connected_components G) ∧ p ∈ cl)
    as Hcover.
  { intros p Hp.
    assert (p ∈ mjoin (Detect.connected_components G)) as Hin.
    { rewrite Hpart. apply elem_of_seq. lia. }
    apply list_elem_of_join in Hin as (cl & ? & ?). exists cl.
    split; [|done]. by apply GraphFacts.elem_of_sorted. }
  destruct (Main.cutoff_leaflet c).
  - unfold process_clusters_TM in H.
    apply (clusters_written e k _ true) in H as (Hsh & Hout & Hin).
    + split; [done|]. split; [done|]. intros p Hp.
      destruct (Hcover p Hp) as (cl & Hcl & Hpcl).
      destruct (Hin cl p Hcl Hpcl) as (cl' & Hcl' & Hl). by eapply Hsized.
    + intros ???. apply process_cluster_TM_written.
  - unfold process_clusters in H.
    apply (clusters_written e k _ false) in H as (Hsh & Hout & Hin).
    + split; [done|]. split; [done|]. intros p Hp.
      destruct (Hcover p Hp) as (cl & Hcl & Hpcl).
      destruct (Hin cl p Hcl Hpcl) as (cl' & Hcl' & Hl). by eapply Hsized.
    + intros ???. apply account_written.
Qed.

Lemma frames_loop_sized fs k a n a' :
  (∀ f, f ∈ fs → Nd.shape f.1 = [proteins; proteins]) →
  Main.frames_loop dbscan c cut e fs k a = (n, Ok a') →
  Nd.shape (proteins_size a') = Nd.shape (proteins_size a) ∧
  (∀ f p, f < k → Nd.item (proteins_size a') [f; p] = Nd.item (proteins_size a) [f; p]) ∧
  (∀ f p, k ≤ f < k + length fs → p < proteins →
          sized e (Main.cutoff_leaflet c) (Nd.item (proteins_size a') [f; p])).
Proof using Hcfg Hdens Hspecies.
  revert k a. induction fs as [|fr fs IH]; intros k a Hshapes H; simpl in H.
  - injection H as _ <-. split; [done|]. split; [done|]. simpl. intros. lia.
  - destruct (Main.process_frame dbscan c cut e a k fr) as [a1| |] eqn:E; [|done..].
    apply process_frame_written in E as (Hsh1 & Hout1 & Hin1); [|apply Hshapes; left].
    destruct (IH (S k) a1) as (Hsh & Hout & Hin); [|done|].
    { intros f Hf. apply Hshapes. by right. }
    split; [by rewrite Hsh|]. split.
    + intros f p Hf. rewrite Hout by lia. apply Hout1. intros q [= -> _]. lia.
    + intros f p Hf Hp. simpl in Hf. destruct (decide (f = k)) as [->|Hne].
      * rewrite Hout by lia. by apply Hin1.
      * apply Hin; [lia|done].
Qed.
(** the cluster behind the size of each protein of a frame *)
Lemma process_frame_labelled a k f a' :
  Nd.shape f.1 = [proteins; proteins] →
  Main.process_frame dbscan c cut e a k f = Ok a' →
  ∃ G, Main.detect dbscan c cut f.1 = Ok (Detect.Network G) ∧
       ∀ p, p < proteins →
            ∃ cluster,
              cluster ∈ Detect.sorted (Detect.connected_components G) ∧ p ∈ cluster ∧
              1 ≤ length cluster ≤ proteins ∧
              labelled e (Main.cutoff_leaflet c) cluster
                (Nd.item (proteins_size a') [k; p]).
Proof using Hcfg Hdens Hspecies.
  intros Hshape H.
  destruct (RunFacts.configured_detection py_int py_float dbscan c cut e a0
              Hcfg Hspecies Hdens) as [_ Hdet].
  destruct (Hdet f.1 Hshape) as (G & HG & Horder & Hsym & _).
  exists G. split; [done|].
  unfold Main.process_frame in H. rewrite HG in H. simpl in H.
  destruct (GraphFacts.connected_components_partition G Hsym) as [Hpart Hclosed].
  rewrite Horder in Hpart.
  assert (NoDup (mjoin (Detect.sorted (Detect.connected_components G)))) as Hnd.
  { rewrite GraphFacts.join_sorted, Hpart. apply NoDup_seq. }
  intros p Hp.
  assert (p ∈ mjoin (Detect.connected_components G)) as Hin.
  { rewrite Hpart. apply elem_of_seq. lia. }
  apply list_elem_of_join in Hin as (cl & Hpcl & Hcl).
  assert (cl ∈ Detect.sorted (Detect.connected_components G)) as Hcl'
    by (by apply GraphFacts.elem_of_sorted).
  exists cl. split; [done|]. split; [done|]. split.
  { destruct (Hclosed cl Hcl) as [Hne _].
    pose proof (length_member cl _ Hcl) as Hle. rewrite Hpart, length_seq in Hle.
    destruct cl; [done|]. simpl in *. lia. }
  destruct (Main.cutoff_leaflet c).
  - unfold process_clusters_TM in H.
    eapply (clusters_labelled e k _ true); [|exact H|exact Hnd|exact Hcl'|exact Hpcl].
    intros ???. apply process_cluster_TM_written.
  - unfold process_clusters in H.
    eapply (clusters_labelled e k _ false); [|exact H|exact Hnd|exact Hcl'|exact Hpcl].
    intros ???. apply account_written.
Qed.

Lemma frames_loop_labelled fs k a n a' i fr p :
  (∀ f, f ∈ fs → Nd.shape f.1 = [proteins; proteins]) →
  Main.frames_loop dbscan c cut e fs k a = (n, Ok a') →
  fs !! i = Some fr → p < proteins →
  ∃ G cluster,
    Main.detect dbscan c cut fr.1 = Ok (Detect.Network G) ∧
    cluster ∈ Detect.sorted (Detect.connected_components G) ∧ p ∈ cluster ∧
    1 ≤ length cluster ≤ proteins ∧
    labelled e (Main.cutoff_leaflet c) cluster
      (Nd.item (proteins_size a') [k + i; p]).
Proof using Hcfg Hdens Hspecies.
  revert k a i. induction fs as [|f fs IH]; intros k a i Hshapes H Hi Hp; [done|].
  simpl in H.
  destruct (Main.process_frame dbscan c cut e a k f) as [a1| |] eqn:E; [|done..].
  destruct i as [|i]; simpl in Hi.
  - injection Hi as ->.
    destruct (process_frame_labelled _ _ _ _ (Hshapes fr (list_elem_of_here _ _)) E)
      as (G & HG & Hall).
    destruct (Hall p Hp) as (cl & Hcl & Hpcl & Hlen & Hl).
    exists G, cl. do 4 (split; [done|]).
    destruct (frames_loop_sized fs (S k) a1 n a') as (_ & Hout & _); [|done|].
    { intros f' Hf'. apply Hshapes. by right. }
    rewrite Nat.add_0_r, Hout by lia. done.
  - replace (k + S i) with (S k + i) by lia.
    apply (IH (S k) a1); [|done..]. intros f' Hf'. apply Hshapes. by right.
Qed.
End Run.

(** X11: once the frames of a run are gone through with the connectivity
    detector, every protein has in every frame the size of its cluster: the
    protein is in one of the clusters detected in the frame, the components
    of the graph of its distances, and its entry is the number of proteins
    of that cluster, from 1 to the number of proteins, which with groups is
    a size of the dictionary of sizes; with the leaflets the entry may be
    -1 or 99999 instead.  No entry is left at zero. *)
Theorem every_protein_sized py_int py_float dbscan (c : Main.config) cut e a0 n a' f fr p :
  Main.configure py_int py_float c = Ok (cut, e, a0) →
  Main.density c = false →
  (∀ fr, fr ∈ Main.frames c →
         Nd.shape fr.1 = [sum_list (Main.proteins_nb c); sum_list (Main.proteins_nb c)]) →
  Main.frames_loop dbscan c cut e (Main.frames c) 0 a0 = (n, Ok a') →
  Main.frames c !! f = Some fr → p < sum_list (Main.proteins_nb c) →
  ∃ G cluster,
    Main.detect dbscan c cut fr.1 = Ok (Detect.Network G) ∧
    cluster ∈ Detect.sorted (Detect.connected_components G) ∧ p ∈ cluster ∧
    1 ≤ length cluster ≤ sum_list (Main.proteins_nb c) ∧
    labelled e (Main.cutoff_leaflet c) cluster (Nd.item (proteins_size a') [f; p]) ∧
    sized e (Main.cutoff_leaflet c) (Nd.item (proteins_size a') [f; p]) ∧
    Nd.item (proteins_size a') [f; p] ≠ 0%Z.
Proof.
  intros Hcfg Hdens Hshapes Hrun Hf Hp.
  assert (0 < Main.found_species c) as Hspecies.
  { unfold Main.found_species. destruct (Main.proteins_nb c); [simpl in Hp; lia|simpl; lia]. }
  destruct (frames_loop_labelled py_int py_float dbscan c cut e a0 Hcfg Hdens Hspecies
              _ _ _ _ _ _ _ _ Hshapes Hrun Hf Hp) as (G & cl & HG & Hcl & Hpcl & Hlen & Hl).
  simpl in Hl.
  destruct (frames_loop_sized py_int py_float dbscan c cut e a0 Hcfg Hdens Hspecies
              _ _ _ _ _ Hshapes Hrun) as (_ & _ & Hin).
  assert (sized e (Main.cutoff_leaflet c) (Nd.item (proteins_size a') [f; p])) as Hs.
  { apply Hin; [|done]. apply lookup_lt_Some in Hf. lia. }
  exists G, cl. do 5 (split; [done|]). split; [done|].
  destruct Hs as [[_ [-> | ->]]|[? _]]; lia.
Qed.

Lemma every_protein_sized_witness :
  ∃ cut e a0 a' G,
    Main.configure dec_int (λ _, Some 8%Q) Samples.one_species = Ok (cut, e, a0) ∧
    Main.frames_loop (λ _, []) Samples.one_species cut e
      (Main.frames Samples.one_species) 0 a0 = (1, Ok a') ∧
    Detect.sorted (Detect.connected_components G) = [[0; 1]] ∧
    Nd.item (proteins_size a') [0; 1] = 2%Z.
Proof.
  assert ((x ← Main.configure dec_int (λ _, Some 8%Q) Samples.one_species;
           a' ← (Main.frames_loop (λ _, []) Samples.one_species x.1.1 x.1.2
                   (Main.frames Samples.one_species) 0 x.2).2;
           G ← Detect.detect_clusters_connectivity 1 (Topology.proteins_boundaries [2])
                  x.1.1 Samples.two_dist;
           _ ← (if decide (Detect.sorted (Detect.connected_components G) = [[0; 1]])
                then Ok tt else Raise "AssertionError");
           Ok tt) = Ok tt) as Hrun by (vm_compute; reflexivity).
  apply bind_Ok in Hrun as ([[cut e] a0] & Hcfg & Hrun).
  apply bind_Ok in Hrun as (a' & Ha' & Hrun). simpl in Ha'.
  apply bind_Ok in Hrun as (G0 & HG0 & Hrun). simpl in HG0.
  apply bind_Ok in Hrun as (u & Hcs & _). apply FrameFacts.checked in Hcs.
  assert (Main.frames_loop (λ _, []) Samples.one_species cut e
            (Main.frames Samples.one_species) 0 a0 = (1, Ok a')) as Hloop.
  { simpl in *. destruct (Main.process_frame _ _ _ _ _ _ _); simpl in *; congruence. }
  destruct (every_protein_sized dec_int (λ _, Some 8%Q) (λ _, []) Samples.one_species
              cut e a0 1 a' 0 (Samples.two_dist, Examples.pair_frame) 1 Hcfg eq_refl)
    as (G & cl & HG & Hcl & Hpcl & _ & Hl & _).
  - intros fr [->|Hfr%elem_of_nil]%elem_of_cons; [reflexivity|done].
  - exact Hloop.
  - reflexivity.
  - simpl. lia.
  - assert (G = G0) as ->.
    { unfold Main.detect in HG. simpl in HG. unfold Main.found_species in HG. simpl in HG.
      rewrite HG0 in HG. simpl in HG. by injection HG. }
    exists cut, e, a0, a', G0. split; [exact Hcfg|]. split; [exact Hloop|].
    split; [exact Hcs|].
    rewrite Hcs in Hcl. apply list_elem_of_singleton in Hcl. subst cl.
    destruct Hl as [[Hl _]|[Hl _]]; [discriminate Hl|exact Hl].
Defined.

End SizedFacts.

Module ReadyFacts.
Import Process Summary SummaryWords RunWords ReadyWords.
Import ProcessFacts NdFacts StatsFacts TablesFacts SummaryFacts FrameFacts SizedFacts.

(** *** The allocation *)

Lemma zeros_for_rows {A} (zero : A) n keys : has_rows n (zeros_for zero n keys) keys.
Proof.
  unfold zeros_for.
  assert (∀ (d : gmap Z (Nd.t A)) k,
            k ∈ keys ∨ d !! k = Some (Nd.full [n] zero) →
            foldl (λ d k, <[k := Nd.full [n] zero]> d) d keys !! k
            = Some (Nd.full [n] zero)) as Hfold.
  { induction keys as [|x keys IH]; intros d k Hk; simpl.
    - destruct Hk as [Hk|Hk]; [by apply not_elem_of_nil in Hk|done].
    - apply IH. destruct (decide (k = x)) as [->|Hne].
      + right. apply lookup_insert_eq.
      + destruct Hk as [[?|?]%elem_of_cons|Hk]; [done|by left|].
        right. by rewrite lookup_insert_ne. }
  intros k Hk. eexists. split; [apply Hfold; by left|done].
Qed.

Lemma has_rows_weaken {A} n (d : gmap Z (Nd.t A)) keys keys' :
  (∀ k, k ∈ keys' → k ∈ keys) → has_rows n d keys → has_rows n d keys'.
Proof. intros Hsub H k Hk. by apply H, Hsub. Qed.

Lemma allocate_ready e a : ready e a (allocate e a).
Proof.
  unfold ready, allocate. simpl. split; [|split; [|split; [|split]]].
  - eapply has_rows_weaken; [|apply zeros_for_rows].
    intros k Hk. apply elem_of_app. by left.
  - eapply has_rows_weaken; [|apply zeros_for_rows].
    intros k Hk. apply elem_of_app. by left.
  - apply zeros_for_rows.
  - apply zeros_for_rows.
  - done.
Qed.

(** *** The writes *)

Lemma set_total {A} (arr : Nd.t A) n f v :
  Nd.shape arr = [n] → f < n →
  ∃ arr', Nd.set arr [f] v = Ok arr' ∧ Nd.shape arr' = [n].
Proof.
  intros Hsh Hf. unfold Nd.set. rewrite Hsh. simpl.
  rewrite (proj2 (Nat.ltb_lt f n)) by done. simpl. eexists. split; [done|]. done.
Qed.

Lemma set_at_total {A} n (d : gmap Z (Nd.t A)) keys k f v :
  has_rows n d keys → k ∈ keys → f < n →
  ∃ d', set_at d k f v = Ok d' ∧ has_rows n d' keys.
Proof.
  intros Hrows Hk Hf. destruct (Hrows k Hk) as (arr & Harr & Hsh).
  unfold set_at. rewrite (getitem_Some _ _ _ Harr). simpl.
  destruct (set_total arr n f v Hsh Hf) as (arr' & -> & Hsh'). simpl.
  eexists. split; [done|]. intros k' Hk'.
  destruct (decide (k' = k)) as [->|Hne].
  - exists arr'. by rewrite lookup_insert_eq.
  - rewrite lookup_insert_ne by done. by apply Hrows.
Qed.

Lemma add_at_total {A} (plus : A → A → A) n (d : gmap Z (Nd.t A)) keys k f v :
  has_rows n d keys → k ∈ keys → f < n →
  ∃ d', add_at plus d k f v = Ok d' ∧ has_rows n d' keys.
Proof.
  intros Hrows Hk Hf. destruct (Hrows k Hk) as (arr & Harr & Hsh).
  unfold add_at. rewrite (getitem_Some _ _ _ Harr). simpl.
  unfold Nd.get. rewrite Hsh. simpl. rewrite (proj2 (Nat.ltb_lt f n)) by done. simpl.
  destruct (set_total arr n f (plus (Nd.item arr [f]) v) Hsh Hf) as (arr' & -> & Hsh').
  simpl. eexists. split; [done|]. intros k' Hk'.
  destruct (decide (k' = k)) as [->|Hne].
  - exists arr'. by rewrite lookup_insert_eq.
  - rewrite lookup_insert_ne by done. by apply Hrows.
Qed.

Lemma store_best_total n b f v_nb v_pc v_size :
  best_rows n b → f < n →
  ∃ b', store_best b f v_nb v_pc v_size = Ok b' ∧ best_rows n b'.
Proof.
  intros (H1 & H2 & H3) Hf. unfold store_best.
  destruct (set_total (nb b) n f v_nb H1 Hf) as (x & -> & Hx).
  destruct (set_total (pc b) n f v_pc H2 Hf) as (y & -> & Hy).
  destruct (set_total (size b) n f v_size H3 Hf) as (z & -> & Hz).
  simpl. eexists. split; [done|]. done.
Qed.

Lemma divide_total x y : ¬ (y == 0)%Q → Stats.divide x y = Ok (x / y)%Q.
Proof.
  intros Hy. unfold Stats.divide. destruct (Qeq_bool y 0) eqn:E; [|done].
  by apply Qeq_bool_iff in E.
Qed.

(** *** The loops *)

Section Frame.
Variable e : env.
Variable a : acc.
Variable tmp_sizes : list Z.
Variable f_index : nat.
Hypothesis Hf : f_index < nb_frames_to_process e.
Hypothesis Hproteins : nb_proteins e ≠ 0.

Lemma size_step_total st c_size :
  ready e a st.1 → c_size ∈ Stats.cluster_sizes_sampled a → countable e c_size →
  ∃ st', size_step e tmp_sizes f_index st c_size = Ok st' ∧ ready e a st'.1.
Proof using Hf Hproteins.
  intros (Rnb & Rpc & Rnbg & Rpcg & Rbig & Rrep) Hc Hcount. unfold size_step.
  rewrite (divide_total _ (Stats.of_nat (nb_proteins e))).
  2: { unfold Stats.of_nat. change 0%Q with (inject_Z 0). rewrite inject_Z_injective. lia. }
  simpl.
  assert (∃ tmp_nb,
            (if counted c_size
             then x ← Stats.divide (inject_Z (count tmp_sizes c_size)) (inject_Z c_size);
                  Ok (py_int x)
             else Ok (count tmp_sizes c_size)) = Ok tmp_nb) as [tmp_nb ->].
  { destruct (counted c_size) eqn:Ec; [|by eexists].
    destruct (Hcount Ec) as [Hne _]. rewrite divide_total.
    - by eexists.
    - change 0%Q with (inject_Z 0). rewrite inject_Z_injective. done. }
  simpl.
  destruct (set_at_total _ _ _ c_size f_index tmp_nb Rnb Hc Hf) as (nbs & -> & Rnb').
  simpl.
  destruct (set_at_total _ _ _ c_size f_index
              (inject_Z (count tmp_sizes c_size) / Stats.of_nat (nb_proteins e) * 100)%Q
              Rpc Hc Hf) as (pcs & -> & Rpc').
  simpl.
  destruct (groups e) as [g|] eqn:Hg; [destruct (counted c_size) eqn:Ec|].
  - destruct (Hcount Ec) as [_ Hdict]. destruct (Hdict g Hg) as (gi & Hgi & Hle).
    unfold group_of. rewrite (getitem_Some _ _ _ Hgi). simpl.
    assert (Z.of_nat gi ∈ group_keys e) as Hkey.
    { unfold group_keys. rewrite Hg. apply GroupsFacts.elem_of_range. lia. }
    destruct (add_at_total Z.add _ _ _ (Z.of_nat gi) f_index tmp_nb Rnbg Hkey Hf)
      as (nbg & -> & Rnbg').
    simpl.
    destruct (add_at_total Qplus _ _ _ (Z.of_nat gi) f_index
                (inject_Z (count tmp_sizes c_size) / Stats.of_nat (nb_proteins e) * 100)%Q
                Rpcg Hkey Hf) as (pcg & -> & Rpcg').
    simpl. eexists. split; [done|]. done.
  - eexists. split; [done|]. done.
  - eexists. split; [done|]. done.
Qed.

Lemma sizes_loop_total l st :
  ready e a st.1 →
  (∀ c_size, c_size ∈ l → c_size ∈ Stats.cluster_sizes_sampled a ∧ countable e c_size) →
  ∃ st', for_each (size_step e tmp_sizes f_index) l st = Ok st' ∧ ready e a st'.1.
Proof using Hf Hproteins.
  revert st. induction l as [|c l IH]; intros st Hready Hl.
  - by exists st.
  - destruct (Hl c) as [Hc Hcount]; [left|].
    destruct (size_step_total st c Hready Hc Hcount) as (st1 & H1 & Hready1).
    simpl. rewrite H1. simpl. apply IH; [done|].
    intros c' Hc'. apply Hl. by right.
Qed.
End Frame.

Section Frames.
Variable e : env.
Variable a : acc.
Hypothesis Hshape :
  Nd.shape (proteins_size a) = [nb_frames_to_process e; nb_proteins e].
Hypothesis Hproteins : nb_proteins e ≠ 0.
Hypothesis Hcountable :
  ∀ c_size, c_size ∈ Stats.cluster_sizes_sampled a → countable e c_size.

Lemma frame_step_total t f_index :
  f_index < nb_frames_to_process e → ready e a t →
  ∃ t', frame_step e a t f_index = Ok t' ∧ ready e a t'.
Proof using Hshape Hproteins Hcountable.
  intros Hf Hready. unfold frame_step, row. rewrite Hshape.
  rewrite (proj2 (Nat.ltb_lt _ _)) by done. simpl.
  destruct (sizes_loop_total e a
              ((λ p_index, Nd.item (proteins_size a) [f_index; p_index])
                 <$> seq 0 (nb_proteins e))
              f_index Hf Hproteins (Stats.cluster_sizes_sampled a)
              (t, {| tmp_max_nb := 0; tmp_max_pc := 0%Q; tmp_max_size := 0;
                     tmp_mostrep_nb := 0; tmp_mostrep_pc := 0%Q;
                     tmp_mostrep_size := 0 |})) as (st & -> & Hst).
  - exact Hready.
  - intros c Hc. split; [done|]. by apply Hcountable.
  - simpl. destruct Hst as (Rnb & Rpc & Rnbg & Rpcg & Rbig & Rrep).
    destruct (store_best_total (nb_frames_to_process e) (clusters_biggest st.1) f_index
                (tmp_max_nb st.2) (tmp_max_pc st.2) (tmp_max_size st.2) Rbig Hf)
      as (big & -> & Hbig).
    simpl.
    destruct (store_best_total (nb_frames_to_process e) (clusters_mostrep st.1) f_index
                (tmp_mostrep_nb st.2) (tmp_mostrep_pc st.2) (tmp_mostrep_size st.2)
                Rrep Hf) as (rep & -> & Hrep).
    simpl. eexists. split; [done|]. done.
Qed.

Lemma frames_statistics_total : is_Ok (frames_statistics e a).
Proof using Hshape Hproteins Hcountable.
  unfold frames_statistics.
  assert (∀ l t, (∀ f, f ∈ l → f < nb_frames_to_process e) → ready e a t →
                 is_Ok (for_each (frame_step e a) l t)) as Hloop.
  { induction l as [|f l IH]; intros t Hl Hready; [by eexists|].
    destruct (frame_step_total t f) as (t1 & H1 & Hready1); [apply Hl; left|done|].
    simpl. rewrite H1. simpl. apply IH; [|done]. intros f' Hf'. apply Hl. by right. }
  apply Hloop; [|apply allocate_ready]. intros f Hf%elem_of_seq. lia.
Qed.
End Frames.

(** *** After a run *)

Lemma struct_proteins_size e a :
  Struct.struct_proteins e = Ok a →
  proteins_size a = Nd.full [nb_frames_to_process e; nb_proteins e] 0%Z.
Proof.
  unfold Struct.struct_proteins. intros H.
  apply (for_each_invariant _ (λ s s', proteins_size s' = proteins_size s)) in H;
    [done|done|congruence|].
  intros s s1 s' _ Hs. unfold Struct.struct_species in Hs.
  apply bind_Ok in Hs as (len1 & _ & Hs).
  apply (for_each_invariant _ (λ s s', proteins_size s' = proteins_size s)) in Hs;
    [done|done|congruence|].
  intros t s2 t' _ Ht. apply bind_Ok in Ht as (len2 & _ & Ht). by injection Ht as <-.
Qed.

Lemma dict_bounded py_int lines g k g_index :
  Groups.initialise_groups py_int lines = Ok g →
  Groups.groups_sizes_dict g !! k = Some g_index →
  g_index ≤ Groups.groups_number g.
Proof.
  intros (Hread & _ & Hnumber & Hdict)%GroupsFacts2.initialise_groups_Ok Hk.
  rewrite Hdict in Hk. unfold GroupsWords.table_entry in Hk.
  assert (length (Groups.groups_boundaries g) = length lines) as Hlen.
  { unfold Groups.read_groups in Hread. apply map_each_Ok in Hread.
    by apply Forall2_length in Hread. }
  destruct (Groups.declared 0 (Groups.groups_boundaries g) ∅ !! k) as [g'|] eqn:E.
  - injection Hk as <-.
    apply GroupsFacts.declared_Some in E as [E|(i & lo & hi & -> & Hi & _)].
    + by rewrite lookup_empty in E.
    + apply lookup_lt_Some in Hi. lia.
  - case_decide; [|done]. injection Hk as <-. done.
Qed.

(** X12: after the frames of a run with the connectivity detector, for a
    system with a protein at least, the statistics of the frames end well:
    every size sampled has its arrays, no size sampled is zero, and with
    groups every size counted has a group with arrays of its own. *)
Theorem statistics_end_well py_int py_float dbscan (c : Main.config) cut e a0 n a' :
  Main.configure py_int py_float c = Ok (cut, e, a0) →
  Main.density c = false →
  (∀ fr, fr ∈ Main.frames c →
         Nd.shape fr.1 = [sum_list (Main.proteins_nb c); sum_list (Main.proteins_nb c)]) →
  Main.frames_loop dbscan c cut e (Main.frames c) 0 a0 = (n, Ok a') →
  0 < sum_list (Main.proteins_nb c) →
  is_Ok (frames_statistics e a').
Proof.
  intros Hcfg Hdens Hshapes Hrun Hpos.
  assert (0 < Main.found_species c) as Hspecies.
  { unfold Main.found_species. destruct (Main.proteins_nb c); [simpl in Hpos; lia|simpl; lia]. }
  destruct (frames_loop_sized py_int py_float dbscan c cut e a0 Hcfg Hdens Hspecies
              _ _ _ _ _ Hshapes Hrun) as (Hsh & _ & Hin).
  destruct (RunFacts.configure_Ok _ _ _ _ _ _ Hcfg)
    as (cut0 & g & _ & _ & Hg & He & Ha0).
  assert (nb_frames_to_process e = length (Main.frames c)) as Hnbf by (by rewrite He).
  assert (nb_proteins e = sum_list (Main.proteins_nb c)) as Hnp by (by rewrite He).
  assert (groups e = g) as Hgroups by (by rewrite He).
  rewrite (struct_proteins_size _ _ Ha0) in Hsh. simpl in Hsh.
  apply frames_statistics_total; [done|lia|].
  intros c_size Hc Hcounted.
  unfold Stats.cluster_sizes_sampled in Hc. apply (proj1 (elem_of_np_unique _ _)) in Hc.
  unfold Stats.values in Hc. apply list_elem_of_fmap in Hc as (idx & -> & Hidx).
  rewrite Hsh in Hidx. apply elem_of_indices in Hidx.
  inversion Hidx as [|f ? idx' ? Hf Hrest]; subst.
  inversion Hrest as [|p ? idx'' ? Hp Hnil]; subst. inversion Hnil; subst.
  destruct (Hin f p) as [[_ Hv]|[Hv Hdict]]; [lia|lia| |].
  - unfold counted in Hcounted. apply andb_true_iff in Hcounted as [H1 H2].
    apply negb_true_iff, Z.eqb_neq in H1. apply negb_true_iff, Z.eqb_neq in H2.
    by destruct Hv.
  - split; [lia|]. intros g' Hg'. destruct (Hdict g' Hg') as [gi Hgi].
    exists gi. split; [done|]. rewrite Hgroups in Hg'.
    destruct (Main.cluster_groups_file c) as [lines|]; [|congruence].
    destruct Hg as (g'' & Hinit & ->). injection Hg' as <-.
    pose proof (dict_bounded _ _ _ _ _ Hinit Hgi). lia.
Qed.

Lemma statistics_end_well_witness :
  ∃ cut e a0 a',
    Main.configure dec_int (λ _, Some 8%Q) Samples.one_species = Ok (cut, e, a0) ∧
    Main.frames_loop (λ _, []) Samples.one_species cut e
      (Main.frames Samples.one_species) 0 a0 = (1, Ok a') ∧
    is_Ok (frames_statistics e a').
Proof.
  assert ((x ← Main.configure dec_int (λ _, Some 8%Q) Samples.one_species;
           a' ← (Main.frames_loop (λ _, []) Samples.one_species x.1.1 x.1.2
                   (Main.frames Samples.one_species) 0 x.2).2;
           Ok tt) = Ok tt) as Hrun by (vm_compute; reflexivity).
  apply bind_Ok in Hrun as ([[cut e] a0] & Hcfg & Hrun).
  apply bind_Ok in Hrun as (a' & Ha' & _). simpl in Ha'.
  assert (Main.frames_loop (λ _, []) Samples.one_species cut e
            (Main.frames Samples.one_species) 0 a0 = (1, Ok a')) as Hloop.
  { simpl in *. destruct (Main.process_frame _ _ _ _ _ _ _); simpl in *; congruence. }
  exists cut, e, a0, a'. split; [exact Hcfg|]. split; [exact Hloop|].
  apply (statistics_end_well dec_int (λ _, Some 8%Q) (λ _, []) Samples.one_species
           cut e a0 1 a' Hcfg).
  - reflexivity.
  - intros fr [->|Hfr%elem_of_nil]%elem_of_cons; [reflexivity|done].
  - exact Hloop.
  - simpl. lia.
Defined.

End ReadyFacts.
